(** * safe-rm: protection classifier and trash lifecycle

    A shallow embedding of the Go sources
      - [internal/protect]  (Check, isWildcardRoot, isGitPath,
                             IsProtectedByDefault)
      - [internal/trash]    (Move, copyAndDelete, GetMetadata)
      - [internal/restore]  (List, Restore, Purge, Empty, cleanEmptyDirs,
                             findTrashItems)
      - [internal/cli]      (Parse, parseLongOption, parseShortOptions)
      - [internal/config]   (Default, Load, getConfigPath)
      - [cmd/rm]            (main, processPath)
    over an explicit model of the file system, together with the
    properties of the specification that were checked against it.

    Conventions.  Go strings are [string]; the platform is Unix, so the
    path separator is [/].  Bytes stand for runes (ASCII).  The file
    system is a tree of directories and regular files; every operation of
    package [os] used by the program is a function on that tree, and the
    stateful code threads a [World] through an error monad. *)

From Stdlib Require Import String Ascii List Bool ZArith Lia Arith.
Import ListNotations.
Open Scope string_scope.

Set Warnings "-register-all,-notation-for-abbreviation".

(* ===================================================================== *)
(** ** Package [strings] *)
(* ===================================================================== *)

Module Strings.

(** [strings.HasPrefix(s, prefix)] *)
Fixpoint HasPrefix (s prefix : string) : bool :=
  match prefix with
  | EmptyString => true
  | String c p' =>
      match s with
      | EmptyString => false
      | String d s' => Ascii.eqb c d && HasPrefix s' p'
      end
  end.

(** [s[n:]] (the empty string when [n] exceeds the length) *)
Fixpoint drop (n : nat) (s : string) : string :=
  match n with
  | O => s
  | S n' => match s with EmptyString => EmptyString | String _ s' => drop n' s' end
  end.

(** [s[:n]] *)
Fixpoint take (n : nat) (s : string) : string :=
  match n with
  | O => EmptyString
  | S n' => match s with EmptyString => EmptyString | String c s' => String c (take n' s') end
  end.

(** [strings.HasSuffix(s, suffix)] *)
Definition HasSuffix (s suffix : string) : bool :=
  Nat.leb (String.length suffix) (String.length s)
  && String.eqb (drop (String.length s - String.length suffix) s) suffix.

(** [strings.TrimSuffix(s, suffix)] *)
Definition TrimSuffix (s suffix : string) : string :=
  if HasSuffix s suffix then take (String.length s - String.length suffix) s else s.

(** [strings.Contains(s, string(c))] for a single byte *)
Fixpoint ContainsByte (s : string) (c : ascii) : bool :=
  match s with
  | EmptyString => false
  | String d s' => Ascii.eqb c d || ContainsByte s' c
  end.

(** [strings.Replace(s, old, new, 1)]: the first occurrence only.  An
    empty [old] matches at the start, as in Go. *)
Fixpoint ReplaceFirst (s old new : string) : string :=
  if HasPrefix s old then new ++ drop (String.length old) s
  else match s with
       | EmptyString => EmptyString
       | String c s' => String c (ReplaceFirst s' old new)
       end.

(** [strings.Split(s, string(sep))] *)
Fixpoint Split (sep : ascii) (s : string) : list string :=
  match s with
  | EmptyString => [EmptyString]
  | String c s' =>
      if Ascii.eqb c sep then EmptyString :: Split sep s'
      else match Split sep s' with
           | [] => [String c EmptyString]
           | h :: t => String c h :: t
           end
  end.

(** [strings.Join(elems, sep)] *)
Fixpoint Join (elems : list string) (sep : string) : string :=
  match elems with
  | [] => EmptyString
  | [e] => e
  | e :: rest => e ++ sep ++ Join rest sep
  end.

(** byte at index 0, if any *)
Definition head (s : string) : option ascii :=
  match s with EmptyString => None | String c _ => Some c end.

(** [strings.Repeat(s, count)] *)
Fixpoint Repeat (s : string) (count : nat) : string :=
  match count with
  | O => EmptyString
  | S k => s ++ Repeat s k
  end.

(** the line feed, [\n] in a Go string *)
Definition LF : string := String "010"%char EmptyString.

End Strings.

(* ===================================================================== *)
(** ** Package [path/filepath], lexical part (Unix) *)
(* ===================================================================== *)

Module Filepath.
Import Strings.

Definition Separator : ascii := "/"%char.

Definition IsAbs (p : string) : bool := HasPrefix p "/".

(** The component stack of [Clean]: [.] and empty components vanish,
    [..] removes the previous component; at the root it is dropped, in
    a relative path it is kept when nothing is left to remove. *)
Fixpoint cleanStack (rooted : bool) (out : list string) (comps : list string)
  : list string :=
  match comps with
  | [] => rev out
  | c :: rest =>
      if String.eqb c "" || String.eqb c "." then cleanStack rooted out rest
      else if String.eqb c ".." then
        match out with
        | top :: out' =>
            if String.eqb top ".." then cleanStack rooted (c :: out) rest
            else cleanStack rooted out' rest
        | [] =>
            if rooted then cleanStack rooted out rest
            else cleanStack rooted (c :: out) rest
        end
      else cleanStack rooted (c :: out) rest
  end.

(** [filepath.Clean] *)
Definition Clean (p : string) : string :=
  match p with
  | EmptyString => "."
  | _ =>
      let rooted := IsAbs p in
      let cs := cleanStack rooted [] (Split Separator p) in
      if rooted then "/" ++ Join cs "/"
      else match cs with [] => "." | _ => Join cs "/" end
  end.

(** [filepath.Join]: empty elements are ignored, the rest is joined
    with the separator and cleaned; all empty gives the empty string. *)
Definition JoinPath (elems : list string) : string :=
  match filter (fun e => negb (String.eqb e "")) elems with
  | [] => ""
  | es => Clean (Join es "/")
  end.

(** index one past the last separator *)
Fixpoint lastSepEnd (s : string) : nat :=
  match s with
  | EmptyString => 0
  | String c s' =>
      if ContainsByte s' Separator then S (lastSepEnd s')
      else if Ascii.eqb c Separator then 1 else 0
  end.

(** [filepath.Dir] *)
Definition Dir (p : string) : string := Clean (take (lastSepEnd p) p).

Fixpoint stripTrailingSep (fuel : nat) (s : string) : string :=
  match fuel with
  | O => s
  | S f =>
      if Nat.ltb 0 (String.length s) && HasSuffix s "/"
      then stripTrailingSep f (take (String.length s - 1) s)
      else s
  end.

(** [filepath.Base] *)
Definition Base (p : string) : string :=
  match p with
  | EmptyString => "."
  | _ =>
      let q := stripTrailingSep (String.length p) p in
      let r := drop (lastSepEnd q) q in
      match r with EmptyString => "/" | _ => r end
  end.

End Filepath.

(* ===================================================================== *)
(** ** [filepath.Match] *)
(* ===================================================================== *)

Module Glob.
Import Strings Filepath.

(** Outcome of matching one chunk: a syntax error in the pattern, no
    match, or a match leaving [rest] of the name. *)
Inductive chunkResult : Type :=
| BadPattern
| NoMatch
| Matched (rest : string).

(** The scan loop of [scanChunk]: the text up to the next [*] that is
    not inside brackets, and what follows. *)
Fixpoint scanText (inrange : bool) (p : string) : string * string :=
  match p with
  | EmptyString => (EmptyString, EmptyString)
  | String c p' =>
      if Ascii.eqb c "\"%char then
        match p' with
        | EmptyString => (String c EmptyString, EmptyString)
        | String d p'' =>
            let (ch, r) := scanText inrange p'' in (String c (String d ch), r)
        end
      else if Ascii.eqb c "["%char then
        let (ch, r) := scanText true p' in (String c ch, r)
      else if Ascii.eqb c "]"%char then
        let (ch, r) := scanText false p' in (String c ch, r)
      else if Ascii.eqb c "*"%char && negb inrange then (EmptyString, p)
      else let (ch, r) := scanText inrange p' in (String c ch, r)
  end.

Fixpoint skipStars (p : string) : bool * string :=
  match p with
  | String c p' =>
      if Ascii.eqb c "*"%char then (true, snd (skipStars p')) else (false, p)
  | EmptyString => (false, p)
  end.

(** [scanChunk]: (star, chunk, rest) *)
Definition scanChunk (pattern : string) : bool * string * string :=
  let (star, p) := skipStars pattern in
  let (chunk, rest) := scanText false p in
  (star, chunk, rest).

(** [getEsc]: one possibly escaped byte of a character class *)
Definition getEsc (chunk : string) : option (ascii * string) :=
  match chunk with
  | EmptyString => None
  | String c chunk1 =>
      if Ascii.eqb c "-"%char || Ascii.eqb c "]"%char then None
      else
        let body := if Ascii.eqb c "\"%char then chunk1 else chunk in
        match body with
        | EmptyString => None
        | String r nchunk =>
            match nchunk with
            | EmptyString => None
            | _ => Some (r, nchunk)
            end
        end
  end.

Definition byteLe (a b : ascii) : bool := Nat.leb (nat_of_ascii a) (nat_of_ascii b).

(** The range loop of a character class; [r] is the byte of the name
    under test.  Gives whether some range held it and the chunk after
    the closing bracket. *)
Fixpoint classRanges (fuel : nat) (r : ascii) (chunk : string)
         (hit : bool) (nrange : nat) : option (bool * string) :=
  match fuel with
  | O => None
  | S f =>
      match chunk, nrange with
      | String "]"%char chunk', S _ => Some (hit, chunk')
      | _, _ =>
          match getEsc chunk with
          | None => None
          | Some (lo, chunk1) =>
              match chunk1 with
              | String "-"%char chunk2 =>
                  match getEsc chunk2 with
                  | None => None
                  | Some (hi, chunk3) =>
                      classRanges f r chunk3
                        (hit || (byteLe lo r && byteLe r hi)) (S nrange)
                  end
              | _ =>
                  classRanges f r chunk1
                    (hit || (byteLe lo r && byteLe r lo)) (S nrange)
              end
          end
      end
  end.

(** [matchChunk]: after the match has failed the loop goes on over the
    chunk to check its syntax, no longer reading the name. *)
Fixpoint matchChunkLoop (fuel : nat) (chunk s : string) (failed : bool)
  : chunkResult :=
  match fuel with
  | O => BadPattern
  | S f =>
      match chunk with
      | EmptyString => if failed then NoMatch else Matched s
      | String c chunk' =>
          let failed := failed || String.eqb s "" in
          if Ascii.eqb c "["%char then
            let r := if failed then zero else
                       match s with String x _ => x | EmptyString => zero end in
            let s1 := if failed then s else drop 1 s in
            let (negated, body) :=
              match chunk' with
              | String "^"%char b => (true, b)
              | _ => (false, chunk')
              end in
            match classRanges (S (String.length body)) r body false 0 with
            | None => BadPattern
            | Some (hit, chunk2) =>
                matchChunkLoop f chunk2 s1 (failed || Bool.eqb hit negated)
            end
          else if Ascii.eqb c "?"%char then
            let isSep := match s with String x _ => Ascii.eqb x Separator | _ => false end in
            if failed then matchChunkLoop f chunk' s true
            else matchChunkLoop f chunk' (drop 1 s) isSep
          else
            let lit := if Ascii.eqb c "\"%char then chunk' else chunk in
            match lit with
            | EmptyString => BadPattern
            | String l chunk2 =>
                if failed then matchChunkLoop f chunk2 s true
                else
                  let differs := match s with
                                 | String x _ => negb (Ascii.eqb l x)
                                 | EmptyString => true
                                 end in
                  matchChunkLoop f chunk2 (drop 1 s) differs
            end
      end
  end.

Definition matchChunk (chunk s : string) : chunkResult :=
  matchChunkLoop (S (String.length chunk)) chunk s false.

(** The star loop of [Match]: try the chunk after skipping [i+1] bytes
    of the name, never skipping a separator. *)
Fixpoint starLoop (chunk : string) (lastChunk : bool) (name : string)
  : option chunkResult :=
  match name with
  | EmptyString => None
  | String c rest =>
      if Ascii.eqb c Separator then None
      else match matchChunk chunk rest with
           | Matched t =>
               if lastChunk && Nat.ltb 0 (String.length t)
               then starLoop chunk lastChunk rest
               else Some (Matched t)
           | BadPattern => Some BadPattern
           | NoMatch => starLoop chunk lastChunk rest
           end
  end.

(** Syntax check of what is left of the pattern before answering
    [false]. *)
Fixpoint restValid (fuel : nat) (pattern : string) : bool :=
  match fuel with
  | O => true
  | S f =>
      match pattern with
      | EmptyString => true
      | _ =>
          let '(_, chunk, rest) := scanChunk pattern in
          match matchChunk chunk "" with
          | BadPattern => false
          | _ => restValid f rest
          end
      end
  end.

(** [filepath.Match(pattern, name)]: [None] is [ErrBadPattern]. *)
Fixpoint MatchLoop (fuel : nat) (pattern name : string) : option bool :=
  match fuel with
  | O => None
  | S f =>
      match pattern with
      | EmptyString => Some (String.eqb name "")
      | _ =>
          let '(star, chunk, rest) := scanChunk pattern in
          if star && String.eqb chunk "" then
            Some (negb (ContainsByte name Separator))
          else
            let lastChunk := String.eqb rest "" in
            let fallback (r : chunkResult) :=
              match r with
              | BadPattern => None
              | _ =>
                  match (if star then starLoop chunk lastChunk name else None) with
                  | Some (Matched t) => MatchLoop f rest t
                  | Some BadPattern => None
                  | _ => if restValid (S (String.length rest)) rest
                         then Some false else None
                  end
              end in
            match matchChunk chunk name with
            | Matched t =>
                if String.eqb t "" || negb lastChunk then MatchLoop f rest t
                else fallback (Matched t)
            | r => fallback r
            end
      end
  end.

Definition Match (pattern name : string) : option bool :=
  MatchLoop (S (String.length pattern)) pattern name.

(** [hasMeta]: the pattern contains a byte that [Match] interprets *)
Fixpoint hasMeta (p : string) : bool :=
  match p with
  | EmptyString => false
  | String c p' =>
      Ascii.eqb c "*"%char || Ascii.eqb c "?"%char || Ascii.eqb c "["%char
      || Ascii.eqb c "\"%char || hasMeta p'
  end.

End Glob.

(* ===================================================================== *)
(** ** The file-system tree *)
(* ===================================================================== *)

Module FS.

(** A regular file carries its bytes; every node carries permission
    bits and a modification time (seconds).  Directory entries are
    kept in name order, the order in which [os.ReadDir] lists them. *)
Inductive node : Type :=
| File (data : string) (perm : Z) (mtime : Z)
| Dir (perm : Z) (mtime : Z) (entries : list (string * node)).

Definition entries_t := list (string * node).

Definition isDir (n : node) : bool :=
  match n with Dir _ _ _ => true | File _ _ _ => false end.

Definition mtimeOf (n : node) : Z :=
  match n with Dir _ m _ => m | File _ _ m => m end.

Definition permOf (n : node) : Z :=
  match n with Dir p _ _ => p | File _ p _ => p end.

Fixpoint assoc (k : string) (es : entries_t) : option node :=
  match es with
  | [] => None
  | (k', v) :: t => if String.eqb k' k then Some v else assoc k t
  end.

Definition mem (k : string) (es : entries_t) : bool :=
  match assoc k es with Some _ => true | None => false end.

Fixpoint replace (k : string) (v : node) (es : entries_t) : entries_t :=
  match es with
  | [] => []
  | (k', x) :: t =>
      if String.eqb k' k then (k, v) :: t else (k', x) :: replace k v t
  end.

Fixpoint insertSorted (k : string) (v : node) (es : entries_t) : entries_t :=
  match es with
  | [] => [(k, v)]
  | (k', x) :: t =>
      if String.ltb k k' then (k, v) :: (k', x) :: t
      else (k', x) :: insertSorted k v t
  end.

(** replace the entry named [k], or insert it at its place in name
    order *)
Definition put (k : string) (v : node) (es : entries_t) : entries_t :=
  if mem k es then replace k v es else insertSorted k v es.

Definition del (k : string) (es : entries_t) : entries_t :=
  filter (fun e => negb (String.eqb (fst e) k)) es.

(** the node at a path given by its components *)
Fixpoint lookup (n : node) (p : list string) : option node :=
  match p with
  | [] => Some n
  | c :: p' =>
      match n with
      | Dir _ _ es =>
          match assoc c es with
          | Some ch => lookup ch p'
          | None => None
          end
      | File _ _ _ => None
      end
  end.

(** Set or clear the entry at the non-empty path [p]: with [Some v] the
    entry becomes [v], with [None] it is removed.  The parent must be a
    directory; its modification time becomes [now]. *)
Fixpoint setAt (now : Z) (n : node) (p : list string) (v : option node)
  : option node :=
  match n, p with
  | Dir pm mt es, [c] =>
      Some (Dir pm now (match v with Some x => put c x es | None => del c es end))
  | Dir pm mt es, c :: p' =>
      match assoc c es with
      | Some ch =>
          match setAt now ch p' v with
          | Some ch' => Some (Dir pm mt (put c ch' es))
          | None => None
          end
      | None => None
      end
  | _, _ => None
  end.

Definition insertAt (now : Z) (n : node) (p : list string) (v : node)
  : option node := setAt now n p (Some v).

Definition removeAt (now : Z) (n : node) (p : list string) : option node :=
  setAt now n p None.

(** [mkdir -p]: create the missing directories along [p]; fails when
    a component exists and is not a directory. *)
Fixpoint mkdirAll (now perm : Z) (n : node) (p : list string) : option node :=
  match n with
  | File _ _ _ => None
  | Dir pm mt es =>
      match p with
      | [] => Some n
      | c :: p' =>
          match assoc c es with
          | Some ch =>
              match mkdirAll now perm ch p' with
              | Some ch' => Some (Dir pm mt (put c ch' es))
              | None => None
              end
          | None =>
              match mkdirAll now perm (Dir perm now []) p' with
              | Some ch' => Some (Dir pm now (put c ch' es))
              | None => None
              end
          end
      end
  end.

(** [q] is [p] or lies below it *)
Fixpoint isPrefix (p q : list string) : bool :=
  match p, q with
  | [], _ => true
  | c :: p', d :: q' => String.eqb c d && isPrefix p' q'
  | _ :: _, [] => false
  end.

Definition pathEqb (p q : list string) : bool :=
  isPrefix p q && isPrefix q p.

Definition isSome {A} (o : option A) : bool :=
  match o with Some _ => true | None => false end.

(** the longest chain of directories below a node, used to bound the
    recursive walks *)
Fixpoint height (n : node) : nat :=
  match n with
  | File _ _ _ => 0
  | Dir _ _ es =>
      S ((fix hs (l : entries_t) : nat :=
            match l with
            | [] => 0
            | (_, c) :: t => Nat.max (height c) (hs t)
            end) es)
  end.

(** names an entry may bear *)
Definition validName (s : string) : bool :=
  negb (String.eqb s "") && negb (String.eqb s ".") && negb (String.eqb s "..")
  && negb (Strings.ContainsByte s "/"%char).

(** the names of a directory are valid and distinct *)
Fixpoint namesOk (es : entries_t) : bool :=
  match es with
  | [] => true
  | (k, _) :: t => validName k && negb (mem k t) && namesOk t
  end.

(** a well-formed tree: in every directory the names are valid and
    distinct *)
Fixpoint wf (n : node) : bool :=
  match n with
  | File _ _ _ => true
  | Dir _ _ es =>
      namesOk es
      && (fix all (l : entries_t) : bool :=
            match l with
            | [] => true
            | (_, c) :: t => wf c && all t
            end) es
  end.

End FS.

(* ===================================================================== *)
(** ** The world the program runs in, and package [os] *)
(* ===================================================================== *)

Module OS.
Import Strings Filepath FS.

Inductive error : Type :=
| ENOENT | ENOTDIR | EEXIST | EISDIR | ENOTEMPTY | EXDEV | EINVAL | EBUSY
| ELOOP                 (* a recursive walk exceeded its depth bound *)
| Errorf (msg : string).

(** the text of the error itself; the operation and path that package
    [os] puts before it in a [PathError] are left out *)
Definition errText (e : error) : string :=
  match e with
  | ENOENT => "no such file or directory"
  | ENOTDIR => "not a directory"
  | EEXIST => "file exists"
  | EISDIR => "is a directory"
  | ENOTEMPTY => "directory not empty"
  | EXDEV => "invalid cross-device link"
  | EINVAL => "invalid argument"
  | EBUSY => "device or resource busy"
  | ELOOP => "too many levels"
  | Errorf m => m
  end.

(** [os.IsNotExist] *)
Definition IsNotExist (e : error) : bool :=
  match e with ENOENT => true | _ => false end.

(** Successful file-system calls, in the order they happened. *)
Inductive event : Type :=
| EvWriteFile (path data : string)
| EvMkdirAll (path : string)
| EvRename (src dst : string)
| EvRemove (path : string)
| EvRemoveAll (path : string).

(** What the program sees of the local time zone, [time.Local]: the
    offset from UTC in force at an instant, in seconds east, and the
    calendar step of [Time.AddDate(0, 0, d)], which moves the date by
    [d] days and keeps the wall clock. *)
Record Location : Type := mkLocation {
  offsetAt : Z -> Z;
  addDays : Z -> Z -> Z
}.

Definition UTC : Location :=
  mkLocation (fun _ => 0%Z) (fun t d => (t + 86400 * d)%Z).

Record World : Type := mkWorld {
  fs : node;                    (* the root directory *)
  cwd : string;                 (* working directory, absolute *)
  homeDir : string;             (* the caller's home directory *)
  hostname : option string;     (* [os.Hostname], when it succeeds *)
  now : Z;                      (* [time.Now], seconds since the epoch *)
  local : Location;             (* [time.Local] *)
  crossDevice : list string -> list string -> bool;
                                (* the two paths lie on different volumes *)
  stdin : string;
  stdout : list string;
  stderr : list string;
  trace : list event            (* most recent first *)
}.

Definition setFs (w : World) (n : node) (ev : event) : World :=
  mkWorld n (cwd w) (homeDir w) (hostname w) (now w) (local w) (crossDevice w)
          (stdin w) (stdout w) (stderr w) (ev :: trace w).

Definition note (w : World) (ev : event) : World := setFs w (fs w) ev.

Inductive res (A : Type) : Type :=
| Ok (a : A)
| Err (e : error).
Arguments Ok {A} a.
Arguments Err {A} e.

(** A Go function with side effects: a result or an error, and the
    world after the call. *)
Definition M (A : Type) : Type := World -> res A * World.

Definition ret {A} (a : A) : M A := fun w => (Ok a, w).
Definition fail {A} (e : error) : M A := fun w => (Err e, w).
Definition bind {A B} (m : M A) (k : A -> M B) : M B :=
  fun w => match m w with
           | (Ok a, w') => k a w'
           | (Err e, w') => (Err e, w')
           end.
(** [v, err := f()] with the error inspected by the caller *)
Definition attempt {A} (m : M A) : M (res A) :=
  fun w => let (r, w') := m w in (Ok r, w').

Definition isOk {A} (r : res A) : bool :=
  match r with Ok _ => true | Err _ => false end.

(** absolute components of a path string; the empty path names
    nothing *)
Definition resolve (w : World) (p : string) : option (list string) :=
  match p with
  | EmptyString => None
  | _ => Some (cleanStack true []
                 (Split Separator (if IsAbs p then p else cwd w ++ "/" ++ p)))
  end.

Definition nodeAt (w : World) (p : string) : option node :=
  match resolve w p with
  | Some cs => lookup (fs w) cs
  | None => None
  end.

Record FileInfo : Type := mkInfo {
  IsDir : bool;
  ModTime : Z;
  Mode : Z
}.

Record DirEntry : Type := mkEntry {
  Name : string;
  EntryIsDir : bool
}.

Definition infoOf (n : node) : FileInfo :=
  mkInfo (isDir n) (mtimeOf n) (permOf n).

(** The error for components that name nothing: [ENOTDIR] when a
    regular file stands where a directory is needed, [ENOENT] when an
    entry is missing. *)
Fixpoint missing (n : node) (cs : list string) : error :=
  match n, cs with
  | File _ _ _, _ => ENOTDIR
  | Dir _ _ es, c :: t =>
      match assoc c es with
      | Some ch => missing ch t
      | None => ENOENT
      end
  | Dir _ _ _, [] => ENOENT
  end.

(** the error for a path that names nothing; the empty path is
    [ENOENT] *)
Definition absent (w : World) (p : string) : error :=
  match resolve w p with
  | Some cs => missing (fs w) cs
  | None => ENOENT
  end.

(** What [os.Stat] answers in a given world.  There are no symbolic
    links, so [os.Lstat] is the same. *)
Definition statIn (w : World) (p : string) : res FileInfo :=
  match nodeAt w p with
  | Some n => Ok (infoOf n)
  | None => Err (absent w p)
  end.

(** What [os.ReadDir] answers in a given world. *)
Definition readDirIn (w : World) (p : string) : res (list DirEntry) :=
  match nodeAt w p with
  | Some (Dir _ _ es) => Ok (map (fun e => mkEntry (fst e) (isDir (snd e))) es)
  | Some (File _ _ _) => Err ENOTDIR
  | None => Err (absent w p)
  end.

(** a call that only reads the world *)
Definition query {A} (f : World -> res A) : M A := fun w => (f w, w).

Definition Stat (p : string) : M FileInfo := query (fun w => statIn w p).
Definition Lstat := Stat.
Definition ReadDir (p : string) : M (list DirEntry) :=
  query (fun w => readDirIn w p).

(** What [os.ReadFile] answers in a given world. *)
Definition readFileIn (w : World) (p : string) : res string :=
  match nodeAt w p with
  | Some (File d _ _) => Ok d
  | Some (Dir _ _ _) => Err EISDIR
  | None => Err (absent w p)
  end.

Definition ReadFile (p : string) : M string := query (fun w => readFileIn w p).

(** create or truncate; an existing file keeps its permission bits *)
Definition WriteFile (p data : string) (perm : Z) : M unit :=
  fun w =>
    match resolve w p with
    | None => (Err ENOENT, w)
    | Some cs =>
        match lookup (fs w) cs with
        | Some (Dir _ _ _) => (Err EISDIR, w)
        | old =>
            let pm := match old with Some n => permOf n | None => perm end in
            match insertAt (now w) (fs w) cs (File data pm (now w)) with
            | Some n' => (Ok tt, setFs w n' (EvWriteFile p data))
            | None => (Err (missing (fs w) cs), w)
            end
        end
    end.

Definition MkdirAll (p : string) (perm : Z) : M unit :=
  fun w =>
    match resolve w p with
    | None => (Err ENOENT, w)
    | Some cs =>
        match mkdirAll (now w) perm (fs w) cs with
        | Some n' => (Ok tt, setFs w n' (EvMkdirAll p))
        | None => (Err ENOTDIR, w)
        end
    end.

(** [os.Rename]: refuses an existing directory as target, replaces an
    existing file, fails across volumes and into the source's own
    subtree.  With a directory as target the error of a bad source
    comes first. *)
Definition Rename (src dst : string) : M unit :=
  fun w =>
    match resolve w src, resolve w dst with
    | Some s, Some d =>
        match lookup (fs w) s with
        | None => (Err (missing (fs w) s), w)
        | Some n =>
            match lookup (fs w) d with
            | Some (Dir _ _ _) => (Err EEXIST, w)
            | _ =>
                if crossDevice w s d then (Err EXDEV, w)
                else if pathEqb s d then (Ok tt, note w (EvRename src dst))
                else if isPrefix s d then (Err EINVAL, w)
                else if isDir n && isSome (lookup (fs w) d) then (Err ENOTDIR, w)
                else
                  match removeAt (now w) (fs w) s with
                  | None => (Err EBUSY, w)
                  | Some n1 =>
                      match insertAt (now w) n1 d n with
                      | Some n2 => (Ok tt, setFs w n2 (EvRename src dst))
                      | None => (Err (missing n1 d), w)
                      end
                  end
            end
        end
    | _, _ => (Err ENOENT, w)
    end.

(** [os.Remove]: a file or an empty directory *)
Definition Remove (p : string) : M unit :=
  fun w =>
    match resolve w p with
    | None => (Err ENOENT, w)
    | Some cs =>
        match lookup (fs w) cs with
        | None => (Err (missing (fs w) cs), w)
        | Some (Dir _ _ (_ :: _)) => (Err ENOTEMPTY, w)
        | Some _ =>
            match removeAt (now w) (fs w) cs with
            | Some n' => (Ok tt, setFs w n' (EvRemove p))
            | None => (Err EBUSY, w)
            end
        end
    end.

(** [os.RemoveAll]: the whole subtree; a missing path is no error, a
    regular file on the way to it is *)
Definition RemoveAll (p : string) : M unit :=
  fun w =>
    match resolve w p with
    | None => (Ok tt, w)
    | Some cs =>
        match lookup (fs w) cs with
        | None =>
            if IsNotExist (missing (fs w) cs) then (Ok tt, w)
            else (Err (missing (fs w) cs), w)
        | Some _ =>
            match removeAt (now w) (fs w) cs with
            | Some n' => (Ok tt, setFs w n' (EvRemoveAll p))
            | None => (Err EBUSY, w)
            end
        end
    end.

(** [os.Hostname] *)
Definition Hostname : M string :=
  fun w => match hostname w with
           | Some h => (Ok h, w)
           | None => (Err (Errorf "hostname"), w)
           end.

(** [time.Now] *)
Definition Now : M Z := fun w => (Ok (now w), w).

(** [filepath.Abs] *)
Definition absIn (w : World) (p : string) : string :=
  if IsAbs p then Clean p else JoinPath [cwd w; p].
Definition Abs (p : string) : M string := query (fun w => Ok (absIn w p)).

(** a write to standard output: the bytes of one call, the latest
    call first *)
Definition Print (s : string) : M unit :=
  fun w => (Ok tt, mkWorld (fs w) (cwd w) (homeDir w) (hostname w) (now w)
                     (local w) (crossDevice w) (stdin w) (s :: stdout w)
                     (stderr w) (trace w)).

(** a write to standard error *)
Definition Eprint (s : string) : M unit :=
  fun w => (Ok tt, mkWorld (fs w) (cwd w) (homeDir w) (hostname w) (now w)
                     (local w) (crossDevice w) (stdin w) (stdout w)
                     (s :: stderr w) (trace w)).

(** [fmt.Println(s)] and [fmt.Fprintln(os.Stderr, s)] with one string
    operand *)
Notation Println s := (Print (s ++ LF)) (only parsing).
Notation Eprintln s := (Eprint (s ++ LF)) (only parsing).

End OS.

Declare Scope go_scope.
Notation "x <- c1 ;; c2" := (OS.bind c1 (fun x => c2))
  (at level 61, c1 at next level, right associativity) : go_scope.
Notation "c1 ;;; c2" := (OS.bind c1 (fun _ => c2))
  (at level 61, right associativity) : go_scope.

(* ===================================================================== *)
(** ** [fmt.Scanln], [time], [filepath.Glob] *)
(* ===================================================================== *)

Module Fmt.
Import OS.

Definition isSpace (c : ascii) : bool :=
  let n := nat_of_ascii c in
  Nat.eqb n 32 || (Nat.leb 9 n && Nat.leb n 13).

Definition isNewline (c : ascii) : bool := Nat.eqb (nat_of_ascii c) 10.

(** blanks before the token; a newline met here ends the scan *)
Fixpoint skipBlanks (s : string) : string :=
  match s with
  | String c s' =>
      if isNewline c then s
      else if isSpace c then skipBlanks s' else s
  | EmptyString => s
  end.

(** the token: the bytes up to the next space *)
Fixpoint token (s : string) : string * string :=
  match s with
  | String c s' =>
      if isSpace c then (EmptyString, s)
      else let (t, r) := token s' in (String c t, r)
  | EmptyString => (EmptyString, EmptyString)
  end.

(** after the last operand: blanks up to the newline are consumed; a
    further word is an error, and its first byte is consumed *)
Fixpoint toLineEnd (s : string) : string :=
  match s with
  | String c s' =>
      if isNewline c then s'
      else if isSpace c then toLineEnd s' else s'
  | EmptyString => s
  end.

(** [fmt.Scanln(&response)] with one string operand, on an input
    stream: the value stored (empty when nothing was scanned) and the
    rest of the stream.  The operand receives one space-delimited
    word. *)
Definition scanWord (input : string) : string * string :=
  match skipBlanks input with
  | EmptyString => (EmptyString, EmptyString)
  | String c rest =>
      if isNewline c then (EmptyString, rest)
      else let (t, r) := token (String c rest) in (t, toLineEnd r)
  end.

Definition Scanln : M string :=
  fun w =>
    let (t, r) := scanWord (stdin w) in
    (Ok t, mkWorld (fs w) (cwd w) (homeDir w) (hostname w) (now w) (local w)
              (crossDevice w) r (stdout w) (stderr w) (trace w)).

End Fmt.

Module Time.
Import OS.
Open Scope Z_scope.

Definition digit (d : Z) : ascii := ascii_of_nat (48 + Z.to_nat d).

(** [n] as [k] decimal digits, zero padded (the low [k] digits) *)
Fixpoint pad (k : nat) (n : Z) : string :=
  match k with
  | O => EmptyString
  | S k' => (pad k' (n / 10) ++ String (digit (n mod 10)) EmptyString)%string
  end.

(** the decimal digits of [n >= 0], as many as it has *)
Fixpoint digits (fuel : nat) (n : Z) : string :=
  match fuel with
  | O => EmptyString
  | S f =>
      if n <? 10 then String (digit n) EmptyString
      else (digits f (n / 10) ++ String (digit (n mod 10)) EmptyString)%string
  end.

(** the year as [Format] writes it for the layout [2006]: a minus sign
    for a negative year, then at least four digits *)
Definition yearText (y : Z) : string :=
  let a := Z.abs y in
  ((if Z.ltb y 0 then "-" else "")
     ++ (if Z.ltb a 10000 then pad 4 a
         else digits (S (Z.to_nat (Z.log2 a))) a))%string.

(** year, month, day of a day count since 1970-01-01 (proleptic
    Gregorian calendar) *)
Definition civil (days : Z) : Z * Z * Z :=
  let z := days + 719468 in
  let era := z / 146097 in
  let doe := z - era * 146097 in
  let yoe := (doe - doe / 1460 + doe / 36524 - doe / 146096) / 365 in
  let doy := doe - (365 * yoe + yoe / 4 - yoe / 100) in
  let mp := (5 * doy + 2) / 153 in
  let d := doy - (153 * mp + 2) / 5 + 1 in
  let m := if mp <? 10 then mp + 3 else mp - 9 in
  let y := yoe + era * 400 + (if m <=? 2 then 1 else 0) in
  (y, m, d).

(** the wall clock of the zone at the instant [t]: seconds since the
    epoch as a clock set to the zone would count them *)
Definition wall (l : Location) (t : Z) : Z := t + offsetAt l t.

(** the time of day [15:04:05] with the given separator *)
Definition clockText (sep : string) (s : Z) : string :=
  (pad 2 (s / 3600) ++ sep ++ pad 2 (s mod 3600 / 60) ++ sep ++ pad 2 (s mod 60))%string.

(** [t.Format("20060102-150405")] for a time in the zone [l] *)
Definition FormatStamp (l : Location) (t : Z) : string :=
  let '(y, m, d) := civil (wall l t / 86400) in
  (yearText y ++ pad 2 m ++ pad 2 d ++ "-" ++ clockText "" (wall l t mod 86400))%string.

(** [t.Format("2006-01-02")] *)
Definition FormatDate (l : Location) (t : Z) : string :=
  let '(y, m, d) := civil (wall l t / 86400) in
  (yearText y ++ "-" ++ pad 2 m ++ "-" ++ pad 2 d)%string.

(** [t.Format("2006-01-02 15:04:05")] *)
Definition FormatDateTime (l : Location) (t : Z) : string :=
  (FormatDate l t ++ " " ++ clockText ":" (wall l t mod 86400))%string.

(** [t.AddDate(0, 0, days)] for a time in the zone [l] *)
Definition AddDays (l : Location) (t days : Z) : Z := addDays l t days.

(** [a.Before(b)], [a.After(b)] *)
Definition Before (a b : Z) : bool := a <? b.
Definition After (a b : Z) : bool := b <? a.

(** [time.Now().Format("20060102-150405")] *)
Definition NowStamp : M string :=
  query (fun w => Ok (FormatStamp (local w) (now w))).

(** [time.Now().AddDate(0, 0, days)] *)
Definition NowAddDays (days : Z) : M Z :=
  query (fun w => Ok (AddDays (local w) (now w) days)).

(** a time read from a sidecar, or the modification time of a file,
    printed in a layout: the zone is the local one, in which the
    program wrote it *)
Definition Formatted (layout : Location -> Z -> string) (t : Z) : M string :=
  query (fun w => Ok (layout (local w) t)).

End Time.

Module FilepathOS.
Import Strings Filepath Glob FS OS.
Open Scope go_scope.

(** [filepath.Split]: directory part with its separator, file part *)
Definition SplitPath (p : string) : string * string :=
  (take (lastSepEnd p) p, drop (lastSepEnd p) p).

Definition cleanGlobPath (dir : string) : string :=
  if String.eqb dir "" then "."
  else if String.eqb dir "/" then "/"
  else take (String.length dir - 1) dir.

(** the helper [glob]: the entries of [dir] whose name matches;
    [None] is a malformed pattern *)
Definition globDir (w : World) (dir pattern : string) (matches : list string)
  : option (list string) :=
  match statIn w dir with
  | Err _ => Some matches
  | Ok i =>
      if negb (IsDir i) then Some matches
      else
        match readDirIn w dir with
        | Err _ => Some matches
        | Ok entries =>
            fold_left
              (fun (acc : option (list string)) (e : DirEntry) =>
                 match acc with
                 | None => None
                 | Some m =>
                     match Match pattern (Name e) with
                     | None => None
                     | Some true => Some (m ++ [JoinPath [dir; Name e]])%list
                     | Some false => Some m
                     end
                 end)
              entries (Some matches)
        end
  end.

(** [filepath.Glob]; it only reads the file system *)
Fixpoint GlobLoop (fuel : nat) (w : World) (pattern : string)
  : option (list string) :=
  match fuel with
  | O => None
  | S f =>
      match Match pattern "" with
      | None => None
      | Some _ =>
          if negb (hasMeta pattern) then
            Some (if isOk (statIn w pattern) then [pattern] else [])
          else
            let (dir0, file) := SplitPath pattern in
            let dir := cleanGlobPath dir0 in
            if negb (hasMeta dir) then globDir w dir file []
            else if String.eqb dir pattern then None
            else
              match GlobLoop f w dir with
              | None => None
              | Some m =>
                  fold_left
                    (fun (acc : option (list string)) (d : string) =>
                       match acc with
                       | None => None
                       | Some ms => globDir w d file ms
                       end)
                    m (Some [])
              end
      end
  end.

Definition Glob (w : World) (pattern : string) : option (list string) :=
  GlobLoop (S (String.length pattern)) w pattern.

(** [filepath.Walk]'s callback: path, file info when there is one, the
    error met on the way, and the variables the closure updates. *)
Definition WalkFunc (A : Type) : Type :=
  string -> option FileInfo -> option error -> A -> M A.

(** a [for ... range] loop whose body updates [a] and may return an
    error, which ends the loop *)
Fixpoint forEach {A B} (l : list B) (step : B -> A -> M A) (a : A) : M A :=
  match l with
  | [] => ret a
  | b :: rest => x <- step b a ;; forEach rest step x
  end.

(** [walk]: the directory's names are read, the callback runs on the
    directory, then every name is visited in order.  An error from the
    callback ends the walk. *)
Fixpoint walk {A} (fuel : nat) (path : string) (info : FileInfo)
         (fn : WalkFunc A) (a : A) : M A :=
  match fuel with
  | O => fail ELOOP
  | S f =>
      if negb (IsDir info) then fn path (Some info) None a
      else
        names <- attempt (ReadDir path) ;;
        a1 <- fn path (Some info)
                (match names with Err e => Some e | Ok _ => None end) a ;;
        match names with
        | Err _ => ret a1
        | Ok entries =>
            forEach entries
              (fun e acc =>
                 let filename := JoinPath [path; Name e] in
                 fi <- attempt (Lstat filename) ;;
                 match fi with
                 | Err err => fn filename None (Some err) acc
                 | Ok i => walk f filename i fn acc
                 end)
              a1
        end
  end.

(** [filepath.Walk]; the depth bound is the height of the tree *)
Definition Walk {A} (root : string) (fn : WalkFunc A) (a : A) : M A :=
  fun w =>
    (info <- attempt (Lstat root) ;;
     match info with
     | Err err => fn root None (Some err) a
     | Ok i => walk (S (height (fs w))) root i fn a
     end) w.

End FilepathOS.

(* ===================================================================== *)
(** ** Package [config] *)
(* ===================================================================== *)

Module Config.

Record Config : Type := mkConfig {
  TrashDir : string;
  RetentionDays : Z;
  ProtectedPaths : list string;
  ProtectedBehavior : string;     (* "block" or "confirm" *)
  VerboseWarnings : bool
}.

(** method [GetTrashDir] of [Config] *)
Definition GetTrashDir (c : Config) : string := TrashDir c.

End Config.

(* ===================================================================== *)
(** ** Package [protect] *)
(* ===================================================================== *)

Module Protect.
Import Strings Filepath Glob OS FilepathOS Config.

Record Status : Type := mkStatus {
  Protected : bool;
  Reason : string
}.

Definition builtinProtectedPaths : list string :=
  ["/"; "/bin"; "/boot"; "/dev"; "/etc"; "/home"; "/lib"; "/lib64"; "/opt";
   "/proc"; "/root"; "/run"; "/sbin"; "/srv"; "/sys"; "/tmp"; "/usr"; "/var"].

Definition isWildcardRoot (path : string) : bool :=
  String.eqb path "/*" || String.eqb path "\*".

(** the path is named [.git], or an entry [.git] exists in it *)
Definition isGitPath (w : World) (absPath : string) : bool :=
  if String.eqb (Base absPath) ".git" then true
  else
    let gitPath := JoinPath [absPath; ".git"] in
    match Glob w gitPath with
    | Some (_ :: _) => true
    | _ => false
    end.

(** the loop over the built-in paths; [Some] is an early return *)
Fixpoint checkBuiltin (absPath : string) (recursive : bool)
         (l : list string) : option Status :=
  match l with
  | [] => None
  | protected :: rest =>
      if String.eqb absPath protected || String.eqb absPath (protected ++ "/")
      then Some (mkStatus true ("System directory is protected: " ++ protected))
      else if recursive && HasPrefix protected (absPath ++ "/")
      then Some (mkStatus true
                   ("Path contains protected system directory: " ++ protected))
      else checkBuiltin absPath recursive rest
  end.

(** the pattern as it is matched: a leading [~] is replaced by
    [filepath.Abs(filepath.Join("~"))] *)
Definition expandPattern (w : World) (pattern : string) : string :=
  if HasPrefix pattern "~" then
    let homeDir := absIn w (JoinPath ["~"]) in
    ReplaceFirst pattern "~" homeDir
  else pattern.

(** the loop over the user-defined patterns *)
Fixpoint checkUser (w : World) (absPath : string) (l : list string)
  : option Status :=
  match l with
  | [] => None
  | pattern0 :: rest =>
      let pattern := expandPattern w pattern0 in
      match Match pattern absPath with
      | Some true =>
          Some (mkStatus true ("Path matches protected pattern: " ++ pattern))
      | _ =>
          if HasSuffix pattern "/**"
             && HasPrefix absPath (TrimSuffix pattern "/**")
          then Some (mkStatus true
                       ("Path is under protected directory: "
                          ++ TrimSuffix pattern "/**"))
          else checkUser w absPath rest
      end
  end.

(** [protect.Check] *)
Definition Check (w : World) (cfg : Config) (absPath0 : string)
           (recursive : bool) : Status :=
  let absPath := Clean absPath0 in
  if String.eqb absPath "/" || String.eqb absPath "\" then
    mkStatus true "Root directory is always protected"
  else if isWildcardRoot absPath then
    mkStatus true "Wildcard patterns targeting root level are blocked"
  else
    match checkBuiltin absPath recursive builtinProtectedPaths with
    | Some st => st
    | None =>
        if isGitPath w absPath then
          mkStatus true ".git directory or repository root is protected"
        else
          match checkUser w absPath (ProtectedPaths cfg) with
          | Some st => st
          | None => mkStatus false ""
          end
    end.

(** [protect.IsProtectedByDefault] *)
Definition IsProtectedByDefault (absPath : string) : bool :=
  existsb (String.eqb (Clean absPath)) builtinProtectedPaths.

End Protect.

(* ===================================================================== *)
(** ** Package [trash] *)
(* ===================================================================== *)

Module Trash.
Import Strings Filepath FS OS FilepathOS Config.
Open Scope go_scope.

(** information stored about a trashed item *)
Record Metadata : Type := mkMetadata {
  OriginalPath : string;
  DeletedAt : Z;
  MetaHostname : string;
  IsDirectory : bool
}.

(** [encoding/json] on [Metadata]: [json.MarshalIndent] and
    [json.Unmarshal] (which fails on text it cannot parse). *)
Class JsonCodec : Type := {
  marshal : Metadata -> string;
  unmarshal : string -> option Metadata
}.

Definition metadataSuffix : string := ".saferm-meta".

Section WithCodec.
Context {codec : JsonCodec}.

Definition writeMetadata (path : string) (meta : Metadata) : M unit :=
  WriteFile path (marshal meta) 420.

Definition copyFileAndDelete (src dst : string) : M unit :=
  data <- ReadFile src ;;
  info <- Stat src ;;
  WriteFile dst data (Mode info) ;;;
  Remove src.

(** [copyDirAndDelete]; the recursion depth is bounded by [fuel] *)
Fixpoint copyDirLoop (fuel : nat) (src dst : string) : M unit :=
  match fuel with
  | O => fail ELOOP
  | S f =>
      srcInfo <- Stat src ;;
      MkdirAll dst (Mode srcInfo) ;;;
      entries <- ReadDir src ;;
      forEach entries
        (fun entry (_ : unit) =>
           let srcPath := JoinPath [src; Name entry] in
           let dstPath := JoinPath [dst; Name entry] in
           if EntryIsDir entry then copyDirLoop f srcPath dstPath
           else copyFileAndDelete srcPath dstPath)
        tt ;;;
      RemoveAll src
  end.

Definition copyDirAndDelete (src dst : string) : M unit :=
  fun w => copyDirLoop (S (height (fs w))) src dst w.

Definition copyAndDelete (src dst : string) (isDir : bool) : M unit :=
  if isDir then copyDirAndDelete src dst else copyFileAndDelete src dst.

(** the original path made relative: the leading separator goes, a
    drive letter loses its colon *)
Definition relativePath (absPath : string) : string :=
  if IsAbs absPath then
    match absPath with
    | String "/"%char rest => rest
    | String c (String ":"%char rest) =>
        if Nat.ltb 2 (String.length absPath) then String c rest else absPath
    | _ => absPath
    end
  else absPath.

(** where [Move] first looks: trash root, host, original path *)
Definition trashTarget (cfg : Config) (host absPath : string) : string :=
  JoinPath [GetTrashDir cfg; host; relativePath absPath].

(** [trash.Move] *)
Definition Move (cfg : Config) (absPath : string) : M string :=
  info <- Lstat absPath ;;
  h <- attempt Hostname ;;
  let host := match h with Ok x => x | Err _ => "unknown" end in
  let trashPath0 := trashTarget cfg host absPath in
  st <- attempt (Stat trashPath0) ;;
  timestamp <- Time.NowStamp ;;
  let trashPath :=
    if isOk st then trashPath0 ++ "." ++ timestamp else trashPath0 in
  let trashDir := Filepath.Dir trashPath in
  mk <- attempt (MkdirAll trashDir 493) ;;
  match mk with
  | Err e => fail (Errorf ("failed to create trash directory: " ++ errText e))
  | Ok _ =>
      rn <- attempt (Rename absPath trashPath) ;;
      (match rn with
       | Err _ => copyAndDelete absPath trashPath (IsDir info)
       | Ok _ => ret tt
       end) ;;;
      t' <- Now ;;
      let metadata := mkMetadata absPath t' host (IsDir info) in
      let metadataPath := trashPath ++ metadataSuffix in
      wr <- attempt (writeMetadata metadataPath metadata) ;;
      (match wr with
       | Err e => Eprintln ("warning: failed to write metadata: " ++ errText e)
       | Ok _ => ret tt
       end) ;;;
      ret trashPath
  end.

(** [trash.GetMetadata] *)
Definition GetMetadata (trashPath : string) : M Metadata :=
  data <- ReadFile (trashPath ++ metadataSuffix) ;;
  match unmarshal data with
  | Some m => ret m
  | None => fail (Errorf "invalid character")
  end.

End WithCodec.

End Trash.

(* ===================================================================== *)
(** ** Package [restore] *)
(* ===================================================================== *)

Module Strconv.
Open Scope Z_scope.

Fixpoint digits (fuel : nat) (n : Z) (acc : string) : string :=
  match fuel with
  | O => acc
  | S f =>
      let acc' := String (Time.digit (n mod 10)) acc in
      if n <? 10 then acc' else digits f (n / 10) acc'
  end.

(** [strconv.Itoa], the [%d] verb *)
Definition Itoa (n : Z) : string :=
  if n <? 0 then String "-"%char (digits (S (Z.to_nat (Z.log2 (- n)))) (- n) "")
  else digits (S (Z.to_nat (Z.log2 n))) n "".

End Strconv.

Module Restore.
Import Strings Filepath FS OS FilepathOS Config Trash.
Open Scope go_scope.

Section WithCodec.
Context {codec : JsonCodec}.

(** the callback of [findTrashItems]; [items] is the slice it
    appends to *)
Definition findTrashItemsFn (trashDir : string) : WalkFunc (list string) :=
  fun path info err items =>
    match err, info with
    | Some _, _ => ret items
    | None, None => ret items
    | None, Some info =>
        if HasSuffix path metadataSuffix then ret items
        else if String.eqb path trashDir then ret items
        else
          skip <-
            (if IsDir info then
               entries <- attempt (ReadDir path) ;;
               match entries with
               | Err _ => ret true
               | Ok es =>
                   ret (existsb
                          (fun e => negb (HasSuffix (Name e) metadataSuffix)) es)
               end
             else ret false) ;;
          if (skip : bool) then ret items
          else
            st <- attempt (Stat (path ++ metadataSuffix)) ;;
            if isOk st then ret (items ++ [path])%list else ret items
    end.

(** [findTrashItems] *)
Definition findTrashItems (trashDir : string) : M (list string) :=
  Walk trashDir (findTrashItemsFn trashDir) [].

(** [%-Ns]: the text, then blanks up to the width *)
Definition padRight (width : nat) (s : string) : string :=
  s ++ Repeat " " (width - String.length s).

(** a row of the table of [List]: [Printf("%-30s %-50s %s\n", a, b, c)] *)
Definition listRow (a b c : string) : M unit :=
  Print (padRight 30 a ++ " " ++ padRight 50 b ++ " " ++ c ++ LF).

(** the part of [List] after the trash directory was found *)
Definition listItems (trashDir : string) : M unit :=
  items <- findTrashItems trashDir ;;
  match items with
  | [] => Println "Trash is empty."
  | _ =>
      Print ("Items in trash (" ++ trashDir ++ "):" ++ LF ++ LF) ;;;
      listRow "DELETED AT" "ORIGINAL PATH" "TRASH PATH" ;;;
      Println (Repeat "-" 120) ;;;
      forEach items
        (fun item (_ : unit) =>
           meta <- attempt (GetMetadata item) ;;
           match meta with
           | Err _ => listRow "unknown" "unknown" item
           | Ok m =>
               deletedAt <- Time.Formatted Time.FormatDateTime (DeletedAt m) ;;
               listRow deletedAt (OriginalPath m) item
           end)
        tt
  end.

(** [restore.List] *)
Definition List (cfg : Config) : M unit :=
  let trashDir := GetTrashDir cfg in
  st <- attempt (Stat trashDir) ;;
  match st with
  | Err e =>
      if IsNotExist e then Println "Trash is empty." else listItems trashDir
  | Ok _ => listItems trashDir
  end.

(** one round of the selection loop of [Restore]: the pair is
    [matchedItem], [matchedMeta] *)
Definition restoreStep (originalPath : string) (item : string)
           (acc : string * option Metadata) : M (string * option Metadata) :=
  meta <- attempt (GetMetadata item) ;;
  match meta with
  | Err _ => ret acc
  | Ok m =>
      if String.eqb (OriginalPath m) originalPath then
        match snd acc with
        | None => ret (item, Some m)
        | Some old =>
            if Time.After (DeletedAt m) (DeletedAt old)
            then ret (item, Some m) else ret acc
        end
      else ret acc
  end.

(** [restore.Restore] *)
Definition Restore (cfg : Config) (originalPath : string) : M unit :=
  let trashDir := GetTrashDir cfg in
  items <- findTrashItems trashDir ;;
  sel <- forEach items (restoreStep originalPath) ("", None) ;;
  let matchedItem := fst sel in
  if String.eqb matchedItem "" then
    fail (Errorf ("no item found in trash with original path: " ++ originalPath))
  else
    st <- attempt (Stat originalPath) ;;
    if isOk st then
      fail (Errorf ("destination already exists: " ++ originalPath))
    else
      let parentDir := Filepath.Dir originalPath in
      mk <- attempt (MkdirAll parentDir 493) ;;
      match mk with
      | Err e =>
          fail (Errorf ("failed to create parent directory: " ++ errText e))
      | Ok _ =>
          rn <- attempt (Rename matchedItem originalPath) ;;
          match rn with
          | Err e => fail (Errorf ("failed to restore: " ++ errText e))
          | Ok _ =>
              let metadataPath := matchedItem ++ metadataSuffix in
              attempt (Remove metadataPath) ;;;
              Println ("Restored: " ++ matchedItem ++ " -> " ++ originalPath)
          end
      end.

(** one round of the loop of [Purge]; the accumulator is [purged] *)
Definition purgeStep (cutoff : Z) (item : string) (purged : Z) : M Z :=
  meta <- attempt (GetMetadata item) ;;
  match meta with
  | Err _ =>
      info <- attempt (Stat item) ;;
      match info with
      | Err _ => ret purged
      | Ok i =>
          if Time.Before (ModTime i) cutoff then
            rm <- attempt (RemoveAll item) ;;
            if isOk rm then
              Println ("Purged: " ++ item) ;;; ret (purged + 1)%Z
            else ret purged
          else ret purged
      end
  | Ok m =>
      if Time.Before (DeletedAt m) cutoff then
        rm <- attempt (RemoveAll item) ;;
        if isOk rm then
          attempt (Remove (item ++ metadataSuffix)) ;;;
          deletedAt <- Time.Formatted Time.FormatDate (DeletedAt m) ;;
          Println ("Purged: " ++ OriginalPath m ++ " (deleted at "
                     ++ deletedAt ++ ")") ;;;
          ret (purged + 1)%Z
        else ret purged
      else ret purged
  end.

(** the part of [Purge] after the trash directory was found *)
Definition purgeItems (cfg : Config) (days : Z) : M unit :=
  items <- findTrashItems (GetTrashDir cfg) ;;
  cutoff <- Time.NowAddDays (- days) ;;
  purged <- forEach items (purgeStep cutoff) 0%Z ;;
  if Z.eqb purged 0 then
    Println ("No items older than " ++ Strconv.Itoa days ++ " days found.")
  else Println (LF ++ "Purged " ++ Strconv.Itoa purged ++ " item(s).").

(** [restore.Purge] *)
Definition Purge (cfg : Config) (days : Z) : M unit :=
  st <- attempt (Stat (GetTrashDir cfg)) ;;
  match st with
  | Err e =>
      if IsNotExist e then Println "Trash is empty, nothing to purge."
      else purgeItems cfg days
  | Ok _ => purgeItems cfg days
  end.

(** the callback of [cleanEmptyDirs] *)
Definition cleanEmptyDirsFn (dir : string) : WalkFunc unit :=
  fun path info err _ =>
    match err, info with
    | Some _, _ => ret tt
    | None, None => ret tt
    | None, Some info =>
        if negb (IsDir info) || String.eqb path dir then ret tt
        else
          entries <- attempt (ReadDir path) ;;
          match entries with
          | Ok [] => attempt (Remove path) ;;; ret tt
          | _ => ret tt
          end
    end.

(** [cleanEmptyDirs]; the result of [filepath.Walk] is dropped *)
Definition cleanEmptyDirs (dir : string) : M unit :=
  attempt (Walk dir (cleanEmptyDirsFn dir) tt) ;;; ret tt.

(** the part of [Empty] after the confirmation: delete the items,
    then clean up *)
Definition emptyItems (cfg : Config) (items : list string) : M unit :=
  deleted <-
    forEach items
      (fun item (deleted : Z) =>
         rm <- attempt (RemoveAll item) ;;
         match rm with
         | Err e =>
             Eprintln ("Failed to delete " ++ item ++ ": " ++ errText e) ;;;
             ret deleted
         | Ok _ =>
             attempt (Remove (item ++ metadataSuffix)) ;;;
             ret (deleted + 1)%Z
         end)
      0%Z ;;
  cleanEmptyDirs (GetTrashDir cfg) ;;;
  Println (LF ++ "Permanently deleted " ++ Strconv.Itoa deleted ++ " item(s).").

Definition confirmPhrase : string := "yes I am sure".

(** the part of [Empty] after the trash directory was found *)
Definition emptyFound (cfg : Config) : M unit :=
  items <- findTrashItems (GetTrashDir cfg) ;;
  match items with
  | [] => Println "Trash is already empty."
  | _ =>
      Println ("WARNING: This will PERMANENTLY DELETE "
                 ++ Strconv.Itoa (Z.of_nat (List.length items))
                 ++ " item(s) from trash!") ;;;
      Println "This action cannot be undone." ;;;
      Print "Type 'yes I am sure' to confirm: " ;;;
      response <- Fmt.Scanln ;;
      if negb (String.eqb response confirmPhrase) then Println "Aborted."
      else emptyItems cfg items
  end.

(** [restore.Empty] *)
Definition Empty (cfg : Config) : M unit :=
  st <- attempt (Stat (GetTrashDir cfg)) ;;
  match st with
  | Err e =>
      if IsNotExist e then Println "Trash is already empty."
      else emptyFound cfg
  | Ok _ => emptyFound cfg
  end.

End WithCodec.

End Restore.

(* ===================================================================== *)
(** ** Package [cli] (the options) and command [rm] *)
(* ===================================================================== *)

Module Cli.

Record Options : Type := mkOptions {
  Force : bool;
  Interactive : bool;
  InteractiveOnce : bool;
  Recursive : bool;
  RemoveEmptyDirs : bool;
  Verbose : bool;
  PreserveRoot : bool;
  NoPreserveRoot : bool;
  Files : list string
}.

End Cli.

Module Main.
Import Strings Filepath FS OS FilepathOS Config Trash Protect Cli.
Open Scope go_scope.

Section WithCodec.
Context {codec : JsonCodec}.

(** the protection gate of [processPath]: [Ok] lets the removal go
    on *)
Definition protectionGate (cfg : Config) (opts : Options)
           (absPath : string) (status : Status) : M unit :=
  if Protected status then
    if String.eqb (ProtectedBehavior cfg) "block" then
      fail (Errorf ("BLOCKED: " ++ absPath ++ LF
                      ++ "  Reason: " ++ Reason status ++ LF
                      ++ "  This path is protected and cannot be removed."))
    else if negb (Force opts) then
      Eprintln "WARNING: You are about to remove a protected path!" ;;;
      Eprintln ("  Path: " ++ absPath) ;;;
      Eprintln ("  Reason: " ++ Reason status) ;;;
      Eprint "Type 'yes I am sure' to confirm: " ;;;
      response <- Fmt.Scanln ;;
      if negb (String.eqb response "yes I am sure")
      then fail (Errorf "aborted by user")
      else ret tt
    else
      fail (Errorf ("BLOCKED: " ++ absPath ++ " is protected ("
                      ++ Reason status
                      ++ "). Use interactive mode to confirm."))
  else ret tt.

(** [processPath], from the protection check on *)
Definition processChecked (cfg : Config) (opts : Options)
           (path absPath : string) : M unit :=
  status <- query (fun w => Ok (Check w cfg absPath (Recursive opts))) ;;
  protectionGate cfg opts absPath status ;;;
  go <-
    (if Interactive opts && negb (Force opts) then
       Eprint ("remove '" ++ path ++ "'? ") ;;;
       response <- Fmt.Scanln ;;
       ret (String.eqb response "y" || String.eqb response "yes")
     else ret true) ;;
  if (go : bool) then
    r <- attempt (Move cfg absPath) ;;
    match r with
    | Err e => fail (Errorf ("failed to move to trash: " ++ errText e))
    | Ok trashPath =>
        if Verbose opts then
          Println ("removed '" ++ path ++ "' (moved to trash: " ++ trashPath ++ ")")
        else ret tt
    end
  else ret tt.

(** [processPath] *)
Definition processPath (cfg : Config) (opts : Options) (path : string)
  : M unit :=
  absPath <- Abs path ;;
  info <- attempt (Lstat absPath) ;;
  match info with
  | Err e =>
      if IsNotExist e then
        if Force opts then ret tt
        else fail (Errorf "No such file or directory")
      else fail e
  | Ok i =>
      (if IsDir i && negb (Recursive opts) then
         if RemoveEmptyDirs opts then
           entries <- ReadDir absPath ;;
           match entries with
           | _ :: _ => fail (Errorf "Directory not empty")
           | [] => ret tt
           end
         else fail (Errorf "Is a directory")
       else ret tt) ;;;
      processChecked cfg opts path absPath
  end.

End WithCodec.

End Main.

(* ===================================================================== *)
(** ** Concrete scenarios *)
(* ===================================================================== *)

Module Scenario.
Import Strings FS OS Config Trash Cli.

(** decimal digits to a number *)
Fixpoint atoiLoop (s : string) (acc : Z) : option Z :=
  match s with
  | EmptyString => Some acc
  | String c r =>
      let n := nat_of_ascii c in
      if Nat.leb 48 n && Nat.leb n 57
      then atoiLoop r (acc * 10 + Z.of_nat (n - 48))%Z
      else None
  end.

(** A stand-in for [encoding/json] used to run the scenarios: the four
    fields separated by bars, the time in seconds.  Text of any other
    shape does not parse, like a corrupt sidecar. *)
#[export] Instance lineCodec : JsonCodec := {
  marshal m :=
    OriginalPath m ++ "|" ++ Strconv.Itoa (DeletedAt m) ++ "|"
      ++ MetaHostname m ++ "|" ++ (if IsDirectory m then "d" else "f");
  unmarshal s :=
    match Split "|"%char s with
    | [p; t; h; k] =>
        match atoiLoop t 0%Z with
        | Some z =>
            if String.eqb k "d" then Some (mkMetadata p z h true)
            else if String.eqb k "f" then Some (mkMetadata p z h false)
            else None
        | None => None
        end
    | _ => None
    end
}.

(** a world around a given tree: host [H], user [u] working in
    [/work], one volume *)
Definition worldOf (root : node) (clock : Z) (input : string) : World :=
  mkWorld root "/work" "/home/u" (Some "H") clock UTC (fun _ _ => false)
          input [] [] [].

Definition d (es : list (string * node)) : node := Dir 493 0 es.
Definition f (data : string) (mtime : Z) : node := File data 420 mtime.

Definition cfgWith (pats : list string) : Config :=
  mkConfig "/t" 30 pats "confirm" true.

Definition emptyWorld : World := worldOf (d []) 0 "".

Definition optsRecursive : Options :=
  mkOptions false false false true false false true false [].

Definition optsForce : Options :=
  mkOptions true false false true false false true false [].

(** 2023-11-14 22:13:20 UTC *)
Definition t0 : Z := 1700000000.

(** a home directory with one file and one directory of two files *)
Definition homeTree : node :=
  d [("home",
      d [("u", d [("docs", d [("a.txt", f "A" 5);
                              ("sub", d [("b.txt", f "B" 5)])]);
                  ("f.txt", f "hello" 7)])])].

(** the trash holding one file trashed forty days before [t0] whose
    sidecar is not valid metadata *)
Definition corruptTrash : node :=
  d [("t", d [("H", d [("x", f "old" 100);
                       ("x.saferm-meta", f "not json" 100)])])].

(** the trash holding one file with its sidecar, below scaffolding *)
Definition oneItemTrash : node :=
  d [("t", d [("H", d [("home",
        d [("u", d [("f.txt", f "hello" 7);
                    ("f.txt.saferm-meta",
                     f "/home/u/f.txt|1700000000|H|f" t0)])])])])].

(** the home directory with [f.txt] written anew, the earlier [f.txt]
    being in the trash with its sidecar *)
Definition retrashTree : node :=
  d [("home", d [("u", d [("f.txt", f "new" 9)])]);
     ("t", d [("H", d [("home",
       d [("u", d [("f.txt", f "hello" 7);
                   ("f.txt.saferm-meta",
                    f "/home/u/f.txt|1700000000|H|f" t0)])])])])].

(** a trash holding two generations of [/home/u/f.txt], the stamped one
    deleted a minute after the other *)
Definition twoItemTrash : node :=
  d [("t", d [("H", d [("home",
        d [("u", d [("f.txt", f "old" 7);
                    ("f.txt.20231114-221420", f "newer" 8);
                    ("f.txt.20231114-221420.saferm-meta",
                     f "/home/u/f.txt|1700000060|H|f" (t0 + 60));
                    ("f.txt.saferm-meta",
                     f "/home/u/f.txt|1700000000|H|f" t0)])])])])].

End Scenario.

(* ===================================================================== *)
(** ** Numbers in text: [strconv.Atoi] and the verb [%d] of [fmt.Sscanf] *)
(* ===================================================================== *)

Module Numeric.
Open Scope Z_scope.

Definition isDigit (c : ascii) : bool :=
  Nat.leb 48 (nat_of_ascii c) && Nat.leb (nat_of_ascii c) 57.

(** the value of a string of decimal digits; any other byte, an
    underscore in particular, is a syntax error *)
Fixpoint decimal (s : string) (acc : Z) : option Z :=
  match s with
  | EmptyString => Some acc
  | String c r =>
      if isDigit c then decimal r (acc * 10 + Z.of_nat (nat_of_ascii c - 48))
      else None
  end.

Definition inInt64 (v : Z) : bool :=
  (- 9223372036854775808 <=? v) && (v <=? 9223372036854775807).

(** [strconv.ParseInt(s, 10, 64)]: an optional sign, then at least one
    digit and nothing but digits; a value outside [int64] is a range
    error *)
Definition ParseInt10 (s : string) : option Z :=
  match s with
  | EmptyString => None
  | String c r =>
      let neg := Ascii.eqb c "-" in
      let body := if Ascii.eqb c "-" || Ascii.eqb c "+" then r else s in
      match body with
      | EmptyString => None
      | _ =>
          match decimal body 0 with
          | None => None
          | Some n =>
              let v := if neg then - n else n in
              if inInt64 v then Some v else None
          end
      end
  end.

(** [strconv.Atoi] on a 64-bit platform; its fast path for short
    strings accepts the same texts with the same values *)
Definition Atoi (s : string) : option Z := ParseInt10 s.

(** [SkipSpace] of a scan that does not treat newlines as space: a
    newline met while skipping is an error *)
Fixpoint skipSpace (s : string) : option string :=
  match s with
  | EmptyString => Some s
  | String c s' =>
      if Fmt.isNewline c then None
      else if Fmt.isSpace c then skipSpace s'
      else Some s
  end.

(** the bytes [scanNumber] accepts for the verb [%d]: the decimal
    digits *)
Fixpoint numberToken (s : string) : string :=
  match s with
  | EmptyString => EmptyString
  | String c s' =>
      if isDigit c then String c (numberToken s')
      else EmptyString
  end.

(** [fmt.Sscanf(value, "%d", &days)]: the number stored, [None] when
    the call returns an error.  Leading space is skipped, a sign is
    accepted, the digits are read as far as they go and what follows
    them is left unread. *)
Definition SscanInt (value : string) : option Z :=
  match skipSpace value with
  | None => None
  | Some EmptyString => None
  | Some (String c r as s) =>
      let signed := Ascii.eqb c "-" || Ascii.eqb c "+" in
      let tok := numberToken (if signed then r else s) in
      match tok with
      | EmptyString => None
      | _ => ParseInt10 (if signed then String c tok else tok)
      end
  end.

End Numeric.

(* ===================================================================== *)
(** ** Package [cli]: [Parse] *)
(* ===================================================================== *)

Module CliParse.
Import Strings OS Cli.
Open Scope go_scope.

(** the struct [Options] in full: the standard flags and the operands
    ([Cli.Options]), then the fields of the safe-rm subcommands and
    the internal flag *)
Record AllOptions : Type := mkAll {
  Std : Options;
  SafeList : bool;
  SafeRestore : string;
  SafePurge : bool;
  SafeEmpty : bool;
  PurgeDays : Z;
  ExitClean : bool
}.

(** assignments to single fields *)
Definition setForce (o : Options) : Options :=
  mkOptions true (Interactive o) (InteractiveOnce o) (Recursive o)
            (RemoveEmptyDirs o) (Verbose o) (PreserveRoot o) (NoPreserveRoot o)
            (Files o).
Definition setInteractive (o : Options) : Options :=
  mkOptions (Force o) true (InteractiveOnce o) (Recursive o)
            (RemoveEmptyDirs o) (Verbose o) (PreserveRoot o) (NoPreserveRoot o)
            (Files o).
Definition setInteractiveOnce (o : Options) : Options :=
  mkOptions (Force o) (Interactive o) true (Recursive o)
            (RemoveEmptyDirs o) (Verbose o) (PreserveRoot o) (NoPreserveRoot o)
            (Files o).
Definition setRecursive (o : Options) : Options :=
  mkOptions (Force o) (Interactive o) (InteractiveOnce o) true
            (RemoveEmptyDirs o) (Verbose o) (PreserveRoot o) (NoPreserveRoot o)
            (Files o).
Definition setRemoveEmptyDirs (o : Options) : Options :=
  mkOptions (Force o) (Interactive o) (InteractiveOnce o) (Recursive o)
            true (Verbose o) (PreserveRoot o) (NoPreserveRoot o) (Files o).
Definition setVerbose (o : Options) : Options :=
  mkOptions (Force o) (Interactive o) (InteractiveOnce o) (Recursive o)
            (RemoveEmptyDirs o) true (PreserveRoot o) (NoPreserveRoot o)
            (Files o).
(** [PreserveRoot] and [NoPreserveRoot] are assigned together *)
Definition setPreserveRoot (b : bool) (o : Options) : Options :=
  mkOptions (Force o) (Interactive o) (InteractiveOnce o) (Recursive o)
            (RemoveEmptyDirs o) (Verbose o) b (negb b) (Files o).
Definition addFiles (l : list string) (o : Options) : Options :=
  mkOptions (Force o) (Interactive o) (InteractiveOnce o) (Recursive o)
            (RemoveEmptyDirs o) (Verbose o) (PreserveRoot o) (NoPreserveRoot o)
            (Files o ++ l).

Definition setStd (f : Options -> Options) (o : AllOptions) : AllOptions :=
  mkAll (f (Std o)) (SafeList o) (SafeRestore o) (SafePurge o) (SafeEmpty o)
        (PurgeDays o) (ExitClean o).
Definition setSafeList (o : AllOptions) : AllOptions :=
  mkAll (Std o) true (SafeRestore o) (SafePurge o) (SafeEmpty o)
        (PurgeDays o) (ExitClean o).
Definition setSafeRestore (v : string) (o : AllOptions) : AllOptions :=
  mkAll (Std o) (SafeList o) v (SafePurge o) (SafeEmpty o)
        (PurgeDays o) (ExitClean o).
Definition setSafePurge (o : AllOptions) : AllOptions :=
  mkAll (Std o) (SafeList o) (SafeRestore o) true (SafeEmpty o)
        (PurgeDays o) (ExitClean o).
Definition setSafeEmpty (o : AllOptions) : AllOptions :=
  mkAll (Std o) (SafeList o) (SafeRestore o) (SafePurge o) true
        (PurgeDays o) (ExitClean o).
Definition setPurgeDays (n : Z) (o : AllOptions) : AllOptions :=
  mkAll (Std o) (SafeList o) (SafeRestore o) (SafePurge o) (SafeEmpty o)
        n (ExitClean o).
Definition setExitClean (o : AllOptions) : AllOptions :=
  mkAll (Std o) (SafeList o) (SafeRestore o) (SafePurge o) (SafeEmpty o)
        (PurgeDays o) true.

(** [strings.Index(s, string(c))] for a single byte *)
Fixpoint IndexByte (s : string) (c : ascii) : option nat :=
  match s with
  | EmptyString => None
  | String d s' =>
      if Ascii.eqb c d then Some 0%nat else option_map S (IndexByte s' c)
  end.

(** the [--option=value] form: the option and its value, which is
    empty when there is no [=] *)
Definition cutValue (arg : string) : string * string :=
  match IndexByte arg "=" with
  | Some idx => (take idx arg, drop (idx + 1) arg)
  | None => (arg, "")
  end.

Definition helpText : string :=
"Usage: rm [OPTION]... [FILE]...
Remove (move to trash) the FILE(s).

This is safe-rm, a safer replacement for the standard rm command.
Instead of permanently deleting files, they are moved to a trash directory.

Standard options:
  -f, --force           ignore nonexistent files and arguments
  -i                    prompt before every removal
  -I                    prompt once before removing more than three files
  -r, -R, --recursive   remove directories and their contents recursively
  -d, --dir             remove empty directories
  -v, --verbose         explain what is being done
      --preserve-root   do not remove '/' (default)
      --no-preserve-root  do not treat '/' specially

Safe-rm options:
      --safe-list           list all items in the trash
      --safe-restore=PATH   restore a file from trash to its original location
      --safe-purge          purge old items from trash
      --purge-days=N        with --safe-purge, remove items older than N days (default 30)
      --safe-empty          permanently delete ALL items in trash (requires confirmation)

      --help     display this help and exit
      --version  output version information and exit

Protected paths (will require confirmation or be blocked):
  - Root directory (/) and top-level system directories
  - .git directories
  - Paths specified in ~/.config/safe-rm/config.yml

Environment variables:
  SAFERM_TRASH           Override trash directory location
  SAFERM_PROTECTED_PATHS Additional protected paths (colon-separated)

For more information, see: https://github.com/user/safe-rm
".

Definition printHelp : M unit := Print helpText.

(** [parseLongOption]; its parameters [args] and [i] are not used by
    the source *)
Definition parseLongOption (opts : AllOptions) (arg0 : string) : M AllOptions :=
  let (arg, value) := cutValue arg0 in
  if String.eqb arg "--force" then ret (setStd setForce opts)
  else if String.eqb arg "--interactive" then ret (setStd setInteractive opts)
  else if String.eqb arg "--recursive" then ret (setStd setRecursive opts)
  else if String.eqb arg "--dir" then ret (setStd setRemoveEmptyDirs opts)
  else if String.eqb arg "--verbose" then ret (setStd setVerbose opts)
  else if String.eqb arg "--preserve-root" then
    ret (setStd (setPreserveRoot true) opts)
  else if String.eqb arg "--no-preserve-root" then
    ret (setStd (setPreserveRoot false) opts)
  else if String.eqb arg "--safe-list" then ret (setSafeList opts)
  else if String.eqb arg "--safe-restore" then
    if String.eqb value "" then
      fail (Errorf "--safe-restore requires a path argument")
    else ret (setSafeRestore value opts)
  else if String.eqb arg "--safe-purge" then ret (setSafePurge opts)
  else if String.eqb arg "--safe-empty" then ret (setSafeEmpty opts)
  else if String.eqb arg "--purge-days" then
    if String.eqb value "" then
      fail (Errorf "--purge-days requires a number argument")
    else
      match Numeric.SscanInt value with
      | None => fail (Errorf ("--purge-days: invalid number: " ++ value))
      | Some days => ret (setPurgeDays days opts)
      end
  else if String.eqb arg "--help" then
    printHelp ;;; ret (setExitClean opts)
  else if String.eqb arg "--version" then
    Println "safe-rm version 1.0.0" ;;; ret (setExitClean opts)
  else fail (Errorf ("unrecognized option '" ++ arg ++ "'")).

(** the assignment a flag letter stands for, if it is one *)
Definition shortFlag (flag : ascii) : option (Options -> Options) :=
  if Ascii.eqb flag "f" then Some setForce
  else if Ascii.eqb flag "i" then Some setInteractive
  else if Ascii.eqb flag "I" then Some setInteractiveOnce
  else if Ascii.eqb flag "r" || Ascii.eqb flag "R" then Some setRecursive
  else if Ascii.eqb flag "d" then Some setRemoveEmptyDirs
  else if Ascii.eqb flag "v" then Some setVerbose
  else None.

(** [parseShortOptions]: the letters in order, up to the first that is
    no flag *)
Fixpoint parseShortOptions (opts : AllOptions) (flags : string) : M AllOptions :=
  match flags with
  | EmptyString => ret opts
  | String flag rest =>
      match shortFlag flag with
      | Some f => parseShortOptions (setStd f opts) rest
      | None =>
          fail (Errorf ("invalid option -- '" ++ String flag "" ++ "'"))
      end
  end.

(** the loop of [Parse] over the arguments not yet read *)
Fixpoint parseArgs (args : list string) (opts : AllOptions) : M AllOptions :=
  match args with
  | [] => ret opts
  | arg :: rest =>
      if String.eqb arg "--" then ret (setStd (addFiles rest) opts)
      else if HasPrefix arg "--" then
        o <- parseLongOption opts arg ;; parseArgs rest o
      else if HasPrefix arg "-" && Nat.ltb 1 (String.length arg) then
        o <- parseShortOptions opts (drop 1 arg) ;; parseArgs rest o
      else parseArgs rest (setStd (addFiles [arg]) opts)
  end.

(** the options [Parse] starts from *)
Definition initialOptions : AllOptions :=
  mkAll (mkOptions false false false false false false true false [])
        false "" false false 30 false.

(** [cli.Parse] *)
Definition Parse (args : list string) : M AllOptions :=
  parseArgs args initialOptions.

End CliParse.

(* ===================================================================== *)
(** ** Package [config]: [Default], [Load] *)
(* ===================================================================== *)

Module ConfigLoad.
Import Strings Filepath OS Config.
Open Scope go_scope.

(** [yaml.Unmarshal(data, cfg)]: the configuration with the fields the
    text gives replaced, or the decoder's error *)
Class YamlCodec : Type := {
  yamlUnmarshal : string -> Config -> res Config
}.

Definition PathListSeparator : ascii := ":"%char.

Section WithEnv.
Context {yaml : YamlCodec}.

(** [os.Getenv] *)
Variable Getenv : string -> string.

(** [os.UserHomeDir] on Unix: the variable [HOME]; when it is empty the
    call answers the empty string and an error, which both callers
    drop *)
Definition UserHomeDir : string := Getenv "HOME".

(** [config.Default] *)
Definition Default : M Config :=
  let homeDir := UserHomeDir in
  ret (mkConfig (JoinPath [homeDir; ".local"; "share"; "safe-rm"; "trash"])
                30 [] "confirm" true).

Definition getConfigPath : M string :=
  let xdgConfig := Getenv "XDG_CONFIG_HOME" in
  if negb (String.eqb xdgConfig "") then
    ret (JoinPath [xdgConfig; "safe-rm"; "config.yml"])
  else
    let homeDir := UserHomeDir in
    ret (JoinPath [homeDir; ".config"; "safe-rm"; "config.yml"]).

Definition withTrashDir (c : Config) (t : string) : Config :=
  mkConfig t (RetentionDays c) (ProtectedPaths c) (ProtectedBehavior c)
           (VerboseWarnings c).
Definition withRetentionDays (c : Config) (n : Z) : Config :=
  mkConfig (TrashDir c) n (ProtectedPaths c) (ProtectedBehavior c)
           (VerboseWarnings c).
Definition withProtectedPaths (c : Config) (l : list string) : Config :=
  mkConfig (TrashDir c) (RetentionDays c) l (ProtectedBehavior c)
           (VerboseWarnings c).
Definition withProtectedBehavior (c : Config) (b : string) : Config :=
  mkConfig (TrashDir c) (RetentionDays c) (ProtectedPaths c) b
           (VerboseWarnings c).

(** the part of [Load] that expands [~] and applies the environment,
    after the file was read *)
Definition applyEnv (cfg : Config) : Config :=
  let cfg1 :=
    if HasPrefix (TrashDir cfg) "~"
    then withTrashDir cfg (JoinPath [UserHomeDir; drop 1 (TrashDir cfg)])
    else cfg in
  let cfg2 :=
    if negb (String.eqb (Getenv "SAFERM_TRASH") "")
    then withTrashDir cfg1 (Getenv "SAFERM_TRASH") else cfg1 in
  let cfg3 :=
    if negb (String.eqb (Getenv "SAFERM_PROTECTED_PATHS") "")
    then withProtectedPaths cfg2
           (ProtectedPaths cfg2
              ++ Split PathListSeparator (Getenv "SAFERM_PROTECTED_PATHS"))
    else cfg2 in
  let cfg4 :=
    if negb (String.eqb (Getenv "SAFERM_RETENTION_DAYS") "")
    then match Numeric.Atoi (Getenv "SAFERM_RETENTION_DAYS") with
         | Some days => withRetentionDays cfg3 days
         | None => cfg3
         end
    else cfg3 in
  if negb (String.eqb (Getenv "SAFERM_PROTECTED_BEHAVIOR") "")
  then withProtectedBehavior cfg4 (Getenv "SAFERM_PROTECTED_BEHAVIOR")
  else cfg4.

(** [config.Load] *)
Definition Load : M Config :=
  cfg <- Default ;;
  configPath <- getConfigPath ;;
  data <- attempt (ReadFile configPath) ;;
  cfg' <- (match data with
           | Ok text =>
               match yamlUnmarshal text cfg with
               | Err e => fail e
               | Ok c => ret c
               end
           | Err _ => ret cfg
           end) ;;
  ret (applyEnv cfg').

End WithEnv.

End ConfigLoad.

(* ===================================================================== *)
(** ** Command [rm]: [main] *)
(* ===================================================================== *)

Module MainRun.
Import Strings Filepath FS OS FilepathOS Config Trash Restore Cli Main.
Import CliParse ConfigLoad.
Open Scope go_scope.

Section WithCodecs.
Context {codec : JsonCodec} {yaml : YamlCodec}.
Variable Getenv : string -> string.

(** the body of the loop of [main] over the operands *)
Definition fileStep (cfg : Config) (opts : Options) (path : string) (exitCode : Z)
  : M Z :=
  r <- attempt (processPath cfg opts path) ;;
  match r with
  | Err e =>
      Eprintln ("safe-rm: cannot remove '" ++ path ++ "': " ++ errText e) ;;;
      ret 1%Z
  | Ok _ => ret exitCode
  end.

(** the loop of [main] over the operands; the value is the exit code *)
Definition processFiles (cfg : Config) (opts : Options) : M Z :=
  forEach (Files opts) (fileStep cfg opts) 0%Z.

(** a subcommand: its error is printed and makes the exit code 1 *)
Definition subcommand (m : M unit) : M Z :=
  r <- attempt m ;;
  match r with
  | Err e => Eprintln ("safe-rm: " ++ errText e) ;;; ret 1%Z
  | Ok _ => ret 0%Z
  end.

(** [main] after the configuration was loaded and the arguments were
    parsed; the value is the exit code *)
Definition dispatch (cfg : Config) (o : AllOptions) : M Z :=
  if ExitClean o then ret 0%Z
  else if SafeList o then subcommand (List cfg)
  else if negb (String.eqb (SafeRestore o) "") then
    subcommand (Restore cfg (SafeRestore o))
  else if SafePurge o then subcommand (Purge cfg (PurgeDays o))
  else if SafeEmpty o then subcommand (Empty cfg)
  else
    match Files (Std o) with
    | [] =>
        if negb (Force (Std o)) then
          Eprintln "safe-rm: missing operand" ;;; ret 1%Z
        else ret 0%Z
    | _ => processFiles cfg (Std o)
    end.

(** [main] on the arguments [os.Args[1:]]; the value is the exit
    code *)
Definition main (args : list string) : M Z :=
  loaded <- attempt (Load Getenv) ;;
  cfg <- (match loaded with
          | Err e =>
              Eprintln ("safe-rm: warning: failed to load config: " ++ errText e) ;;;
              Default Getenv
          | Ok c => ret c
          end) ;;
  parsed <- attempt (Parse args) ;;
  match parsed with
  | Err e => Eprintln ("safe-rm: " ++ errText e) ;;; ret 1%Z
  | Ok opts => dispatch cfg opts
  end.

End WithCodecs.

End MainRun.

(* ===================================================================== *)
(** ** Notions the statements below are written in *)
(* ===================================================================== *)

Module Notions.
Import Strings Filepath FS OS FilepathOS Config Trash Restore.

(** the canonical absolute path with the given components *)
Definition render (cs : list string) : string := "/" ++ Join cs "/".

Definition validPath (cs : list string) : bool := forallb validName cs.

Definition noSep (s : string) : bool := negb (ContainsByte s Separator).

(** two paths neither of which lies at or below the other *)
Definition apart (p q : list string) : Prop :=
  isPrefix p q = false /\ isPrefix q p = false.

(** a regular file with the given bytes sits at [q] *)
Definition fileAt (n : node) (q : list string) (data : string) : Prop :=
  exists pm mt, lookup n q = Some (File data pm mt).

(** every file below [s] in the first tree is below [d], at the same
    relative place and with the same bytes, in the second *)
Definition moved (n n' : node) (s d : list string) : Prop :=
  forall rel data, fileAt n (s ++ rel) data -> fileAt n' (d ++ rel) data.

(** ... or is still where it was *)
Definition keptOrMoved (n n' : node) (s d : list string) : Prop :=
  forall rel data,
    fileAt n (s ++ rel) data ->
    fileAt n' (s ++ rel) data \/ fileAt n' (d ++ rel) data.

(** what a copy-and-delete from [s] to [d] guarantees, whether it
    succeeds or stops half-way *)
Record copyPost (s d : list string) (w : World) (r : res unit) (w' : World)
  : Prop := mkCopyPost {
  cp_wf : wf (fs w') = true;
  cp_frame : forall q, apart s q -> apart d q -> lookup (fs w') q = lookup (fs w) q;
  cp_kept : keptOrMoved (fs w) (fs w') s d;
  cp_done : r = Ok tt -> lookup (fs w') s = None /\ moved (fs w) (fs w') s d
}.

Definition toEntry (e : string * node) : DirEntry := mkEntry (fst e) (isDir (snd e)).

(** the host name [Move] uses *)
Definition hostOf (w : World) : string :=
  match hostname w with Some h => h | None => "unknown" end.

(** the components of the trash root *)
Definition trashRoot (cfg : Config) : list string :=
  cleanStack true [] (Split Separator (TrashDir cfg)).

(** the final component of the place [Move] picks: the name itself, or
    the name with a time stamp when the first choice is taken *)
Definition pickName (w : World) (P : list string) (n : string) : string :=
  if isSome (lookup (fs w) (P ++ [n]))
  then n ++ "." ++ Time.FormatStamp (local w) (now w) else n.

Record movePost (s d sidecar P : list string) (w : World) (r : res string)
       (w' : World) : Prop := mkMovePost {
  mp_wf : wf (fs w') = true;
  mp_kept : keptOrMoved (fs w) (fs w') s d;
  mp_done : forall tp, r = Ok tp ->
            tp = render d /\ lookup (fs w') s = None /\ moved (fs w) (fs w') s d;
  mp_frame : forall q, apart s q -> apart d q -> apart sidecar q ->
                       isPrefix q P = false ->
                       lookup (fs w') q = lookup (fs w) q
}.

Definition sameDisk (w w' : World) : Prop :=
  fs w' = fs w /\ hostname w' = hostname w /\ now w' = now w /\ cwd w' = cwd w
  /\ trace w' = trace w /\ local w' = local w.

(** where the item with components [s] goes in the trash: below the
    trash root and the host, at its original path, the final name
    chosen by [Move] *)
Definition trashPlace (cfg : Config) (w : World) (s : list string) : list string :=
  let P := (trashRoot cfg ++ hostOf w :: removelast s)%list in
  (P ++ [pickName w P (last s "")])%list.

(** a node the scanner does not look into: a regular file, or a
    directory in which every name ends in the sidecar suffix *)
Definition leafLike (n : node) : bool :=
  match n with
  | File _ _ _ => true
  | Dir _ _ es => forallb (fun e => HasSuffix (fst e) metadataSuffix) es
  end.

(** the test the callback of [findTrashItems] applies to an existing
    path *)
Definition reported (w : World) (trashDir path : string) : bool :=
  negb (HasSuffix path metadataSuffix)
  && negb (String.eqb path trashDir)
  && match nodeAt w path with Some n => leafLike n | None => false end
  && isOk (statIn w (path ++ metadataSuffix)).

(** the items found below the directory [c], added to [acc] *)
Definition foundBelow (w : World) (trashDir : string) (c : list string)
           (acc items : list string) : Prop :=
  forall p,
    In p items
    <-> In p acc
        \/ exists rel, p = render (c ++ rel)
                       /\ lookup (fs w) (c ++ rel) <> None
                       /\ reported w trashDir p = true.

(** the number a text of decimal digits stands for, read onto [acc] *)
Fixpoint valueOnto (acc : Z) (s : string) : Z :=
  match s with
  | EmptyString => acc
  | String c r => valueOnto (acc * 10 + (Z.of_nat (nat_of_ascii c) - 48)) r
  end.

(** the digits of a year, without the sign *)
Definition yearDigits (a : Z) : string :=
  if Z.ltb a 10000 then Time.pad 4 a else Time.digits (S (Z.to_nat (Z.log2 a))) a.

(** the day count of a date: the inverse of [civil] *)
Definition daysOf (y m d : Z) : Z :=
  let y' := (if m <=? 2 then y - 1 else y)%Z in
  let era := (y' / 400)%Z in
  let yoe := (y' - era * 400)%Z in
  let mp := (if 2 <? m then m - 3 else m + 9)%Z in
  let doy := ((153 * mp + 2) / 5 + d - 1)%Z in
  (era * 146097 + (yoe * 365 + yoe / 4 - yoe / 100 + doy) - 719468)%Z.

Section Selection.
Context {codec : JsonCodec}.

(** the metadata [GetMetadata] reads for an item, when it can *)
Definition metaIn (w : World) (item : string) : option Metadata :=
  match readFileIn w (item ++ metadataSuffix) with
  | Ok data => unmarshal data
  | Err _ => None
  end.

(** the item's recorded original path is the one asked for *)
Definition matches (w : World) (originalPath item : string) : bool :=
  match metaIn w item with
  | Some m => String.eqb (OriginalPath m) originalPath
  | None => false
  end.

(** one round of the selection, as a function of the world *)
Definition selectStep (w : World) (originalPath item : string)
           (acc : string * option Metadata) : string * option Metadata :=
  match metaIn w item with
  | Some m =>
      if String.eqb (OriginalPath m) originalPath then
        match snd acc with
        | None => (item, Some m)
        | Some old =>
            if Time.After (DeletedAt m) (DeletedAt old) then (item, Some m) else acc
        end
      else acc
  | None => acc
  end.

Definition select (w : World) (originalPath : string) (items : list string)
           (acc : string * option Metadata) : string * option Metadata :=
  fold_left (fun a item => selectStep w originalPath item a) items acc.

(** what the selection holds after the items [seen]: nothing when none
    matched, else a matching item none of the others is later than *)
Definition selected (w : World) (o : string) (seen : list string)
           (acc : string * option Metadata) : Prop :=
  match snd acc with
  | None => fst acc = "" /\ forall c, In c seen -> matches w o c = false
  | Some m =>
      In (fst acc) seen /\ metaIn w (fst acc) = Some m /\ OriginalPath m = o
      /\ forall c m', In c seen -> metaIn w c = Some m' -> OriginalPath m' = o ->
                      (DeletedAt m' <= DeletedAt m)%Z
  end.

End Selection.

End Notions.

(* ===================================================================== *)
(** ** Notions for the command line *)
(* ===================================================================== *)

Module Vocabulary.
Import Strings Filepath FS OS Config Cli CliParse ConfigLoad Notions.

(** an argument [Parse] reads as options: a dash and at least one more
    byte *)
Definition isOption (arg : string) : bool :=
  HasPrefix arg "-" && Nat.ltb 1 (String.length arg).

(** the arguments that are operands: those that are no options, up to
    a bare [--], and everything after it *)
Fixpoint operands (args : list string) : list string :=
  match args with
  | [] => []
  | arg :: rest =>
      if String.eqb arg "--" then rest
      else if isOption arg then operands rest
      else arg :: operands rest
  end.

(** the arguments before a bare [--] that are options *)
Fixpoint optionArgs (args : list string) : list string :=
  match args with
  | [] => []
  | arg :: rest =>
      if String.eqb arg "--" then []
      else if isOption arg then arg :: optionArgs rest
      else optionArgs rest
  end.

(** the long options [parseLongOption] knows *)
Definition knownLong : list string :=
  ["--force"; "--interactive"; "--recursive"; "--dir"; "--verbose";
   "--preserve-root"; "--no-preserve-root"; "--safe-list"; "--safe-restore";
   "--safe-purge"; "--safe-empty"; "--purge-days"; "--help"; "--version"].

(** every letter is one of [f i I r R d v] *)
Fixpoint allFlags (flags : string) : bool :=
  match flags with
  | EmptyString => true
  | String c rest => isSome (shortFlag c) && allFlags rest
  end.

(** the letters of a bundle, each as an argument of its own *)
Fixpoint unbundle (flags : string) : list string :=
  match flags with
  | EmptyString => []
  | String c rest => String "-" (String c "") :: unbundle rest
  end.

(** the option argument asks for the long option [name] or, in a
    bundle of letters, for one of the letters [letters] *)
Definition asksFor (name : string) (letters : list ascii) (arg : string) : bool :=
  if HasPrefix arg "--" then String.eqb (fst (cutValue arg)) name
  else existsb (fun c => ContainsByte (drop 1 arg) c) letters.

(** the two root flags are each other's negation *)
Definition rootExclusive (o : AllOptions) : Prop :=
  NoPreserveRoot (Std o) = negb (PreserveRoot (Std o)).

(** every regular file of the first world is in the second, at the
    same place and with the same bytes *)
Definition filesKept (w w' : World) : Prop :=
  forall q data, fileAt (fs w) q data -> fileAt (fs w') q data.

(** a call that, whatever it returns, leaves the file system, the host
    name, the clock, the working directory and the record of mutations
    as they were *)
Definition quiet {A} (m : M A) : Prop :=
  forall w r w', m w = (r, w') -> sameDisk w w'.

(** A stand-in for [yaml.Unmarshal] used to run the scenarios: the empty
    document changes nothing, a document of the one line
    [trash_dir: PATH] sets the trash directory, any other text is an
    error. *)
Definition lineYaml : YamlCodec := {|
  yamlUnmarshal text c :=
    if String.eqb text "" then Ok c
    else if HasPrefix text "trash_dir: " then
      Ok (mkConfig (drop 11 text) (RetentionDays c) (ProtectedPaths c)
                   (ProtectedBehavior c) (VerboseWarnings c))
    else Err (Errorf "yaml: unmarshal errors")
|}.

(** the configuration as the file leaves it, before [~] is expanded
    and the environment is looked at: the defaults when the file cannot
    be read, else what the decoder makes of the defaults *)
Definition fileConfig {yaml : YamlCodec} (Getenv : string -> string)
           (w : World) (c : Config) : Prop :=
  exists d p,
    Default Getenv w = (Ok d, w) /\ getConfigPath Getenv w = (Ok p, w)
    /\ match readFileIn w p with
       | Ok text => yamlUnmarshal text d = Ok c
       | Err _ => c = d
       end.

(** an environment given by the variables that are set *)
Fixpoint envOf (vars : list (string * string)) (key : string) : string :=
  match vars with
  | [] => ""
  | (k, v) :: rest => if String.eqb k key then v else envOf rest key
  end.

(** a call that, whatever it returns, takes the world to one related
    to it by [R] *)
Definition keeps (R : World -> World -> Prop) {A} (m : M A) : Prop :=
  forall w r w', m w = (r, w') -> R w w'.

(** everything but the file system and the record of mutations is the
    same: clock, host, directories of the process, the three streams *)
Definition sameEnv (w w' : World) : Prop :=
  now w' = now w /\ hostname w' = hostname w /\ cwd w' = cwd w
  /\ homeDir w' = homeDir w /\ crossDevice w' = crossDevice w
  /\ stdin w' = stdin w /\ stdout w' = stdout w /\ stderr w' = stderr w
  /\ local w' = local w.

(** every place that is neither at, above nor below [T] holds the same *)
Definition sameOutside (T : list string) (w w' : World) : Prop :=
  forall q, apart T q -> lookup (fs w') q = lookup (fs w) q.

(** every place away from both [T] and [o] holds the same *)
Definition sameOutsideBoth (T o : list string) (w w' : World) : Prop :=
  forall q, apart T q -> apart o q -> lookup (fs w') q = lookup (fs w) q.

(** the argument is a long option whose name satisfies [hit] *)
Definition longAsks (hit : string -> bool) (arg : string) : bool :=
  HasPrefix arg "--" && hit (fst (cutValue arg)).

(** the long options after which [main] only prints *)
Definition onlyPrints (name : string) : bool :=
  String.eqb name "--help" || String.eqb name "--version"
  || String.eqb name "--safe-list".

(** the options with other operands *)
Definition withFiles (o : Options) (l : list string) : Options :=
  mkOptions (Force o) (Interactive o) (InteractiveOnce o) (Recursive o)
            (RemoveEmptyDirs o) (Verbose o) (PreserveRoot o) (NoPreserveRoot o) l.

(** a directory sits at [a] *)
Definition isDirAt (n : node) (a : list string) : Prop :=
  exists pm mt es, lookup n a = Some (Dir pm mt es).

End Vocabulary.

(* ===================================================================== *)
(** * Properties *)
(* ===================================================================== *)

Module FilepathTests.
Import Filepath.

Example clean_1 : Clean "/a//b/./c/.." = "/a/b". Proof. reflexivity. Qed.
Example clean_2 : Clean "a/../.." = "..". Proof. reflexivity. Qed.
Example clean_3 : Clean "/../a/" = "/a". Proof. reflexivity. Qed.
Example clean_4 : Clean "/" = "/". Proof. reflexivity. Qed.
Example join_1 : JoinPath ["/t"; "host"; "home/u/f.txt"] = "/t/host/home/u/f.txt".
Proof. reflexivity. Qed.
Example join_2 : JoinPath ["~"] = "~". Proof. reflexivity. Qed.
Example dir_1 : Dir "/a/b" = "/a". Proof. reflexivity. Qed.
Example dir_2 : Dir "/a" = "/". Proof. reflexivity. Qed.
Example dir_3 : Dir "a" = ".". Proof. reflexivity. Qed.
Example base_1 : Base "/a/b/" = "b". Proof. reflexivity. Qed.
Example base_2 : Base "/" = "/". Proof. reflexivity. Qed.
Example base_3 : Base "/x/.git" = ".git". Proof. reflexivity. Qed.
End FilepathTests.

Module GlobTests.
Import Glob.
Example match_1 : Match "/custom/protected/*" "/custom/protected/something" = Some true.
Proof. reflexivity. Qed.
Example match_2 : Match "/custom/protected/*" "/custom/other/file" = Some false.
Proof. reflexivity. Qed.
Example match_3 : Match "/important/file.txt" "/important/file.txt" = Some true.
Proof. reflexivity. Qed.
Example match_4 : Match "/d/**" "/d/x/y" = Some false.
Proof. reflexivity. Qed.
Example match_5 : Match "/d/**" "/d/x" = Some true.
Proof. reflexivity. Qed.
Example match_6 : Match "a[" "a" = None.
Proof. reflexivity. Qed.
Example match_7 : Match "/a/[b-d]?.txt" "/a/cz.txt" = Some true.
Proof. reflexivity. Qed.
Example match_8 : Match "*.go" "x/y.go" = Some false.
Proof. reflexivity. Qed.
Example match_9 : Match "a*b*c" "axxbyyc" = Some true.
Proof. reflexivity. Qed.
Example match_10 : Match "[^a]" "b" = Some true.
Proof. reflexivity. Qed.
Example match_11 : Match "a\*b" "a*b" = Some true.
Proof. reflexivity. Qed.
End GlobTests.

Module ProtectTests.
Import FS OS Config Protect Scenario.

Example builtin_home : Protected (Check emptyWorld (cfgWith []) "/home" false) = true.
Proof. reflexivity. Qed.
Example builtin_tmp_file :
  Protected (Check emptyWorld (cfgWith []) "/tmp/testfile" false) = false.
Proof. reflexivity. Qed.
Example custom_glob :
  Protected (Check emptyWorld (cfgWith ["/custom/protected/*"; "/important/file.txt"])
               "/custom/protected/something" false) = true.
Proof. reflexivity. Qed.
Example custom_other :
  Protected (Check emptyWorld (cfgWith ["/custom/protected/*"; "/important/file.txt"])
               "/custom/other/file" false) = false.
Proof. reflexivity. Qed.
Example git_dir :
  Protected (Check emptyWorld (cfgWith []) "/work/repo/.git" false) = true.
Proof. reflexivity. Qed.
End ProtectTests.

(* ===================================================================== *)
(** ** The protection gate of [processPath] *)
(* ===================================================================== *)

Module GateFacts.
Import Strings Filepath FS OS FilepathOS Config Trash Protect Cli Main Scenario.

Section Gate.
Context {codec : JsonCodec}.

Lemma gate_force_protected cfg opts absPath st w :
  Force opts = true -> Protected st = true ->
  exists e, protectionGate cfg opts absPath st w = (Err e, w).
Proof.
  intros Hf Hp. unfold protectionGate. rewrite Hp, Hf. simpl.
  destruct (String.eqb (ProtectedBehavior cfg) "block"); eexists; reflexivity.
Qed.

Lemma gate_force_confirm cfg opts absPath st w :
  Force opts = true -> Protected st = true ->
  ProtectedBehavior cfg = "confirm" ->
  protectionGate cfg opts absPath st w
  = (Err (Errorf ("BLOCKED: " ++ absPath ++ " is protected (" ++ Reason st
                    ++ "). Use interactive mode to confirm.")), w).
Proof.
  intros Hf Hp Hb. unfold protectionGate. rewrite Hp, Hf, Hb. reflexivity.
Qed.

(** C10.  With [-f] a protected path that exists is refused: the call
    returns an error and the world is left exactly as it was (nothing
    printed, nothing read from the terminal, nothing moved).  Under
    the [confirm] behaviour, once the directory checks are passed,
    the error is the [BLOCKED] message of the force branch. *)
Theorem C10_force_protected_refused cfg opts path w i :
  Force opts = true ->
  statIn w (absIn w path) = Ok i ->
  Protected (Check w cfg (absIn w path) (Recursive opts)) = true ->
  (exists e, processPath cfg opts path w = (Err e, w))
  /\ (ProtectedBehavior cfg = "confirm" ->
      IsDir i && negb (Recursive opts) = false ->
      processPath cfg opts path w
      = (Err (Errorf ("BLOCKED: " ++ absIn w path ++ " is protected ("
                        ++ Reason (Check w cfg (absIn w path) (Recursive opts))
                        ++ "). Use interactive mode to confirm.")), w)).
Proof.
  intros Hf Hs Hp.
  assert (Hgate : forall w0, w0 = w ->
             exists e, processChecked cfg opts path (absIn w path) w0 = (Err e, w0)).
  { intros w0 ->. unfold processChecked, bind at 1, query.
    destruct (gate_force_protected cfg opts (absIn w path) _ w Hf Hp) as [e He].
    unfold bind at 1. rewrite He. eauto. }
  split.
  - unfold processPath, bind at 1, Abs, query.
    unfold bind at 1, attempt, Lstat, Stat, query. rewrite Hs.
    destruct (IsDir i && negb (Recursive opts)) eqn:Hd.
    + destruct (RemoveEmptyDirs opts).
      * unfold bind at 1. unfold bind at 1. unfold ReadDir, query.
        destruct (readDirIn w (absIn w path)) as [[|x l]|e].
        -- apply Hgate; reflexivity.
        -- eexists; reflexivity.
        -- eexists; reflexivity.
      * eexists; reflexivity.
    + unfold bind at 1. unfold ret at 1. apply Hgate; reflexivity.
  - intros Hb Hd.
    unfold processPath, bind at 1, Abs, query.
    unfold bind at 1, attempt, Lstat, Stat, query. rewrite Hs, Hd.
    unfold bind at 1. unfold ret at 1.
    unfold processChecked, bind at 1, query. unfold bind at 1.
    rewrite (gate_force_confirm cfg opts (absIn w path) _ w Hf Hp Hb).
    reflexivity.
Qed.

End Gate.

Lemma C10_force_protected_refused_witness :
  exists e, processPath (cfgWith []) optsForce "/home" (worldOf homeTree t0 "")
            = (Err e, worldOf homeTree t0 "").
Proof.
  refine (proj1 (C10_force_protected_refused (cfgWith []) optsForce
                   "/home" (worldOf homeTree t0 "") (mkInfo true 0 493) _ _ _));
    reflexivity.
Defined.

End GateFacts.

(* ===================================================================== *)
(** ** Where the code departs from the specification *)
(* ===================================================================== *)

Module Departures.
Import Strings Filepath FS OS FilepathOS Config Trash Restore Protect Cli Main
       Scenario.

(** C6.  With the single pattern [/data/**], the sibling [/database] is
    reported as lying under [/data]: the prefix test compares bytes,
    not path components.  No other rule matches that path. *)
Theorem C6_sibling_reported_protected :
  Check emptyWorld (cfgWith ["/data/**"]) "/database" false
  = mkStatus true "Path is under protected directory: /data"
  /\ Check emptyWorld (cfgWith []) "/database" false = mkStatus false "".
Proof. split; reflexivity. Qed.

(** C9.  For the caller whose home is [/home/u], working in [/work],
    the pattern [~/X] does not protect [/home/u/X]; it protects
    [/work/~/X], because the tilde is replaced by the absolute form of
    the relative path [~]. *)
Theorem C9_tilde_is_not_home :
  homeDir emptyWorld = "/home/u"
  /\ expandPattern emptyWorld "~/X" = "/work/~/X"
  /\ Check emptyWorld (cfgWith ["~/X"]) "/home/u/X" false = mkStatus false ""
  /\ Check emptyWorld (cfgWith ["~/X"]) "/work/~/X" false
     = mkStatus true "Path matches protected pattern: /work/~/X".
Proof. repeat split; reflexivity. Qed.

(** C3.  A directory holding files is moved to the trash whole, with
    its own sidecar, but the scanner skips every directory that has an
    entry other than a sidecar: the item is not enumerated and
    [Restore] answers that nothing was found. *)
Theorem C3_directory_not_restored :
  let w0 := worldOf homeTree t0 "" in
  let w1 := snd (Move (cfgWith []) "/home/u/docs" w0) in
  let w2 := snd (Restore (cfgWith []) "/home/u/docs" w1) in
  fst (Move (cfgWith []) "/home/u/docs" w0) = Ok "/t/H/home/u/docs"
  /\ nodeAt w1 "/t/H/home/u/docs" = nodeAt w0 "/home/u/docs"
  /\ nodeAt w1 "/t/H/home/u/docs.saferm-meta"
     = Some (File "/home/u/docs|1700000000|H|d" 420 t0)
  /\ fst (findTrashItems "/t" w1) = Ok []
  /\ fst (Restore (cfgWith []) "/home/u/docs" w1)
     = Err (Errorf "no item found in trash with original path: /home/u/docs")
  /\ nodeAt w2 "/home/u/docs" = None.
Proof. vm_compute. repeat split; reflexivity. Qed.

(** C4.  An enumerated item whose sidecar cannot be parsed is purged by
    its modification time, and its sidecar is left behind. *)
Theorem C4_fallback_leaves_sidecar :
  let w0 := worldOf corruptTrash t0 "" in
  let w1 := snd (Purge (cfgWith []) 30 w0) in
  fst (findTrashItems "/t" w0) = Ok ["/t/H/x"]
  /\ nodeAt w1 "/t/H/x" = None
  /\ nodeAt w1 "/t/H/x.saferm-meta" = Some (File "not json" 420 100).
Proof. vm_compute. repeat split; reflexivity. Qed.

(** C5.  The confirmation phrase typed at the prompt is not accepted
    ([Scanln] stores its first word), so nothing is deleted; and the
    deletion that follows an accepted confirmation removes only the
    directories that are empty when the walk reaches them, parents
    first: [/t/H/home] stays behind, empty. *)
Theorem C5_empty_keeps_items_and_parents :
  let w0 := worldOf oneItemTrash t0 ("yes I am sure" ++ String (ascii_of_nat 10) "") in
  fs (snd (Empty (cfgWith []) w0)) = fs w0
  /\ hd "" (stdout (snd (Empty (cfgWith []) w0))) = "Aborted." ++ LF
  /\ fst (findTrashItems "/t" w0) = Ok ["/t/H/home/u/f.txt"]
  /\ nodeAt (snd (emptyItems (cfgWith []) ["/t/H/home/u/f.txt"] w0)) "/t/H/home"
     = Some (Dir 493 t0 []).
Proof. vm_compute. repeat split; reflexivity. Qed.

End Departures.

(* ===================================================================== *)
(** ** Paths as strings and as component lists *)
(* ===================================================================== *)

Module PathFacts.
Import Strings Filepath FS OS Notions.

Lemma append_nil_r (s : string) : s ++ "" = s.
Proof. induction s; simpl; congruence. Qed.

Lemma append_assoc (a b c : string) : (a ++ b) ++ c = a ++ (b ++ c).
Proof. induction a; simpl; congruence. Qed.

Lemma append_length (a b : string) :
  String.length (a ++ b) = String.length a + String.length b.
Proof. induction a; simpl; congruence. Qed.

Lemma append_inj_l (a b c : string) : a ++ b = a ++ c -> b = c.
Proof. induction a; simpl; intros H; [assumption | inversion H; auto]. Qed.

Lemma Split_nonempty sep s : Split sep s <> [].
Proof.
  destruct s as [|c s]; simpl; [discriminate|].
  destruct (Ascii.eqb c sep); [discriminate|].
  destruct (Split sep s); discriminate.
Qed.

Lemma Split_nosep sep s : ContainsByte s sep = false -> Split sep s = [s].
Proof.
  induction s as [|c s IH]; simpl; intros H; [reflexivity|].
  apply orb_false_iff in H. destruct H as [Hc Hs].
  rewrite Ascii.eqb_sym, Hc. rewrite (IH Hs). reflexivity.
Qed.

Lemma Split_app sep a b :
  Split sep (a ++ String sep b) = (Split sep a ++ Split sep b)%list.
Proof.
  induction a as [|c a IH]; simpl.
  - rewrite Ascii.eqb_refl. reflexivity.
  - destruct (Ascii.eqb c sep); [rewrite IH; reflexivity|].
    rewrite IH. destruct (Split sep a) eqn:E.
    + exfalso. exact (Split_nonempty _ _ E).
    + reflexivity.
Qed.

Lemma Split_parts_nosep sep s :
  Forall (fun c => ContainsByte c sep = false) (Split sep s).
Proof.
  induction s as [|c s IH]; simpl.
  - constructor; [reflexivity | constructor].
  - destruct (Ascii.eqb c sep) eqn:E.
    + constructor; [reflexivity | assumption].
    + destruct (Split sep s) as [|h t]; inversion IH; subst.
      * constructor; [|constructor]. simpl. rewrite Ascii.eqb_sym, E. reflexivity.
      * constructor; [|assumption]. simpl. rewrite Ascii.eqb_sym, E. assumption.
Qed.

Lemma validName_nosep n : validName n = true -> ContainsByte n "/"%char = false.
Proof.
  unfold validName. intros H. apply andb_true_iff in H. destruct H as [_ H].
  apply negb_true_iff in H. exact H.
Qed.

Lemma validName_nonempty n : validName n = true -> n <> "".
Proof. intros H ->. discriminate H. Qed.

Lemma Split_Join cs :
  validPath cs = true -> cs <> [] -> Split Separator (Join cs "/") = cs.
Proof.
  induction cs as [|c cs IH]; intros Hv Hne; [congruence|].
  simpl in Hv. apply andb_true_iff in Hv. destruct Hv as [Hc Hcs].
  destruct cs as [|c2 cs].
  - simpl. apply Split_nosep. apply validName_nosep; assumption.
  - change (Join (c :: c2 :: cs) "/") with (c ++ String Separator (Join (c2 :: cs) "/")).
    rewrite Split_app, IH by (assumption || discriminate).
    rewrite Split_nosep by (apply validName_nosep; assumption). reflexivity.
Qed.

Lemma Split_render cs :
  validPath cs = true -> cs <> [] -> Split Separator (render cs) = "" :: cs.
Proof.
  intros Hv Hne. unfold render.
  change ("/" ++ Join cs "/") with ("" ++ String Separator (Join cs "/")).
  rewrite Split_app, Split_Join by assumption. reflexivity.
Qed.

Lemma validName_cases n :
  validName n = true ->
  String.eqb n "" = false /\ String.eqb n "." = false /\ String.eqb n ".." = false.
Proof.
  unfold validName. intros H.
  repeat (apply andb_true_iff in H; destruct H as [H ?]).
  repeat split; apply negb_true_iff; assumption.
Qed.

Lemma cleanStack_valid out cs :
  validPath cs = true -> cleanStack true out cs = (rev out ++ cs)%list.
Proof.
  revert out. induction cs as [|c cs IH]; intros out Hv; simpl.
  - rewrite app_nil_r. reflexivity.
  - simpl in Hv. apply andb_true_iff in Hv. destruct Hv as [Hc Hcs].
    destruct (validName_cases _ Hc) as (E1 & E2 & E3).
    rewrite E1, E2, E3. simpl. rewrite IH by assumption.
    simpl. rewrite <- app_assoc. reflexivity.
Qed.

Lemma cleanStack_app rooted out l1 l2 :
  cleanStack rooted out (l1 ++ l2)
  = cleanStack rooted (rev (cleanStack rooted out l1)) l2.
Proof.
  revert out. induction l1 as [|c l1 IH]; intros out; simpl.
  - rewrite rev_involutive. reflexivity.
  - destruct (String.eqb c "" || String.eqb c "."); [apply IH|].
    destruct (String.eqb c "..").
    + destruct out as [|top out']; [destruct rooted; apply IH|].
      destruct (String.eqb top ".."); apply IH.
    + apply IH.
Qed.

Lemma validPath_app a b : validPath (a ++ b) = validPath a && validPath b.
Proof. apply forallb_app. Qed.

Lemma validPath_rev a : validPath (rev a) = validPath a.
Proof.
  induction a as [|c a IH]; [reflexivity|].
  simpl. rewrite validPath_app, IH. simpl. rewrite andb_true_r. apply andb_comm.
Qed.

Lemma cleanStack_rooted_valid out cs :
  validPath out = true ->
  Forall (fun c => ContainsByte c "/"%char = false) cs ->
  validPath (cleanStack true out cs) = true.
Proof.
  revert out. induction cs as [|c cs IH]; intros out Ho Hcs; simpl.
  - rewrite validPath_rev. exact Ho.
  - inversion Hcs as [|? ? Hc Hcs']; subst.
    destruct (String.eqb c "") eqn:E1; [apply IH; assumption|].
    destruct (String.eqb c ".") eqn:E2; [apply IH; assumption|]. simpl.
    destruct (String.eqb c "..") eqn:E3.
    + destruct out as [|top out']; [apply IH; assumption|].
      simpl in Ho. apply andb_true_iff in Ho. destruct Ho as [Ht Ho'].
      destruct (validName_cases _ Ht) as (_ & _ & T3). rewrite T3.
      apply IH; assumption.
    + apply IH; [|assumption]. simpl. rewrite Ho.
      unfold validName. rewrite E1, E2, E3, Hc. reflexivity.
Qed.

Lemma IsAbs_render cs : IsAbs (render cs) = true.
Proof. unfold IsAbs, render. simpl. destruct (Join cs "/"); reflexivity. Qed.

(** every path resolves to valid components *)
Lemma resolve_valid w p cs : resolve w p = Some cs -> validPath cs = true.
Proof.
  unfold resolve. destruct p; [discriminate|]. intros H. inversion H; subst.
  apply cleanStack_rooted_valid; [reflexivity | apply Split_parts_nosep].
Qed.

Lemma resolve_abs w p :
  IsAbs p = true ->
  resolve w p = Some (cleanStack true [] (Split Separator p)).
Proof.
  intros H. unfold resolve. destruct p; [discriminate|]. rewrite H. reflexivity.
Qed.

Lemma cleanStack_skip rooted out l :
  cleanStack rooted out ("" :: l) = cleanStack rooted out l.
Proof. reflexivity. Qed.

Lemma resolve_render w cs : validPath cs = true -> resolve w (render cs) = Some cs.
Proof.
  intros Hv. rewrite resolve_abs by apply IsAbs_render.
  destruct cs as [|c cs]; [reflexivity|].
  rewrite Split_render; [|assumption|discriminate].
  rewrite cleanStack_skip, cleanStack_valid by assumption. reflexivity.
Qed.

Lemma Clean_abs p :
  IsAbs p = true -> Clean p = render (cleanStack true [] (Split Separator p)).
Proof.
  intros H. destruct p; [discriminate|]. unfold Clean. rewrite H. reflexivity.
Qed.

Lemma Clean_render cs : validPath cs = true -> Clean (render cs) = render cs.
Proof.
  intros Hv. rewrite Clean_abs by apply IsAbs_render.
  destruct cs as [|c cs]; [reflexivity|].
  rewrite Split_render; [|assumption|discriminate].
  rewrite cleanStack_skip, cleanStack_valid by assumption. reflexivity.
Qed.

Lemma render_nonempty cs : String.eqb (render cs) "" = false.
Proof. reflexivity. Qed.

(** [filepath.Join] of a canonical path and an entry name *)
Lemma JoinPath_render cs n :
  validPath cs = true -> validName n = true ->
  JoinPath [render cs; n] = render (cs ++ [n]).
Proof.
  intros Hv Hn. unfold JoinPath. simpl filter.
  destruct (validName_cases _ Hn) as (E1 & _ & _).
  rewrite E1. cbn [negb].
  change (Join [render cs; n] "/") with (render cs ++ String Separator n).
  assert (Habs : IsAbs (render cs ++ String Separator n) = true).
  { unfold IsAbs, render. simpl. destruct (Join cs "/" ++ String Separator n); reflexivity. }
  rewrite Clean_abs by exact Habs. f_equal.
  rewrite Split_app. rewrite (Split_nosep _ n) by (apply validName_nosep; exact Hn).
  destruct cs as [|c cs].
  - simpl. destruct (validName_cases _ Hn) as (F1 & F2 & F3). rewrite F1, F2, F3.
    reflexivity.
  - rewrite Split_render; [|assumption|discriminate].
    change (("" :: c :: cs) ++ [n])%list with ("" :: ((c :: cs) ++ [n]))%list.
    rewrite cleanStack_skip, cleanStack_valid; [reflexivity|].
    rewrite validPath_app, Hv. simpl. rewrite Hn. reflexivity.
Qed.

Lemma Join_snoc_append cs n x :
  Join (cs ++ [n]) "/" ++ x = Join (cs ++ [n ++ x]) "/".
Proof.
  induction cs as [|c cs IH]; [reflexivity|].
  destruct cs as [|c2 cs].
  - simpl. rewrite append_assoc. reflexivity.
  - change (Join ((c :: c2 :: cs) ++ [n]) "/")
      with (c ++ "/" ++ Join ((c2 :: cs) ++ [n]) "/").
    change (Join ((c :: c2 :: cs) ++ [n ++ x]) "/")
      with (c ++ "/" ++ Join ((c2 :: cs) ++ [n ++ x]) "/").
    rewrite <- IH. rewrite !append_assoc. reflexivity.
Qed.

(** appending to a canonical path extends its final component *)
Lemma render_snoc_append cs n x :
  render (cs ++ [n]) ++ x = render (cs ++ [n ++ x]).
Proof. unfold render. rewrite append_assoc, Join_snoc_append. reflexivity. Qed.

Lemma ContainsByte_app a b c :
  ContainsByte (a ++ b) c = ContainsByte a c || ContainsByte b c.
Proof.
  induction a as [|d a IH]; [reflexivity|]. simpl. rewrite IH. apply orb_assoc.
Qed.

Lemma validName_iff n :
  validName n = true
  <-> n <> "" /\ n <> "." /\ n <> ".." /\ ContainsByte n "/"%char = false.
Proof.
  unfold validName. rewrite !andb_true_iff, !negb_true_iff, !String.eqb_neq.
  tauto.
Qed.

Lemma validName_append n x :
  validName n = true -> noSep x = true -> validName (n ++ x) = true.
Proof.
  rewrite !validName_iff. intros (H1 & H2 & H3 & H4) Hx.
  unfold noSep, Separator in Hx. apply negb_true_iff in Hx.
  rewrite ContainsByte_app, H4, Hx.
  destruct n as [|a n]; [congruence|].
  repeat split; try discriminate.
  - simpl. intros E. inversion E as [[Ea En]].
    destruct n; [subst; congruence | discriminate].
  - simpl. intros E. inversion E as [[Ea En]]. subst a.
    destruct n as [|b n]; [congruence|].
    simpl in En. inversion En as [[Eb En']]. subst b.
    destruct n; [congruence | discriminate].
Qed.

Lemma HasPrefix_nil s : HasPrefix s "" = true.
Proof. destruct s; reflexivity. Qed.

Lemma IsAbs_slash s : IsAbs (String "/"%char s) = true.
Proof. unfold IsAbs. simpl. apply HasPrefix_nil. Qed.

Lemma IsAbs_render_app cs x : IsAbs (render cs ++ x) = true.
Proof. unfold render. rewrite append_assoc. apply IsAbs_slash. Qed.

Lemma lastSepEnd_app a n :
  noSep n = true -> lastSepEnd (a ++ String Separator n) = S (String.length a).
Proof.
  intros Hn. unfold noSep in Hn. apply negb_true_iff in Hn.
  induction a as [|c a IH]; simpl.
  - rewrite Hn. reflexivity.
  - rewrite ContainsByte_app. simpl. rewrite orb_true_r. rewrite IH. reflexivity.
Qed.

Lemma take_app a c n : take (S (String.length a)) (a ++ String c n) = a ++ String c "".
Proof. induction a as [|d a IH]; simpl; [reflexivity | simpl in IH; rewrite IH; reflexivity]. Qed.

Lemma Join_snoc cs c n :
  Join ((c :: cs) ++ [n]) "/" = Join (c :: cs) "/" ++ String Separator n.
Proof.
  revert c. induction cs as [|c2 cs IH]; intros c; [reflexivity|].
  change (Join ((c :: c2 :: cs) ++ [n]) "/")
    with (c ++ "/" ++ Join ((c2 :: cs) ++ [n]) "/").
  rewrite IH.
  change (Join (c :: c2 :: cs) "/") with (c ++ "/" ++ Join (c2 :: cs) "/").
  rewrite !append_assoc. reflexivity.
Qed.

Lemma render_snoc cs n :
  cs <> [] -> render (cs ++ [n]) = render cs ++ String Separator n.
Proof.
  destruct cs as [|c cs]; [congruence|]. intros _.
  unfold render. rewrite Join_snoc, append_assoc. reflexivity.
Qed.

(** [filepath.Dir] of a canonical path is its parent *)
Lemma Dir_render cs n :
  validPath cs = true -> validName n = true ->
  Filepath.Dir (render (cs ++ [n])) = render cs.
Proof.
  intros Hv Hn. unfold Filepath.Dir.
  assert (Hns : noSep n = true).
  { unfold noSep, Separator. rewrite (validName_nosep _ Hn). reflexivity. }
  destruct cs as [|c cs].
  - change (render ([] ++ [n])) with ("" ++ String Separator n).
    rewrite lastSepEnd_app by exact Hns. reflexivity.
  - rewrite render_snoc by discriminate.
    rewrite lastSepEnd_app by exact Hns. rewrite take_app.
    rewrite Clean_abs by apply IsAbs_render_app. f_equal.
    rewrite Split_app, Split_render; [|assumption|discriminate].
    change (("" :: c :: cs) ++ Split Separator "")%list
      with ("" :: ((c :: cs) ++ [""]))%list.
    rewrite cleanStack_skip, cleanStack_app.
    rewrite (cleanStack_valid [] (c :: cs)) by assumption.
    change (rev [] ++ c :: cs)%list with (c :: cs).
    rewrite cleanStack_skip. apply rev_involutive.
Qed.

(** *** prefixes of component lists *)

Lemma isPrefix_refl p : isPrefix p p = true.
Proof. induction p; simpl; [reflexivity | rewrite String.eqb_refl; assumption]. Qed.

Lemma isPrefix_app p r : isPrefix p (p ++ r) = true.
Proof. induction p; simpl; [reflexivity | rewrite String.eqb_refl; assumption]. Qed.

Lemma isPrefix_iff p q : isPrefix p q = true <-> exists r, q = (p ++ r)%list.
Proof.
  split.
  - revert q. induction p as [|c p IH]; intros q H.
    + exists q. reflexivity.
    + destruct q as [|d q]; [discriminate|]. simpl in H.
      apply andb_true_iff in H. destruct H as [E H]. apply String.eqb_eq in E.
      subst d. destruct (IH _ H) as [r ->]. exists r. reflexivity.
  - intros [r ->]. apply isPrefix_app.
Qed.

Lemma isPrefix_trans p q r :
  isPrefix p q = true -> isPrefix q r = true -> isPrefix p r = true.
Proof.
  rewrite !isPrefix_iff. intros [a ->] [b ->]. exists (a ++ b)%list.
  rewrite app_assoc. reflexivity.
Qed.

Lemma apart_sym p q : apart p q -> apart q p.
Proof. unfold apart. tauto. Qed.

Lemma apart_cons c d p q :
  apart (c :: p) (d :: q) <-> c <> d \/ (c = d /\ apart p q).
Proof.
  unfold apart. simpl. rewrite (String.eqb_sym d c).
  destruct (String.eqb c d) eqn:E.
  - apply String.eqb_eq in E. simpl. intuition congruence.
  - apply String.eqb_neq in E. simpl. intuition congruence.
Qed.

Lemma apart_nil_l p : ~ apart [] p.
Proof. intros [H _]. discriminate. Qed.

Lemma apart_nil_r p : ~ apart p [].
Proof. intros [_ H]. discriminate. Qed.

Lemma apart_app p q r s : apart p q -> apart (p ++ r) (q ++ s).
Proof.
  revert q. induction p as [|c p IH]; intros q H.
  - exfalso. exact (apart_nil_l _ H).
  - destruct q as [|d q]; [exfalso; exact (apart_nil_r _ H)|].
    simpl. apply apart_cons. apply apart_cons in H.
    destruct H as [H | [H1 H2]]; [left; assumption | right; split; auto].
Qed.

Lemma apart_app_l p q r : apart p q -> apart (p ++ r) q.
Proof. intros H. rewrite <- (app_nil_r q). apply apart_app. assumption. Qed.

Lemma apart_app_r p q r : apart p q -> apart p (q ++ r).
Proof. intros H. rewrite <- (app_nil_r p). apply apart_app. assumption. Qed.

Lemma apart_siblings p a b : a <> b -> apart (p ++ [a]) (p ++ [b]).
Proof.
  intros Hab. induction p as [|c p IH]; simpl.
  - apply apart_cons. left. assumption.
  - apply apart_cons. right. split; [reflexivity | assumption].
Qed.

End PathFacts.

(* ===================================================================== *)
(** ** The file-system tree: lookups after updates *)
(* ===================================================================== *)

Module FSFacts.
Import Strings Filepath FS OS Notions PathFacts.

Lemma assoc_replace_same k v es :
  mem k es = true -> assoc k (replace k v es) = Some v.
Proof.
  unfold mem. induction es as [|[k' x] t IH]; simpl; [discriminate|].
  destruct (String.eqb k' k) eqn:E; simpl.
  - rewrite String.eqb_refl. reflexivity.
  - rewrite E. exact IH.
Qed.

Lemma assoc_replace_other k k' v es :
  k' <> k -> assoc k' (replace k v es) = assoc k' es.
Proof.
  intros Hne. apply not_eq_sym in Hne. apply String.eqb_neq in Hne.
  induction es as [|[k2 x] t IH]; simpl; [reflexivity|].
  destruct (String.eqb k2 k) eqn:E; simpl.
  - apply String.eqb_eq in E. subst k2. rewrite Hne. reflexivity.
  - destruct (String.eqb k2 k'); [reflexivity | exact IH].
Qed.

Lemma assoc_insertSorted_same k v es :
  mem k es = false -> assoc k (insertSorted k v es) = Some v.
Proof.
  unfold mem. induction es as [|[k' x] t IH]; simpl.
  - rewrite String.eqb_refl. reflexivity.
  - destruct (String.eqb k' k) eqn:E; [discriminate|]. intros H.
    destruct (String.ltb k k'); simpl.
    + rewrite String.eqb_refl. reflexivity.
    + rewrite E. exact (IH H).
Qed.

Lemma assoc_insertSorted_other k k' v es :
  k' <> k -> assoc k' (insertSorted k v es) = assoc k' es.
Proof.
  intros Hne. apply not_eq_sym in Hne. apply String.eqb_neq in Hne.
  induction es as [|[k2 x] t IH]; simpl.
  - rewrite Hne. reflexivity.
  - destruct (String.ltb k k2); simpl.
    + rewrite Hne. reflexivity.
    + destruct (String.eqb k2 k'); [reflexivity | exact IH].
Qed.

Lemma assoc_put_same k v es : assoc k (put k v es) = Some v.
Proof.
  unfold put. destruct (mem k es) eqn:E.
  - apply assoc_replace_same. exact E.
  - apply assoc_insertSorted_same. exact E.
Qed.

Lemma assoc_put_other k k' v es : k' <> k -> assoc k' (put k v es) = assoc k' es.
Proof.
  intros Hne. unfold put. destruct (mem k es).
  - apply assoc_replace_other. exact Hne.
  - apply assoc_insertSorted_other. exact Hne.
Qed.

Lemma assoc_del_same k es : assoc k (del k es) = None.
Proof.
  induction es as [|[k' x] t IH]; simpl; [reflexivity|].
  destruct (String.eqb k' k) eqn:E; simpl; [exact IH|].
  rewrite E. exact IH.
Qed.

Lemma assoc_del_other k k' es : k' <> k -> assoc k' (del k es) = assoc k' es.
Proof.
  intros Hne. induction es as [|[k2 x] t IH]; simpl; [reflexivity|].
  destruct (String.eqb k2 k) eqn:E; simpl.
  - apply String.eqb_eq in E. subst k2.
    apply not_eq_sym in Hne. apply String.eqb_neq in Hne. rewrite Hne. exact IH.
  - destruct (String.eqb k2 k'); [reflexivity | exact IH].
Qed.

Lemma lookup_app n p q :
  lookup n (p ++ q) = match lookup n p with Some m => lookup m q | None => None end.
Proof.
  revert n. induction p as [|c p IH]; intros n; simpl; [reflexivity|].
  destruct n as [|pm mt es]; [reflexivity|].
  destruct (assoc c es); [apply IH | reflexivity].
Qed.

Lemma lookup_file_cons d pm mt c p : lookup (File d pm mt) (c :: p) = None.
Proof. reflexivity. Qed.

Lemma setAt_cons2 now pm mt es c c2 p v :
  setAt now (Dir pm mt es) (c :: c2 :: p) v
  = match assoc c es with
    | Some ch => match setAt now ch (c2 :: p) v with
                 | Some ch' => Some (Dir pm mt (put c ch' es))
                 | None => None
                 end
    | None => None
    end.
Proof. reflexivity. Qed.

(** the entry written by [setAt] is found at its path, with everything
    below it *)
Lemma setAt_lookup_under now n p v n' r :
  setAt now n p v = Some n' ->
  lookup n' (p ++ r) = match v with Some x => lookup x r | None => None end.
Proof.
  revert n n'. induction p as [|c p IH]; intros n n' H.
  - destruct n; discriminate.
  - destruct n as [|pm mt es]; [discriminate|].
    destruct p as [|c2 p].
    + simpl in H. inversion H; subst. simpl.
      destruct v as [x|].
      * rewrite assoc_put_same. reflexivity.
      * rewrite assoc_del_same. reflexivity.
    + change (setAt now (Dir pm mt es) (c :: c2 :: p) v)
        with (match assoc c es with
              | Some ch => match setAt now ch (c2 :: p) v with
                           | Some ch' => Some (Dir pm mt (put c ch' es))
                           | None => None
                           end
              | None => None
              end) in H.
      destruct (assoc c es) as [ch|]; [|discriminate].
      destruct (setAt now ch (c2 :: p) v) as [ch'|] eqn:E; [|discriminate].
      inversion H; subst.
      change (lookup (Dir pm mt (put c ch' es)) ((c :: c2 :: p) ++ r))
        with (match assoc c (put c ch' es) with
              | Some x => lookup x ((c2 :: p) ++ r)
              | None => None
              end).
      rewrite assoc_put_same. apply (IH _ _ E).
Qed.

Lemma setAt_lookup_same now n p v n' :
  setAt now n p v = Some n' -> lookup n' p = v.
Proof.
  intros H. pose proof (setAt_lookup_under now n p v n' [] H) as L.
  rewrite app_nil_r in L. rewrite L. destruct v; reflexivity.
Qed.

(** paths apart from the one written keep their node *)
Lemma setAt_frame now n p v n' q :
  setAt now n p v = Some n' -> apart p q -> lookup n' q = lookup n q.
Proof.
  revert n n' q. induction p as [|c p IH]; intros n n' q H Hap.
  - destruct n; discriminate.
  - destruct q as [|d q]; [exfalso; exact (apart_nil_r _ Hap)|].
    destruct n as [|pm mt es]; [discriminate|].
    apply apart_cons in Hap.
    destruct p as [|c2 p].
    + simpl in H. inversion H; subst. simpl.
      destruct Hap as [Hne | [_ Hap]]; [|exfalso; exact (apart_nil_l _ Hap)].
      destruct v as [x|].
      * rewrite assoc_put_other by congruence. reflexivity.
      * rewrite assoc_del_other by congruence. reflexivity.
    + change (setAt now (Dir pm mt es) (c :: c2 :: p) v)
        with (match assoc c es with
              | Some ch => match setAt now ch (c2 :: p) v with
                           | Some ch' => Some (Dir pm mt (put c ch' es))
                           | None => None
                           end
              | None => None
              end) in H.
      destruct (assoc c es) as [ch|] eqn:Ea; [|discriminate].
      destruct (setAt now ch (c2 :: p) v) as [ch'|] eqn:E; [|discriminate].
      inversion H; subst. simpl.
      destruct Hap as [Hne | [<- Hap]].
      * rewrite assoc_put_other by congruence. reflexivity.
      * rewrite assoc_put_same, Ea. apply (IH _ _ _ E Hap).
Qed.

(** [setAt] succeeds exactly when the parent is a directory *)
Lemma setAt_ok now n p c v pm mt es :
  lookup n p = Some (Dir pm mt es) -> exists n', setAt now n (p ++ [c]) v = Some n'.
Proof.
  revert n. induction p as [|d p IH]; intros n H.
  - simpl in H. inversion H; subst. simpl. eexists; reflexivity.
  - destruct n as [|pm' mt' es']; [discriminate|]. simpl in H.
    destruct (assoc d es') as [ch|] eqn:Ea; [|discriminate].
    destruct (IH _ H) as [ch' Hch].
    change (((d :: p) ++ [c]))%list with (d :: (p ++ [c]))%list.
    destruct (p ++ [c])%list as [|x l] eqn:El.
    + destruct p; discriminate.
    + rewrite setAt_cons2, Ea, Hch. eexists; reflexivity.
Qed.

Lemma setAt_parent now n p c v n' :
  setAt now n (p ++ [c]) v = Some n' ->
  exists pm mt es, lookup n p = Some (Dir pm mt es).
Proof.
  revert n n'. induction p as [|d p IH]; intros n n' H.
  - destruct n as [|pm mt es]; [simpl in H; discriminate|]. simpl. eauto.
  - destruct n as [|pm mt es]; [simpl in H; discriminate|].
    change (((d :: p) ++ [c]))%list with (d :: (p ++ [c]))%list in H.
    destruct (p ++ [c])%list as [|x l] eqn:El.
    + destruct p; discriminate.
    + rewrite setAt_cons2 in H.
      destruct (assoc d es) as [ch|] eqn:Ea; [|discriminate].
      destruct (setAt now ch (x :: l) v) as [ch'|] eqn:E; [|discriminate].
      simpl. rewrite Ea. eapply IH. eassumption.
Qed.

(** [mkdirAll] leaves every path that is not on the way to [p] *)
Lemma mkdirAll_frame now perm n p n' q :
  mkdirAll now perm n p = Some n' -> isPrefix q p = false ->
  lookup n' q = lookup n q.
Proof.
  revert n n' q. induction p as [|c p IH]; intros n n' q H Hq.
  - destruct n; [discriminate|]. simpl in H. inversion H. reflexivity.
  - destruct q as [|d q]; [discriminate|].
    destruct n as [|pm mt es]; [discriminate|]. simpl in H.
    simpl in Hq.
    destruct (assoc c es) as [ch|] eqn:Ea.
    + destruct (mkdirAll now perm ch p) as [ch'|] eqn:E; [|discriminate].
      inversion H; subst. simpl.
      destruct (String.eqb d c) eqn:Edc.
      * apply String.eqb_eq in Edc. subst d. simpl in Hq.
        rewrite assoc_put_same, Ea. apply (IH _ _ _ E Hq).
      * apply String.eqb_neq in Edc. rewrite assoc_put_other by congruence.
        reflexivity.
    + destruct (mkdirAll now perm (Dir perm now []) p) as [ch'|] eqn:E; [|discriminate].
      inversion H; subst. simpl.
      destruct (String.eqb d c) eqn:Edc.
      * apply String.eqb_eq in Edc. subst d. simpl in Hq.
        rewrite assoc_put_same, Ea. rewrite (IH _ _ _ E Hq).
        destruct q; [discriminate | reflexivity].
      * apply String.eqb_neq in Edc. rewrite assoc_put_other by congruence.
        reflexivity.
Qed.

Lemma mkdirAll_isdir now perm n p n' :
  mkdirAll now perm n p = Some n' ->
  exists pm mt es, lookup n' p = Some (Dir pm mt es).
Proof.
  revert n n'. induction p as [|c p IH]; intros n n' H.
  - destruct n; [discriminate|]. simpl in H. inversion H. simpl. eauto.
  - destruct n as [|pm mt es]; [discriminate|]. simpl in H.
    destruct (assoc c es) as [ch|] eqn:Ea.
    + destruct (mkdirAll now perm ch p) as [ch'|] eqn:E; [|discriminate].
      inversion H; subst. simpl. rewrite assoc_put_same. eapply IH; eassumption.
    + destruct (mkdirAll now perm (Dir perm now []) p) as [ch'|] eqn:E; [|discriminate].
      inversion H; subst. simpl. rewrite assoc_put_same. eapply IH; eassumption.
Qed.

(** *** well-formed trees *)

Lemma wf_Dir pm mt es :
  wf (Dir pm mt es) = namesOk es && forallb (fun e => wf (snd e)) es.
Proof.
  simpl. f_equal. induction es as [|[k c] t IH]; simpl; [reflexivity|].
  rewrite IH. reflexivity.
Qed.

Lemma mem_put k k' v es : mem k' (put k v es) = String.eqb k' k || mem k' es.
Proof.
  unfold mem at 1. destruct (String.eqb k' k) eqn:E.
  - apply String.eqb_eq in E. subst. rewrite assoc_put_same. reflexivity.
  - apply String.eqb_neq in E. rewrite assoc_put_other by assumption. reflexivity.
Qed.

Lemma mem_del k k' es : mem k' (del k es) = negb (String.eqb k' k) && mem k' es.
Proof.
  unfold mem at 1. destruct (String.eqb k' k) eqn:E.
  - apply String.eqb_eq in E. subst. rewrite assoc_del_same. reflexivity.
  - apply String.eqb_neq in E. rewrite assoc_del_other by assumption. reflexivity.
Qed.

Lemma mem_replace k k' v es : mem k' (replace k v es) = mem k' es.
Proof.
  unfold mem. induction es as [|[k2 x] t IH]; simpl; [reflexivity|].
  destruct (String.eqb k2 k) eqn:E; simpl.
  - apply String.eqb_eq in E. subst k2. destruct (String.eqb k k'); reflexivity.
  - destruct (String.eqb k2 k'); [reflexivity | exact IH].
Qed.

Lemma mem_insertSorted k k' v es :
  mem k' (insertSorted k v es) = String.eqb k k' || mem k' es.
Proof.
  unfold mem. induction es as [|[k2 x] t IH]; simpl.
  - destruct (String.eqb k k'); reflexivity.
  - destruct (String.ltb k k2); simpl.
    + destruct (String.eqb k k'); reflexivity.
    + destruct (String.eqb k2 k'); [rewrite orb_true_r; reflexivity | exact IH].
Qed.

Lemma namesOk_replace k v es :
  namesOk es = true -> validName k = true -> namesOk (replace k v es) = true.
Proof.
  intros H Hk. induction es as [|[k2 x] t IH]; simpl in *; [reflexivity|].
  apply andb_true_iff in H. destruct H as [H Ht].
  apply andb_true_iff in H. destruct H as [Hv Hm].
  destruct (String.eqb k2 k) eqn:E; simpl.
  - apply String.eqb_eq in E. subst k2. rewrite Hv, Hm, Ht. reflexivity.
  - rewrite Hv, mem_replace, Hm, (IH Ht). reflexivity.
Qed.

Lemma namesOk_insertSorted k v es :
  namesOk es = true -> validName k = true -> mem k es = false ->
  namesOk (insertSorted k v es) = true.
Proof.
  intros H Hk Hm. induction es as [|[k2 x] t IH]; simpl in *.
  - rewrite Hk. reflexivity.
  - apply andb_true_iff in H. destruct H as [H Ht].
    apply andb_true_iff in H. destruct H as [Hv Hm2].
    unfold mem in Hm. simpl in Hm.
    destruct (String.eqb k2 k) eqn:E; [discriminate|].
    destruct (String.ltb k k2); simpl.
    + rewrite Hk, Hv, Hm2, Ht. unfold mem. simpl. rewrite E.
      fold (mem k t). unfold mem. rewrite Hm. reflexivity.
    + rewrite Hv, mem_insertSorted. rewrite String.eqb_sym, E. simpl.
      rewrite Hm2. simpl. apply IH; [assumption|]. unfold mem. exact Hm.
Qed.

Lemma namesOk_put k v es :
  namesOk es = true -> validName k = true -> namesOk (put k v es) = true.
Proof.
  intros H Hk. unfold put. destruct (mem k es) eqn:E.
  - apply namesOk_replace; assumption.
  - apply namesOk_insertSorted; assumption.
Qed.

Lemma namesOk_del k es : namesOk es = true -> namesOk (del k es) = true.
Proof.
  intros H. induction es as [|[k2 x] t IH]; simpl in *; [reflexivity|].
  apply andb_true_iff in H. destruct H as [H Ht].
  apply andb_true_iff in H. destruct H as [Hv Hm].
  destruct (String.eqb k2 k) eqn:E; simpl; [exact (IH Ht)|].
  fold (del k t). rewrite Hv, mem_del. apply negb_true_iff in Hm. rewrite Hm.
  rewrite andb_false_r. simpl. exact (IH Ht).
Qed.

Lemma forallb_replace (P : node -> bool) k v es :
  forallb (fun e => P (snd e)) es = true -> P v = true ->
  forallb (fun e => P (snd e)) (replace k v es) = true.
Proof.
  intros H Hv. induction es as [|[k2 x] t IH]; simpl in *; [reflexivity|].
  apply andb_true_iff in H. destruct H as [Hx Ht].
  destruct (String.eqb k2 k); simpl.
  - rewrite Hv, Ht. reflexivity.
  - rewrite Hx, (IH Ht). reflexivity.
Qed.

Lemma forallb_insertSorted (P : node -> bool) k v es :
  forallb (fun e => P (snd e)) es = true -> P v = true ->
  forallb (fun e => P (snd e)) (insertSorted k v es) = true.
Proof.
  intros H Hv. induction es as [|[k2 x] t IH]; simpl in *.
  - rewrite Hv. reflexivity.
  - apply andb_true_iff in H. destruct H as [Hx Ht].
    destruct (String.ltb k k2); simpl.
    + rewrite Hv, Hx, Ht. reflexivity.
    + rewrite Hx, (IH Ht). reflexivity.
Qed.

Lemma forallb_put (P : node -> bool) k v es :
  forallb (fun e => P (snd e)) es = true -> P v = true ->
  forallb (fun e => P (snd e)) (put k v es) = true.
Proof.
  intros H Hv. unfold put. destruct (mem k es).
  - apply forallb_replace; assumption.
  - apply forallb_insertSorted; assumption.
Qed.

Lemma forallb_del (P : node -> bool) k es :
  forallb (fun e => P (snd e)) es = true ->
  forallb (fun e => P (snd e)) (del k es) = true.
Proof.
  intros H. induction es as [|[k2 x] t IH]; simpl in *; [reflexivity|].
  apply andb_true_iff in H. destruct H as [Hx Ht].
  destruct (String.eqb k2 k); simpl; [exact (IH Ht)|].
  rewrite Hx. exact (IH Ht).
Qed.

Lemma forallb_assoc (P : node -> bool) k es v :
  forallb (fun e => P (snd e)) es = true -> assoc k es = Some v -> P v = true.
Proof.
  intros H Ha. induction es as [|[k2 x] t IH]; simpl in *; [discriminate|].
  apply andb_true_iff in H. destruct H as [Hx Ht].
  destruct (String.eqb k2 k); [inversion Ha; subst; exact Hx | exact (IH Ht Ha)].
Qed.

Lemma wf_assoc pm mt es k v :
  wf (Dir pm mt es) = true -> assoc k es = Some v -> wf v = true.
Proof.
  rewrite wf_Dir. intros H Ha. apply andb_true_iff in H. destruct H as [_ H].
  exact (forallb_assoc wf k es v H Ha).
Qed.

Lemma wf_lookup n p m : wf n = true -> lookup n p = Some m -> wf m = true.
Proof.
  revert n. induction p as [|c p IH]; intros n Hw H; simpl in H.
  - inversion H; subst. exact Hw.
  - destruct n as [|pm mt es]; [discriminate|].
    destruct (assoc c es) as [ch|] eqn:Ea; [|discriminate].
    apply (IH ch); [|exact H]. eapply wf_assoc; eassumption.
Qed.

Lemma wf_put pm mt mt' es k v :
  wf (Dir pm mt es) = true -> validName k = true -> wf v = true ->
  wf (Dir pm mt' (put k v es)) = true.
Proof.
  rewrite !wf_Dir. intros H Hk Hv. apply andb_true_iff in H. destruct H as [H1 H2].
  rewrite namesOk_put by assumption. simpl. apply forallb_put; assumption.
Qed.

Lemma wf_del pm mt mt' es k :
  wf (Dir pm mt es) = true -> wf (Dir pm mt' (del k es)) = true.
Proof.
  rewrite !wf_Dir. intros H. apply andb_true_iff in H. destruct H as [H1 H2].
  rewrite namesOk_del by assumption. simpl. apply forallb_del; assumption.
Qed.

Lemma wf_setAt now n p v n' :
  wf n = true -> validPath p = true ->
  match v with Some x => wf x = true | None => True end ->
  setAt now n p v = Some n' -> wf n' = true.
Proof.
  revert n n'. induction p as [|c p IH]; intros n n' Hw Hp Hv H.
  - destruct n; discriminate.
  - destruct n as [|pm mt es]; [discriminate|].
    simpl in Hp. apply andb_true_iff in Hp. destruct Hp as [Hc Hp].
    destruct p as [|c2 p].
    + simpl in H. inversion H; subst. destruct v as [x|].
      * eapply wf_put; eassumption.
      * eapply wf_del; eassumption.
    + rewrite setAt_cons2 in H.
      destruct (assoc c es) as [ch|] eqn:Ea; [|discriminate].
      destruct (setAt now ch (c2 :: p) v) as [ch'|] eqn:E; [|discriminate].
      inversion H; subst. eapply wf_put; [eassumption | assumption |].
      eapply IH; [| exact Hp | exact Hv | exact E]. eapply wf_assoc; eassumption.
Qed.

Lemma wf_mkdirAll now perm n p n' :
  wf n = true -> validPath p = true ->
  mkdirAll now perm n p = Some n' -> wf n' = true.
Proof.
  revert n n'. induction p as [|c p IH]; intros n n' Hw Hp H.
  - destruct n; [discriminate|]. simpl in H. inversion H; subst. exact Hw.
  - destruct n as [|pm mt es]; [discriminate|]. simpl in H.
    simpl in Hp. apply andb_true_iff in Hp. destruct Hp as [Hc Hp].
    destruct (assoc c es) as [ch|] eqn:Ea.
    + destruct (mkdirAll now perm ch p) as [ch'|] eqn:E; [|discriminate].
      inversion H; subst. eapply wf_put; [eassumption | assumption |].
      eapply IH; [| exact Hp | exact E]. eapply wf_assoc; eassumption.
    + destruct (mkdirAll now perm (Dir perm now []) p) as [ch'|] eqn:E; [|discriminate].
      inversion H; subst. eapply wf_put; [eassumption | assumption |].
      eapply IH; [| exact Hp | exact E]. reflexivity.
Qed.

(** the names listed in a directory of a well-formed tree *)
Lemma namesOk_valid es k v :
  namesOk es = true -> In (k, v) es -> validName k = true.
Proof.
  induction es as [|[k2 x] t IH]; simpl; intros H Hin; [contradiction|].
  apply andb_true_iff in H. destruct H as [H Ht].
  apply andb_true_iff in H. destruct H as [Hv Hm].
  destruct Hin as [E | Hin]; [inversion E; subst; exact Hv | exact (IH Ht Hin)].
Qed.

Lemma assoc_In k es v : assoc k es = Some v -> In (k, v) es.
Proof.
  induction es as [|[k2 x] t IH]; simpl; [discriminate|].
  destruct (String.eqb k2 k) eqn:E.
  - apply String.eqb_eq in E. intros H. inversion H; subst. left. reflexivity.
  - intros H. right. exact (IH H).
Qed.

Lemma namesOk_In_assoc es k v :
  namesOk es = true -> In (k, v) es -> assoc k es = Some v.
Proof.
  induction es as [|[k2 x] t IH]; simpl; intros H Hin; [contradiction|].
  apply andb_true_iff in H. destruct H as [H Ht].
  apply andb_true_iff in H. destruct H as [Hv Hm].
  destruct Hin as [E | Hin].
  - inversion E; subst. rewrite String.eqb_refl. reflexivity.
  - destruct (String.eqb k2 k) eqn:E.
    + apply String.eqb_eq in E. subst k2. exfalso.
      apply negb_true_iff in Hm. unfold mem in Hm. rewrite (IH Ht Hin) in Hm.
      discriminate.
    + exact (IH Ht Hin).
Qed.

End FSFacts.

(* ===================================================================== *)
(** ** The calls of package [os] on canonical paths *)
(* ===================================================================== *)

Module OSFacts.
Import Strings Filepath FS OS Notions PathFacts FSFacts.

Lemma nodeAt_render w s :
  validPath s = true -> nodeAt w (render s) = lookup (fs w) s.
Proof. intros H. unfold nodeAt. rewrite resolve_render by exact H. reflexivity. Qed.

Lemma fs_setFs w n ev : fs (setFs w n ev) = n.
Proof. reflexivity. Qed.

Lemma bind_Ok {A B} (m : M A) (k : A -> M B) w a w1 :
  m w = (Ok a, w1) -> bind m k w = k a w1.
Proof. intros H. unfold bind. rewrite H. reflexivity. Qed.

Lemma bind_Err {A B} (m : M A) (k : A -> M B) w e w1 :
  m w = (Err e, w1) -> bind m k w = (Err e, w1).
Proof. intros H. unfold bind. rewrite H. reflexivity. Qed.

Lemma bind_inv {A B} (m : M A) (k : A -> M B) w r w' :
  bind m k w = (r, w') ->
  (exists a w1, m w = (Ok a, w1) /\ k a w1 = (r, w'))
  \/ (exists e, m w = (Err e, w') /\ r = Err e).
Proof.
  unfold bind. destruct (m w) as [[a|e] w1]; intros H.
  - left. eauto.
  - right. inversion H; subst. eauto.
Qed.

Lemma attempt_eq {A} (m : M A) w : attempt m w = (Ok (fst (m w)), snd (m w)).
Proof. unfold attempt. destruct (m w). reflexivity. Qed.

(** *** what each mutation can do *)

Lemma WriteFile_cases s data perm w :
  validPath s = true ->
  (exists e, WriteFile (render s) data perm w = (Err e, w))
  \/ (exists n' pm,
        setAt (now w) (fs w) s (Some (File data pm (now w))) = Some n'
        /\ WriteFile (render s) data perm w
           = (Ok tt, setFs w n' (EvWriteFile (render s) data))).
Proof.
  intros Hs. unfold WriteFile. rewrite resolve_render by exact Hs.
  destruct (lookup (fs w) s) as [[d pm mt|pm mt es]|] eqn:El.
  - unfold insertAt.
    destruct (setAt (now w) (fs w) s (Some (File data (permOf (File d pm mt)) (now w))))
      as [n'|] eqn:E; [right | left]; eauto.
  - left. eauto.
  - unfold insertAt.
    destruct (setAt (now w) (fs w) s (Some (File data perm (now w))))
      as [n'|] eqn:E; [right | left]; eauto.
Qed.

Lemma MkdirAll_cases s perm w :
  validPath s = true ->
  (exists e, MkdirAll (render s) perm w = (Err e, w))
  \/ (exists n',
        mkdirAll (now w) perm (fs w) s = Some n'
        /\ MkdirAll (render s) perm w = (Ok tt, setFs w n' (EvMkdirAll (render s)))).
Proof.
  intros Hs. unfold MkdirAll. rewrite resolve_render by exact Hs.
  destruct (mkdirAll (now w) perm (fs w) s) as [n'|] eqn:E; [right | left]; eauto.
Qed.

Lemma Remove_cases s w :
  validPath s = true ->
  (exists e, Remove (render s) w = (Err e, w))
  \/ (exists n',
        setAt (now w) (fs w) s None = Some n'
        /\ Remove (render s) w = (Ok tt, setFs w n' (EvRemove (render s)))).
Proof.
  intros Hs. unfold Remove. rewrite resolve_render by exact Hs.
  destruct (lookup (fs w) s) as [[d pm mt|pm mt [|e es]]|] eqn:El;
    try (left; eauto; fail);
    unfold removeAt; destruct (setAt (now w) (fs w) s None) as [n'|] eqn:E;
    [right | left | right | left]; eauto.
Qed.

Lemma RemoveAll_cases s w :
  validPath s = true ->
  (exists r, RemoveAll (render s) w = (r, w))
  \/ (exists n',
        setAt (now w) (fs w) s None = Some n'
        /\ RemoveAll (render s) w = (Ok tt, setFs w n' (EvRemoveAll (render s)))).
Proof.
  intros Hs. unfold RemoveAll. rewrite resolve_render by exact Hs.
  destruct (lookup (fs w) s) as [n|] eqn:El;
    [|destruct (IsNotExist (missing (fs w) s)); left; eauto].
  unfold removeAt. destruct (setAt (now w) (fs w) s None) as [n'|] eqn:E;
    [right | left]; eauto.
Qed.

(** a successful [RemoveAll] leaves nothing at the path *)
Lemma RemoveAll_gone s w w' :
  validPath s = true ->
  RemoveAll (render s) w = (Ok tt, w') -> lookup (fs w') s = None.
Proof.
  intros Hs. unfold RemoveAll. rewrite resolve_render by exact Hs.
  destruct (lookup (fs w) s) as [n|] eqn:El.
  - unfold removeAt. destruct (setAt (now w) (fs w) s None) as [n'|] eqn:E;
      intros H; inversion H; subst.
    rewrite fs_setFs. exact (setAt_lookup_same _ _ _ _ _ E).
  - destruct (IsNotExist (missing (fs w) s)); intros H; inversion H; subst. exact El.
Qed.

Lemma Rename_cases s d w :
  validPath s = true -> validPath d = true ->
  (exists e, Rename (render s) (render d) w = (Err e, w))
  \/ (pathEqb s d = true
      /\ Rename (render s) (render d) w
         = (Ok tt, note w (EvRename (render s) (render d))))
  \/ (exists n n1 n2,
        lookup (fs w) s = Some n
        /\ isPrefix s d = false
        /\ pathEqb s d = false
        /\ (forall pm mt es, lookup (fs w) d <> Some (Dir pm mt es))
        /\ setAt (now w) (fs w) s None = Some n1
        /\ setAt (now w) n1 d (Some n) = Some n2
        /\ Rename (render s) (render d) w
           = (Ok tt, setFs w n2 (EvRename (render s) (render d)))).
Proof.
  intros Hs Hd. unfold Rename. rewrite !resolve_render by assumption.
  destruct (lookup (fs w) s) as [n|] eqn:Es; [|left; eauto].
  destruct (lookup (fs w) d) as [[dd dpm dmt|dpm dmt des]|] eqn:Ed;
    try (left; eauto; fail).
  - destruct (crossDevice w s d); [left; eauto|].
    destruct (pathEqb s d) eqn:Eq; [right; left; eauto|].
    destruct (isPrefix s d) eqn:Ep; [left; eauto|].
    destruct (isDir n && isSome (Some (File dd dpm dmt))); [left; eauto|].
    unfold removeAt, insertAt.
    destruct (setAt (now w) (fs w) s None) as [n1|] eqn:E1; [|left; eauto].
    destruct (setAt (now w) n1 d (Some n)) as [n2|] eqn:E2; [|left; eauto].
    right; right. exists n, n1, n2. repeat split; try assumption; try reflexivity.
    intros; discriminate.
  - destruct (crossDevice w s d); [left; eauto|].
    destruct (pathEqb s d) eqn:Eq; [right; left; eauto|].
    destruct (isPrefix s d) eqn:Ep; [left; eauto|].
    destruct (isDir n && isSome None); [left; eauto|].
    unfold removeAt, insertAt.
    destruct (setAt (now w) (fs w) s None) as [n1|] eqn:E1; [|left; eauto].
    destruct (setAt (now w) n1 d (Some n)) as [n2|] eqn:E2; [|left; eauto].
    right; right. exists n, n1, n2. repeat split; try assumption; try reflexivity.
    intros; discriminate.
Qed.

Lemma pathEqb_true p q : pathEqb p q = true -> p = q.
Proof.
  unfold pathEqb. intros H. apply andb_true_iff in H. destruct H as [H1 H2].
  apply isPrefix_iff in H1. apply isPrefix_iff in H2.
  destruct H1 as [a ->]. destruct H2 as [b Hb].
  rewrite <- app_assoc in Hb. rewrite <- (app_nil_r p) in Hb at 1.
  apply app_inv_head in Hb. symmetry in Hb. apply app_eq_nil in Hb.
  destruct Hb as [-> _]. rewrite app_nil_r. reflexivity.
Qed.

End OSFacts.

(* ===================================================================== *)
(** ** The copy-and-delete fallback loses nothing *)
(* ===================================================================== *)

Module CopyFacts.
Import Strings Filepath FS OS FilepathOS Config Trash Notions PathFacts FSFacts OSFacts.

Lemma copyPost_refl s d w r :
  wf (fs w) = true -> r <> Ok tt -> copyPost s d w r w.
Proof.
  intros Hw Hr. constructor; auto.
  - intros rel data H. left. exact H.
  - intros E. contradiction.
Qed.

Lemma fileAt_file_rel data pm mt rel data' :
  fileAt (File data pm mt) rel data' -> rel = [] /\ data' = data.
Proof.
  intros (pm' & mt' & H). destruct rel; simpl in H; [|discriminate].
  inversion H; subst. split; reflexivity.
Qed.

Lemma fileAt_app n s rel m data :
  lookup n s = Some m -> (fileAt n (s ++ rel) data <-> fileAt m rel data).
Proof.
  intros H. unfold fileAt. rewrite lookup_app, H. tauto.
Qed.

Section Copy.
Context {codec : JsonCodec}.

Lemma copyFile_post s d w r w' :
  validPath s = true -> validPath d = true -> apart s d ->
  wf (fs w) = true ->
  copyFileAndDelete (render s) (render d) w = (r, w') ->
  copyPost s d w r w'.
Proof.
  intros Hs Hd Hap Hw. unfold copyFileAndDelete.
  unfold bind at 1. unfold ReadFile, query, readFileIn.
  rewrite nodeAt_render by exact Hs.
  destruct (lookup (fs w) s) as [[data pm mt|pm mt es]|] eqn:Es;
    try (intros H; inversion H; subst; apply copyPost_refl; [assumption|discriminate]).
  unfold bind at 1. unfold Stat, query, statIn. rewrite nodeAt_render, Es by exact Hs.
  unfold bind at 1.
  destruct (WriteFile_cases d data (Mode (infoOf (File data pm mt))) w Hd)
    as [[e He] | (n1 & pm1 & Hset & He)]; intros H; rewrite He in H.
  { inversion H; subst; apply copyPost_refl; [assumption|discriminate]. }
  revert H.
  set (w1 := setFs w n1 (EvWriteFile (render d) data)).
  assert (Hw1 : wf (fs w1) = true).
  { refine (wf_setAt _ _ _ _ _ Hw Hd _ Hset). reflexivity. }
  assert (Hd1 : lookup (fs w1) d = Some (File data pm1 (now w))).
  { exact (setAt_lookup_same _ _ _ _ _ Hset). }
  assert (Hs1 : lookup (fs w1) s = Some (File data pm mt)).
  { unfold w1. rewrite fs_setFs, (setAt_frame _ _ _ _ _ s Hset (apart_sym _ _ Hap)).
    exact Es. }
  destruct (Remove_cases s w1 Hs) as [[e He2] | (n2 & Hrm & He2)];
    intros H; fold w1 in H; rewrite He2 in H; inversion H; subst.
  - constructor.
    + exact Hw1.
    + intros q Hq1 Hq2. unfold w1. rewrite fs_setFs.
      exact (setAt_frame _ _ _ _ _ q Hset Hq2).
    + intros rel data' Hf. left.
      apply (fileAt_app _ _ rel _ data' Es) in Hf.
      apply (fileAt_app _ _ rel _ data' Hs1). exact Hf.
    + discriminate.
  - assert (Hd2 : lookup n2 d = Some (File data pm1 (now w))).
    { rewrite (setAt_frame _ _ _ _ _ d Hrm Hap). exact Hd1. }
    assert (Hmv : moved (fs w) n2 s d).
    { intros rel data' Hf. apply (fileAt_app _ _ rel _ data' Es) in Hf.
      destruct (fileAt_file_rel _ _ _ _ _ Hf) as [-> ->].
      rewrite app_nil_r. exists pm1, (now w). exact Hd2. }
    constructor; rewrite fs_setFs.
    + exact (wf_setAt _ _ _ None _ Hw1 Hs I Hrm).
    + intros q Hq1 Hq2. rewrite (setAt_frame _ _ _ _ _ q Hrm Hq1).
      unfold w1. rewrite fs_setFs. exact (setAt_frame _ _ _ _ _ q Hset Hq2).
    + intros rel data' Hf. right. exact (Hmv rel data' Hf).
    + intros _. split; [exact (setAt_lookup_same _ _ _ _ _ Hrm) | exact Hmv].
Qed.


Lemma apart_child_sib (s : list string) n n' rel :
  n <> n' -> apart (s ++ [n]) ((s ++ [n']) ++ rel).
Proof. intros H. apply apart_app_r. apply apart_siblings. exact H. Qed.

Lemma apart_child_cross (s d : list string) n n' rel :
  apart s d -> apart (s ++ [n]) ((d ++ [n']) ++ rel).
Proof. intros H. apply apart_app_r. apply apart_app. exact H. Qed.

Lemma mem_In_names k (es : entries_t) : In k (map fst es) -> mem k es = true.
Proof.
  unfold mem. induction es as [|[k2 x] t IH]; simpl; [contradiction|].
  intros [E | Hin].
  - subst. rewrite String.eqb_refl. reflexivity.
  - destruct (String.eqb k2 k); [reflexivity | exact (IH Hin)].
Qed.

Lemma namesOk_NoDup es : namesOk es = true -> NoDup (map fst es).
Proof.
  induction es as [|[k x] t IH]; simpl; intros H; [constructor|].
  apply andb_true_iff in H. destruct H as [H Ht].
  apply andb_true_iff in H. destruct H as [Hv Hm].
  constructor; [|exact (IH Ht)].
  intros Hin. apply mem_In_names in Hin. rewrite Hin in Hm. discriminate.
Qed.

Lemma map_Name_toEntry es : map Name (map toEntry es) = map fst es.
Proof. rewrite map_map. reflexivity. Qed.

(** the loop of [copyDirAndDelete] over the entries of the source *)
Lemma copyLoop_post s d (step : DirEntry -> unit -> M unit) l :
  apart s d ->
  NoDup (map Name l) ->
  (forall e, In e l -> forall w r w',
       wf (fs w) = true -> step e tt w = (r, w') ->
       copyPost (s ++ [Name e]) (d ++ [Name e]) w r w') ->
  forall w r w',
    wf (fs w) = true -> forEach l step tt w = (r, w') ->
    wf (fs w') = true
    /\ (forall q,
          (forall e, In e l ->
                     apart (s ++ [Name e]) q /\ apart (d ++ [Name e]) q) ->
          lookup (fs w') q = lookup (fs w) q)
    /\ (forall e, In e l ->
                  keptOrMoved (fs w) (fs w') (s ++ [Name e]) (d ++ [Name e]))
    /\ (r = Ok tt ->
        forall e, In e l ->
                  lookup (fs w') (s ++ [Name e]) = None
                  /\ moved (fs w) (fs w') (s ++ [Name e]) (d ++ [Name e])).
Proof.
  intros Hap. induction l as [|e l IH]; intros Hnd Hstep w r w' Hw H.
  - simpl in H. inversion H; subst. repeat split; try assumption; try contradiction.
  - simpl in Hnd. inversion Hnd as [|? ? Hnotin Hnd']; subst.
    assert (Hne : forall e', In e' l -> Name e <> Name e').
    { intros e' Hin E. apply Hnotin. rewrite E. apply in_map. exact Hin. }
    simpl in H. apply bind_inv in H.
    destruct H as [([] & w1 & H1 & H2) | (err & H1 & ->)].
    + pose proof (Hstep e (or_introl eq_refl) w (Ok tt) w1 Hw H1) as P1.
      destruct P1 as [Pwf Pfr Pkept Pdone].
      destruct (Pdone eq_refl) as [Pgone Pmoved].
      assert (Hstep' : forall e', In e' l -> forall w r w',
                 wf (fs w) = true -> step e' tt w = (r, w') ->
                 copyPost (s ++ [Name e']) (d ++ [Name e']) w r w').
      { intros e' Hin. apply Hstep. right. exact Hin. }
      destruct (IH Hnd' Hstep' w1 r w' Pwf H2) as (Lwf & Lfr & Lkept & Ldone).
      assert (Hkeep1 : forall e', In e' l -> forall rel,
                 lookup (fs w1) ((s ++ [Name e']) ++ rel)
                 = lookup (fs w) ((s ++ [Name e']) ++ rel)).
      { intros e' Hin rel. apply Pfr.
        - apply apart_child_sib. apply Hne. exact Hin.
        - apply apart_child_cross. apply apart_sym. exact Hap. }
      assert (Hmoved_e : moved (fs w) (fs w') (s ++ [Name e]) (d ++ [Name e])).
      { intros rel data Hf. destruct (Pmoved rel data Hf) as (pm & mt & Hl).
        exists pm, mt. rewrite <- Hl. apply Lfr. intros e' Hin. split.
        - apply apart_child_cross. exact Hap.
        - apply apart_child_sib. intros E. exact (Hne e' Hin (eq_sym E)). }
      split; [exact Lwf|]. split; [|split].
      * intros q Hq. rewrite Lfr.
        -- destruct (Hq e (or_introl eq_refl)) as [Q1 Q2]. apply Pfr; assumption.
        -- intros e' Hin. apply Hq. right. exact Hin.
      * intros e' [<- | Hin] rel data Hf.
        -- right. exact (Hmoved_e rel data Hf).
        -- apply (Lkept e' Hin rel data). destruct Hf as (pm & mt & Hl).
           exists pm, mt. rewrite Hkeep1 by exact Hin. exact Hl.
      * intros -> e' [<- | Hin].
        -- split; [|exact Hmoved_e]. rewrite <- Pgone. apply Lfr.
           intros e' Hin. rewrite <- (app_nil_r (s ++ [Name e])). split.
           ++ apply apart_child_sib. intros E. exact (Hne e' Hin (eq_sym E)).
           ++ apply apart_child_cross. apply apart_sym. exact Hap.
        -- destruct (Ldone eq_refl e' Hin) as [Lg Lm]. split; [exact Lg|].
           intros rel data Hf. apply Lm. destruct Hf as (pm & mt & Hl).
           exists pm, mt. rewrite Hkeep1 by exact Hin. exact Hl.
    + pose proof (Hstep e (or_introl eq_refl) w (Err err) w' Hw H1) as P1.
      destruct P1 as [Pwf Pfr Pkept Pdone].
      split; [exact Pwf|]. split; [|split].
      * intros q Hq. destruct (Hq e (or_introl eq_refl)) as [Q1 Q2].
        apply Pfr; assumption.
      * intros e' [<- | Hin] rel data Hf.
        -- exact (Pkept rel data Hf).
        -- left. destruct Hf as (pm & mt & Hl). exists pm, mt. rewrite <- Hl.
           apply Pfr.
           ++ apply apart_child_sib. apply Hne. exact Hin.
           ++ apply apart_child_cross. apply apart_sym. exact Hap.
      * discriminate.
Qed.

End Copy.

Section CopyDir.
Context {codec : JsonCodec}.

Lemma isPrefix_app_apart (s d rel : list string) :
  apart s d -> isPrefix (s ++ rel) d = false.
Proof.
  intros [H1 H2]. destruct (isPrefix (s ++ rel) d) eqn:E; [|reflexivity].
  apply isPrefix_iff in E. destruct E as [x ->].
  rewrite <- app_assoc in H1. rewrite isPrefix_app in H1. discriminate.
Qed.

Lemma validPath_snoc s n :
  validPath s = true -> validName n = true -> validPath (s ++ [n]) = true.
Proof. intros Hs Hn. rewrite validPath_app, Hs. simpl. rewrite Hn. reflexivity. Qed.

Lemma wf_entries_valid n s pm mt es e :
  wf n = true -> lookup n s = Some (Dir pm mt es) -> In e (map toEntry es) ->
  validName (Name e) = true.
Proof.
  intros Hw Hl Hin. apply in_map_iff in Hin. destruct Hin as ([k x] & <- & Hin).
  pose proof (wf_lookup _ _ _ Hw Hl) as Hd. rewrite wf_Dir in Hd.
  apply andb_true_iff in Hd. destruct Hd as [Hn _].
  exact (namesOk_valid _ _ _ Hn Hin).
Qed.

Lemma wf_entries_NoDup n s pm mt es :
  wf n = true -> lookup n s = Some (Dir pm mt es) ->
  NoDup (map Name (map toEntry es)).
Proof.
  intros Hw Hl. rewrite map_Name_toEntry.
  pose proof (wf_lookup _ _ _ Hw Hl) as Hd. rewrite wf_Dir in Hd.
  apply andb_true_iff in Hd. destruct Hd as [Hn _]. exact (namesOk_NoDup _ Hn).
Qed.

(** a file below a directory lies below one of its entries *)
Lemma fileAt_under_dir n s pm mt es rel data :
  lookup n s = Some (Dir pm mt es) -> fileAt n (s ++ rel) data ->
  exists e rel', In e (map toEntry es) /\ rel = Name e :: rel'.
Proof.
  intros Hl Hf. apply (fileAt_app _ _ rel _ data Hl) in Hf.
  destruct Hf as (pm' & mt' & Hf). destruct rel as [|c rel]; [discriminate|].
  simpl in Hf. destruct (assoc c es) as [ch|] eqn:Ea; [|discriminate].
  exists (toEntry (c, ch)), rel. split; [|reflexivity].
  apply in_map. apply assoc_In. exact Ea.
Qed.

Lemma copyDir_post f : forall s d w r w',
  validPath s = true -> validPath d = true -> apart s d ->
  wf (fs w) = true ->
  copyDirLoop f (render s) (render d) w = (r, w') ->
  copyPost s d w r w'.
Proof.
  induction f as [|f IHf]; intros s d w r w' Hs Hd Hap Hw H.
  - simpl in H. inversion H; subst. apply copyPost_refl; [assumption|discriminate].
  - simpl in H. unfold bind at 1 in H. unfold Stat, query, statIn in H.
    rewrite nodeAt_render in H by exact Hs.
    destruct (lookup (fs w) s) as [src|] eqn:Es;
      [|inversion H; subst; apply copyPost_refl; [assumption|discriminate]].
    unfold bind at 1 in H.
    destruct (MkdirAll_cases d (Mode (infoOf src)) w Hd) as [[e He] | (n1 & Hmk & He)];
      rewrite He in H.
    { inversion H; subst; apply copyPost_refl; [assumption|discriminate]. }
    set (w1 := setFs w n1 (EvMkdirAll (render d))) in *.
    assert (Hw1 : wf (fs w1) = true) by exact (wf_mkdirAll _ _ _ _ _ Hw Hd Hmk).
    assert (Hfr1 : forall q, isPrefix q d = false -> lookup (fs w1) q = lookup (fs w) q).
    { intros q Hq. exact (mkdirAll_frame _ _ _ _ _ q Hmk Hq). }
    assert (Hunder1 : forall rel, lookup (fs w1) (s ++ rel) = lookup (fs w) (s ++ rel)).
    { intros rel. apply Hfr1. apply isPrefix_app_apart. exact Hap. }
    assert (Hs1 : lookup (fs w1) s = Some src).
    { rewrite <- Es. rewrite <- (app_nil_r s). apply Hunder1. }
    unfold bind at 1 in H. unfold ReadDir, query, readDirIn in H.
    rewrite nodeAt_render, Hs1 in H by exact Hs.
    destruct src as [data pm mt | pm mt es].
    { inversion H; subst. constructor.
      - exact Hw1.
      - intros q Hq1 Hq2. apply Hfr1. apply Hq2.
      - intros rel data' Hf. left. destruct Hf as (pm' & mt' & Hl).
        exists pm', mt'. rewrite Hunder1. exact Hl.
      - discriminate. }
    fold (toEntry) in H.
    change (map (fun e : string * node => mkEntry (fst e) (isDir (snd e))) es)
      with (map toEntry es) in H.
    apply bind_inv in H.
    assert (Hstep : forall e, In e (map toEntry es) -> forall w0 r0 w0',
               wf (fs w0) = true ->
               (if EntryIsDir e
                then copyDirLoop f (JoinPath [render s; Name e]) (JoinPath [render d; Name e])
                else copyFileAndDelete (JoinPath [render s; Name e])
                       (JoinPath [render d; Name e])) w0 = (r0, w0') ->
               copyPost (s ++ [Name e]) (d ++ [Name e]) w0 r0 w0').
    { intros e Hin w0 r0 w0' Hw0 Hrun.
      pose proof (wf_entries_valid _ _ _ _ _ e Hw1 Hs1 Hin) as Hn.
      rewrite !JoinPath_render in Hrun by assumption.
      destruct (EntryIsDir e).
      - apply IHf; try assumption; try (apply validPath_snoc; assumption).
        apply apart_app. exact Hap.
      - apply copyFile_post; try assumption; try (apply validPath_snoc; assumption).
        apply apart_app. exact Hap. }
    pose proof (wf_entries_NoDup _ _ _ _ _ Hw1 Hs1) as Hnd.
    assert (Hkept1 : forall w2,
               (forall e, In e (map toEntry es) ->
                          keptOrMoved (fs w1) (fs w2) (s ++ [Name e]) (d ++ [Name e])) ->
               keptOrMoved (fs w) (fs w2) s d).
    { intros w2 Hk rel data Hf.
      destruct (fileAt_under_dir _ _ _ _ _ _ _ Es Hf) as (e & rel' & Hin & ->).
      assert (Hf1 : fileAt (fs w1) ((s ++ [Name e]) ++ rel') data).
      { destruct Hf as (pm' & mt' & Hl). exists pm', mt'.
        rewrite <- app_assoc. simpl. rewrite Hunder1. exact Hl. }
      destruct (Hk e Hin rel' data Hf1) as [K | K];
        rewrite <- app_assoc in K; simpl in K; [left | right]; exact K. }
    destruct H as [([] & w2 & Hloop & Hrm) | (err & Hloop & ->)].
    + destruct (copyLoop_post s d _ _ Hap Hnd Hstep w1 (Ok tt) w2 Hw1 Hloop)
        as (Lwf & Lfr & Lkept & Ldone).
      assert (Hmoved2 : moved (fs w) (fs w2) s d).
      { intros rel data Hf.
        destruct (fileAt_under_dir _ _ _ _ _ _ _ Es Hf) as (e & rel' & Hin & ->).
        destruct (Ldone eq_refl e Hin) as [_ Lm].
        assert (Hf1 : fileAt (fs w1) ((s ++ [Name e]) ++ rel') data).
        { destruct Hf as (pm' & mt' & Hl). exists pm', mt'.
          rewrite <- app_assoc. simpl. rewrite Hunder1. exact Hl. }
        pose proof (Lm rel' data Hf1) as K. rewrite <- app_assoc in K. exact K. }
      assert (Hfr2 : forall q, apart s q -> apart d q ->
                 lookup (fs w2) q = lookup (fs w) q).
      { intros q Hq1 Hq2. rewrite Lfr.
        - apply Hfr1. apply Hq2.
        - intros e Hin. split; apply apart_app_l; assumption. }
      destruct (RemoveAll_cases s w2 Hs) as [[r3 He3] | (n3 & Hset3 & He3)];
        rewrite He3 in Hrm; inversion Hrm; subst.
      * constructor.
        -- exact Lwf.
        -- exact Hfr2.
        -- intros rel data Hf. right. exact (Hmoved2 rel data Hf).
        -- intros ->. split; [|exact Hmoved2].
           exact (RemoveAll_gone _ _ _ Hs He3).
      * constructor; rewrite fs_setFs.
        -- exact (wf_setAt _ _ _ None _ Lwf Hs I Hset3).
        -- intros q Hq1 Hq2. rewrite (setAt_frame _ _ _ _ _ q Hset3 Hq1).
           apply Hfr2; assumption.
        -- intros rel data Hf. right.
           destruct (Hmoved2 rel data Hf) as (pm' & mt' & Hl). exists pm', mt'.
           rewrite (setAt_frame _ _ _ _ _ _ Hset3); [exact Hl|].
           apply apart_app_r. exact Hap.
        -- intros _. split; [exact (setAt_lookup_same _ _ _ _ _ Hset3)|].
           intros rel data Hf.
           destruct (Hmoved2 rel data Hf) as (pm' & mt' & Hl). exists pm', mt'.
           rewrite (setAt_frame _ _ _ _ _ _ Hset3); [exact Hl|].
           apply apart_app_r. exact Hap.
    + destruct (copyLoop_post s d _ _ Hap Hnd Hstep w1 (Err err) w' Hw1 Hloop)
        as (Lwf & Lfr & Lkept & Ldone).
      constructor.
      * exact Lwf.
      * intros q Hq1 Hq2. rewrite Lfr.
        -- apply Hfr1. apply Hq2.
        -- intros e Hin. split; apply apart_app_l; assumption.
      * apply Hkept1. exact Lkept.
      * discriminate.
Qed.

End CopyDir.

End CopyFacts.

(* ===================================================================== *)
(** ** Time stamps *)
(* ===================================================================== *)

Module TimeFacts.
Import Strings Filepath OS Notions PathFacts.

Lemma digit_not_sep n : Ascii.eqb "/"%char (Time.digit (n mod 10)) = false.
Proof.
  unfold Time.digit.
  assert (H : (Z.to_nat (n mod 10) < 10)%nat).
  { pose proof (Z.mod_pos_bound n 10 ltac:(lia)). lia. }
  remember (Z.to_nat (n mod 10)) as k.
  do 10 (destruct k as [|k]; [reflexivity|]). lia.
Qed.

Lemma pad_noSep k n : noSep (Time.pad k n) = true.
Proof.
  revert n. induction k as [|k IH]; intros n; [reflexivity|].
  unfold noSep in *.
  change (Time.pad (S k) n)
    with (Time.pad k (n / 10) ++ String (Time.digit (n mod 10)) "").
  rewrite ContainsByte_app.
  change (ContainsByte (String (Time.digit (n mod 10)) "") Separator)
    with (Ascii.eqb "/"%char (Time.digit (n mod 10)) || false).
  specialize (IH (n / 10)%Z). apply negb_true_iff in IH.
  rewrite IH, digit_not_sep. reflexivity.
Qed.

Lemma noSep_app a b : noSep (a ++ b) = noSep a && noSep b.
Proof. unfold noSep. rewrite ContainsByte_app. apply negb_orb. Qed.

Lemma digit_small_not_sep n : (n < 10)%Z -> Ascii.eqb "/"%char (Time.digit n) = false.
Proof.
  intros H. unfold Time.digit.
  assert (Hk : (Z.to_nat n < 10)%nat) by lia.
  remember (Z.to_nat n) as k.
  do 10 (destruct k as [|k]; [reflexivity|]). lia.
Qed.

Lemma digits_noSep f : forall n, noSep (Time.digits f n) = true.
Proof.
  induction f as [|f IH]; intros n; [reflexivity|].
  cbn [Time.digits]. destruct (n <? 10)%Z eqn:E.
  - apply Z.ltb_lt in E. unfold noSep.
    change (ContainsByte (String (Time.digit n) "") Separator)
      with (Ascii.eqb "/"%char (Time.digit n) || false).
    rewrite (digit_small_not_sep n E). reflexivity.
  - rewrite noSep_app, IH. unfold noSep.
    change (ContainsByte (String (Time.digit (n mod 10)) "") Separator)
      with (Ascii.eqb "/"%char (Time.digit (n mod 10)) || false).
    rewrite digit_not_sep. reflexivity.
Qed.

Lemma yearText_noSep y : noSep (Time.yearText y) = true.
Proof.
  unfold Time.yearText. rewrite noSep_app.
  destruct (y <? 0)%Z; destruct (Z.abs y <? 10000)%Z;
    rewrite ?pad_noSep, ?digits_noSep; reflexivity.
Qed.

Lemma clockText_noSep sep s : noSep sep = true -> noSep (Time.clockText sep s) = true.
Proof.
  intros H. unfold Time.clockText. rewrite !noSep_app, !pad_noSep, H. reflexivity.
Qed.

Lemma FormatStamp_noSep l t : noSep (Time.FormatStamp l t) = true.
Proof.
  unfold Time.FormatStamp. destruct (Time.civil (Time.wall l t / 86400)) as [[y m] d].
  rewrite !noSep_app, !pad_noSep, yearText_noSep, clockText_noSep by reflexivity.
  reflexivity.
Qed.

Lemma pad_length k n : String.length (Time.pad k n) = k.
Proof.
  revert n. induction k as [|k IH]; intros n; [reflexivity|].
  change (Time.pad (S k) n)
    with (Time.pad k (n / 10) ++ String (Time.digit (n mod 10)) "").
  rewrite append_length, IH. simpl. lia.
Qed.

Lemma digits_length f a :
  (1000 <= a)%Z -> 4 <= String.length (Time.digits (4 + f) a).
Proof.
  intros H. cbn [Nat.add Time.digits].
  assert (E1 : (a <? 10)%Z = false) by (apply Z.ltb_ge; lia). rewrite E1.
  assert (H1 : (100 <= a / 10)%Z) by (apply Z.div_le_lower_bound; lia).
  assert (E2 : (a / 10 <? 10)%Z = false) by (apply Z.ltb_ge; lia). rewrite E2.
  assert (H2 : (10 <= a / 10 / 10)%Z) by (apply Z.div_le_lower_bound; lia).
  assert (E3 : (a / 10 / 10 <? 10)%Z = false) by (apply Z.ltb_ge; lia). rewrite E3.
  rewrite !append_length. cbn [String.length].
  destruct (a / 10 / 10 / 10 <? 10)%Z; cbn [String.length];
    rewrite ?append_length; cbn [String.length]; lia.
Qed.

Lemma yearText_length y : 4 <= String.length (Time.yearText y).
Proof.
  unfold Time.yearText. rewrite append_length.
  destruct (Z.abs y <? 10000)%Z eqn:E.
  - rewrite pad_length. lia.
  - apply Z.ltb_ge in E.
    assert (L : (13 <= Z.log2 (Z.abs y))%Z).
    { apply Z.log2_le_pow2; lia. }
    replace (S (Z.to_nat (Z.log2 (Z.abs y))))
      with (4 + (Z.to_nat (Z.log2 (Z.abs y)) - 3)) by lia.
    pose proof (digits_length (Z.to_nat (Z.log2 (Z.abs y)) - 3) (Z.abs y) ltac:(lia)).
    lia.
Qed.

Lemma FormatStamp_length l t : 15 <= String.length (Time.FormatStamp l t).
Proof.
  unfold Time.FormatStamp. destruct (Time.civil (Time.wall l t / 86400)) as [[y m] d].
  unfold Time.clockText. rewrite !append_length, !pad_length.
  pose proof (yearText_length y). cbn [String.length]. lia.
Qed.


(** *** decimal text *)

Lemma valueOnto_app acc a b : valueOnto acc (a ++ b) = valueOnto (valueOnto acc a) b.
Proof. revert acc. induction a as [|c a IH]; intros acc; [reflexivity|]. apply IH. Qed.

Lemma digit_code d :
  (0 <= d <= 9)%Z -> (Z.of_nat (nat_of_ascii (Time.digit d)) - 48 = d)%Z.
Proof.
  intros H. unfold Time.digit. rewrite nat_ascii_embedding by lia. lia.
Qed.

Lemma digit_not c d :
  (0 <= d <= 9)%Z -> (nat_of_ascii c < 48 \/ 57 < nat_of_ascii c) ->
  Ascii.eqb c (Time.digit d) = false.
Proof.
  intros H Hc. apply Ascii.eqb_neq. intros ->. unfold Time.digit in Hc.
  rewrite nat_ascii_embedding in Hc by lia. lia.
Qed.

(** texts that hold decimal digits only hold no other byte *)
Lemma pad_bytes c k : forall n,
  (nat_of_ascii c < 48 \/ 57 < nat_of_ascii c) -> ContainsByte (Time.pad k n) c = false.
Proof.
  induction k as [|k IH]; intros n Hc; [reflexivity|].
  cbn [Time.pad]. rewrite ContainsByte_app, IH by exact Hc. cbn [ContainsByte].
  rewrite digit_not; [reflexivity | | exact Hc].
  pose proof (Z.mod_pos_bound n 10 ltac:(lia)). lia.
Qed.

Lemma digits_bytes c f : forall n,
  (0 <= n)%Z ->
  (nat_of_ascii c < 48 \/ 57 < nat_of_ascii c) -> ContainsByte (Time.digits f n) c = false.
Proof.
  induction f as [|f IH]; intros n Hn Hc; [reflexivity|].
  cbn [Time.digits]. destruct (n <? 10)%Z eqn:E.
  - apply Z.ltb_lt in E. cbn [ContainsByte]. rewrite digit_not; [reflexivity | lia | exact Hc].
  - rewrite ContainsByte_app, IH; [|apply Z.div_pos; lia | exact Hc].
    cbn [ContainsByte]. rewrite digit_not; [reflexivity | | exact Hc].
    pose proof (Z.mod_pos_bound n 10 ltac:(lia)). lia.
Qed.


Lemma pad_value k : forall n acc,
  valueOnto acc (Time.pad k n) = (acc * 10 ^ Z.of_nat k + n mod 10 ^ Z.of_nat k)%Z.
Proof.
  induction k as [|k IH]; intros n acc.
  - cbn [Time.pad valueOnto]. change (10 ^ Z.of_nat 0)%Z with 1%Z.
    rewrite Z.mod_1_r. lia.
  - cbn [Time.pad]. rewrite valueOnto_app, IH. cbn [valueOnto].
    rewrite digit_code by (pose proof (Z.mod_pos_bound n 10 ltac:(lia)); lia).
    rewrite Nat2Z.inj_succ, Z.pow_succ_r by lia.
    assert (P : (0 < 10 ^ Z.of_nat k)%Z) by (apply Z.pow_pos_nonneg; lia).
    rewrite (Z.rem_mul_r n 10 (10 ^ Z.of_nat k)) by lia. lia.
Qed.

Lemma digits_value f : forall n acc,
  (0 <= n < 10 ^ Z.of_nat f)%Z ->
  valueOnto acc (Time.digits f n) = (acc * 10 ^ Z.of_nat (String.length (Time.digits f n)) + n)%Z.
Proof.
  induction f as [|f IH]; intros n acc H.
  - change (10 ^ Z.of_nat 0)%Z with 1%Z in H. cbn [Time.digits valueOnto String.length].
    change (10 ^ Z.of_nat 0)%Z with 1%Z. lia.
  - cbn [Time.digits]. destruct (n <? 10)%Z eqn:E.
    + apply Z.ltb_lt in E. cbn [valueOnto String.length].
      rewrite digit_code by lia. change (10 ^ Z.of_nat 1)%Z with 10%Z. lia.
    + apply Z.ltb_ge in E. rewrite Nat2Z.inj_succ, Z.pow_succ_r in H by lia.
      rewrite valueOnto_app, IH.
      2:{ split; [apply Z.div_pos; lia|]. apply Z.div_lt_upper_bound; lia. }
      cbn [valueOnto]. rewrite digit_code by (pose proof (Z.mod_pos_bound n 10 ltac:(lia)); lia).
      rewrite append_length. cbn [String.length].
      rewrite Nat.add_1_r, Nat2Z.inj_succ, Z.pow_succ_r by lia.
      pose proof (Z.div_mod n 10 ltac:(lia)). lia.
Qed.

Lemma app_inj_len_l (a b a' b' : string) :
  String.length a = String.length a' -> a ++ b = a' ++ b' -> a = a' /\ b = b'.
Proof.
  revert a'. induction a as [|c a IH]; intros [|c' a'] L E; try discriminate L.
  - split; [reflexivity | exact E].
  - simpl in E. inversion E; subst. simpl in L.
    destruct (IH a' ltac:(lia) H1) as [-> ->]. split; reflexivity.
Qed.

Lemma app_inj_len_r (a b a' b' : string) :
  String.length b = String.length b' -> a ++ b = a' ++ b' -> a = a' /\ b = b'.
Proof.
  intros L E. apply app_inj_len_l; [|exact E].
  apply (f_equal String.length) in E. rewrite !append_length in E. lia.
Qed.

(** *** the year *)

Lemma yearDigits_value a : (0 <= a)%Z -> valueOnto 0 (yearDigits a) = a.
Proof.
  intros H. unfold yearDigits. destruct (a <? 10000)%Z eqn:E.
  - apply Z.ltb_lt in E. rewrite pad_value. change (10 ^ Z.of_nat 4)%Z with 10000%Z.
    rewrite Z.mod_small by lia. lia.
  - apply Z.ltb_ge in E. rewrite digits_value; [lia|].
    split; [exact H|].
    rewrite Nat2Z.inj_succ, Z2Nat.id by apply Z.log2_nonneg.
    apply Z.lt_le_trans with (2 ^ Z.succ (Z.log2 a))%Z.
    + apply Z.log2_spec. lia.
    + apply Z.pow_le_mono_l. pose proof (Z.log2_nonneg a). lia.
Qed.

Lemma yearDigits_no_minus a : (0 <= a)%Z -> ContainsByte (yearDigits a) "-" = false.
Proof.
  intros H. unfold yearDigits. destruct (a <? 10000)%Z.
  - apply pad_bytes. left. cbn. lia.
  - apply digits_bytes; [exact H | left; cbn; lia].
Qed.

Lemma yearText_inj y y' : Time.yearText y = Time.yearText y' -> y = y'.
Proof.
  unfold Time.yearText. fold (yearDigits (Z.abs y)). fold (yearDigits (Z.abs y')).
  intros E.
  pose proof (yearDigits_value (Z.abs y) (Z.abs_nonneg y)) as V.
  pose proof (yearDigits_value (Z.abs y') (Z.abs_nonneg y')) as V'.
  pose proof (yearDigits_no_minus (Z.abs y) (Z.abs_nonneg y)) as N.
  pose proof (yearDigits_no_minus (Z.abs y') (Z.abs_nonneg y')) as N'.
  destruct (y <? 0)%Z eqn:S; destruct (y' <? 0)%Z eqn:S';
    [apply Z.ltb_lt in S; apply Z.ltb_lt in S'
    |apply Z.ltb_lt in S; apply Z.ltb_ge in S'
    |apply Z.ltb_ge in S; apply Z.ltb_lt in S'
    |apply Z.ltb_ge in S; apply Z.ltb_ge in S'].
  - apply append_inj_l in E. rewrite E in V. lia.
  - exfalso. simpl in E. rewrite <- E in N'. cbn [ContainsByte] in N'.
    rewrite Ascii.eqb_refl in N'. discriminate.
  - exfalso. simpl in E. rewrite E in N. cbn [ContainsByte] in N.
    rewrite Ascii.eqb_refl in N. discriminate.
  - simpl in E. rewrite E in V. lia.
Qed.

(** *** the calendar *)


Lemma civil_range z y m d :
  Time.civil z = (y, m, d) -> (1 <= m <= 12 /\ 1 <= d <= 31)%Z.
Proof.
  unfold Time.civil. cbv zeta. intros E.
  pose proof (f_equal (fun p => snd (fst p)) E) as Em.
  pose proof (f_equal snd E) as Ed. cbv beta in Em. cbn [fst snd] in Em, Ed. clear E.
  set (doe := (z + 719468 - (z + 719468) / 146097 * 146097)%Z) in *.
  assert (Hdoe : (0 <= doe <= 146096)%Z).
  { unfold doe. pose proof (Z.div_mod (z + 719468) 146097 ltac:(lia)).
    pose proof (Z.mod_pos_bound (z + 719468) 146097 ltac:(lia)). lia. }
  set (yoe := ((doe - doe / 1460 + doe / 36524 - doe / 146096) / 365)%Z) in *.
  set (doy := (doe - (365 * yoe + yoe / 4 - yoe / 100))%Z) in *.
  assert (Hdoy : (0 <= doy <= 365)%Z).
  { unfold doy, yoe. clearbody doe. clear -Hdoe.
    Z.to_euclidean_division_equations. lia. }
  clearbody doy. clear -Hdoy Em Ed.
  set (mp := ((5 * doy + 2) / 153)%Z) in *.
  assert (Hmp : (0 <= mp <= 11)%Z).
  { unfold mp. Z.to_euclidean_division_equations. lia. }
  split.
  - rewrite <- Em.
    destruct (mp <? 10)%Z eqn:E; [apply Z.ltb_lt in E | apply Z.ltb_ge in E]; lia.
  - rewrite <- Ed. clear Em Ed. unfold mp in *. Z.to_euclidean_division_equations. lia.
Qed.

Lemma daysOf_civil z y m d : Time.civil z = (y, m, d) -> daysOf y m d = z.
Proof.
  unfold Time.civil. cbv zeta. intros E.
  pose proof (f_equal (fun p => fst (fst p)) E) as Ey.
  pose proof (f_equal (fun p => snd (fst p)) E) as Em.
  pose proof (f_equal snd E) as Ed. cbv beta in Ey, Em. cbn [fst snd] in Ey, Em, Ed.
  clear E.
  set (Z0 := (z + 719468)%Z) in *.
  set (era := (Z0 / 146097)%Z) in *.
  set (doe := (Z0 - era * 146097)%Z) in *.
  assert (Hdoe : (0 <= doe <= 146096)%Z).
  { unfold doe, era. pose proof (Z.div_mod Z0 146097 ltac:(lia)).
    pose proof (Z.mod_pos_bound Z0 146097 ltac:(lia)). lia. }
  set (yoe := ((doe - doe / 1460 + doe / 36524 - doe / 146096) / 365)%Z) in *.
  assert (Hyoe : (0 <= yoe <= 399)%Z).
  { unfold yoe. clearbody doe. clear -Hdoe. Z.to_euclidean_division_equations. lia. }
  set (doy := (doe - (365 * yoe + yoe / 4 - yoe / 100))%Z) in *.
  assert (Hdoy : (0 <= doy <= 365)%Z).
  { unfold doy, yoe. clearbody doe. clear -Hdoe. Z.to_euclidean_division_equations. lia. }
  set (mp := ((5 * doy + 2) / 153)%Z) in *.
  assert (Hmp : (0 <= mp <= 11)%Z).
  { unfold mp. clearbody doy. clear -Hdoy. Z.to_euclidean_division_equations. lia. }
  unfold daysOf.
  assert (Em' : m = (if mp <? 10 then mp + 3 else mp - 9)%Z) by (symmetry; exact Em).
  assert (Emp : (if 2 <? m then m - 3 else m + 9)%Z = mp).
  { rewrite Em'. destruct (mp <? 10)%Z eqn:E1;
      [apply Z.ltb_lt in E1 | apply Z.ltb_ge in E1].
    - assert (E2 : (2 <? mp + 3)%Z = true) by (apply Z.ltb_lt; lia). rewrite E2. lia.
    - assert (E2 : (2 <? mp - 9)%Z = false) by (apply Z.ltb_ge; lia). rewrite E2. lia. }
  rewrite Emp.
  assert (Ey' : (if m <=? 2 then y - 1 else y)%Z = (yoe + era * 400)%Z).
  { rewrite <- Ey. rewrite <- Em'. destruct (m <=? 2)%Z; lia. }
  rewrite Ey'.
  assert (Eera : ((yoe + era * 400) / 400 = era)%Z).
  { rewrite Z.div_add by lia. rewrite Z.div_small by lia. lia. }
  rewrite Eera.
  replace (yoe + era * 400 - era * 400)%Z with yoe by lia.
  rewrite <- Ed. unfold doy, doe, Z0. lia.
Qed.

Lemma civil_inj z z' : Time.civil z = Time.civil z' -> z = z'.
Proof.
  intros E. destruct (Time.civil z) as [[y m] d] eqn:E1.
  symmetry in E. rewrite <- (daysOf_civil _ _ _ _ E1), <- (daysOf_civil _ _ _ _ E).
  reflexivity.
Qed.

(** *** the stamp *)

Lemma pad2_inj a b :
  (0 <= a < 100)%Z -> (0 <= b < 100)%Z -> Time.pad 2 a = Time.pad 2 b -> a = b.
Proof.
  intros Ha Hb E. apply (f_equal (valueOnto 0)) in E. rewrite !pad_value in E.
  change (10 ^ Z.of_nat 2)%Z with 100%Z in E.
  rewrite !Z.mod_small in E by assumption. lia.
Qed.

Lemma clockText_inj s s' :
  (0 <= s < 86400)%Z -> (0 <= s' < 86400)%Z ->
  Time.clockText "" s = Time.clockText "" s' -> s = s'.
Proof.
  intros Hs Hs'. unfold Time.clockText. cbn [append]. intros E.
  apply app_inj_len_l in E; [|rewrite !pad_length; reflexivity]. destruct E as [E1 E].
  apply app_inj_len_l in E; [|rewrite !pad_length; reflexivity]. destruct E as [E2 E3].
  apply pad2_inj in E1; [| clear -Hs; Z.to_euclidean_division_equations; lia
                         | clear -Hs'; Z.to_euclidean_division_equations; lia].
  apply pad2_inj in E2; [| clear -Hs; Z.to_euclidean_division_equations; lia
                         | clear -Hs'; Z.to_euclidean_division_equations; lia].
  apply pad2_inj in E3; [| clear -Hs; Z.to_euclidean_division_equations; lia
                         | clear -Hs'; Z.to_euclidean_division_equations; lia].
  clear -E1 E2 E3. Z.to_euclidean_division_equations. lia.
Qed.

Lemma yearText_bytes y c :
  (nat_of_ascii c < 48 \/ 57 < nat_of_ascii c) -> c <> "-"%char ->
  ContainsByte (Time.yearText y) c = false.
Proof.
  intros Hc Hm. unfold Time.yearText. rewrite ContainsByte_app.
  assert (E : ContainsByte (if (y <? 0)%Z then "-" else "") c = false).
  { destruct (y <? 0)%Z; [|reflexivity]. cbn [ContainsByte].
    apply Ascii.eqb_neq in Hm. rewrite Hm. reflexivity. }
  rewrite E. destruct (Z.abs y <? 10000)%Z.
  - apply pad_bytes. exact Hc.
  - apply digits_bytes; [apply Z.abs_nonneg | exact Hc].
Qed.

(** a stamp holds digits and dashes only *)
Lemma FormatStamp_bytes l t c :
  (nat_of_ascii c < 48 \/ 57 < nat_of_ascii c) -> c <> "-"%char ->
  ContainsByte (Time.FormatStamp l t) c = false.
Proof.
  intros Hc Hm. unfold Time.FormatStamp, Time.clockText.
  destruct (Time.civil (Time.wall l t / 86400)) as [[y m] d].
  rewrite !ContainsByte_app, yearText_bytes, !pad_bytes by assumption.
  cbn [ContainsByte]. apply Ascii.eqb_neq in Hm. rewrite Hm. reflexivity.
Qed.

(** the stamp tells the wall clock: two instants with the same stamp
    show the same local time *)
Lemma FormatStamp_inj l t l' t' :
  Time.FormatStamp l t = Time.FormatStamp l' t' -> Time.wall l t = Time.wall l' t'.
Proof.
  unfold Time.FormatStamp.
  generalize (Time.wall l t) (Time.wall l' t'). clear. intros x x'.
  destruct (Time.civil (x / 86400)) as [[y m] d] eqn:C.
  destruct (Time.civil (x' / 86400)) as [[y' m'] d'] eqn:C'.
  destruct (civil_range _ _ _ _ C) as [Hm Hd].
  destruct (civil_range _ _ _ _ C') as [Hm' Hd'].
  intros E.
  apply app_inj_len_r in E.
  2:{ unfold Time.clockText. rewrite !append_length, !pad_length. reflexivity. }
  destruct E as [Ey E].
  apply app_inj_len_l in E; [|rewrite !pad_length; reflexivity]. destruct E as [Em E].
  apply app_inj_len_l in E; [|rewrite !pad_length; reflexivity]. destruct E as [Ed E].
  apply append_inj_l in E.
  apply yearText_inj in Ey. apply pad2_inj in Em; [|lia|lia].
  apply pad2_inj in Ed; [|lia|lia]. subst y' m' d'.
  assert (Eday : (x / 86400 = x' / 86400)%Z).
  { apply civil_inj. rewrite C, C'. reflexivity. }
  apply clockText_inj in E;
    [| apply Z.mod_pos_bound; lia | apply Z.mod_pos_bound; lia].
  rewrite (Z.div_mod x 86400), (Z.div_mod x' 86400) by lia.
  rewrite Eday, E. reflexivity.
Qed.

End TimeFacts.

(* ===================================================================== *)
(** ** [Move]: nothing is lost, and where the item goes *)
(* ===================================================================== *)

Module MoveFacts.
Import Strings Filepath FS OS FilepathOS Config Trash Notions PathFacts FSFacts OSFacts CopyFacts.
Import TimeFacts.

Lemma trashRoot_valid cfg : validPath (trashRoot cfg) = true.
Proof. apply cleanStack_rooted_valid; [reflexivity | apply Split_parts_nosep]. Qed.

Lemma isPrefix_length p q : isPrefix p q = true -> length p <= length q.
Proof.
  intros H. apply isPrefix_iff in H. destruct H as [r ->].
  rewrite length_app. lia.
Qed.

Lemma prefix_comparable (a b c : list string) :
  isPrefix a c = true -> isPrefix b c = true -> length a <= length b ->
  isPrefix a b = true.
Proof.
  revert b c. induction a as [|x a IH]; intros b c Ha Hb Hl; [reflexivity|].
  destruct c as [|z c]; [discriminate|].
  destruct b as [|y b]; [simpl in Hl; lia|].
  simpl in *. apply andb_true_iff in Ha. destruct Ha as [Exz Ha].
  apply andb_true_iff in Hb. destruct Hb as [Eyz Hb].
  apply String.eqb_eq in Exz. apply String.eqb_eq in Eyz. subst.
  rewrite String.eqb_refl. simpl. apply (IH b c); [assumption | assumption | lia].
Qed.

(** a path at least as long as [s] that does not extend [s] is apart
    from everything at or below [s] *)
Lemma apart_outside (s p rel : list string) :
  isPrefix s p = false -> length s <= length p -> apart p (s ++ rel).
Proof.
  intros Hn Hl. split.
  - destruct (isPrefix p (s ++ rel)) eqn:E; [|reflexivity].
    rewrite (prefix_comparable s p (s ++ rel)) in Hn;
      [discriminate | apply isPrefix_app | exact E | exact Hl].
  - destruct (isPrefix (s ++ rel) p) eqn:E; [|reflexivity].
    rewrite (isPrefix_trans s (s ++ rel) p) in Hn;
      [discriminate | apply isPrefix_app | exact E].
Qed.

Lemma isPrefix_snoc_longer (s p : list string) m :
  isPrefix s (p ++ [m]) = true -> length s <= length p -> isPrefix s p = true.
Proof.
  intros H Hl. apply (prefix_comparable s p (p ++ [m])); [exact H | apply isPrefix_app | exact Hl].
Qed.

Lemma relativePath_render s : relativePath (render s) = Join s "/".
Proof.
  unfold relativePath. rewrite IsAbs_render. reflexivity.
Qed.

Lemma Join_nonempty c cs : c <> "" -> Join (c :: cs) "/" <> "".
Proof.
  intros Hc. destruct cs; simpl; [exact Hc|].
  destruct c; [congruence | discriminate].
Qed.

Lemma HasPrefix_cons d s c p :
  HasPrefix (String d s) (String c p) = Ascii.eqb c d && HasPrefix s p.
Proof. reflexivity. Qed.

Lemma IsAbs_app a b : IsAbs a = true -> IsAbs (a ++ b) = true.
Proof.
  unfold IsAbs. destruct a as [|c a]; [discriminate|].
  change (String c a ++ b) with (String c (a ++ b)).
  rewrite !HasPrefix_cons, !HasPrefix_nil, !andb_true_r. trivial.
Qed.

(** where [Move] first looks, for a canonical source *)
Lemma trashTarget_render cfg host s :
  IsAbs (TrashDir cfg) = true -> validName host = true ->
  validPath s = true -> s <> [] ->
  trashTarget cfg host (render s) = render (trashRoot cfg ++ host :: s).
Proof.
  intros Ht Hh Hs Hne. unfold trashTarget, GetTrashDir. rewrite relativePath_render.
  unfold JoinPath. simpl filter.
  assert (E1 : String.eqb (TrashDir cfg) "" = false).
  { destruct (TrashDir cfg); [discriminate | reflexivity]. }
  assert (E2 : String.eqb host "" = false) by (apply validName_cases; exact Hh).
  assert (E3 : String.eqb (Join s "/") "" = false).
  { apply String.eqb_neq. destruct s as [|c cs]; [congruence|].
    apply Join_nonempty. apply validName_nonempty.
    simpl in Hs. apply andb_true_iff in Hs. apply Hs. }
  rewrite E1, E2, E3. cbn [negb].
  change (Join [TrashDir cfg; host; Join s "/"] "/")
    with (TrashDir cfg ++ String Separator (host ++ String Separator (Join s "/"))).
  rewrite Clean_abs by (apply IsAbs_app; exact Ht). f_equal.
  rewrite !Split_app. rewrite (Split_nosep _ host) by (apply validName_nosep; exact Hh).
  rewrite Split_Join by assumption.
  rewrite cleanStack_app. fold (trashRoot cfg).
  rewrite cleanStack_valid.
  - rewrite rev_involutive. reflexivity.
  - simpl. rewrite Hh. exact Hs.
Qed.

Section MoveSec.
Context {codec : JsonCodec}.

Lemma suffix_noSep : noSep metadataSuffix = true.
Proof. reflexivity. Qed.

(** the end of [Move]: the sidecar is written next to the item, and a
    failure to write it is only reported *)
Lemma Move_tail_post absPath host isdir d m w2 :
  validPath d = true -> validName m = true -> wf (fs w2) = true ->
  exists w3,
    (t' <- Now ;;
     wr <- attempt (writeMetadata (render (d ++ [m]) ++ metadataSuffix)
                      (mkMetadata absPath t' host isdir)) ;;
     (match wr with
      | Err e => Eprintln ("warning: failed to write metadata: " ++ errText e)
      | Ok _ => ret tt
      end) ;;;
     ret (render (d ++ [m]))) w2
    = (Ok (render (d ++ [m])), w3)
    /\ wf (fs w3) = true
    /\ (forall q, apart (d ++ [m ++ metadataSuffix]) q ->
                  lookup (fs w3) q = lookup (fs w2) q).
Proof.
  intros Hd Hm Hw. rewrite render_snoc_append.
  assert (Hv : validPath (d ++ [m ++ metadataSuffix]) = true).
  { apply validPath_snoc; [exact Hd|]. apply validName_append; [exact Hm | reflexivity]. }
  unfold bind at 1. unfold Now at 1. unfold bind at 1. unfold attempt, writeMetadata.
  destruct (WriteFile_cases (d ++ [m ++ metadataSuffix])
              (marshal (mkMetadata absPath (now w2) host isdir)) 420 w2 Hv)
    as [[e He] | (n3 & pm & Hset & He)]; rewrite He.
  - eexists. split; [reflexivity|]. split; [exact Hw|]. intros q _. reflexivity.
  - eexists. split; [reflexivity|]. split.
    + simpl. refine (wf_setAt _ _ _ _ _ Hw Hv _ Hset). reflexivity.
    + intros q Hq. simpl. exact (setAt_frame _ _ _ _ _ q Hset Hq).
Qed.


Lemma pickName_valid w P n : validName n = true -> validName (pickName w P n) = true.
Proof.
  intros Hn. unfold pickName. destruct (isSome (lookup (fs w) (P ++ [n]))); [|exact Hn].
  apply validName_append; [exact Hn|].
  rewrite noSep_app, FormatStamp_noSep. reflexivity.
Qed.

Lemma validPath_snoc_inv s n :
  validPath (s ++ [n]) = true -> validPath s = true /\ validName n = true.
Proof.
  rewrite validPath_app. simpl. rewrite andb_true_r. apply andb_true_iff.
Qed.

Lemma movePost_refl s d sc P w e : wf (fs w) = true -> movePost s d sc P w (Err e) w.
Proof.
  intros Hw. constructor; auto.
  - intros rel data H. left. exact H.
  - intros tp E. discriminate.
Qed.

Lemma Move_post cfg s0 n w r w' :
  let s := (s0 ++ [n])%list in
  let P := (trashRoot cfg ++ hostOf w :: s0)%list in
  let m := pickName w P n in
  validPath s = true -> wf (fs w) = true ->
  IsAbs (TrashDir cfg) = true -> validName (hostOf w) = true ->
  isPrefix s P = false ->
  Move cfg (render s) w = (r, w') ->
  movePost s (P ++ [m]) (P ++ [m ++ metadataSuffix]) P w r w'.
Proof.
  intros s P m Hs Hw Ht Hh Hout H.
  destruct (validPath_snoc_inv _ _ Hs) as [Hs0 Hn].
  assert (HP : validPath P = true).
  { unfold P. rewrite validPath_app, trashRoot_valid. simpl. rewrite Hh. exact Hs0. }
  assert (Hm : validName m = true) by (apply pickName_valid; exact Hn).
  assert (Hd : validPath (P ++ [m]) = true) by (apply validPath_snoc; assumption).
  assert (Hlen : length s <= length P).
  { unfold s, P. rewrite !length_app. simpl. lia. }
  assert (Hap : apart s (P ++ [m])).
  { apply apart_sym. rewrite <- (app_nil_r s). apply apart_outside.
    - destruct (isPrefix s (P ++ [m])) eqn:E; [|reflexivity].
      rewrite (isPrefix_snoc_longer _ _ _ E Hlen) in Hout. discriminate.
    - rewrite length_app. simpl. lia. }
  assert (Hsc : forall rel, apart (P ++ [m ++ metadataSuffix]) (s ++ rel)).
  { intros rel. apply apart_outside.
    - destruct (isPrefix s (P ++ [m ++ metadataSuffix])) eqn:E; [|reflexivity].
      rewrite (isPrefix_snoc_longer _ _ _ E Hlen) in Hout. discriminate.
    - rewrite length_app. simpl. lia. }
  assert (Hscd : forall rel, apart (P ++ [m ++ metadataSuffix]) ((P ++ [m]) ++ rel)).
  { intros rel. apply apart_child_sib. intros E.
    rewrite <- (append_nil_r m) in E at 2. apply append_inj_l in E. discriminate. }
  unfold Move in H. unfold bind at 1 in H. unfold Lstat, Stat, query, statIn in H.
  rewrite nodeAt_render in H by exact Hs.
  destruct (lookup (fs w) s) as [src|] eqn:Es;
    [|inversion H; subst; apply movePost_refl; exact Hw].
  unfold bind at 1 in H.
  assert (Hhost : attempt Hostname w
                  = (Ok (match hostname w with
                         | Some h => Ok h | None => Err (Errorf "hostname") end), w)).
  { unfold attempt, Hostname. destruct (hostname w); reflexivity. }
  rewrite Hhost in H.
  assert (Ehost : match (match hostname w with
                         | Some h => Ok h | None => Err (Errorf "hostname") end) with
                  | Ok x => x | Err _ => "unknown" end = hostOf w).
  { unfold hostOf. destruct (hostname w); reflexivity. }
  rewrite Ehost in H. clear Hhost Ehost.
  rewrite trashTarget_render in H;
    [| exact Ht | exact Hh | exact Hs | unfold s; destruct s0; discriminate].
  replace (trashRoot cfg ++ hostOf w :: s)%list with (P ++ [n])%list in H
    by (unfold P, s; rewrite <- app_assoc; reflexivity).
  unfold bind at 1 in H. unfold attempt at 1, Stat, query, statIn in H.
  rewrite nodeAt_render in H by (apply validPath_snoc; assumption).
  unfold bind at 1 in H. unfold Time.NowStamp, query in H.
  assert (Etp : (if isOk (match lookup (fs w) (P ++ [n]) with
                          | Some n0 => Ok (infoOf n0)
                          | None => Err (absent w (render (P ++ [n]))) end)
                 then render (P ++ [n]) ++ "." ++ Time.FormatStamp (local w) (now w)
                 else render (P ++ [n])) = render (P ++ [m])).
  { unfold m, pickName. destruct (lookup (fs w) (P ++ [n])); simpl isOk; simpl isSome;
      cbv iota; [apply render_snoc_append | reflexivity]. }
  rewrite Etp in H. clear Etp.
  rewrite Dir_render in H by assumption.
  unfold bind at 1 in H. unfold attempt at 1 in H.
  destruct (MkdirAll_cases P 493 w HP) as [[e He] | (n1 & Hmk & He)]; rewrite He in H.
  { inversion H; subst. apply movePost_refl; exact Hw. }
  set (w1 := setFs w n1 (EvMkdirAll (render P))) in *.
  assert (Hw1 : wf (fs w1) = true) by exact (wf_mkdirAll _ _ _ _ _ Hw HP Hmk).
  assert (Hfr1 : forall q, isPrefix q P = false -> lookup (fs w1) q = lookup (fs w) q).
  { intros q Hq. exact (mkdirAll_frame _ _ _ _ _ q Hmk Hq). }
  assert (Hunder1 : forall rel, lookup (fs w1) (s ++ rel) = lookup (fs w) (s ++ rel)).
  { intros rel. apply Hfr1. destruct (isPrefix (s ++ rel) P) eqn:E; [|reflexivity].
    rewrite (isPrefix_trans s (s ++ rel) P (isPrefix_app _ _) E) in Hout. discriminate. }
  (* the relocation proper, whatever way it takes *)
  assert (Hmid : forall r2 w2,
             (rn <- attempt (Rename (render s) (render (P ++ [m]))) ;;
              match rn with
              | Err _ => copyAndDelete (render s) (render (P ++ [m])) (IsDir (infoOf src))
              | Ok _ => ret tt
              end) w1 = (r2, w2) ->
             copyPost s (P ++ [m]) w1 r2 w2).
  { intros r2 w2 Hrun. unfold bind at 1 in Hrun. unfold attempt at 1 in Hrun.
    destruct (Rename_cases s (P ++ [m]) w1 Hs Hd)
      as [[e He1] | [[Heq He1] | (nsrc & na & nb & Hsrc & Hnp & Hneq & Hnd & Hrm & Hins & He1)]];
      rewrite He1 in Hrun.
    - unfold copyAndDelete in Hrun. destruct (IsDir (infoOf src)).
      + unfold copyDirAndDelete in Hrun. eapply copyDir_post; eassumption.
      + eapply copyFile_post; eassumption.
    - exfalso. apply pathEqb_true in Heq. destruct Hap as [Hap1 _].
      rewrite <- Heq, isPrefix_refl in Hap1. discriminate.
    - inversion Hrun; subst. constructor; rewrite fs_setFs.
      + refine (wf_setAt _ _ _ _ _ _ Hd _ Hins).
        * exact (wf_setAt _ _ _ None _ Hw1 Hs I Hrm).
        * exact (wf_lookup _ _ _ Hw1 Hsrc).
      + intros q Hq1 Hq2. rewrite (setAt_frame _ _ _ _ _ q Hins Hq2).
        exact (setAt_frame _ _ _ _ _ q Hrm Hq1).
      + intros rel data Hf. right. destruct Hf as (pm & mt & Hl). exists pm, mt.
        rewrite (setAt_lookup_under _ _ _ _ _ rel Hins).
        rewrite lookup_app, Hsrc in Hl. exact Hl.
      + intros _. split.
        * rewrite (setAt_frame _ _ _ _ _ s Hins (apart_sym _ _ Hap)).
          exact (setAt_lookup_same _ _ _ _ _ Hrm).
        * intros rel data Hf. destruct Hf as (pm & mt & Hl). exists pm, mt.
          rewrite (setAt_lookup_under _ _ _ _ _ rel Hins).
          rewrite lookup_app, Hsrc in Hl. exact Hl. }
  unfold bind at 1 in H. unfold attempt at 1 in H.
  destruct (Rename (render s) (render (P ++ [m])) w1) as [rn w1'] eqn:Ern.
  assert (Hrun_eq :
            (rn <- attempt (Rename (render s) (render (P ++ [m]))) ;;
             match rn with
             | Err _ => copyAndDelete (render s) (render (P ++ [m])) (IsDir (infoOf src))
             | Ok _ => ret tt
             end) w1
            = (match rn with
               | Err _ => copyAndDelete (render s) (render (P ++ [m])) (IsDir (infoOf src))
               | Ok _ => ret tt
               end) w1').
  { unfold bind, attempt. rewrite Ern. reflexivity. }
  apply bind_inv in H.
  destruct H as [([] & w2 & Hrun & Htail) | (e & Hrun & ->)];
    rewrite <- Hrun_eq in Hrun.
  - destruct (Hmid _ _ Hrun) as [Cwf Cfr Ckept Cdone].
    destruct (Cdone eq_refl) as [Cgone Cmoved].
    destruct (Move_tail_post (render s) (hostOf w) (IsDir (infoOf src)) P m w2 HP Hm Cwf)
      as (w3 & Etail & Twf & Tfr).
    rewrite Etail in Htail. inversion Htail; subst.
    assert (Hmv : moved (fs w) (fs w') s (P ++ [m])).
    { intros rel data Hf. destruct Hf as (pm & mt & Hl).
      rewrite <- Hunder1 in Hl.
      destruct (Cmoved rel data (ex_intro _ pm (ex_intro _ mt Hl))) as (pm' & mt' & Hl').
      exists pm', mt'. rewrite Tfr by apply Hscd. exact Hl'. }
    constructor.
    + exact Twf.
    + intros rel data Hf. right. exact (Hmv rel data Hf).
    + intros tp E. inversion E; subst. split; [reflexivity|]. split; [|exact Hmv].
      rewrite <- (app_nil_r s). rewrite Tfr by apply Hsc. rewrite app_nil_r. exact Cgone.
    + intros q Hq1 Hq2 Hq3 Hq4. rewrite Tfr by exact Hq3.
      rewrite Cfr by assumption. apply Hfr1. exact Hq4.
  - destruct (Hmid _ _ Hrun) as [Cwf Cfr Ckept Cdone]. constructor.
    + exact Cwf.
    + intros rel data Hf. destruct Hf as (pm & mt & Hl). rewrite <- Hunder1 in Hl.
      exact (Ckept rel data (ex_intro _ pm (ex_intro _ mt Hl))).
    + intros tp E. discriminate.
    + intros q Hq1 Hq2 Hq3 Hq4. rewrite Cfr by assumption. apply Hfr1. exact Hq4.
Qed.

End MoveSec.

End MoveFacts.

(* ===================================================================== *)
(** ** [processPath]: nothing leaves the disk except into the trash *)
(* ===================================================================== *)

Module Safety.
Import Strings Filepath FS OS FilepathOS Config Trash Protect Cli Main Scenario.
Import Notions PathFacts FSFacts OSFacts CopyFacts TimeFacts MoveFacts.
Open Scope go_scope.

(** *** the confirmation prompt *)

Lemma ContainsByte_cons d s c :
  ContainsByte (String d s) c = Ascii.eqb c d || ContainsByte s c.
Proof. reflexivity. Qed.

Lemma token_cons c s :
  Fmt.token (String c s)
  = if Fmt.isSpace c then (EmptyString, String c s)
    else let (t, r) := Fmt.token s in (String c t, r).
Proof. reflexivity. Qed.

Lemma token_no_space s : ContainsByte (fst (Fmt.token s)) " "%char = false.
Proof.
  induction s as [|c s IH]; [reflexivity|]. rewrite token_cons.
  destruct (Fmt.isSpace c) eqn:E; [reflexivity|].
  destruct (Fmt.token s) as [t r]. cbn [fst] in *.
  rewrite ContainsByte_cons, IH, orb_false_r.
  destruct (Ascii.eqb " " c) eqn:E2; [|reflexivity].
  apply Ascii.eqb_eq in E2. subst c. discriminate.
Qed.

Lemma scanWord_no_space input : ContainsByte (fst (Fmt.scanWord input)) " "%char = false.
Proof.
  unfold Fmt.scanWord. destruct (Fmt.skipBlanks input) as [|c rest]; [reflexivity|].
  destruct (Fmt.isNewline c); [reflexivity|].
  pose proof (token_no_space (String c rest)) as H.
  destruct (Fmt.token (String c rest)) as [t r]. exact H.
Qed.

(** the phrase asked for can never be what [Scanln] stored *)
Lemma scanWord_not_phrase input :
  String.eqb (fst (Fmt.scanWord input)) "yes I am sure" = false.
Proof.
  destruct (String.eqb (fst (Fmt.scanWord input)) "yes I am sure") eqn:E; [|reflexivity].
  apply String.eqb_eq in E. pose proof (scanWord_no_space input) as H.
  rewrite E in H. discriminate.
Qed.

(** *** calls that leave the disk alone *)

Lemma sameDisk_refl w : sameDisk w w.
Proof. repeat split. Qed.

Lemma sameDisk_trans a b c : sameDisk a b -> sameDisk b c -> sameDisk a c.
Proof.
  unfold sameDisk. intros (A1 & A2 & A3 & A4 & A5 & A6) (B1 & B2 & B3 & B4 & B5 & B6).
  repeat split; congruence.
Qed.

Lemma Print_sameDisk s w : exists w', Print s w = (Ok tt, w') /\ sameDisk w w'.
Proof. eexists. split; [reflexivity|]. repeat split. Qed.

Lemma Eprint_sameDisk s w : exists w', Eprint s w = (Ok tt, w') /\ sameDisk w w'.
Proof. eexists. split; [reflexivity|]. repeat split. Qed.

Lemma Scanln_sameDisk w :
  exists w', Fmt.Scanln w = (Ok (fst (Fmt.scanWord (stdin w))), w') /\ sameDisk w w'.
Proof.
  unfold Fmt.Scanln. destruct (Fmt.scanWord (stdin w)) as [t r].
  eexists. split; [reflexivity|]. repeat split.
Qed.

Section Process.
Context {codec : JsonCodec}.

(** the gate never touches the disk, and a protected path never passes
    it *)
Lemma gate_sameDisk cfg opts absPath st w r w' :
  protectionGate cfg opts absPath st w = (r, w') ->
  sameDisk w w' /\ (Protected st = true -> r <> Ok tt).
Proof.
  unfold protectionGate. destruct (Protected st).
  - destruct (String.eqb (ProtectedBehavior cfg) "block").
    + intros H. inversion H; subst. split; [apply sameDisk_refl | discriminate].
    + intros H. destruct (Force opts); cbn [negb] in H.
      * inversion H; subst. split; [apply sameDisk_refl | discriminate].
      *
        destruct (Eprint_sameDisk
                    ("WARNING: You are about to remove a protected path!" ++ LF) w)
          as (w1 & E1 & S1).
        rewrite (bind_Ok _ _ _ _ _ E1) in H.
        destruct (Eprint_sameDisk (("  Path: " ++ absPath) ++ LF) w1) as (w2 & E2 & S2).
        rewrite (bind_Ok _ _ _ _ _ E2) in H.
        destruct (Eprint_sameDisk (("  Reason: " ++ Reason st) ++ LF) w2)
          as (w3 & E3 & S3).
        rewrite (bind_Ok _ _ _ _ _ E3) in H.
        destruct (Eprint_sameDisk "Type 'yes I am sure' to confirm: " w3) as (w4 & E4 & S4).
        rewrite (bind_Ok _ _ _ _ _ E4) in H.
        destruct (Scanln_sameDisk w4) as (w5 & E5 & S5).
        rewrite (bind_Ok _ _ _ _ _ E5) in H.
        rewrite scanWord_not_phrase in H. cbn [negb] in H. inversion H; subst.
        split; [|discriminate].
        repeat (eapply sameDisk_trans; [eassumption|]). apply sameDisk_refl.
  - intros H. inversion H; subst. split; [apply sameDisk_refl | discriminate].
Qed.


(** what [processPath] does to the disk: nothing, or what one call of
    [Move] on the absolute path does, and that only for a path that is
    not protected *)
Lemma processChecked_cases cfg opts path absPath w r w' :
  processChecked cfg opts path absPath w = (r, w') ->
  sameDisk w w'
  \/ (exists w1 r1 w2,
        sameDisk w w1 /\ Move cfg absPath w1 = (r1, w2) /\ sameDisk w2 w'
        /\ Protected (Check w cfg absPath (Recursive opts)) = false
        /\ (r = Ok tt <-> exists tp, r1 = Ok tp)).
Proof.
  unfold processChecked. unfold bind at 1. unfold query.
  intros H. apply bind_inv in H.
  destruct H as [([] & w1 & Hg & H) | (e & Hg & ->)];
    destruct (gate_sameDisk _ _ _ _ _ _ _ Hg) as [Sg Pg];
    [|left; exact Sg].
  assert (Hnp : Protected (Check w cfg absPath (Recursive opts)) = false).
  { destruct (Protected (Check w cfg absPath (Recursive opts))); [|reflexivity].
    exfalso. apply Pg; reflexivity. }
  apply bind_inv in H.
  destruct H as [(go & w2 & Hq & H) | (e & Hq & ->)].
  - assert (S2 : sameDisk w1 w2).
    { destruct (Interactive opts && negb (Force opts)).
      - destruct (Eprint_sameDisk ("remove '" ++ path ++ "'? ") w1) as (wa & Ea & Sa).
        rewrite (bind_Ok _ _ _ _ _ Ea) in Hq.
        destruct (Scanln_sameDisk wa) as (wb & Eb & Sb).
        rewrite (bind_Ok _ _ _ _ _ Eb) in Hq. inversion Hq; subst.
        eapply sameDisk_trans; eassumption.
      - inversion Hq; subst. apply sameDisk_refl. }
    destruct go.
    + unfold bind at 1 in H. unfold attempt at 1 in H.
      destruct (Move cfg absPath w2) as [r1 w3] eqn:Em.
      right. exists w2, r1, w3. split; [eapply sameDisk_trans; eassumption|].
      split; [exact Em|]. clear Em. destruct r1 as [tp|e].
      * destruct (Verbose opts).
        -- destruct (Print_sameDisk (("removed '" ++ path ++ "' (moved to trash: "
                                        ++ tp ++ ")") ++ LF) w3) as (w4 & E4 & S4).
           rewrite E4 in H. inversion H; subst. split; [exact S4|].
           split; [exact Hnp|]. split; eauto.
        -- inversion H; subst. split; [apply sameDisk_refl|].
           split; [exact Hnp|]. split; eauto.
      * inversion H; subst. split; [apply sameDisk_refl|]. split; [exact Hnp|].
        split; [discriminate | intros [tp E]; discriminate].
    + inversion H; subst. left. eapply sameDisk_trans; eassumption.
  - left. destruct (Interactive opts && negb (Force opts)).
    + destruct (Eprint_sameDisk ("remove '" ++ path ++ "'? ") w1) as (wa & Ea & Sa).
      rewrite (bind_Ok _ _ _ _ _ Ea) in Hq.
      destruct (Scanln_sameDisk wa) as (wb & Eb & Sb).
      rewrite (bind_Ok _ _ _ _ _ Eb) in Hq. inversion Hq.
    + inversion Hq.
Qed.

Lemma processPath_cases cfg opts path w r w' :
  processPath cfg opts path w = (r, w') ->
  sameDisk w w'
  \/ (exists w1 r1 w2,
        sameDisk w w1 /\ Move cfg (absIn w path) w1 = (r1, w2) /\ sameDisk w2 w'
        /\ Protected (Check w cfg (absIn w path) (Recursive opts)) = false
        /\ (r = Ok tt <-> exists tp, r1 = Ok tp)).
Proof.
  unfold processPath. unfold bind at 1. unfold Abs, query.
  unfold bind at 1. unfold attempt, Lstat, Stat, query.
  destruct (statIn w (absIn w path)) as [i|e].
  - intros H. apply bind_inv in H.
    destruct H as [([] & w1 & Hd & H) | (e & Hd & ->)].
    + assert (w1 = w).
      { destruct (IsDir i && negb (Recursive opts)); [|inversion Hd; reflexivity].
        destruct (RemoveEmptyDirs opts); [|inversion Hd].
        unfold bind, ReadDir, query in Hd.
        destruct (readDirIn w (absIn w path)) as [[|x l]|e]; inversion Hd; reflexivity. }
      subst w1. exact (processChecked_cases _ _ _ _ _ _ _ H).
    + left. destruct (IsDir i && negb (Recursive opts)); [|inversion Hd].
      destruct (RemoveEmptyDirs opts); [|inversion Hd; subst; apply sameDisk_refl].
      unfold bind, ReadDir, query in Hd.
      destruct (readDirIn w (absIn w path)) as [[|x l]|e']; inversion Hd; subst;
        apply sameDisk_refl.
  - intros H. left. destruct (IsNotExist e); [destruct (Force opts)|];
      inversion H; subst; apply sameDisk_refl.
Qed.

Lemma absIn_render w path :
  IsAbs (cwd w) = true -> exists s, validPath s = true /\ absIn w path = render s.
Proof.
  intros Hc. unfold absIn.
  assert (Hclean : forall x, IsAbs x = true ->
             exists s, validPath s = true /\ Clean x = render s).
  { intros x Hx. eexists. split; [|apply Clean_abs; exact Hx].
    apply cleanStack_rooted_valid; [reflexivity | apply Split_parts_nosep]. }
  destruct (IsAbs path) eqn:Ep; [apply Hclean; exact Ep|].
  unfold JoinPath. simpl filter.
  assert (E1 : String.eqb (cwd w) "" = false).
  { destruct (cwd w); [discriminate | reflexivity]. }
  rewrite E1. cbn [negb]. destruct (String.eqb path ""); cbn [negb].
  - apply Hclean. exact Hc.
  - apply Hclean. change (Join [cwd w; path] "/") with (cwd w ++ "/" ++ path).
    apply IsAbs_app. exact Hc.
Qed.

End Process.

Lemma pickName_sameDisk w w1 P n : sameDisk w w1 -> pickName w1 P n = pickName w P n.
Proof.
  intros (E1 & _ & E3 & _ & _ & E6). unfold pickName. rewrite E1, E3, E6. reflexivity.
Qed.

Lemma hostOf_sameDisk w w1 : sameDisk w w1 -> hostOf w1 = hostOf w.
Proof. intros (_ & E2 & _). unfold hostOf. rewrite E2. reflexivity. Qed.

Section NoLoss.
Context {codec : JsonCodec}.

(** [processPath] run on a path whose trash place is not inside it:
    what [Move] guarantees, or nothing happened to the disk *)
Lemma processPath_post cfg opts path w r w' s :
  wf (fs w) = true ->
  IsAbs (cwd w) = true ->
  IsAbs (TrashDir cfg) = true ->
  validName (hostOf w) = true ->
  resolve w (absIn w path) = Some s ->
  isPrefix s (trashRoot cfg ++ hostOf w :: s) = false ->
  processPath cfg opts path w = (r, w') ->
  fs w' = fs w
  \/ (Protected (Check w cfg (absIn w path) (Recursive opts)) = false
      /\ exists r1,
        movePost s (trashPlace cfg w s)
          (removelast (trashPlace cfg w s)
             ++ [last (trashPlace cfg w s) "" ++ metadataSuffix])
          (removelast (trashPlace cfg w s)) w r1 w'
        /\ (r = Ok tt <-> exists tp, r1 = Ok tp)).
Proof.
  intros Hw Hc Ht Hh Hres Hout Hrun.
  destruct (processPath_cases _ _ _ _ _ _ Hrun)
    as [S | (w1 & r1 & w2 & S1 & Hm & S2 & Hnp & Hr)].
  { left. apply S. }
  right. split; [exact Hnp|]. exists r1. split; [|exact Hr].
  destruct (absIn_render w path Hc) as (s' & Hs' & Eabs).
  rewrite Eabs, resolve_render in Hres by exact Hs'. inversion Hres; subst s'.
  assert (Hne : s <> []) by (intros ->; discriminate).
  pose proof (app_removelast_last "" Hne) as Esplit.
  set (s0 := removelast s) in *. set (n := last s "") in *.
  assert (Hout' : isPrefix (s0 ++ [n]) (trashRoot cfg ++ hostOf w1 :: s0) = false).
  { rewrite (hostOf_sameDisk _ _ S1), <- Esplit.
    destruct (isPrefix s (trashRoot cfg ++ hostOf w :: s0)) eqn:E; [|reflexivity].
    rewrite <- Hout. symmetry. rewrite Esplit at 2.
    replace (trashRoot cfg ++ hostOf w :: s0 ++ [n])%list
      with ((trashRoot cfg ++ hostOf w :: s0) ++ [n])%list
      by (rewrite <- app_assoc; reflexivity).
    eapply isPrefix_trans; [exact E | apply isPrefix_app]. }
  rewrite Eabs, Esplit in Hm.
  destruct S1 as (F1 & H1 & N1 & C1 & T1 & L1).
  assert (Hmp := Move_post cfg s0 n w1 r1 w2).
  cbv zeta in Hmp.
  rewrite <- Esplit in Hmp.
  specialize (Hmp Hs'). rewrite F1 in Hmp. specialize (Hmp Hw Ht).
  assert (Eh : hostOf w1 = hostOf w) by (unfold hostOf; rewrite H1; reflexivity).
  rewrite Eh in Hmp, Hout'. specialize (Hmp Hh).
  rewrite <- Esplit in Hout'. specialize (Hmp Hout').
  rewrite Esplit in Hmp at 1. specialize (Hmp Hm).
  assert (Ep : pickName w1 (trashRoot cfg ++ hostOf w :: s0) n
               = pickName w (trashRoot cfg ++ hostOf w :: s0) n).
  { unfold pickName. rewrite F1, N1, L1. reflexivity. }
  rewrite Ep in Hmp.
  assert (Etp : trashPlace cfg w s
                = ((trashRoot cfg ++ hostOf w :: s0)
                     ++ [pickName w (trashRoot cfg ++ hostOf w :: s0) n])%list)
    by reflexivity.
  rewrite Etp, removelast_last, last_last.
  destruct S2 as (F2 & _). destruct Hmp as [Mwf Mkept Mdone Mfr].
  rewrite F1 in Mkept. 
  assert (Mdone' : forall tp, r1 = Ok tp ->
             tp = render ((trashRoot cfg ++ hostOf w :: s0)
                            ++ [pickName w (trashRoot cfg ++ hostOf w :: s0) n])
             /\ lookup (fs w2) s = None
             /\ moved (fs w) (fs w2) s
                  ((trashRoot cfg ++ hostOf w :: s0)
                     ++ [pickName w (trashRoot cfg ++ hostOf w :: s0) n])).
  { intros tp E. specialize (Mdone tp E). rewrite F1 in Mdone. exact Mdone. }
  assert (Mfr' : forall q, apart s q ->
             apart ((trashRoot cfg ++ hostOf w :: s0)
                      ++ [pickName w (trashRoot cfg ++ hostOf w :: s0) n]) q ->
             apart ((trashRoot cfg ++ hostOf w :: s0)
                      ++ [pickName w (trashRoot cfg ++ hostOf w :: s0) n
                            ++ metadataSuffix]) q ->
             isPrefix q (trashRoot cfg ++ hostOf w :: s0) = false ->
             lookup (fs w2) q = lookup (fs w) q).
  { intros q Q1 Q2 Q3 Q4. rewrite <- F1. apply Mfr; assumption. }
  clear Mdone Mfr.
  constructor; rewrite F2.
  - exact Mwf.
  - exact Mkept.
  - exact Mdone'.
  - exact Mfr'.
Qed.


End NoLoss.


Section Collision.
Context {codec : JsonCodec}.

(** what a successful [Move] returns: the first place it looked at, or,
    when something is there, that place with a dot and the time stamp
    appended; nothing else is tried *)
Lemma Move_returns cfg absPath w tp w' :
  Move cfg absPath w = (Ok tp, w') ->
  tp = (if isOk (statIn w (trashTarget cfg (hostOf w) absPath))
        then trashTarget cfg (hostOf w) absPath ++ "." ++ Time.FormatStamp (local w) (now w)
        else trashTarget cfg (hostOf w) absPath).
Proof.
  unfold Move. intros H. unfold bind at 1 in H. unfold Lstat, Stat, query in H.
  destruct (statIn w absPath) as [info|e]; [|discriminate].
  unfold bind at 1 in H.
  assert (Hhost : attempt Hostname w
                  = (Ok (match hostname w with
                         | Some h => Ok h | None => Err (Errorf "hostname") end), w)).
  { unfold attempt, Hostname. destruct (hostname w); reflexivity. }
  rewrite Hhost in H.
  assert (Ehost : match (match hostname w with
                         | Some h => Ok h | None => Err (Errorf "hostname") end) with
                  | Ok x => x | Err _ => "unknown" end = hostOf w).
  { unfold hostOf. destruct (hostname w); reflexivity. }
  rewrite Ehost in H. clear Hhost Ehost.
  unfold bind at 1 in H. unfold attempt at 1, Stat, query in H.
  unfold bind at 1 in H. unfold Time.NowStamp, query in H.
  set (tpath := if isOk (statIn w (trashTarget cfg (hostOf w) absPath))
                then trashTarget cfg (hostOf w) absPath ++ "." ++ Time.FormatStamp (local w) (now w)
                else trashTarget cfg (hostOf w) absPath) in *.
  apply bind_inv in H. destruct H as [(mk & w1 & _ & H) | (e & _ & E)]; [|discriminate].
  destruct mk as [[]|e]; [|discriminate].
  apply bind_inv in H. destruct H as [(rn & w2 & _ & H) | (e & _ & E)]; [|discriminate].
  apply bind_inv in H. destruct H as [([] & w3 & _ & H) | (e & _ & E)]; [|discriminate].
  apply bind_inv in H. destruct H as [(t' & w4 & _ & H) | (e & _ & E)]; [|discriminate].
  apply bind_inv in H. destruct H as [(wr & w5 & _ & H) | (e & _ & E)]; [|discriminate].
  apply bind_inv in H. destruct H as [([] & w6 & _ & H) | (e & _ & E)]; [|discriminate].
  inversion H. reflexivity.
Qed.


Lemma stamped_longer n l t :
  String.length n + 16 <= String.length (n ++ "." ++ Time.FormatStamp l t).
Proof.
  rewrite !append_length. pose proof (FormatStamp_length l t). cbn [String.length]. lia.
Qed.

(** the name of a sidecar is no stamped name: the suffix holds a dot
    and letters, the stamp digits and dashes *)
Lemma sidecar_not_stamped n l t :
  n ++ metadataSuffix <> n ++ "." ++ Time.FormatStamp l t.
Proof.
  intros E. apply append_inj_l in E. apply (append_inj_l ".") in E.
  assert (C : ContainsByte (Time.FormatStamp l t) "s" = true) by (rewrite <- E; reflexivity).
  rewrite FormatStamp_bytes in C; [discriminate | right; cbn; lia | discriminate].
Qed.

Lemma stamped_sidecar_not_stamped n l t l' t' :
  (n ++ "." ++ Time.FormatStamp l' t') ++ metadataSuffix
  <> n ++ "." ++ Time.FormatStamp l t.
Proof.
  intros E. rewrite !append_assoc in E. apply append_inj_l in E.
  apply (append_inj_l ".") in E.
  assert (C : ContainsByte (Time.FormatStamp l t) "." = true).
  { rewrite <- E, ContainsByte_app. apply orb_true_r. }
  rewrite FormatStamp_bytes in C; [discriminate | left; cbn; lia | discriminate].
Qed.

Lemma length_neq (a b : string) : String.length a <> String.length b -> a <> b.
Proof. intros H E. apply H. rewrite E. reflexivity. Qed.

Lemma append_inj_r (a b c : string) : a ++ c = b ++ c -> a = b.
Proof.
  intros E.
  assert (Hlen : String.length a = String.length b).
  { apply (f_equal String.length) in E. rewrite !append_length in E. lia. }
  revert b E Hlen. induction a as [|x a IH]; intros [|y b] E Hlen;
    try discriminate; [reflexivity|].
  simpl in E. inversion E; subst. f_equal. apply IH; [assumption | simpl in Hlen; lia].
Qed.

Lemma Join_snoc_inj (P : list string) a b :
  Join (P ++ [a]) "/" = Join (P ++ [b]) "/" -> a = b.
Proof.
  induction P as [|c P IH]; intros E; [exact E|].
  destruct P as [|c2 P].
  - simpl in E. apply append_inj_l in E. apply (append_inj_l "/") in E. exact E.
  - change (Join ((c :: c2 :: P) ++ [a]) "/")
      with (c ++ "/" ++ Join ((c2 :: P) ++ [a]) "/") in E.
    change (Join ((c :: c2 :: P) ++ [b]) "/")
      with (c ++ "/" ++ Join ((c2 :: P) ++ [b]) "/") in E.
    apply append_inj_l in E. apply (append_inj_l "/") in E. exact (IH E).
Qed.

Lemma siblings_apart (P : list string) a b rel : a <> b -> apart (P ++ [a]) ((P ++ [b]) ++ rel).
Proof. apply apart_child_sib. Qed.


End Collision.


End Safety.

(* ===================================================================== *)
(** ** The scanner [findTrashItems] *)
(* ===================================================================== *)

Module ScanFacts.
Import Strings Filepath FS OS FilepathOS Config Trash Restore Scenario.
Import Notions PathFacts FSFacts OSFacts CopyFacts MoveFacts.
Open Scope go_scope.

Lemma existsb_negb_forallb {A} (f : A -> bool) l :
  existsb (fun x => negb (f x)) l = negb (forallb f l).
Proof.
  induction l as [|a l IH]; [reflexivity|]. simpl. rewrite IH.
  destruct (f a); reflexivity.
Qed.

Lemma forallb_map_comp {A B} (f : B -> bool) (g : A -> B) l :
  forallb f (map g l) = forallb (fun x => f (g x)) l.
Proof. induction l as [|a l IH]; [reflexivity|]. simpl. rewrite IH. reflexivity. Qed.

Section Scan.
Context {codec : JsonCodec}.

(** the callback reads the world and appends the path or not *)
Lemma findTrashItemsFn_eq trashDir path n items w :
  nodeAt w path = Some n ->
  findTrashItemsFn trashDir path (Some (infoOf n)) None items w
  = (Ok (if reported w trashDir path then (items ++ [path])%list else items), w).
Proof.
  intros Hn. unfold findTrashItemsFn, reported. rewrite Hn.
  destruct (HasSuffix path metadataSuffix); [reflexivity|].
  destruct (String.eqb path trashDir); [reflexivity|]. cbn [negb andb].
  unfold bind at 1.
  destruct n as [d pm mt | pm mt es].
  - cbn [IsDir infoOf isDir]. unfold ret at 1. cbn [leafLike andb].
    unfold bind, attempt, Stat, query.
    destruct (statIn w (path ++ metadataSuffix)); reflexivity.
  - cbn [IsDir infoOf isDir]. unfold bind at 1. unfold attempt, ReadDir, query, readDirIn.
    rewrite Hn. unfold ret at 1. cbn [leafLike].
    rewrite existsb_negb_forallb.
    replace (forallb (fun e : DirEntry => HasSuffix (Name e) metadataSuffix)
               (map (fun e : string * node => mkEntry (fst e) (isDir (snd e))) es))
      with (forallb (fun e : string * node => HasSuffix (fst e) metadataSuffix) es)
      by (rewrite forallb_map_comp; reflexivity).
    destruct (forallb (fun e : string * node => HasSuffix (fst e) metadataSuffix) es);
      cbn [negb andb]; [|reflexivity].
    unfold bind, attempt, Stat, query.
    destruct (statIn w (path ++ metadataSuffix)); reflexivity.
Qed.

Lemma findTrashItemsFn_err trashDir path info e items w :
  findTrashItemsFn trashDir path info (Some e) items w = (Ok items, w).
Proof. reflexivity. Qed.


Lemma height_Dir pm mt es :
  height (Dir pm mt es)
  = S (fold_right (fun e acc => Nat.max (height (snd e)) acc) 0 es).
Proof.
  simpl. f_equal. induction es as [|[k c] t IH]; [reflexivity|].
  simpl. rewrite IH. reflexivity.
Qed.

Lemma height_child pm mt es k ch :
  In (k, ch) es -> height ch < height (Dir pm mt es).
Proof.
  rewrite height_Dir. induction es as [|[k2 c2] t IH]; simpl; [contradiction|].
  intros [E | Hin].
  - inversion E; subst. lia.
  - specialize (IH Hin). lia.
Qed.

Lemma height_lookup n p m : lookup n p = Some m -> height m <= height n.
Proof.
  revert n. induction p as [|c p IH]; intros n H; simpl in H.
  - inversion H; subst. lia.
  - destruct n as [|pm mt es]; [discriminate|].
    destruct (assoc c es) as [ch|] eqn:Ea; [|discriminate].
    specialize (IH _ H). pose proof (height_child pm mt es c ch (assoc_In _ _ _ Ea)). lia.
Qed.

Lemma lookup_snoc n c k pm mt es :
  lookup n c = Some (Dir pm mt es) -> lookup n (c ++ [k]) = assoc k es.
Proof.
  intros H. rewrite lookup_app, H. simpl. destruct (assoc k es); reflexivity.
Qed.

Lemma walk_S {A} fuel path info (fn : WalkFunc A) a :
  walk (S fuel) path info fn a
  = if negb (IsDir info) then fn path (Some info) None a
    else
      names <- attempt (ReadDir path) ;;
      a1 <- fn path (Some info)
              (match names with Err e => Some e | Ok _ => None end) a ;;
      match names with
      | Err _ => ret a1
      | Ok entries =>
          forEach entries
            (fun e acc =>
               let filename := JoinPath [path; Name e] in
               fi <- attempt (Lstat filename) ;;
               match fi with
               | Err err => fn filename None (Some err) acc
               | Ok i => walk fuel filename i fn acc
               end)
            a1
      end.
Proof. reflexivity. Qed.

Lemma walk_found trashDir w :
  wf (fs w) = true ->
  forall fuel c n acc,
    validPath c = true -> lookup (fs w) c = Some n -> height n < fuel ->
    exists items,
      walk fuel (render c) (infoOf n) (findTrashItemsFn trashDir) acc w = (Ok items, w)
      /\ foundBelow w trashDir c acc items.
Proof.
  intros Hw fuel. induction fuel as [|fuel IHf]; intros c n acc Hc Hn Hh; [lia|].
  assert (Hself : nodeAt w (render c) = Some n).
  { rewrite nodeAt_render by exact Hc. exact Hn. }
  destruct n as [d pm mt | pm mt es].
  - (* a regular file: the callback, nothing below *)
    rewrite walk_S. change (IsDir (infoOf (File d pm mt))) with false. cbn [negb].
    rewrite (findTrashItemsFn_eq _ _ _ _ _ Hself).
    eexists. split; [reflexivity|]. unfold foundBelow. intros p. split.
    + intros Hin. destruct (reported w trashDir (render c)) eqn:Er; [|left; exact Hin].
      apply in_app_or in Hin. destruct Hin as [Hin | [<- | []]]; [left; exact Hin|].
      right. exists []. rewrite app_nil_r. repeat split; [congruence | exact Er].
    + intros [Hin | (rel & -> & Hex & Hrep)].
      * destruct (reported w trashDir (render c)); [apply in_or_app; left|]; exact Hin.
      * destruct rel as [|k rel].
        -- rewrite app_nil_r in *. rewrite Hrep. apply in_or_app. right. left. reflexivity.
        -- exfalso. apply Hex. rewrite lookup_app, Hn. reflexivity.
  - (* a directory: the callback, then every entry in turn *)
    rewrite walk_S. change (IsDir (infoOf (Dir pm mt es))) with true. cbn [negb].
    unfold bind at 1. unfold attempt at 1, ReadDir, query, readDirIn. rewrite Hself.
    unfold bind at 1. rewrite (findTrashItemsFn_eq _ _ _ _ _ Hself).
    set (acc1 := if reported w trashDir (render c) then (acc ++ [render c])%list else acc).
    change (map (fun e : string * node => mkEntry (fst e) (isDir (snd e))) es)
      with (map toEntry es).
    pose proof (wf_lookup _ _ _ Hw Hn) as Hwd. rewrite wf_Dir in Hwd.
    apply andb_true_iff in Hwd. destruct Hwd as [Hnames _].
    (* the loop, over any tail of the entries *)
    assert (Hloop : forall l a,
               (forall k ch, In (k, ch) l -> In (k, ch) es) ->
               exists items,
                 forEach (map toEntry l)
                   (fun e acc0 =>
                      fi <- attempt (Lstat (JoinPath [render c; Name e])) ;;
                      match fi with
                      | Err err =>
                          findTrashItemsFn trashDir (JoinPath [render c; Name e])
                            None (Some err) acc0
                      | Ok i =>
                          walk fuel (JoinPath [render c; Name e]) i
                            (findTrashItemsFn trashDir) acc0
                      end) a w = (Ok items, w)
                 /\ forall p,
                     In p items
                     <-> In p a
                         \/ exists k ch rel,
                             In (k, ch) l /\ p = render (c ++ k :: rel)
                             /\ lookup (fs w) (c ++ k :: rel) <> None
                             /\ reported w trashDir p = true).
    { induction l as [|[k ch] l IHl]; intros a Hsub.
      - exists a. split; [reflexivity|]. intros p. split; [auto|].
        intros [H | (k & ch & rel & [] & _)]. exact H.
      - assert (Hin : In (k, ch) es) by (apply Hsub; left; reflexivity).
        pose proof (namesOk_valid _ _ _ Hnames Hin) as Hk.
        pose proof (namesOk_In_assoc _ _ _ Hnames Hin) as Hassoc.
        assert (Hck : validPath (c ++ [k]) = true) by (apply validPath_snoc; assumption).
        assert (Hlk : lookup (fs w) (c ++ [k]) = Some ch).
        { rewrite (lookup_snoc _ _ _ _ _ _ Hn). exact Hassoc. }
        destruct (IHf (c ++ [k])%list ch a Hck Hlk) as (items1 & E1 & F1).
        { pose proof (height_child pm mt es k ch Hin). lia. }
        destruct (IHl items1) as (items2 & E2 & F2).
        { intros k' ch' H. apply Hsub. right. exact H. }
        exists items2. split.
        + cbn [map forEach toEntry fst snd Name].
          unfold bind at 1. unfold bind at 1.
          rewrite JoinPath_render by assumption.
          unfold attempt, Lstat, Stat, query, statIn.
          rewrite nodeAt_render, Hlk by exact Hck.
          rewrite E1. exact E2.
        + intros p. unfold foundBelow in F1. rewrite F2, (F1 p). split.
          * intros [[H | (rel & -> & Hex & Hrep)] | (k' & ch' & rel & Hin' & Hp)].
            -- left. exact H.
            -- right. exists k, ch, rel. rewrite <- app_assoc in *.
               split; [left; reflexivity|]. repeat split; assumption.
            -- right. exists k', ch', rel. split; [right; exact Hin' | exact Hp].
          * intros [H | (k' & ch' & rel & [E | Hin'] & -> & Hex & Hrep)].
            -- left. left. exact H.
            -- inversion E; subst k' ch'. left. right. exists rel.
               rewrite <- app_assoc. repeat split; assumption.
            -- right. exists k', ch', rel. repeat split; assumption. }
    destruct (Hloop es acc1 (fun k ch H => H)) as (items & E & F).
    exists items. split; [exact E|].
    unfold foundBelow. intros p. rewrite F. unfold acc1. split.
    + intros [H | (k & ch & rel & Hin & -> & Hex & Hrep)].
      * destruct (reported w trashDir (render c)) eqn:Er; [|left; exact H].
        apply in_app_or in H. destruct H as [H | [<- | []]]; [left; exact H|].
        right. exists []. rewrite app_nil_r. repeat split; [congruence | exact Er].
      * right. exists (k :: rel). repeat split; assumption.
    + intros [H | (rel & -> & Hex & Hrep)].
      * left. destruct (reported w trashDir (render c)); [apply in_or_app; left|]; exact H.
      * destruct rel as [|k rel].
        -- left. rewrite app_nil_r in *. rewrite Hrep. apply in_or_app. right. left.
           reflexivity.
        -- right. destruct (lookup (fs w) (c ++ k :: rel)) as [x|] eqn:Ex; [|congruence].
           rewrite lookup_app, Hn in Ex. simpl in Ex.
           destruct (assoc k es) as [ch|] eqn:Ea; [|discriminate].
           exists k, ch, rel. split; [apply assoc_In; exact Ea|].
           repeat split; [|exact Hrep]. rewrite lookup_app, Hn. simpl. rewrite Ea.
           congruence.
Qed.


Lemma lookup_valid n p m : wf n = true -> lookup n p = Some m -> validPath p = true.
Proof.
  revert n. induction p as [|c p IH]; intros n Hw H; [reflexivity|].
  simpl in H. destruct n as [|pm mt es]; [discriminate|].
  destruct (assoc c es) as [ch|] eqn:Ea; [|discriminate].
  simpl. rewrite (IH ch (wf_assoc _ _ _ _ _ Hw Ea) H), andb_true_r.
  rewrite wf_Dir in Hw. apply andb_true_iff in Hw. destruct Hw as [Hn _].
  exact (namesOk_valid _ _ _ Hn (assoc_In _ _ _ Ea)).
Qed.

Lemma render_inj a b :
  validPath a = true -> validPath b = true -> render a = render b -> a = b.
Proof.
  intros Ha Hb E. pose proof (resolve_render emptyWorld a Ha) as Ra.
  rewrite E, (resolve_render emptyWorld b Hb) in Ra. inversion Ra. reflexivity.
Qed.

(** what [findTrashItems] returns for a canonical trash root: exactly
    the existing paths below it that pass the callback's test *)
Lemma findTrashItems_spec T w :
  wf (fs w) = true -> validPath T = true ->
  exists items,
    findTrashItems (render T) w = (Ok items, w)
    /\ forall p,
        In p items
        <-> exists rel, p = render (T ++ rel)
                        /\ lookup (fs w) (T ++ rel) <> None
                        /\ reported w (render T) p = true.
Proof.
  intros Hw HT. unfold findTrashItems, Walk.
  unfold bind at 1. unfold attempt, Lstat, Stat, query, statIn.
  rewrite nodeAt_render by exact HT.
  destruct (lookup (fs w) T) as [n|] eqn:En.
  - destruct (walk_found (render T) w Hw (S (height (fs w))) T n [] HT En)
      as (items & E & F).
    { pose proof (height_lookup _ _ _ En). lia. }
    exists items. split; [exact E|]. intros p. rewrite (F p). split.
    + intros [[] | H]. exact H.
    + intros H. right. exact H.
  - exists []. split; [reflexivity|]. intros p. split; [intros []|].
    intros (rel & _ & Hex & _). apply Hex. rewrite lookup_app, En. reflexivity.
Qed.


End Scan.



End ScanFacts.

(* ===================================================================== *)
(** ** [Restore] *)
(* ===================================================================== *)

Module RestoreFacts.
Import Strings Filepath FS OS FilepathOS Config Trash Restore Scenario.
Import Notions PathFacts FSFacts OSFacts CopyFacts MoveFacts ScanFacts.
Open Scope go_scope.

Section Select.
Context {codec : JsonCodec}.

Lemma GetMetadata_eq item w :
  attempt (GetMetadata item) w
  = (Ok (match metaIn w item with
         | Some m => Ok m
         | None =>
             match readFileIn w (item ++ metadataSuffix) with
             | Ok _ => Err (Errorf "invalid character")
             | Err e => Err e
             end
         end), w).
Proof.
  unfold attempt, GetMetadata, bind, ReadFile, query, metaIn.
  destruct (readFileIn w (item ++ metadataSuffix)) as [data|e]; [|reflexivity].
  destruct (unmarshal data); reflexivity.
Qed.

Lemma restoreStep_eq o item acc w :
  restoreStep o item acc w = (Ok (selectStep w o item acc), w).
Proof.
  unfold restoreStep. unfold bind at 1. rewrite GetMetadata_eq. unfold selectStep.
  destruct (metaIn w item) as [m|].
  - destruct (String.eqb (OriginalPath m) o); [|reflexivity].
    destruct (snd acc) as [old|]; [|reflexivity].
    destruct (Time.After (DeletedAt m) (DeletedAt old)); reflexivity.
  - destruct (readFileIn w (item ++ metadataSuffix)); reflexivity.
Qed.

Lemma forEach_restoreStep o items acc w :
  forEach items (restoreStep o) acc w = (Ok (select w o items acc), w).
Proof.
  revert acc. induction items as [|item items IH]; intros acc; [reflexivity|].
  simpl forEach. unfold bind. rewrite restoreStep_eq. apply IH.
Qed.

Lemma selectStep_selected w o seen item acc :
  selected w o seen acc ->
  selected w o (seen ++ [item]) (selectStep w o item acc).
Proof.
  unfold selected, selectStep, matches. destruct acc as [it [old|]]; cbn [fst snd].
  - intros (Hin & Hm & Ho & Hmax).
    destruct (metaIn w item) as [m|] eqn:Em.
    + destruct (String.eqb (OriginalPath m) o) eqn:Eo.
      * apply String.eqb_eq in Eo. unfold Time.After.
        destruct (Z.ltb (DeletedAt old) (DeletedAt m)) eqn:Elt; cbn [fst snd].
        -- apply Z.ltb_lt in Elt. split; [apply in_or_app; right; left; reflexivity|].
           split; [exact Em|]. split; [exact Eo|].
           intros c m' Hc Hm' Ho'. apply in_app_or in Hc. destruct Hc as [Hc | [<- | []]].
           ++ specialize (Hmax c m' Hc Hm' Ho'). lia.
           ++ rewrite Em in Hm'. inversion Hm'; subst. lia.
        -- apply Z.ltb_ge in Elt. split; [apply in_or_app; left; exact Hin|].
           split; [exact Hm|]. split; [exact Ho|].
           intros c m' Hc Hm' Ho'. apply in_app_or in Hc. destruct Hc as [Hc | [<- | []]].
           ++ exact (Hmax c m' Hc Hm' Ho').
           ++ rewrite Em in Hm'. inversion Hm'; subst. exact Elt.
      * cbn [fst snd]. split; [apply in_or_app; left; exact Hin|].
        split; [exact Hm|]. split; [exact Ho|].
        intros c m' Hc Hm' Ho'. apply in_app_or in Hc. destruct Hc as [Hc | [<- | []]].
        -- exact (Hmax c m' Hc Hm' Ho').
        -- rewrite Em in Hm'. inversion Hm'; subst.
           apply String.eqb_neq in Eo. contradiction.
    + cbn [fst snd]. split; [apply in_or_app; left; exact Hin|].
      split; [exact Hm|]. split; [exact Ho|].
      intros c m' Hc Hm' Ho'. apply in_app_or in Hc. destruct Hc as [Hc | [<- | []]].
      * exact (Hmax c m' Hc Hm' Ho').
      * rewrite Em in Hm'. discriminate.
  - intros (Hit & Hnone).
    destruct (metaIn w item) as [m|] eqn:Em.
    + destruct (String.eqb (OriginalPath m) o) eqn:Eo; cbn [fst snd].
      * apply String.eqb_eq in Eo. split; [apply in_or_app; right; left; reflexivity|].
        split; [exact Em|]. split; [exact Eo|].
        intros c m' Hc Hm' Ho'. apply in_app_or in Hc. destruct Hc as [Hc | [<- | []]].
        -- specialize (Hnone c Hc). rewrite Hm' in Hnone.
           apply String.eqb_neq in Hnone. contradiction.
        -- rewrite Em in Hm'. inversion Hm'; subst. lia.
      * split; [exact Hit|]. intros c Hc. apply in_app_or in Hc.
        destruct Hc as [Hc | [<- | []]]; [exact (Hnone c Hc)|]. rewrite Em. exact Eo.
    + cbn [fst snd]. split; [exact Hit|]. intros c Hc. apply in_app_or in Hc.
      destruct Hc as [Hc | [<- | []]]; [exact (Hnone c Hc)|]. rewrite Em. reflexivity.
Qed.

Lemma select_selected w o items :
  selected w o items (select w o items ("", None)).
Proof.
  assert (H : forall seen acc,
             selected w o seen acc ->
             selected w o (seen ++ items) (select w o items acc)).
  { induction items as [|item items IH]; intros seen acc Hs.
    - rewrite app_nil_r. exact Hs.
    - simpl select. replace (seen ++ item :: items)%list
        with ((seen ++ [item]) ++ items)%list by (rewrite <- app_assoc; reflexivity).
      apply IH. apply selectStep_selected. exact Hs. }
  apply (H [] ("", None)). split; [reflexivity | intros c []].
Qed.

End Select.

Lemma lookup_prefix_exists n a r x :
  lookup n (a ++ r) = Some x -> exists y, lookup n a = Some y.
Proof.
  rewrite lookup_app. destruct (lookup n a) as [y|]; [eauto | discriminate].
Qed.

Lemma lookup_below_file n a d pm mt c r :
  lookup n a = Some (File d pm mt) -> lookup n (a ++ c :: r) = None.
Proof. intros H. rewrite lookup_app, H. reflexivity. Qed.

Lemma lookup_parent_dir n p c x :
  lookup n (p ++ [c]) = Some x -> exists pm mt es, lookup n p = Some (Dir pm mt es).
Proof.
  rewrite lookup_app. destruct (lookup n p) as [[d pm mt|pm mt es]|]; try discriminate.
  eauto.
Qed.

(** no regular file lies on the way of a successful [mkdirAll] *)
Lemma mkdirAll_no_file now perm n p n' a d pm mt :
  mkdirAll now perm n p = Some n' -> isPrefix a p = true ->
  lookup n a <> Some (File d pm mt).
Proof.
  revert n n' a. induction p as [|c p IH]; intros n n' a H Ha.
  - destruct a; [|discriminate]. destruct n; [discriminate|]. simpl. discriminate.
  - destruct n as [|pm' mt' es]; [discriminate|]. simpl in H.
    destruct a as [|x a]; [simpl; discriminate|].
    simpl in Ha. apply andb_true_iff in Ha. destruct Ha as [Ex Ha].
    apply String.eqb_eq in Ex. subst x. simpl.
    destruct (assoc c es) as [ch|] eqn:Ea; [|discriminate].
    destruct (mkdirAll now perm ch p) as [ch'|] eqn:E; [|discriminate].
    exact (IH _ _ _ E Ha).
Qed.

(** [Remove] on a regular file succeeds *)
Lemma Remove_file sc name w d pm mt :
  validPath (sc ++ [name]) = true ->
  lookup (fs w) (sc ++ [name]) = Some (File d pm mt) ->
  exists n',
    setAt (now w) (fs w) (sc ++ [name]) None = Some n'
    /\ Remove (render (sc ++ [name])) w
       = (Ok tt, setFs w n' (EvRemove (render (sc ++ [name])))).
Proof.
  intros Hv Hl. destruct (lookup_parent_dir _ _ _ _ Hl) as (pm' & mt' & es & Hp).
  destruct (setAt_ok (now w) _ _ name None _ _ _ Hp) as [n' Hn'].
  exists n'. split; [exact Hn'|].
  unfold Remove. rewrite resolve_render by exact Hv. rewrite Hl.
  unfold removeAt. rewrite Hn'. reflexivity.
Qed.

Lemma snoc_cases {A} (l : list A) : l = [] \/ exists p x, l = (p ++ [x])%list.
Proof.
  destruct l as [|a l]; [left; reflexivity|]. right.
  exists (removelast (a :: l)), (last (a :: l) a).
  apply app_removelast_last. discriminate.
Qed.

Lemma isPrefix_snoc_cases (a p : list string) x :
  isPrefix a (p ++ [x]) = true -> a = (p ++ [x])%list \/ isPrefix a p = true.
Proof.
  revert p. induction a as [|c a IH]; intros p H; [right; reflexivity|].
  destruct p as [|d p].
  - simpl in H. apply andb_true_iff in H. destruct H as [E H].
    apply String.eqb_eq in E. subst. destruct a; [left; reflexivity | discriminate].
  - simpl in H. apply andb_true_iff in H. destruct H as [E H].
    apply String.eqb_eq in E. subst. destruct (IH _ H) as [-> | Hp].
    + left. reflexivity.
    + right. simpl. rewrite String.eqb_refl. exact Hp.
Qed.

Lemma not_prefix_of_missing n a b x :
  lookup n b = Some x -> lookup n a = None -> isPrefix a b = false.
Proof.
  intros Hb Ha. destruct (isPrefix a b) eqn:E; [|reflexivity].
  apply isPrefix_iff in E. destruct E as [r ->].
  destruct (lookup_prefix_exists _ _ _ _ Hb) as [y Hy]. congruence.
Qed.

Section RestoreSec.
Context {codec : JsonCodec}.

(** what a successful [Restore] of a canonical path leaves behind *)
Lemma restore_moves_back T rel w oc w' d pm mt :
  wf (fs w) = true ->
  validPath (T ++ rel) = true -> rel <> [] ->
  validPath oc = true ->
  lookup (fs w) (T ++ rel) <> None ->
  nodeAt w (render (T ++ rel) ++ metadataSuffix) = Some (File d pm mt) ->
  lookup (fs w) oc = None ->
  (mk <- attempt (MkdirAll (Filepath.Dir (render oc)) 493) ;;
   match mk with
   | Err e => fail (Errorf ("failed to create parent directory: " ++ errText e))
   | Ok _ =>
       rn <- attempt (Rename (render (T ++ rel)) (render oc)) ;;
       match rn with
       | Err e => fail (Errorf ("failed to restore: " ++ errText e))
       | Ok _ =>
           attempt (Remove (render (T ++ rel) ++ metadataSuffix)) ;;;
           Println ("Restored: " ++ render (T ++ rel) ++ " -> " ++ render oc)
       end
   end) w = (Ok tt, w') ->
  lookup (fs w') oc = lookup (fs w) (T ++ rel)
  /\ lookup (fs w') (T ++ rel) = None
  /\ nodeAt w' (render (T ++ rel) ++ metadataSuffix) = None
  /\ exists pm' mt' es, lookup (fs w') (removelast oc) = Some (Dir pm' mt' es).
Proof.
  intros Hw Hic Hrel Hoc Hex Hside Hmiss Hrun.
  set (ic := (T ++ rel)%list) in *.
  destruct (snoc_cases ic) as [E | (ip & iname & Eic)].
  { exfalso. unfold ic in E. apply app_eq_nil in E. destruct E as [_ E]. contradiction. }
  destruct (snoc_cases oc) as [E | (op & oname & Eoc)].
  { exfalso. subst oc. simpl in Hmiss. discriminate. }
  rewrite Eic in Hic. destruct (validPath_snoc_inv _ _ Hic) as [Hip Hiname].
  rewrite Eoc in Hoc. destruct (validPath_snoc_inv _ _ Hoc) as [Hop Honame].
  set (sc := (ip ++ [(iname ++ metadataSuffix)%string])%list).
  assert (Hsc : validPath sc = true).
  { apply validPath_snoc; [exact Hip|]. apply validName_append; [exact Hiname | reflexivity]. }
  assert (Esc : render ic ++ metadataSuffix = render sc).
  { rewrite Eic. apply render_snoc_append. }
  rewrite Esc in *. rewrite nodeAt_render in Hside by exact Hsc.
  rewrite <- Eic in Hic. rewrite <- Eoc in Hoc.
  destruct (lookup (fs w) ic) as [nitem|] eqn:Eitem; [|congruence]. clear Hex.
  (* the three paths are apart *)
  assert (Hoc_ic : isPrefix oc ic = false) by exact (not_prefix_of_missing _ _ _ _ Eitem Hmiss).
  assert (Hoc_sc : isPrefix oc sc = false) by exact (not_prefix_of_missing _ _ _ _ Hside Hmiss).
  assert (Hsib : apart sc ic).
  { rewrite Eic. unfold sc. apply apart_siblings. intros E.
    rewrite <- (append_nil_r iname) in E at 2. apply append_inj_l in E. discriminate. }
  (* creating the parent directories *)
  rewrite Eoc in Hrun at 1. rewrite Dir_render in Hrun by assumption.
  unfold bind at 1 in Hrun. unfold attempt at 1 in Hrun.
  destruct (MkdirAll_cases op 493 w Hop) as [[e He] | (n1 & Hmk & He)]; rewrite He in Hrun;
    [discriminate|].
  set (w1 := setFs w n1 (EvMkdirAll (render op))) in *.
  assert (Hsc_op : isPrefix sc op = false).
  { destruct (isPrefix sc op) eqn:E; [|reflexivity]. exfalso.
    exact (mkdirAll_no_file _ _ _ _ _ _ _ _ _ Hmk E Hside). }
  assert (Hsc_oc : isPrefix sc oc = false).
  { destruct (isPrefix sc oc) eqn:E; [|reflexivity]. rewrite Eoc in E.
    destruct (isPrefix_snoc_cases _ _ _ E) as [E' | E'].
    - rewrite <- Eoc in E'. rewrite E' in Hside. congruence.
    - congruence. }
  (* the move back *)
  unfold bind at 1 in Hrun. unfold attempt at 1 in Hrun.
  destruct (Rename_cases ic oc w1 Hic Hoc)
    as [[e He1] | [[Heq He1] | (n & na & nb & Hsrc & Hnp & Hneq & Hnd & Hrm & Hins & He1)]];
    rewrite He1 in Hrun; [discriminate | |].
  { exfalso. apply pathEqb_true in Heq. congruence. }
  assert (Hic_op : isPrefix ic op = false).
  { destruct (isPrefix ic op) eqn:E; [|reflexivity].
    rewrite <- Hnp. symmetry. rewrite Eoc.
    eapply isPrefix_trans; [exact E | apply isPrefix_app]. }
  assert (Hn : n = nitem).
  { unfold w1 in Hsrc. rewrite fs_setFs, (mkdirAll_frame _ _ _ _ _ ic Hmk Hic_op) in Hsrc.
    congruence. }
  subst n.
  assert (Hap : apart ic oc) by (split; assumption).
  assert (Hap_sc : apart oc sc) by (split; assumption).
  set (w2 := setFs w1 nb (EvRename (render ic) (render oc))) in *.
  assert (Hoc2 : lookup (fs w2) oc = Some nitem) by exact (setAt_lookup_same _ _ _ _ _ Hins).
  assert (Hic2 : lookup (fs w2) ic = None).
  { unfold w2. rewrite fs_setFs, (setAt_frame _ _ _ _ _ ic Hins (apart_sym _ _ Hap)).
    exact (setAt_lookup_same _ _ _ _ _ Hrm). }
  assert (Hsc2 : lookup (fs w2) sc = Some (File d pm mt)).
  { unfold w2. rewrite fs_setFs, (setAt_frame _ _ _ _ _ sc Hins Hap_sc).
    rewrite (setAt_frame _ _ _ _ _ sc Hrm (apart_sym _ _ Hsib)).
    unfold w1. rewrite fs_setFs, (mkdirAll_frame _ _ _ _ _ sc Hmk Hsc_op). exact Hside. }
  (* the sidecar goes *)
  unfold bind at 1 in Hrun. unfold attempt at 1 in Hrun.
  destruct (Remove_file ip (iname ++ metadataSuffix) w2 d pm mt Hsc Hsc2) as (n3 & Hset3 & He3).
  fold sc in He3, Hset3. rewrite He3 in Hrun.
  assert (Hfs : fs w' = n3).
  { apply (f_equal (fun x => fs (snd x))) in Hrun. unfold Print in Hrun.
    cbn [fs snd setFs] in Hrun. symmetry. exact Hrun. }
  rewrite (nodeAt_render w' sc Hsc), Hfs. clear Hrun.
  assert (Hoc3 : lookup n3 oc = Some nitem).
  { rewrite (setAt_frame _ _ _ _ _ oc Hset3 (apart_sym _ _ Hap_sc)). exact Hoc2. }
  split; [exact Hoc3|]. split.
  { rewrite (setAt_frame _ _ _ _ _ ic Hset3 Hsib). exact Hic2. }
  split; [exact (setAt_lookup_same _ _ _ _ _ Hset3)|].
  rewrite Eoc, removelast_last. rewrite Eoc in Hoc3.
  exact (lookup_parent_dir _ _ _ _ Hoc3).
Qed.

End RestoreSec.

Lemma readFileIn_Ok w p data :
  readFileIn w p = Ok data -> exists pm mt, nodeAt w p = Some (File data pm mt).
Proof.
  unfold readFileIn. destruct (nodeAt w p) as [[d pm mt | pm mt es]|]; try discriminate.
  intros H. inversion H. eauto.
Qed.

Section RestoreMain.
Context {codec : JsonCodec}.

Lemma Restore_unfold cfg o w items :
  findTrashItems (GetTrashDir cfg) w = (Ok items, w) ->
  Restore cfg o w
  = (let matchedItem := fst (select w o items ("", None)) in
     if String.eqb matchedItem "" then
       fail (Errorf ("no item found in trash with original path: " ++ o))
     else
       st <- attempt (Stat o) ;;
       if isOk st then
         fail (Errorf ("destination already exists: " ++ o))
       else
         mk <- attempt (MkdirAll (Filepath.Dir o) 493) ;;
         match mk with
         | Err e =>
             fail (Errorf ("failed to create parent directory: " ++ errText e))
         | Ok _ =>
             rn <- attempt (Rename matchedItem o) ;;
             match rn with
             | Err e => fail (Errorf ("failed to restore: " ++ errText e))
             | Ok _ =>
                 attempt (Remove (matchedItem ++ metadataSuffix)) ;;;
                 Println ("Restored: " ++ matchedItem ++ " -> " ++ o)
             end
         end) w.
Proof.
  intros E. unfold Restore. unfold bind at 1. rewrite E.
  unfold bind at 1. rewrite forEach_restoreStep. reflexivity.
Qed.


End RestoreMain.


(** the three outcomes on concrete trash trees *)
Example restore_brings_back :
  exists w',
    Restore (cfgWith []) "/home/u/f.txt" (worldOf oneItemTrash t0 "") = (Ok tt, w')
    /\ nodeAt w' "/home/u/f.txt" = Some (f "hello" 7)
    /\ nodeAt w' "/t/H/home/u/f.txt" = None
    /\ nodeAt w' "/t/H/home/u/f.txt.saferm-meta" = None.
Proof. eexists. vm_compute. repeat split. Qed.

Example restore_not_found :
  Restore (cfgWith []) "/home/u/g.txt" (worldOf oneItemTrash t0 "")
  = (Err (Errorf "no item found in trash with original path: /home/u/g.txt"),
     worldOf oneItemTrash t0 "").
Proof. vm_compute. reflexivity. Qed.

Example restore_already_exists :
  Restore (cfgWith []) "/home/u/f.txt" (worldOf retrashTree t0 "")
  = (Err (Errorf "destination already exists: /home/u/f.txt"),
     worldOf retrashTree t0 "").
Proof. vm_compute. reflexivity. Qed.

Example restore_takes_latest :
  exists w',
    Restore (cfgWith []) "/home/u/f.txt" (worldOf twoItemTrash (t0 + 100) "")
    = (Ok tt, w')
    /\ nodeAt w' "/home/u/f.txt" = Some (f "newer" 8)
    /\ nodeAt w' "/t/H/home/u/f.txt" = Some (f "old" 7)
    /\ nodeAt w' "/t/H/home/u/f.txt.saferm-meta" <> None.
Proof. eexists. vm_compute. repeat split. discriminate. Qed.

End RestoreFacts.

(* ===================================================================== *)
(** ** [cli.Parse] *)
(* ===================================================================== *)

Module ParseFacts.
Import Strings Filepath FS OS Config Cli CliParse Vocabulary.
Import OSFacts.
Open Scope go_scope.

Ltac long_cases H :=
  unfold parseLongOption in H;
  match type of H with context [cutValue ?a] => destruct (cutValue a) as [name value] end;
  repeat match type of H with
         | context [if String.eqb ?a ?b then _ else _] =>
             destruct (String.eqb a b) eqn:?
         | context [match Numeric.SscanInt ?v with _ => _ end] =>
             destruct (Numeric.SscanInt v) eqn:?
         end;
  unfold ret, fail, printHelp, Print, bind in H; inversion H; subst; clear H.

Lemma long_Files opts arg w o w' :
  parseLongOption opts arg w = (Ok o, w') -> Files (Std o) = Files (Std opts).
Proof. intros H. long_cases H; reflexivity. Qed.

Lemma long_root opts arg w o w' :
  parseLongOption opts arg w = (Ok o, w') -> rootExclusive opts -> rootExclusive o.
Proof. intros H R. unfold rootExclusive in *. long_cases H; try exact R; reflexivity. Qed.

Lemma shortFlag_Files c f o : shortFlag c = Some f -> Files (f o) = Files o.
Proof.
  unfold shortFlag.
  repeat match goal with
         | |- context [if ?b then _ else _] => destruct b
         end; intros H; inversion H; reflexivity.
Qed.

Lemma shortFlag_root c f o :
  shortFlag c = Some f ->
  PreserveRoot (f o) = PreserveRoot o /\ NoPreserveRoot (f o) = NoPreserveRoot o.
Proof.
  unfold shortFlag.
  repeat match goal with
         | |- context [if ?b then _ else _] => destruct b
         end; intros H; inversion H; split; reflexivity.
Qed.

Lemma short_Files flags : forall opts w o w',
  parseShortOptions opts flags w = (Ok o, w') -> Files (Std o) = Files (Std opts).
Proof.
  induction flags as [|c r IH]; intros opts w o w' H; simpl in H.
  - inversion H. reflexivity.
  - destruct (shortFlag c) as [f|] eqn:E; [|discriminate].
    rewrite (IH _ _ _ _ H). simpl. exact (shortFlag_Files _ _ _ E).
Qed.

Lemma short_root flags : forall opts w o w',
  parseShortOptions opts flags w = (Ok o, w') -> rootExclusive opts -> rootExclusive o.
Proof.
  induction flags as [|c r IH]; intros opts w o w' H R; simpl in H.
  - inversion H. subst. exact R.
  - destruct (shortFlag c) as [f|] eqn:E; [|discriminate].
    apply (IH _ _ _ _ H). unfold rootExclusive in *. simpl.
    destruct (shortFlag_root _ _ (Std opts) E) as [-> ->]. exact R.
Qed.

Lemma short_world flags : forall opts w r w',
  parseShortOptions opts flags w = (r, w') -> w' = w.
Proof.
  induction flags as [|c r IH]; intros opts w res w' H; simpl in H.
  - inversion H. reflexivity.
  - destruct (shortFlag c) as [f|]; [exact (IH _ _ _ _ H) | inversion H; reflexivity].
Qed.

Lemma parseArgs_root args : forall opts w o w',
  parseArgs args opts w = (Ok o, w') -> rootExclusive opts -> rootExclusive o.
Proof.
  induction args as [|arg rest IH]; intros opts w o w' H R; simpl in H.
  - inversion H. subst. exact R.
  - destruct (String.eqb arg "--").
    { inversion H. subst. exact R. }
    destruct (HasPrefix arg "--").
    { apply bind_inv in H. destruct H as [(o1 & w1 & H1 & H2) | [e [_ H]]]; [|discriminate].
      exact (IH _ _ _ _ H2 (long_root _ _ _ _ _ H1 R)). }
    destruct (HasPrefix arg "-" && Nat.ltb 1 (String.length arg)).
    { apply bind_inv in H. destruct H as [(o1 & w1 & H1 & H2) | [e [_ H]]]; [|discriminate].
      exact (IH _ _ _ _ H2 (short_root _ _ _ _ _ H1 R)). }
    exact (IH _ _ _ _ H R).
Qed.

(** X1.  Whatever the arguments, the options [Parse] returns have
    [NoPreserveRoot] the negation of [PreserveRoot]: the two flags are
    never both set nor both clear. *)
Theorem parse_root_flags_exclusive args w o w' :
  Parse args w = (Ok o, w') ->
  NoPreserveRoot (Std o) = negb (PreserveRoot (Std o)).
Proof.
  intros H. exact (parseArgs_root args _ _ _ _ H eq_refl).
Qed.

Lemma parse_root_flags_exclusive_witness :
  NoPreserveRoot
    (Std (match fst (Parse ["-r"; "--no-preserve-root"; "x"]
                       (Scenario.worldOf (Scenario.d []) 0 "")) with
          | Ok o => o
          | Err _ => initialOptions
          end)) = negb false.
Proof.
  exact (parse_root_flags_exclusive ["-r"; "--no-preserve-root"; "x"]
           (Scenario.worldOf (Scenario.d []) 0 "") _ _ eq_refl).
Defined.

Lemma long_isOption arg :
  HasPrefix arg "--" = true ->
  HasPrefix arg "-" && Nat.ltb 1 (String.length arg) = true.
Proof.
  destruct arg as [|a [|b r]]; cbn [HasPrefix]; intros H; try discriminate.
  - rewrite andb_false_r in H. discriminate.
  - apply andb_true_iff in H. destruct H as [-> _]. reflexivity.
Qed.

Lemma parseArgs_Files args : forall opts w o w',
  parseArgs args opts w = (Ok o, w') ->
  Files (Std o) = (Files (Std opts) ++ operands args)%list.
Proof.
  induction args as [|arg rest IH]; intros opts w o w' H; simpl in H; simpl operands.
  - inversion H. rewrite app_nil_r. reflexivity.
  - destruct (String.eqb arg "--") eqn:E1.
    { inversion H. reflexivity. }
    unfold isOption.
    destruct (HasPrefix arg "--") eqn:E2.
    { rewrite (long_isOption _ E2).
      apply bind_inv in H. destruct H as [(o1 & w1 & H1 & H2) | [e [_ H]]]; [|discriminate].
      rewrite (IH _ _ _ _ H2), (long_Files _ _ _ _ _ H1). reflexivity. }
    destruct (HasPrefix arg "-" && Nat.ltb 1 (String.length arg)).
    { apply bind_inv in H. destruct H as [(o1 & w1 & H1 & H2) | [e [_ H]]]; [|discriminate].
      rewrite (IH _ _ _ _ H2), (short_Files _ _ _ _ _ H1). reflexivity. }
    rewrite (IH _ _ _ _ H). simpl. rewrite <- app_assoc. reflexivity.
Qed.

(** X2.  The operands [Parse] returns are exactly the arguments that
    are no options, in the order given, followed by everything after a
    bare [--]; a lone [-] is an operand.  Options standing after
    operands are still read as options. *)
Theorem parse_files_are_operands args w o w' :
  Parse args w = (Ok o, w') -> Files (Std o) = operands args.
Proof.
  intros H. exact (parseArgs_Files args _ _ _ _ H).
Qed.

Lemma parse_files_are_operands_witness :
  Files (Std (match fst (Parse ["a"; "-r"; "-"; "--"; "-f"; "--"]
                           (Scenario.worldOf (Scenario.d []) 0 "")) with
              | Ok o => o
              | Err _ => initialOptions
              end))
  = ["a"; "-"; "-f"; "--"].
Proof.
  exact (parse_files_are_operands ["a"; "-r"; "-"; "--"; "-f"; "--"]
           (Scenario.worldOf (Scenario.d []) 0 "") _ _ eq_refl).
Defined.

Lemma allFlags_first c r : allFlags (String c r) = true -> Ascii.eqb "-" c = false.
Proof.
  cbn [allFlags]. intros H. apply andb_true_iff in H. destruct H as [H _].
  destruct (Ascii.eqb "-" c) eqn:E; [|reflexivity].
  apply Ascii.eqb_eq in E. subst c. discriminate.
Qed.

Lemma unbundle_step c f opts rest w :
  shortFlag c = Some f ->
  parseArgs (String "-" (String c "") :: rest) opts w = parseArgs rest (setStd f opts) w.
Proof.
  intros E.
  assert (Ec : Ascii.eqb "-" c = false).
  { destruct (Ascii.eqb "-" c) eqn:E1; [|reflexivity].
    apply Ascii.eqb_eq in E1. subst c. discriminate. }
  cbn [parseArgs].
  assert (E1 : String.eqb (String "-" (String c "")) "--" = false).
  { apply String.eqb_neq. intros H. inversion H. subst c. discriminate. }
  rewrite E1.
  assert (E2 : HasPrefix (String "-" (String c "")) "--" = false).
  { cbn [HasPrefix]. rewrite Ec. reflexivity. }
  rewrite E2.
  change (HasPrefix (String "-" (String c "")) "-"
          && Nat.ltb 1 (String.length (String "-" (String c "")))) with true.
  cbn [drop parseShortOptions andb]. unfold bind. cbn [parseShortOptions].
  rewrite E. reflexivity.
Qed.

Lemma bundle_eq flags : forall opts rest w,
  allFlags flags = true ->
  (o <- parseShortOptions opts flags ;; parseArgs rest o) w
  = parseArgs (unbundle flags ++ rest) opts w.
Proof.
  induction flags as [|c r IH]; intros opts rest w H.
  - reflexivity.
  - cbn [allFlags] in H. apply andb_true_iff in H. destruct H as [Hc Hr].
    destruct (shortFlag c) as [f|] eqn:E; [|discriminate].
    cbn [unbundle app]. rewrite (unbundle_step _ _ _ _ _ E).
    rewrite <- (IH _ _ _ Hr). unfold bind. cbn [parseShortOptions]. rewrite E.
    reflexivity.
Qed.

(** X3.  A bundle of flag letters behind one dash is read like the same
    letters given one by one: for letters among [f i I r R d v],
    [-<letters>] and the arguments [-l] for each letter [l] in turn give
    the same result, whatever follows. *)
Theorem parse_bundle_is_separate_flags c flags rest w :
  allFlags (String c flags) = true ->
  Parse (String "-" (String c flags) :: rest) w
  = Parse (unbundle (String c flags) ++ rest) w.
Proof.
  intros H. unfold Parse. rewrite <- (bundle_eq _ _ _ _ H).
  cbn [parseArgs].
  assert (E1 : String.eqb (String "-" (String c flags)) "--" = false).
  { apply String.eqb_neq. intros E. inversion E. subst c.
    discriminate (allFlags_first _ _ H). }
  rewrite E1.
  assert (E2 : HasPrefix (String "-" (String c flags)) "--" = false).
  { cbn [HasPrefix]. rewrite (allFlags_first _ _ H). reflexivity. }
  rewrite E2. reflexivity.
Qed.

Lemma parse_bundle_is_separate_flags_witness :
  Parse ["-rfv"; "x"] (Scenario.worldOf (Scenario.d []) 0 "")
  = Parse ["-r"; "-f"; "-v"; "x"] (Scenario.worldOf (Scenario.d []) 0 "").
Proof.
  exact (parse_bundle_is_separate_flags "r" "fv" ["x"]
           (Scenario.worldOf (Scenario.d []) 0 "") eq_refl).
Defined.

(** operands read before an option leave the world as it is *)
Lemma parseArgs_operands pre : forall rest opts w,
  forallb (fun a => negb (isOption a)) pre = true ->
  parseArgs (pre ++ rest) opts w
  = parseArgs rest (setStd (addFiles pre) opts) w.
Proof.
  induction pre as [|a pre IH]; intros rest opts w H.
  - destruct opts as [[? ? ? ? ? ? ? ? fl] ? ? ? ? ? ?].
    unfold setStd, addFiles. cbn. rewrite app_nil_r. reflexivity.
  - cbn [forallb] in H. apply andb_true_iff in H. destruct H as [Ha Hp].
    apply negb_true_iff in Ha.
    cbn [app parseArgs].
    assert (E1 : String.eqb a "--" = false).
    { destruct (String.eqb a "--") eqn:E; [|reflexivity].
      apply String.eqb_eq in E. subst a. discriminate. }
    rewrite E1.
    assert (E2 : HasPrefix a "--" = false).
    { destruct (HasPrefix a "--") eqn:E; [|reflexivity].
      unfold isOption in Ha. rewrite (long_isOption _ E) in Ha. discriminate. }
    rewrite E2. unfold isOption in Ha. rewrite Ha.
    rewrite (IH _ _ _ Hp).
    destruct opts as [[? ? ? ? ? ? ? ? fl] ? ? ? ? ? ?].
    unfold setStd, addFiles. cbn. rewrite <- app_assoc. reflexivity.
Qed.

Lemma short_invalid good : forall c tail opts w,
  allFlags good = true -> shortFlag c = None ->
  parseShortOptions opts (good ++ String c tail) w
  = (Err (Errorf ("invalid option -- '" ++ String c "" ++ "'")), w).
Proof.
  induction good as [|g good IH]; intros c tail opts w Hg Hc.
  - cbn [append parseShortOptions]. rewrite Hc. reflexivity.
  - cbn [allFlags] in Hg. apply andb_true_iff in Hg. destruct Hg as [Hg1 Hg2].
    cbn [append parseShortOptions].
    destruct (shortFlag g); [|discriminate]. apply IH; assumption.
Qed.

(** X4.  A letter that is no flag makes [Parse] fail with
    [invalid option -- 'c'], naming the first such letter of the
    bundle; the flags before it and the arguments after it do not
    matter, and nothing is printed. *)
Theorem parse_invalid_letter pre good c tail rest w :
  forallb (fun a => negb (isOption a)) pre = true ->
  allFlags good = true -> shortFlag c = None ->
  HasPrefix ("-" ++ good ++ String c tail) "--" = false ->
  Parse (pre ++ ("-" ++ good ++ String c tail) :: rest) w
  = (Err (Errorf ("invalid option -- '" ++ String c "" ++ "'")), w).
Proof.
  intros Hpre Hg Hc Hl. unfold Parse. rewrite (parseArgs_operands _ _ _ _ Hpre).
  cbn [parseArgs].
  assert (E1 : String.eqb ("-" ++ good ++ String c tail) "--" = false).
  { destruct (String.eqb ("-" ++ good ++ String c tail) "--") eqn:E; [|reflexivity].
    apply String.eqb_eq in E. rewrite E in Hl. discriminate. }
  rewrite E1, Hl.
  assert (E3 : HasPrefix ("-" ++ good ++ String c tail) "-"
               && Nat.ltb 1 (String.length ("-" ++ good ++ String c tail)) = true).
  { destruct good; reflexivity. }
  rewrite E3. change (drop 1 ("-" ++ good ++ String c tail)) with (good ++ String c tail).
  unfold bind. rewrite (short_invalid _ _ _ _ _ Hg Hc). reflexivity.
Qed.

Lemma parse_invalid_letter_witness :
  Parse (["a"; "b"] ++ ("-" ++ "rf" ++ String "x" "v") :: ["c"])
        (Scenario.worldOf (Scenario.d []) 0 "")
  = (Err (Errorf "invalid option -- 'x'"), Scenario.worldOf (Scenario.d []) 0 "").
Proof.
  exact (parse_invalid_letter ["a"; "b"] "rf" "x" "v" ["c"]
           (Scenario.worldOf (Scenario.d []) 0 "") eq_refl eq_refl eq_refl eq_refl).
Defined.

(** X5.  [--safe-restore] wants its path behind an equals sign: given
    without a value, or with an empty one, [Parse] fails with
    [--safe-restore requires a path argument], so the form
    [--safe-restore PATH] in two arguments is refused. *)
Theorem parse_safe_restore_needs_value pre arg rest w :
  forallb (fun a => negb (isOption a)) pre = true ->
  arg = "--safe-restore" \/ arg = "--safe-restore=" ->
  Parse (pre ++ arg :: rest) w
  = (Err (Errorf "--safe-restore requires a path argument"), w).
Proof.
  intros Hpre Harg. unfold Parse. rewrite (parseArgs_operands _ _ _ _ Hpre).
  destruct Harg as [-> | ->]; reflexivity.
Qed.

Lemma parse_safe_restore_needs_value_witness :
  Parse (["x"] ++ "--safe-restore" :: ["/home/u/f.txt"])
        (Scenario.worldOf (Scenario.d []) 0 "")
  = (Err (Errorf "--safe-restore requires a path argument"),
     Scenario.worldOf (Scenario.d []) 0 "").
Proof.
  exact (parse_safe_restore_needs_value ["x"] "--safe-restore" ["/home/u/f.txt"]
           (Scenario.worldOf (Scenario.d []) 0 "") eq_refl (or_introl eq_refl)).
Defined.

Lemma not_In_eqb name l x :
  ~ In name l -> In x l -> String.eqb name x = false.
Proof.
  intros Hn Hx. destruct (String.eqb name x) eqn:E; [|reflexivity].
  apply String.eqb_eq in E. subst. contradiction.
Qed.

(** X6.  An argument that starts with two dashes, is not the bare [--]
    and whose name, the part before an equals sign, is none of the
    fourteen long options makes [Parse] fail with
    [unrecognized option '<name>']; the message shows the name without
    the value. *)
Theorem parse_unrecognized_long pre arg rest w :
  forallb (fun a => negb (isOption a)) pre = true ->
  HasPrefix arg "--" = true -> arg <> "--" ->
  ~ In (fst (cutValue arg)) knownLong ->
  Parse (pre ++ arg :: rest) w
  = (Err (Errorf ("unrecognized option '" ++ fst (cutValue arg) ++ "'")), w).
Proof.
  intros Hpre Hl Hne Hnot. unfold Parse. rewrite (parseArgs_operands _ _ _ _ Hpre).
  cbn [parseArgs]. apply String.eqb_neq in Hne. rewrite Hne, Hl.
  unfold bind, parseLongOption. destruct (cutValue arg) as [name value].
  cbn [fst] in *.
  assert (K : forall x, In x knownLong -> String.eqb name x = false)
    by (intros x; apply not_In_eqb; exact Hnot).
  rewrite !K by (unfold knownLong; simpl; tauto).
  reflexivity.
Qed.

Lemma parse_unrecognized_long_witness :
  Parse (["x"] ++ "--frce=1" :: ["y"]) (Scenario.worldOf (Scenario.d []) 0 "")
  = (Err (Errorf "unrecognized option '--frce'"),
     Scenario.worldOf (Scenario.d []) 0 "").
Proof.
  refine (parse_unrecognized_long ["x"] "--frce=1" ["y"]
            (Scenario.worldOf (Scenario.d []) 0 "") eq_refl eq_refl _ _).
  - discriminate.
  - vm_compute. intuition discriminate.
Defined.

Lemma existsb_orb {A} (p q : A -> bool) l :
  existsb (fun x => p x || q x) l = existsb p l || existsb q l.
Proof.
  induction l as [|a l IH]; [reflexivity|]. cbn [existsb]. rewrite IH.
  destruct (p a), (q a), (existsb p l), (existsb q l); reflexivity.
Qed.

Section Flag.

(** a flag of [Options], the long option and the letters that set it *)
Variable g : Options -> bool.
Variable name : string.
Variable letters : list ascii.

Hypothesis g_long : forall opts arg w o w',
  parseLongOption opts arg w = (Ok o, w') ->
  g (Std o) = g (Std opts) || String.eqb (fst (cutValue arg)) name.
Hypothesis g_short : forall c f o,
  shortFlag c = Some f ->
  g (f o) = g o || existsb (fun l => Ascii.eqb l c) letters.
Hypothesis g_files : forall l o, g (addFiles l o) = g o.

Lemma flag_short flags : forall opts w o w',
  parseShortOptions opts flags w = (Ok o, w') ->
  g (Std o) = g (Std opts) || existsb (fun l => ContainsByte flags l) letters.
Proof.
  induction flags as [|c r IH]; intros opts w o w' H; cbn [parseShortOptions] in H.
  - inversion H. subst.
    assert (E : existsb (fun l => ContainsByte "" l) letters = false).
    { clear. induction letters; [reflexivity | assumption]. }
    rewrite E, orb_false_r. reflexivity.
  - destruct (shortFlag c) as [f|] eqn:E; [|discriminate].
    rewrite (IH _ _ _ _ H). cbn [Std setStd]. rewrite (g_short _ _ _ E).
    cbn [ContainsByte]. rewrite existsb_orb, orb_assoc. reflexivity.
Qed.

Lemma flag_args args : forall opts w o w',
  parseArgs args opts w = (Ok o, w') ->
  g (Std o) = g (Std opts) || existsb (asksFor name letters) (optionArgs args).
Proof.
  induction args as [|arg rest IH]; intros opts w o w' H;
    cbn [parseArgs optionArgs] in *.
  - inversion H. rewrite orb_false_r. reflexivity.
  - destruct (String.eqb arg "--") eqn:E1.
    { inversion H. cbn [Std setStd existsb]. rewrite g_files, orb_false_r. reflexivity. }
    unfold isOption.
    destruct (HasPrefix arg "--") eqn:E2.
    { rewrite (long_isOption _ E2). cbn [existsb]. unfold asksFor at 1. rewrite E2.
      apply bind_inv in H. destruct H as [(o1 & w1 & H1 & H2) | [e [_ H]]]; [|discriminate].
      rewrite (IH _ _ _ _ H2), (g_long _ _ _ _ _ H1), orb_assoc. reflexivity. }
    destruct (HasPrefix arg "-" && Nat.ltb 1 (String.length arg)).
    { cbn [existsb]. unfold asksFor at 1. rewrite E2.
      apply bind_inv in H. destruct H as [(o1 & w1 & H1 & H2) | [e [_ H]]]; [|discriminate].
      rewrite (IH _ _ _ _ H2), (flag_short _ _ _ _ _ H1), orb_assoc. reflexivity. }
    rewrite (IH _ _ _ _ H). cbn [Std setStd]. rewrite g_files. reflexivity.
Qed.

End Flag.

Ltac long_flag H :=
  long_cases H; cbn [fst];
  repeat match goal with
         | E : String.eqb _ _ = true |- _ => apply String.eqb_eq in E; subst
         | E : String.eqb _ _ = false |- _ => rewrite E; clear E
         end;
  cbn; rewrite ?orb_true_r, ?orb_false_r; reflexivity.

Ltac short_flag :=
  unfold shortFlag;
  repeat match goal with
         | |- context [if ?b then _ else _] => destruct b eqn:?
         end;
  intros H; inversion H; subst; clear H;
  repeat match goal with
         | E : Ascii.eqb _ _ = true |- _ => apply Ascii.eqb_eq in E; subst
         | E : _ || _ = true |- _ => apply orb_true_iff in E; destruct E
         end;
  cbn; rewrite ?orb_true_r, ?orb_false_r; reflexivity.

Lemma force_long opts arg w o w' :
  parseLongOption opts arg w = (Ok o, w') ->
  Force (Std o) = Force (Std opts) || String.eqb (fst (cutValue arg)) "--force".
Proof. intros H. long_flag H. Qed.

Lemma recursive_long opts arg w o w' :
  parseLongOption opts arg w = (Ok o, w') ->
  Recursive (Std o)
  = Recursive (Std opts) || String.eqb (fst (cutValue arg)) "--recursive".
Proof. intros H. long_flag H. Qed.

Lemma force_short c f o :
  shortFlag c = Some f ->
  Force (f o) = Force o || existsb (fun l => Ascii.eqb l c) ["f"%char].
Proof. short_flag. Qed.

Lemma recursive_short c f o :
  shortFlag c = Some f ->
  Recursive (f o)
  = Recursive o || existsb (fun l => Ascii.eqb l c) ["r"%char; "R"%char].
Proof. short_flag. Qed.

(** X7.  Whether [Parse] sets [Force], and likewise [Recursive], depends
    only on which option arguments stand before a bare [--], not on
    their order or on where the operands stand: the flag is set exactly
    when one of them is the long option ([--force], [--recursive], with
    or without a value) or a bundle of letters holding the letter ([f];
    [r] or [R]).  Nothing unsets a flag. *)
Theorem parse_force_recursive_iff args w o w' :
  Parse args w = (Ok o, w') ->
  Force (Std o) = existsb (asksFor "--force" ["f"%char]) (optionArgs args)
  /\ Recursive (Std o)
     = existsb (asksFor "--recursive" ["r"%char; "R"%char]) (optionArgs args).
Proof.
  intros H. split.
  - exact (flag_args Force "--force" ["f"%char] force_long force_short
             (fun _ _ => eq_refl) args _ _ _ _ H).
  - exact (flag_args Recursive "--recursive" ["r"%char; "R"%char] recursive_long
             recursive_short (fun _ _ => eq_refl) args _ _ _ _ H).
Qed.

Lemma parse_force_recursive_iff_witness :
  (let o := match fst (Parse ["x"; "-vR"; "--force=no"; "--"; "-r"]
                         (Scenario.worldOf (Scenario.d []) 0 "")) with
            | Ok o => o
            | Err _ => initialOptions
            end in
   Force (Std o) = true /\ Recursive (Std o) = true).
Proof.
  exact (parse_force_recursive_iff ["x"; "-vR"; "--force=no"; "--"; "-r"]
           (Scenario.worldOf (Scenario.d []) 0 "") _ _ eq_refl).
Defined.

(** *** the value of [--purge-days] *)

Lemma isDigit_plain c :
  Numeric.isDigit c = true ->
  Fmt.isNewline c = false /\ Fmt.isSpace c = false
  /\ Ascii.eqb c "-" = false /\ Ascii.eqb c "+" = false /\ Ascii.eqb c "_" = false.
Proof.
  destruct c as [[] [] [] [] [] [] [] []]; intros H; try discriminate H;
    repeat split; reflexivity.
Qed.

Lemma decimal_token s : forall acc z,
  Numeric.decimal s acc = Some z -> Numeric.numberToken s = s.
Proof.
  induction s as [|c s IH]; intros acc z H; [reflexivity|].
  cbn [Numeric.decimal Numeric.numberToken] in *.
  destruct (Numeric.isDigit c); [|discriminate].
  cbn [orb]. rewrite (IH _ _ H). reflexivity.
Qed.

Lemma decimal_nonneg s : forall acc z,
  (0 <= acc)%Z -> Numeric.decimal s acc = Some z -> (0 <= z)%Z.
Proof.
  induction s as [|c s IH]; intros acc z Ha H; cbn [Numeric.decimal] in H.
  - inversion H. subst. exact Ha.
  - destruct (Numeric.isDigit c); [|discriminate].
    eapply IH; [|exact H]. lia.
Qed.

Lemma SscanInt_digits v z :
  v <> "" -> Numeric.decimal v 0 = Some z -> Numeric.inInt64 z = true ->
  Numeric.SscanInt v = Some z /\ Numeric.SscanInt (String "-" v) = Some (- z)%Z.
Proof.
  intros Hne Hd Hr. pose proof (decimal_token _ _ _ Hd) as Ht.
  pose proof (decimal_nonneg _ _ _ (Z.le_refl 0) Hd) as Hz.
  destruct v as [|c v]; [contradiction Hne; reflexivity|].
  assert (Hc : Numeric.isDigit c = true).
  { cbn [Numeric.decimal] in Hd. destruct (Numeric.isDigit c); [reflexivity|discriminate]. }
  destruct (isDigit_plain c Hc) as (Hnl & Hsp & Hm & Hp & _).
  split.
  - unfold Numeric.SscanInt. cbn [Numeric.skipSpace]. rewrite Hnl, Hsp, Hm, Hp.
    cbn [orb]. rewrite Ht. unfold Numeric.ParseInt10. rewrite Hm, Hp. cbn [orb].
    rewrite Hd, Hr. reflexivity.
  - unfold Numeric.SscanInt. cbn [Numeric.skipSpace].
    change (Fmt.isNewline "-") with false. change (Fmt.isSpace "-") with false.
    cbv iota. change (Ascii.eqb "-" "-") with true. cbn [orb]. rewrite Ht.
    unfold Numeric.ParseInt10. change (Ascii.eqb "-" "-") with true. cbn [orb].
    rewrite Hd.
    assert (Hr' : Numeric.inInt64 (- z) = true).
    { unfold Numeric.inInt64 in *. apply andb_true_iff in Hr. destruct Hr as [_ H2].
      apply Z.leb_le in H2. apply andb_true_iff. split; apply Z.leb_le; lia. }
    rewrite Hr'. reflexivity.
Qed.

(** X30.  [--purge-days] takes its number behind an equals sign only.
    With a value of decimal digits that fits 64 bits the number becomes
    [PurgeDays]; a minus sign before the digits is accepted too, so the
    number of days may be negative; and [--purge-days] without a value
    fails with [--purge-days requires a number argument] whatever
    argument follows. *)
Theorem parse_purge_days pre v z w :
  forallb (fun a => negb (isOption a)) pre = true ->
  v <> "" -> Numeric.decimal v 0 = Some z -> Numeric.inInt64 z = true ->
  Parse (pre ++ ["--purge-days=" ++ v]) w
  = (Ok (setPurgeDays z (setStd (addFiles pre) initialOptions)), w)
  /\ Parse (pre ++ ["--purge-days=-" ++ v]) w
     = (Ok (setPurgeDays (- z) (setStd (addFiles pre) initialOptions)), w)
  /\ forall rest,
       Parse (pre ++ "--purge-days" :: rest) w
       = (Err (Errorf "--purge-days requires a number argument"), w).
Proof.
  intros Hpre Hne Hd Hr. destruct (SscanInt_digits v z Hne Hd Hr) as (S1 & S2).
  unfold Parse. rewrite !(parseArgs_operands _ _ _ _ Hpre).
  assert (Ev : String.eqb v "" = false) by (apply String.eqb_neq; exact Hne).
  split; [|split].
  - cbn [parseArgs]. 
    change (String.eqb ("--purge-days=" ++ v) "--") with false.
    change (HasPrefix ("--purge-days=" ++ v) "--") with true. cbv iota.
    unfold bind, parseLongOption.
    change (cutValue ("--purge-days=" ++ v)) with ("--purge-days", v).
    cbv iota beta. cbn [String.eqb Ascii.eqb Bool.eqb]. rewrite Ev, S1. reflexivity.
  - cbn [parseArgs].
    change (String.eqb ("--purge-days=-" ++ v) "--") with false.
    change (HasPrefix ("--purge-days=-" ++ v) "--") with true. cbv iota.
    unfold bind, parseLongOption.
    change (cutValue ("--purge-days=-" ++ v)) with ("--purge-days", String "-" v).
    cbv iota beta. cbn [String.eqb Ascii.eqb Bool.eqb].
    change (String.eqb (String "-" v) "") with false. cbv iota. rewrite S2. reflexivity.
  - intros rest. rewrite (parseArgs_operands _ _ _ _ Hpre). reflexivity.
Qed.

Lemma parse_purge_days_witness :
  let w := Scenario.worldOf (Scenario.d []) 0 "" in
  Parse (["x"] ++ ["--purge-days=" ++ "07"]) w
  = (Ok (setPurgeDays 7 (setStd (addFiles ["x"]) initialOptions)), w)
  /\ Parse (["x"] ++ ["--purge-days=-" ++ "07"]) w
     = (Ok (setPurgeDays (- 7) (setStd (addFiles ["x"]) initialOptions)), w)
  /\ forall rest,
       Parse (["x"] ++ "--purge-days" :: rest) w
       = (Err (Errorf "--purge-days requires a number argument"), w).
Proof.
  intros w.
  refine (parse_purge_days ["x"] "07" 7 w eq_refl _ eq_refl eq_refl).
  discriminate.
Defined.

End ParseFacts.

(* ===================================================================== *)
(** ** Walks that only look, and the subcommands built on them *)
(* ===================================================================== *)

Module WalkFacts.
Import Strings Filepath FS OS FilepathOS Config Trash Restore Scenario.
Import Notions Vocabulary PathFacts FSFacts OSFacts CopyFacts MoveFacts Safety ScanFacts.
Open Scope go_scope.

Section Rel.

(** a relation between the world before and after that every step
    keeps *)
Variable R : World -> World -> Prop.
Hypothesis R_refl : forall w, R w w.
Hypothesis R_trans : forall a b c, R a b -> R b c -> R a c.

Lemma forEach_rel {A B} (step : B -> A -> M A) :
  (forall b a w r w', step b a w = (r, w') -> R w w') ->
  forall l a w r w', forEach l step a w = (r, w') -> R w w'.
Proof.
  intros Hs. induction l as [|b l IH]; intros a w r w' H; cbn [forEach] in H.
  - inversion H. apply R_refl.
  - apply bind_inv in H. destruct H as [(x & w1 & H1 & H2) | (e & H1 & _)].
    + exact (R_trans _ _ _ (Hs _ _ _ _ _ H1) (IH _ _ _ _ H2)).
    + exact (Hs _ _ _ _ _ H1).
Qed.

Lemma walk_rel {A} (fn : WalkFunc A) :
  (forall path info err a w r w', fn path info err a w = (r, w') -> R w w') ->
  forall fuel path info a w r w',
    walk fuel path info fn a w = (r, w') -> R w w'.
Proof.
  intros Hf. induction fuel as [|fuel IH]; intros path info a w r w' H.
  - inversion H. apply R_refl.
  - rewrite walk_S in H. destruct (negb (IsDir info)).
    { exact (Hf _ _ _ _ _ _ _ H). }
    unfold bind at 1, attempt at 1, ReadDir at 1, query at 1 in H.
    apply bind_inv in H. destruct H as [(a1 & w1 & H1 & H2) | (e & H1 & _)];
      [|exact (Hf _ _ _ _ _ _ _ H1)].
    apply (R_trans _ w1); [exact (Hf _ _ _ _ _ _ _ H1)|].
    destruct (readDirIn w path) as [entries|e].
    + refine (forEach_rel _ _ _ _ _ _ _ H2).
      intros b x v r0 v' Hb.
      unfold bind at 1, attempt at 1, Lstat, Stat, query at 1 in Hb.
      destruct (statIn v (JoinPath [path; Name b])) as [i|err].
      * exact (IH _ _ _ _ _ _ Hb).
      * exact (Hf _ _ _ _ _ _ _ Hb).
    + inversion H2. apply R_refl.
Qed.

Lemma Walk_rel {A} (fn : WalkFunc A) root a w r w' :
  (forall path info err a w r w', fn path info err a w = (r, w') -> R w w') ->
  Walk root fn a w = (r, w') -> R w w'.
Proof.
  intros Hf H. unfold Walk in H.
  unfold bind at 1, attempt at 1, Lstat, Stat, query at 1 in H.
  destruct (statIn w root) as [i|err].
  - exact (walk_rel fn Hf _ _ _ _ _ _ _ H).
  - exact (Hf _ _ _ _ _ _ _ H).
Qed.

End Rel.

Section ReadOnly.
Context {codec : JsonCodec}.

Lemma findTrashItemsFn_same trashDir path info err items w r w' :
  findTrashItemsFn trashDir path info err items w = (r, w') -> w' = w.
Proof.
  unfold findTrashItemsFn. intros H.
  destruct err; [inversion H; reflexivity|].
  destruct info as [i|]; [|inversion H; reflexivity].
  destruct (HasSuffix path metadataSuffix); [inversion H; reflexivity|].
  destruct (String.eqb path trashDir); [inversion H; reflexivity|].
  assert (K : forall skip : bool,
             (if skip then ret items
              else st <- attempt (Stat (path ++ metadataSuffix)) ;;
                   if isOk st then ret (items ++ [path])%list else ret items) w
             = (r, w') -> w' = w).
  { intros [|] K; [inversion K; reflexivity|].
    unfold bind, attempt, Stat, query in K.
    destruct (isOk (statIn w (path ++ metadataSuffix))); inversion K; reflexivity. }
  destruct (IsDir i).
  - unfold bind at 1 in H. unfold bind at 1, attempt at 1, ReadDir, query in H.
    destruct (readDirIn w path); unfold ret at 1 in H; cbv beta iota in H;
      [exact (K _ H) | exact (K true H)].
  - unfold bind at 1 in H. unfold ret at 1 in H. cbv beta iota in H.
    exact (K false H).
Qed.

Lemma findTrashItems_same trashDir w r w' :
  findTrashItems trashDir w = (r, w') -> w' = w.
Proof.
  intros H. unfold findTrashItems in H.
  symmetry.
  refine (Walk_rel (fun a b => a = b) (fun _ => eq_refl) _ _ _ _ _ _ _ _ H).
  - intros a b c -> ->. reflexivity.
  - intros path info err a v r0 v' Hf. symmetry.
    exact (findTrashItemsFn_same _ _ _ _ _ _ _ _ Hf).
Qed.

End ReadOnly.

(** *** quiet calls *)

Lemma quiet_ret {A} (a : A) : quiet (ret a).
Proof. intros w r w' H. inversion H. apply sameDisk_refl. Qed.

Lemma quiet_fail {A} e : quiet (@fail A e).
Proof. intros w r w' H. inversion H. apply sameDisk_refl. Qed.

Lemma quiet_query {A} (f : World -> res A) : quiet (query f).
Proof. intros w r w' H. inversion H. apply sameDisk_refl. Qed.

Lemma quiet_bind {A B} (m : M A) (k : A -> M B) :
  quiet m -> (forall a, quiet (k a)) -> quiet (bind m k).
Proof.
  intros Hm Hk w r w' H. apply bind_inv in H.
  destruct H as [(a & w1 & H1 & H2) | (e & H1 & _)].
  - exact (sameDisk_trans _ _ _ (Hm _ _ _ H1) (Hk _ _ _ _ H2)).
  - exact (Hm _ _ _ H1).
Qed.

Lemma quiet_attempt {A} (m : M A) : quiet m -> quiet (attempt m).
Proof.
  intros Hm w r w' H. unfold attempt in H. destruct (m w) as [x w1] eqn:E.
  inversion H. subst. exact (Hm _ _ _ E).
Qed.

Lemma quiet_Print s : quiet (Print s).
Proof.
  intros w r w' H. destruct (Print_sameDisk s w) as (w1 & E & S).
  rewrite E in H. inversion H. subst. exact S.
Qed.

Lemma quiet_Eprint s : quiet (Eprint s).
Proof.
  intros w r w' H. destruct (Eprint_sameDisk s w) as (w1 & E & S).
  rewrite E in H. inversion H. subst. exact S.
Qed.

(** a prompt: what follows sees one word of the input *)
Lemma quiet_Scanln {B} (k : string -> M B) :
  (forall input, quiet (k (fst (Fmt.scanWord input)))) ->
  quiet (bind Fmt.Scanln k).
Proof.
  intros Hk w r w' H. destruct (Scanln_sameDisk w) as (w1 & E & S).
  unfold bind in H. rewrite E in H.
  exact (sameDisk_trans _ _ _ S (Hk _ _ _ _ H)).
Qed.

Lemma quiet_forEach {A B} (step : B -> A -> M A) l a :
  (forall b a, quiet (step b a)) -> quiet (forEach l step a).
Proof.
  intros Hs w r w' H.
  refine (forEach_rel sameDisk sameDisk_refl sameDisk_trans step _ _ _ _ _ _ H).
  intros b x v r0 v' Hb. exact (Hs _ _ _ _ _ Hb).
Qed.

Ltac quiet_tac :=
  repeat first
    [ assumption | apply quiet_ret | apply quiet_fail | apply quiet_query | apply quiet_Print
    | apply quiet_Eprint
    | apply quiet_attempt
    | apply quiet_forEach; intros
    | apply quiet_bind; [|intros]
    | match goal with
      | |- quiet (match ?x with _ => _ end) => destruct x
      end ].

Section Quiet.
Context {codec : JsonCodec}.

Lemma quiet_findTrashItems trashDir : quiet (findTrashItems trashDir).
Proof.
  intros w r w' H. rewrite (findTrashItems_same _ _ _ _ H). apply sameDisk_refl.
Qed.

Lemma quiet_GetMetadata item : quiet (GetMetadata item).
Proof. unfold GetMetadata, ReadFile. quiet_tac. Qed.

Lemma quiet_List cfg : quiet (List cfg).
Proof.
  unfold List, listItems, Stat.
  pose proof quiet_findTrashItems. pose proof quiet_GetMetadata.
  quiet_tac; auto.
Qed.

Lemma quiet_Empty cfg : quiet (Empty cfg).
Proof.
  assert (F : quiet (emptyFound cfg)).
  { unfold emptyFound. apply quiet_bind; [apply quiet_findTrashItems|].
    intros [|item items]; [apply quiet_Print|].
    repeat (apply quiet_bind; [apply quiet_Print | intros _]).
    apply quiet_Scanln. intros input. unfold confirmPhrase.
    rewrite scanWord_not_phrase. apply quiet_Print. }
  unfold Empty, Stat. quiet_tac.
Qed.

End Quiet.

Section Subcommands.
Context {codec : JsonCodec}.

Lemma forEach_Ok {A B} (step : B -> A -> M A) l :
  (forall b a w, exists a' w', step b a w = (Ok a', w')) ->
  forall a w, exists a' w', forEach l step a w = (Ok a', w').
Proof.
  intros Hs. induction l as [|b l IH]; intros a w; cbn [forEach].
  - eexists _, _. reflexivity.
  - destruct (Hs b a w) as (a1 & w1 & E). unfold bind. rewrite E. apply IH.
Qed.

(** X8.  [List] only prints: whatever the trash holds and whatever it
    returns, the file system, the clock and the record of mutations are
    as before.  On a well-formed tree with a canonical trash directory
    it returns without error. *)
Theorem list_only_prints cfg w :
  sameDisk w (snd (List cfg w))
  /\ (forall T, wf (fs w) = true -> validPath T = true ->
                GetTrashDir cfg = render T -> fst (List cfg w) = Ok tt).
Proof.
  split.
  - destruct (List cfg w) as [r w'] eqn:E. exact (quiet_List cfg _ _ _ E).
  - intros T Hw HT Hc.
    assert (L : fst (listItems (GetTrashDir cfg) w) = Ok tt).
    { unfold listItems. rewrite Hc.
      destruct (findTrashItems_spec T w Hw HT) as (items & E & _).
      unfold bind at 1. rewrite E.
      destruct items as [|item items]; [reflexivity|].
      unfold bind at 1. unfold Print at 1.
      unfold bind at 1. unfold listRow at 1, Print at 1.
      unfold bind at 1. unfold Print at 1.
      match goal with
      | |- fst (forEach ?l ?step tt ?v) = _ =>
          destruct (forEach_Ok step l) with (a := tt) (w := v) as ([] & w2 & E2)
      end.
      - intros b [] v. unfold bind, attempt.
        destruct (GetMetadata b v) as [[m|e] v1];
          unfold Time.Formatted, query, listRow, Print; eexists tt, _; reflexivity.
      - rewrite E2. reflexivity. }
    unfold List. unfold bind at 1, attempt at 1, Stat, query.
    destruct (statIn w (GetTrashDir cfg)) as [i|e]; [exact L|].
    destruct (IsNotExist e); [reflexivity | exact L].
Qed.

(** X9.  [Empty] never deletes anything.  Its prompt is read with
    [fmt.Scanln] into one string, which receives a single
    space-delimited word, so the answer can never equal the phrase
    [yes I am sure]: whatever is typed, the file system and the record
    of mutations are as before. *)
Theorem empty_never_deletes cfg w :
  sameDisk w (snd (Empty cfg w)).
Proof.
  destruct (Empty cfg w) as [r w'] eqn:E. exact (quiet_Empty cfg _ _ _ E).
Qed.


End Subcommands.

Lemma list_only_prints_witness :
  sameDisk (worldOf oneItemTrash t0 "") (snd (List (cfgWith []) (worldOf oneItemTrash t0 "")))
  /\ fst (List (cfgWith []) (worldOf oneItemTrash t0 "")) = Ok tt.
Proof.
  destruct (list_only_prints (cfgWith []) (worldOf oneItemTrash t0 "")) as [A B].
  split; [exact A|]. apply (B ["t"]); reflexivity.
Defined.


(** *** [cleanEmptyDirs] *)

Lemma filesKept_refl w : filesKept w w.
Proof. intros q data H. exact H. Qed.

Lemma filesKept_trans a b c : filesKept a b -> filesKept b c -> filesKept a c.
Proof. intros H1 H2 q data H. exact (H2 _ _ (H1 _ _ H)). Qed.

(** removing an empty directory keeps every file *)
Lemma Remove_empty_dir path w r w' :
  readDirIn w path = Ok [] -> Remove path w = (r, w') -> filesKept w w'.
Proof.
  unfold readDirIn, nodeAt, Remove. intros Hd H.
  destruct (resolve w path) as [cs|]; [|discriminate].
  destruct (lookup (fs w) cs) as [[dt pm mt | pm mt es]|] eqn:El; try discriminate.
  destruct es as [|e es]; [|discriminate]. clear Hd.
  unfold removeAt in H.
  destruct (setAt (now w) (fs w) cs None) as [n'|] eqn:Es;
    [|inversion H; apply filesKept_refl].
  inversion H. subst. intros q data (pm' & mt' & Hq). exists pm', mt'.
  rewrite fs_setFs. rewrite (setAt_frame _ _ _ _ _ q Es); [exact Hq|]. split.
  - destruct (isPrefix cs q) eqn:E; [|reflexivity]. exfalso.
    apply isPrefix_iff in E. destruct E as [rel ->].
    rewrite lookup_app, El in Hq. destruct rel; simpl in Hq; discriminate.
  - destruct (isPrefix q cs) eqn:E; [|reflexivity]. exfalso.
    apply isPrefix_iff in E. destruct E as [rel ->].
    rewrite lookup_app, Hq in El. destruct rel; simpl in El; discriminate.
Qed.

Lemma cleanEmptyDirsFn_keeps dir path info err a w r w' :
  cleanEmptyDirsFn dir path info err a w = (r, w') -> filesKept w w'.
Proof.
  unfold cleanEmptyDirsFn. intros H.
  destruct err; [inversion H; apply filesKept_refl|].
  destruct info as [i|]; [|inversion H; apply filesKept_refl].
  destruct (negb (IsDir i) || String.eqb path dir); [inversion H; apply filesKept_refl|].
  unfold bind at 1, attempt at 1, ReadDir, query in H.
  destruct (readDirIn w path) as [[|e es]|e] eqn:Ed;
    try (inversion H; apply filesKept_refl).
  unfold bind, attempt in H. destruct (Remove path w) as [r1 w1] eqn:Er.
  inversion H. subst. exact (Remove_empty_dir _ _ _ _ Ed Er).
Qed.

(** X11.  [cleanEmptyDirs] never removes a file: every regular file is
    afterwards where it was, with the same bytes, and the call reports
    no error. *)
Theorem clean_empty_dirs_keeps_files dir w :
  fst (cleanEmptyDirs dir w) = Ok tt
  /\ filesKept w (snd (cleanEmptyDirs dir w)).
Proof.
  unfold cleanEmptyDirs, bind, attempt.
  destruct (Walk dir (cleanEmptyDirsFn dir) tt w) as [r w'] eqn:E.
  split; [reflexivity|]. cbn [snd ret].
  refine (Walk_rel filesKept filesKept_refl filesKept_trans _ _ _ _ _ _ _ E).
  intros path info err a v r0 v' H. exact (cleanEmptyDirsFn_keeps _ _ _ _ _ _ _ _ H).
Qed.

End WalkFacts.

(* ===================================================================== *)
(** ** [processPath]: refusals, the prompt, success and the frame *)
(* ===================================================================== *)

Module ProcessFacts.
Import Strings Filepath FS OS FilepathOS Config Trash Protect Cli Main Scenario.
Import Notions Vocabulary PathFacts FSFacts OSFacts CopyFacts MoveFacts Safety.
Open Scope go_scope.

Section Process.
Context {codec : JsonCodec}.

(** X12.  A protected path is never moved.  If the classifier reports
    the path protected, [processPath] leaves the file system as it is,
    in block mode and in confirm mode, with and without [-f], whatever
    is typed at the prompt (the answer is one word and cannot be the
    phrase asked for); and when the path exists the call fails. *)
Theorem protected_never_removed cfg opts path w :
  Protected (Check w cfg (absIn w path) (Recursive opts)) = true ->
  sameDisk w (snd (processPath cfg opts path w))
  /\ (isOk (statIn w (absIn w path)) = true ->
      isOk (fst (processPath cfg opts path w)) = false).
Proof.
  intros Hp. split.
  - destruct (processPath cfg opts path w) as [r w'] eqn:E.
    destruct (processPath_cases _ _ _ _ _ _ E) as [S | (w1 & r1 & w2 & _ & _ & _ & Hn & _)];
      [exact S | congruence].
  - intros Hs. unfold processPath. unfold bind at 1. unfold Abs, query.
    unfold bind at 1. unfold attempt, Lstat, Stat, query.
    destruct (statIn w (absIn w path)) as [i|e]; [|discriminate].
    match goal with
    | |- isOk (fst (bind ?m ?k w)) = false =>
        destruct (m w) as [[[]|e] w1] eqn:Ed
    end.
    + assert (w1 = w).
      { destruct (IsDir i && negb (Recursive opts)); [|inversion Ed; reflexivity].
        destruct (RemoveEmptyDirs opts); [|inversion Ed].
        unfold bind, ReadDir, query in Ed.
        destruct (readDirIn w (absIn w path)) as [[|x l]|e]; inversion Ed; reflexivity. }
      subst w1. unfold bind at 1. rewrite Ed.
      unfold processChecked. unfold bind at 1. unfold query.
      destruct (protectionGate cfg opts (absIn w path)
                  (Check w cfg (absIn w path) (Recursive opts)) w) as [rg wg] eqn:Eg.
      destruct (gate_sameDisk _ _ _ _ _ _ _ Eg) as [_ Hg].
      unfold bind at 1. rewrite Eg. destruct rg as [[]|e]; [|reflexivity].
      exfalso. exact (Hg Hp eq_refl).
    + unfold bind at 1. rewrite Ed. reflexivity.
Qed.

(** X13.  Without [-r] a directory that holds something is never moved:
    [processPath] fails with [Is a directory], or with
    [Directory not empty] under [-d], and the world is as before. *)
Theorem directory_needs_recursive cfg opts path w i e es :
  statIn w (absIn w path) = Ok i -> IsDir i = true ->
  readDirIn w (absIn w path) = Ok (e :: es) ->
  Recursive opts = false ->
  processPath cfg opts path w
  = (Err (Errorf (if RemoveEmptyDirs opts then "Directory not empty"
                  else "Is a directory")), w).
Proof.
  intros Hs Hd He Hr. unfold processPath. unfold bind at 1. unfold Abs, query.
  unfold bind at 1. unfold attempt, Lstat, Stat, query. rewrite Hs, Hd, Hr.
  cbn [negb andb]. unfold bind at 1.
  destruct (RemoveEmptyDirs opts); [|reflexivity].
  unfold bind, ReadDir, query. rewrite He. reflexivity.
Qed.

(** X14.  At the prompt of [-i], any answer but [y] or [yes] leaves the
    path alone: for an unprotected path that passed the directory
    check, [processPath] returns without error and the file system is
    as before. *)
Theorem interactive_decline cfg opts path w i :
  statIn w (absIn w path) = Ok i ->
  IsDir i && negb (Recursive opts) = false ->
  Protected (Check w cfg (absIn w path) (Recursive opts)) = false ->
  Interactive opts = true -> Force opts = false ->
  String.eqb (fst (Fmt.scanWord (stdin w))) "y" = false ->
  String.eqb (fst (Fmt.scanWord (stdin w))) "yes" = false ->
  fst (processPath cfg opts path w) = Ok tt
  /\ sameDisk w (snd (processPath cfg opts path w)).
Proof.
  intros Hs Hd Hp Hi Hf Hy Hyes.
  assert (E : exists w2, processPath cfg opts path w = (Ok tt, w2) /\ sameDisk w w2);
    [|destruct E as (w2 & -> & S); split; [reflexivity | exact S]].
  unfold processPath. unfold bind at 1. unfold Abs, query.
  unfold bind at 1. unfold attempt, Lstat, Stat, query. rewrite Hs, Hd.
  unfold bind at 1. unfold ret at 1.
  unfold processChecked. unfold bind at 1. unfold query.
  unfold protectionGate. rewrite Hp. unfold bind at 1. unfold ret at 1.
  rewrite Hi, Hf. cbn [negb andb].
  unfold bind at 1. unfold bind at 1. unfold Eprint at 1.
  unfold bind at 1. unfold Fmt.Scanln. cbn [stdin].
  destruct (Fmt.scanWord (stdin w)) as [t rest]. cbn [fst] in Hy, Hyes.
  unfold ret at 1. rewrite Hy, Hyes. cbn [orb].
  eexists. split; [reflexivity | repeat split].
Qed.

(** X15.  Success is all or nothing.  When [processPath] returns without
    error, either the file system is untouched (the operand was missing
    under [-f], or the prompt of [-i] was declined), or the move is
    complete: nothing is left at the path and every file that was at or
    below it is at the same relative place in the trash with the same
    bytes. *)
Theorem success_is_all_or_nothing cfg opts path w w' s :
  wf (fs w) = true -> IsAbs (cwd w) = true -> IsAbs (TrashDir cfg) = true ->
  validName (hostOf w) = true ->
  resolve w (absIn w path) = Some s ->
  isPrefix s (trashRoot cfg ++ hostOf w :: s) = false ->
  processPath cfg opts path w = (Ok tt, w') ->
  fs w' = fs w
  \/ (lookup (fs w') s = None
      /\ moved (fs w) (fs w') s (trashPlace cfg w s)).
Proof.
  intros Hw Hc Ht Hh Hres Hout Hrun.
  destruct (processPath_post _ _ _ _ _ _ _ Hw Hc Ht Hh Hres Hout Hrun)
    as [E | (_ & r1 & Hm & Hr)]; [left; exact E | right].
  destruct (proj1 Hr eq_refl) as [tp Etp].
  destruct (mp_done _ _ _ _ _ _ _ Hm tp Etp) as (_ & A & B). split; assumption.
Qed.

(** X16.  [processPath] touches nothing away from the path and the trash
    directory: a place that is neither at, above or below the path nor
    at, above or below the trash directory holds afterwards what it
    held before, however the call ends. *)
Theorem process_path_frame cfg opts path w r w' s q :
  wf (fs w) = true -> IsAbs (cwd w) = true -> IsAbs (TrashDir cfg) = true ->
  validName (hostOf w) = true ->
  resolve w (absIn w path) = Some s ->
  isPrefix s (trashRoot cfg ++ hostOf w :: s) = false ->
  processPath cfg opts path w = (r, w') ->
  apart s q -> apart (trashRoot cfg) q ->
  lookup (fs w') q = lookup (fs w) q.
Proof.
  intros Hw Hc Ht Hh Hres Hout Hrun Hs Hq.
  destruct (processPath_post _ _ _ _ _ _ _ Hw Hc Ht Hh Hres Hout Hrun)
    as [E | (_ & r1 & Hm & _)]; [rewrite E; reflexivity|].
  unfold trashPlace in Hm. cbv zeta in Hm. rewrite removelast_last, last_last in Hm.
  apply (mp_frame _ _ _ _ _ _ _ Hm); [exact Hs | | |].
  - rewrite <- app_assoc. apply apart_app_l. exact Hq.
  - rewrite <- app_assoc. apply apart_app_l. exact Hq.
  - destruct (isPrefix q (trashRoot cfg ++ hostOf w :: removelast s)) eqn:E;
      [|reflexivity].
    exfalso. destruct Hq as [Q1 Q2].
    destruct (Nat.le_ge_cases (length q) (length (trashRoot cfg))) as [L | L].
    + rewrite (prefix_comparable _ _ _ E (isPrefix_app _ _) L) in Q2. discriminate.
    + rewrite (prefix_comparable _ _ _ (isPrefix_app _ _) E L) in Q1. discriminate.
Qed.

End Process.

Lemma protected_never_removed_witness :
  let w := worldOf homeTree t0 "yes I am sure" in
  sameDisk w (snd (processPath (cfgWith []) optsRecursive "/home" w))
  /\ (isOk (statIn w (absIn w "/home")) = true ->
      isOk (fst (processPath (cfgWith []) optsRecursive "/home" w)) = false).
Proof.
  exact (protected_never_removed (cfgWith []) optsRecursive "/home"
           (worldOf homeTree t0 "yes I am sure") eq_refl).
Defined.

Lemma directory_needs_recursive_witness :
  processPath (cfgWith []) (mkOptions false false false false true false true false [])
              "/home/u/docs" (worldOf homeTree t0 "")
  = (Err (Errorf "Directory not empty"), worldOf homeTree t0 "").
Proof.
  exact (directory_needs_recursive (cfgWith [])
           (mkOptions false false false false true false true false [])
           "/home/u/docs" (worldOf homeTree t0 "") _ _ _
           eq_refl eq_refl eq_refl eq_refl).
Defined.

Lemma interactive_decline_witness :
  let w := worldOf homeTree t0 "no" in
  let opts := mkOptions false true false false false false true false [] in
  fst (processPath (cfgWith []) opts "/home/u/f.txt" w) = Ok tt
  /\ sameDisk w (snd (processPath (cfgWith []) opts "/home/u/f.txt" w)).
Proof.
  exact (interactive_decline (cfgWith [])
           (mkOptions false true false false false false true false [])
           "/home/u/f.txt" (worldOf homeTree t0 "no") _
           eq_refl eq_refl eq_refl eq_refl eq_refl eq_refl eq_refl).
Defined.

Lemma success_is_all_or_nothing_witness :
  let w := worldOf homeTree t0 "" in
  let w' := snd (processPath (cfgWith []) optsRecursive "/home/u/docs" w) in
  fs w' = fs w
  \/ (lookup (fs w') ["home"; "u"; "docs"] = None
      /\ moved (fs w) (fs w') ["home"; "u"; "docs"] ["t"; "H"; "home"; "u"; "docs"]).
Proof.
  intros w w'.
  exact (success_is_all_or_nothing (cfgWith []) optsRecursive "/home/u/docs"
           w w' ["home"; "u"; "docs"]
           eq_refl eq_refl eq_refl eq_refl eq_refl eq_refl eq_refl).
Defined.

Lemma process_path_frame_witness :
  let w := worldOf homeTree t0 "" in
  let w' := snd (processPath (cfgWith []) optsRecursive "/home/u/docs" w) in
  lookup (fs w') ["home"; "u"; "f.txt"] = lookup (fs w) ["home"; "u"; "f.txt"].
Proof.
  intros w w'.
  exact (process_path_frame (cfgWith []) optsRecursive "/home/u/docs"
           w (fst (processPath (cfgWith []) optsRecursive "/home/u/docs" w)) w'
           ["home"; "u"; "docs"] ["home"; "u"; "f.txt"]
           eq_refl eq_refl eq_refl eq_refl eq_refl eq_refl eq_refl
           (conj eq_refl eq_refl) (conj eq_refl eq_refl)).
Defined.

End ProcessFacts.

(* ===================================================================== *)
(** ** [protect.Check] *)
(* ===================================================================== *)

Module CheckFacts.
Import Strings Filepath Glob FS OS FilepathOS Config Protect Scenario.
Import Notions Vocabulary PathFacts FSFacts OSFacts.

Lemma checkBuiltin_protected a r l st :
  checkBuiltin a r l = Some st -> Protected st = true.
Proof.
  induction l as [|p l IH]; cbn [checkBuiltin]; [discriminate|].
  destruct (String.eqb a p || String.eqb a (p ++ "/")); [intros H; inversion H; reflexivity|].
  destruct (r && HasPrefix p (a ++ "/")); [intros H; inversion H; reflexivity|].
  exact IH.
Qed.

Lemma checkBuiltin_In a r l :
  In a l -> exists st, checkBuiltin a r l = Some st.
Proof.
  induction l as [|p l IH]; intros H; [destruct H|]. cbn [checkBuiltin].
  destruct (String.eqb a p) eqn:E; [eexists; reflexivity|]. cbn [orb].
  destruct (String.eqb a (p ++ "/")); [eexists; reflexivity|].
  destruct (r && HasPrefix p (a ++ "/")); [eexists; reflexivity|].
  apply IH. destruct H as [H | H]; [|exact H].
  subst p. rewrite String.eqb_refl in E. discriminate.
Qed.

Lemma checkUser_protected w a l st :
  checkUser w a l = Some st -> Protected st = true.
Proof.
  induction l as [|p l IH]; cbn [checkUser]; [discriminate|].
  destruct (Match (expandPattern w p) a) as [[|]|];
    try (intros H; inversion H; reflexivity);
    (destruct (HasSuffix (expandPattern w p) "/**"
               && HasPrefix a (TrimSuffix (expandPattern w p) "/**"));
     [intros H; inversion H; reflexivity | exact IH]).
Qed.

(** every way out of [Check] but the last reports the path protected *)
Lemma Check_cases w cfg p r :
  Protected (Check w cfg p r) = true
  \/ (checkBuiltin (Clean p) r builtinProtectedPaths = None
      /\ isGitPath w (Clean p) = false
      /\ checkUser w (Clean p) (ProtectedPaths cfg) = None).
Proof.
  unfold Check.
  destruct (String.eqb (Clean p) "/" || String.eqb (Clean p) "\"); [left; reflexivity|].
  destruct (isWildcardRoot (Clean p)); [left; reflexivity|].
  destruct (checkBuiltin (Clean p) r builtinProtectedPaths) as [st|] eqn:Eb.
  { left. exact (checkBuiltin_protected _ _ _ _ Eb). }
  destruct (isGitPath w (Clean p)); [left; reflexivity|].
  destruct (checkUser w (Clean p) (ProtectedPaths cfg)) as [st|] eqn:Eu.
  { left. exact (checkUser_protected _ _ _ _ Eu). }
  right. repeat split.
Qed.

(** X17.  What [IsProtectedByDefault] reports, [Check] protects: a path
    that cleans to one of the built-in system directories is protected
    under every configuration, with and without [-r]. *)
Theorem default_protected_is_protected w cfg p r :
  IsProtectedByDefault p = true -> Protected (Check w cfg p r) = true.
Proof.
  unfold IsProtectedByDefault. intros H. apply existsb_exists in H.
  destruct H as (x & Hin & E). apply String.eqb_eq in E.
  destruct (Check_cases w cfg p r) as [C | (Hb & _)]; [exact C|].
  rewrite E in Hb. destruct (checkBuiltin_In x r _ Hin) as [st Hst]. congruence.
Qed.

Lemma default_protected_is_protected_witness :
  Protected (Check emptyWorld (cfgWith []) "/usr//./" true) = true.
Proof.
  exact (default_protected_is_protected emptyWorld (cfgWith []) "/usr//./" true eq_refl).
Defined.

(** *** the recursive flag *)

Lemma ContainsByte_drop n : forall s c,
  ContainsByte (drop n s) c = true -> ContainsByte s c = true.
Proof.
  induction n as [|n IH]; intros s c H; [exact H|].
  destruct s as [|d s]; [discriminate|]. cbn [drop] in H. cbn [ContainsByte].
  rewrite (IH _ _ H). apply orb_true_r.
Qed.

Lemma HasPrefix_sep a : forall s,
  HasPrefix s (a ++ "/") = true ->
  ContainsByte (drop (String.length a) s) "/" = true.
Proof.
  induction a as [|c a IH]; intros s H.
  - cbn [append String.length drop] in *. destruct s as [|d s]; [discriminate|].
    cbn [HasPrefix] in H. apply andb_true_iff in H. destruct H as [H _].
    cbn [ContainsByte]. rewrite H. reflexivity.
  - destruct s as [|d s]; [discriminate|]. cbn [append HasPrefix] in H.
    apply andb_true_iff in H. destruct H as [_ H]. cbn [String.length drop].
    exact (IH _ H).
Qed.

(** a top-level path has no proper ancestor to be named *)
Lemma top_level_no_ancestor c a t :
  ContainsByte t "/" = false ->
  HasPrefix (String "/" t) (String c a ++ "/") = false.
Proof.
  intros Ht. destruct (HasPrefix (String "/" t) (String c a ++ "/")) eqn:E; [|reflexivity].
  apply HasPrefix_sep in E. cbn [String.length drop] in E.
  apply ContainsByte_drop in E. congruence.
Qed.

Lemma checkBuiltin_recursive a l :
  a <> "" ->
  forallb (fun p => match p with
                    | String "/" t => negb (ContainsByte t "/")
                    | _ => false
                    end) l = true ->
  checkBuiltin a true l = checkBuiltin a false l.
Proof.
  intros Ha. induction l as [|p l IH]; intros H; [reflexivity|].
  cbn [forallb] in H. apply andb_true_iff in H. destruct H as [Hp Hl].
  cbn [checkBuiltin]. rewrite (IH Hl). cbn [andb].
  destruct (String.eqb a p || String.eqb a (p ++ "/")); [reflexivity|].
  destruct a as [|c a]; [contradiction|].
  destruct p as [|x t]; [discriminate|].
  destruct (Ascii.eqb x "/") eqn:Ex.
  - apply Ascii.eqb_eq in Ex. subst x. apply negb_true_iff in Hp.
    rewrite (top_level_no_ancestor _ _ _ Hp). reflexivity.
  - exfalso. revert Hp Ex. clear.
    destruct x as [[|] [|] [|] [|] [|] [|] [|] [|]]; intros; try discriminate.
Qed.

Lemma Join_head_nonempty c cs : c <> "" -> Join (c :: cs) "/" <> "".
Proof.
  intros Hc. destruct cs; cbn [Join]; [exact Hc|].
  destruct c; [contradiction | discriminate].
Qed.

Lemma cleanStack_nonempty rooted comps : forall out,
  forallb (fun c => negb (String.eqb c "")) out = true ->
  forallb (fun c => negb (String.eqb c "")) (cleanStack rooted out comps) = true.
Proof.
  induction comps as [|c rest IH]; intros out H; cbn [cleanStack].
  - rewrite forallb_forall in *. intros x Hx. apply H. apply in_rev. exact Hx.
  - destruct (String.eqb c "") eqn:E1; cbn [orb]; [apply IH; exact H|].
    destruct (String.eqb c "."); [apply IH; exact H|].
    assert (Hc : forallb (fun c => negb (String.eqb c "")) (c :: out) = true)
      by (cbn [forallb]; rewrite E1, H; reflexivity).
    destruct (String.eqb c "..").
    + destruct out as [|top out'].
      * destruct rooted; apply IH; [exact H | exact Hc].
      * destruct (String.eqb top ".."); apply IH; [exact Hc|].
        cbn [forallb] in H. apply andb_true_iff in H. apply H.
    + apply IH. exact Hc.
Qed.

Lemma Clean_nonempty p : Clean p <> "".
Proof.
  unfold Clean. destruct p as [|c p]; [discriminate|].
  destruct (IsAbs (String c p)); [discriminate|].
  pose proof (cleanStack_nonempty false (Split Separator (String c p)) [] eq_refl) as H.
  destruct (cleanStack false [] (Split Separator (String c p))) as [|x cs];
    [discriminate|].
  apply Join_head_nonempty. cbn [forallb] in H. apply andb_true_iff in H.
  destruct H as [H _]. apply negb_true_iff in H. apply String.eqb_neq in H. exact H.
Qed.

(** X18.  The flag [recursive] never changes the answer of [Check].  Its
    only use protects a path that is a proper ancestor of a built-in
    directory; these are all at the top level, their only ancestor is
    the root, and a cleaned path is never empty. *)
Theorem check_ignores_recursive w cfg p :
  Check w cfg p true = Check w cfg p false.
Proof.
  unfold Check.
  rewrite (checkBuiltin_recursive (Clean p) builtinProtectedPaths
             (Clean_nonempty p) eq_refl).
  reflexivity.
Qed.

(** *** user patterns ending in [/**] *)

Lemma checkUser_under w a l pat :
  In pat l ->
  HasSuffix (expandPattern w pat) "/**" = true ->
  HasPrefix a (TrimSuffix (expandPattern w pat) "/**") = true ->
  exists st, checkUser w a l = Some st.
Proof.
  intros Hin Hs Hp. induction l as [|p l IH]; [destruct Hin|].
  cbn [checkUser].
  destruct (Match (expandPattern w p) a) as [[|]|]; try (eexists; reflexivity);
    (destruct Hin as [-> | Hin];
     [rewrite Hs, Hp; eexists; reflexivity
     |destruct (HasSuffix (expandPattern w p) "/**"
                && HasPrefix a (TrimSuffix (expandPattern w p) "/**"));
      [eexists; reflexivity | exact (IH Hin)]]).
Qed.

(** X19.  A user pattern [dir/**] protects everything that has [dir] as
    a prefix of its cleaned path, whatever the other patterns are and
    wherever the pattern stands in the list. *)
Theorem under_protected_directory w cfg p r pat :
  In pat (ProtectedPaths cfg) ->
  HasSuffix (expandPattern w pat) "/**" = true ->
  HasPrefix (Clean p) (TrimSuffix (expandPattern w pat) "/**") = true ->
  Protected (Check w cfg p r) = true.
Proof.
  intros Hin Hs Hp.
  destruct (Check_cases w cfg p r) as [C | (_ & _ & Hu)]; [exact C|].
  destruct (checkUser_under w (Clean p) _ pat Hin Hs Hp) as [st E]. congruence.
Qed.

Lemma under_protected_directory_witness :
  Protected (Check emptyWorld (cfgWith ["*.key"; "/data/**"]) "/data/x/../y" false) = true.
Proof.
  exact (under_protected_directory emptyWorld (cfgWith ["*.key"; "/data/**"])
           "/data/x/../y" false "/data/**" (or_intror (or_introl eq_refl))
           eq_refl eq_refl).
Defined.

(** *** [.git] *)

Lemma drop_app a : forall m b, drop (String.length a + m) (a ++ b) = drop m b.
Proof. induction a as [|c a IH]; intros m b; [reflexivity | exact (IH m b)]. Qed.

Lemma drop_all s : drop (String.length s) s = "".
Proof. induction s as [|c s IH]; [reflexivity | exact IH]. Qed.

Lemma render_last cs n : exists A, render (cs ++ [n]) = A ++ String Separator n.
Proof.
  destruct cs as [|c cs].
  - exists "". reflexivity.
  - exists (render (c :: cs)). apply render_snoc. discriminate.
Qed.

Lemma no_trailing_sep A n :
  validName n = true -> HasSuffix (A ++ String Separator n) "/" = false.
Proof.
  intros Hn. unfold HasSuffix.
  destruct (String.eqb
              (drop (String.length (A ++ String Separator n) - String.length "/")
                 (A ++ String Separator n)) "/") eqn:E; [|apply andb_false_r].
  exfalso. apply String.eqb_eq in E.
  destruct n as [|c n]; [discriminate|].
  rewrite append_length in E. cbn [String.length] in E.
  replace (String.length A + S (S (String.length n)) - 1)
    with (String.length A + S (String.length n)) in E by lia.
  rewrite drop_app in E. cbn [drop] in E.
  assert (C : ContainsByte (drop (String.length n) (String c n)) "/" = true)
    by (rewrite E; reflexivity).
  apply ContainsByte_drop in C. rewrite (validName_nosep _ Hn) in C. discriminate.
Qed.

Lemma Base_last A n : validName n = true -> Base (A ++ String Separator n) = n.
Proof.
  intros Hn. unfold Base.
  destruct (A ++ String Separator n) as [|c0 s0] eqn:Ep.
  { destruct A; discriminate. }
  rewrite <- Ep.
  assert (Es : stripTrailingSep (String.length (A ++ String Separator n))
                 (A ++ String Separator n) = A ++ String Separator n).
  { rewrite Ep. cbn [String.length stripTrailingSep]. rewrite <- Ep.
    rewrite (no_trailing_sep A n Hn), andb_false_r. reflexivity. }
  rewrite Es.
  assert (Hns : noSep n = true).
  { unfold noSep. change Separator with "/"%char.
    rewrite (validName_nosep _ Hn). reflexivity. }
  rewrite (lastSepEnd_app _ _ Hns).
  replace (S (String.length A)) with (String.length A + 1) by lia.
  rewrite drop_app. cbn [drop].
  destruct n; [discriminate | reflexivity].
Qed.

(** *** a pattern without special bytes *)

Lemma hasMeta_cons c p :
  hasMeta (String c p) = false ->
  Ascii.eqb c "*" = false /\ Ascii.eqb c "?" = false /\ Ascii.eqb c "[" = false
  /\ Ascii.eqb c "\" = false /\ hasMeta p = false.
Proof.
  cbn [hasMeta]. intros H.
  repeat (apply orb_false_iff in H; destruct H as [H ?]). repeat split; assumption.
Qed.

Lemma matchChunkLoop_failed chunk : forall fuel s,
  hasMeta chunk = false -> String.length chunk < fuel ->
  matchChunkLoop fuel chunk s true = NoMatch.
Proof.
  induction chunk as [|c chunk IH]; intros fuel s Hm Hf;
    (destruct fuel as [|f]; [cbn [String.length] in Hf; lia|]).
  - reflexivity.
  - destruct (hasMeta_cons _ _ Hm) as (E1 & E2 & E3 & E4 & E5).
    cbn [matchChunkLoop orb]. rewrite E3, E2, E4.
    apply IH; [exact E5 | cbn [String.length] in Hf; lia].
Qed.

Lemma matchChunkLoop_literal_empty c chunk fuel failed :
  hasMeta (String c chunk) = false -> String.length chunk < fuel ->
  matchChunkLoop (S fuel) (String c chunk) "" failed = NoMatch.
Proof.
  intros Hm Hf. destruct (hasMeta_cons _ _ Hm) as (E1 & E2 & E3 & E4 & E5).
  cbn [matchChunkLoop]. rewrite E3, E2, E4.
  change (String.eqb "" "") with true. rewrite orb_true_r.
  exact (matchChunkLoop_failed chunk fuel "" E5 Hf).
Qed.

Lemma scanText_literal p : forall b, hasMeta p = false -> scanText b p = (p, "").
Proof.
  induction p as [|c p IH]; intros b Hm; [reflexivity|].
  destruct (hasMeta_cons _ _ Hm) as (E1 & E2 & E3 & E4 & E5).
  cbn [scanText]. rewrite E4, E3, E1. cbn [andb].
  destruct (Ascii.eqb c "]"); rewrite (IH _ E5); reflexivity.
Qed.

Lemma Match_literal_empty p : hasMeta p = false -> Match p "" <> None.
Proof.
  intros Hm. unfold Match. destruct p as [|c p]; [discriminate|].
  destruct (hasMeta_cons _ _ Hm) as (E1 & E2 & E3 & E4 & E5).
  cbn [String.length MatchLoop]. unfold scanChunk. cbn [skipStars]. rewrite E1.
  rewrite (scanText_literal _ false Hm). cbn [andb].
  unfold matchChunk.
  rewrite (matchChunkLoop_literal_empty c p (String.length (String c p)) false Hm)
    by (cbn [String.length]; lia).
  discriminate.
Qed.

Lemma Glob_literal w g :
  hasMeta g = false -> Glob w g = Some (if isOk (statIn w g) then [g] else []).
Proof.
  intros Hm. unfold Glob. cbn [GlobLoop].
  destruct (Match g "") eqn:E; [|exfalso; exact (Match_literal_empty g Hm E)].
  rewrite Hm. reflexivity.
Qed.

(** X20.  Git data is protected under every configuration: a path whose
    last component is [.git], and a directory that has an entry [.git]
    (a repository root) when its path holds none of the bytes
    [* ? [ \], which [filepath.Glob] would read as a pattern. *)
Theorem git_is_protected w cfg s r :
  validPath s = true ->
  Protected (Check w cfg (render (s ++ [".git"])) r) = true
  /\ (hasMeta (render (s ++ [".git"])) = false ->
      lookup (fs w) (s ++ [".git"]) <> None ->
      Protected (Check w cfg (render s) r) = true).
Proof.
  intros Hs.
  assert (Hv : validPath (s ++ [".git"]) = true).
  { rewrite validPath_app, Hs. reflexivity. }
  split.
  - destruct (Check_cases w cfg (render (s ++ [".git"])) r) as [C | (_ & Hg & _)];
      [exact C|].
    rewrite Clean_render in Hg by exact Hv. unfold isGitPath in Hg.
    destruct (render_last s ".git") as [A EA]. rewrite EA in Hg.
    rewrite (Base_last A ".git" eq_refl) in Hg. discriminate.
  - intros Hm Hex.
    destruct (Check_cases w cfg (render s) r) as [C | (_ & Hg & _)]; [exact C|].
    rewrite Clean_render in Hg by exact Hs. unfold isGitPath in Hg.
    destruct (String.eqb (Base (render s)) ".git"); [discriminate|].
    rewrite (JoinPath_render s ".git" Hs eq_refl) in Hg.
    rewrite (Glob_literal w _ Hm) in Hg.
    unfold statIn in Hg. rewrite nodeAt_render in Hg by exact Hv.
    destruct (lookup (fs w) (s ++ [".git"])); [discriminate | contradiction].
Qed.

Lemma git_is_protected_witness :
  let w := worldOf (d [("src", d [(".git", d [])])]) 0 "" in
  Protected (Check w (cfgWith []) (render (["src"] ++ [".git"])) false) = true
  /\ (hasMeta (render (["src"] ++ [".git"])) = false ->
      lookup (fs w) (["src"] ++ [".git"]) <> None ->
      Protected (Check w (cfgWith []) (render ["src"]) false) = true).
Proof.
  exact (git_is_protected (worldOf (d [("src", d [(".git", d [])])]) 0 "")
           (cfgWith []) ["src"] false eq_refl).
Defined.

End CheckFacts.

(* ===================================================================== *)
(** ** [config.Load] *)
(* ===================================================================== *)

Module ConfigFacts.
Import Strings Filepath FS OS FilepathOS Config ConfigLoad Scenario.
Import Notions Vocabulary PathFacts FSFacts OSFacts.
Open Scope go_scope.

Lemma filter_valid ns :
  validPath ns = true -> filter (fun e => negb (String.eqb e "")) ns = ns.
Proof.
  induction ns as [|n ns IH]; intros H; [reflexivity|].
  cbn [validPath forallb] in H. apply andb_true_iff in H. destruct H as [Hn Hs].
  cbn [filter].
  destruct (String.eqb n "") eqn:E.
  - apply String.eqb_eq in E. subst n. discriminate.
  - cbn [negb]. rewrite (IH Hs). reflexivity.
Qed.

Lemma cleanStack_Split_render cs :
  validPath cs = true -> cleanStack true [] (Split Separator (render cs)) = cs.
Proof.
  intros H. pose proof (resolve_render (worldOf (d []) 0 "") cs H) as R.
  unfold resolve in R. destruct (render cs) eqn:E.
  - pose proof (render_nonempty cs) as N. rewrite E in N. discriminate.
  - rewrite <- E in *. rewrite IsAbs_render in R. injection R as R. exact R.
Qed.

(** [filepath.Join] of a canonical path and further names *)
Lemma JoinPath_render_many cs ns :
  validPath cs = true -> validPath ns = true ->
  JoinPath (render cs :: ns) = render (cs ++ ns).
Proof.
  intros Hc Hn. destruct ns as [|n ns].
  { rewrite app_nil_r. unfold JoinPath. cbn [filter]. rewrite render_nonempty.
    cbn [negb Join]. apply Clean_render. exact Hc. }
  unfold JoinPath.
  assert (F : filter (fun e => negb (String.eqb e "")) (render cs :: n :: ns)
              = render cs :: n :: ns).
  { change (filter (fun e => negb (String.eqb e "")) (render cs :: n :: ns))
      with (if negb (String.eqb (render cs) "")
            then render cs :: filter (fun e => negb (String.eqb e "")) (n :: ns)
            else filter (fun e => negb (String.eqb e "")) (n :: ns)).
    rewrite render_nonempty, (filter_valid _ Hn). reflexivity. }
  rewrite F.
  change (Join (render cs :: n :: ns) "/")
    with (render cs ++ String Separator (Join (n :: ns) "/")).
  rewrite Clean_abs by apply IsAbs_render_app.
  rewrite Split_app, (Split_Join (n :: ns) Hn) by discriminate.
  rewrite cleanStack_app, (cleanStack_Split_render cs Hc).
  rewrite (cleanStack_valid (rev cs) (n :: ns) Hn), rev_involutive. reflexivity.
Qed.

Section Load.
Context {yaml : YamlCodec}.
Variable Getenv : string -> string.


Lemma applyEnv_fields c :
  TrashDir (applyEnv Getenv c)
  = (if String.eqb (Getenv "SAFERM_TRASH") "" then
       if HasPrefix (TrashDir c) "~"
       then JoinPath [Getenv "HOME"; drop 1 (TrashDir c)] else TrashDir c
     else Getenv "SAFERM_TRASH")
  /\ ProtectedPaths (applyEnv Getenv c)
     = (if String.eqb (Getenv "SAFERM_PROTECTED_PATHS") "" then ProtectedPaths c
        else (ProtectedPaths c
                ++ Split PathListSeparator (Getenv "SAFERM_PROTECTED_PATHS"))%list)
  /\ RetentionDays (applyEnv Getenv c)
     = (if String.eqb (Getenv "SAFERM_RETENTION_DAYS") "" then RetentionDays c
        else match Numeric.Atoi (Getenv "SAFERM_RETENTION_DAYS") with
             | Some n => n
             | None => RetentionDays c
             end)
  /\ ProtectedBehavior (applyEnv Getenv c)
     = (if String.eqb (Getenv "SAFERM_PROTECTED_BEHAVIOR") "" then ProtectedBehavior c
        else Getenv "SAFERM_PROTECTED_BEHAVIOR")
  /\ VerboseWarnings (applyEnv Getenv c) = VerboseWarnings c.
Proof.
  unfold applyEnv, UserHomeDir.
  destruct (HasPrefix (TrashDir c) "~");
    destruct (String.eqb (Getenv "SAFERM_TRASH") "");
    destruct (String.eqb (Getenv "SAFERM_PROTECTED_PATHS") "");
    destruct (String.eqb (Getenv "SAFERM_RETENTION_DAYS") "");
    destruct (String.eqb (Getenv "SAFERM_PROTECTED_BEHAVIOR") "");
    destruct (Numeric.Atoi (Getenv "SAFERM_RETENTION_DAYS"));
    cbn; repeat split; reflexivity.
Qed.

(** X22.  The environment wins over the configuration file.  When [Load]
    succeeds it has changed nothing in the world, and each field of the
    result is decided by its variable: if [SAFERM_TRASH] is set it is
    the trash directory, taken as it is (a leading [~] is not
    expanded), else the directory of the file with a leading [~]
    replaced by [HOME]; [SAFERM_PROTECTED_PATHS], split at colons, is
    appended to the patterns of the file; [SAFERM_RETENTION_DAYS]
    replaces the retention of the file when [strconv.Atoi] accepts it
    and is ignored otherwise; [SAFERM_PROTECTED_BEHAVIOR] replaces the
    behaviour.  A variable that is empty leaves the value of the file,
    which is the default where the file is silent or unreadable. *)
Theorem load_environment_wins w cfg w' :
  Load Getenv w = (Ok cfg, w') ->
  w' = w
  /\ exists file : Config,
      fileConfig Getenv w file
      /\ TrashDir cfg
         = (if String.eqb (Getenv "SAFERM_TRASH") "" then
              if HasPrefix (TrashDir file) "~"
              then JoinPath [Getenv "HOME"; drop 1 (TrashDir file)]
              else TrashDir file
            else Getenv "SAFERM_TRASH")
      /\ ProtectedPaths cfg
         = (if String.eqb (Getenv "SAFERM_PROTECTED_PATHS") ""
            then ProtectedPaths file
            else (ProtectedPaths file
                    ++ Split PathListSeparator (Getenv "SAFERM_PROTECTED_PATHS"))%list)
      /\ RetentionDays cfg
         = (if String.eqb (Getenv "SAFERM_RETENTION_DAYS") ""
            then RetentionDays file
            else match Numeric.Atoi (Getenv "SAFERM_RETENTION_DAYS") with
                 | Some n => n
                 | None => RetentionDays file
                 end)
      /\ ProtectedBehavior cfg
         = (if String.eqb (Getenv "SAFERM_PROTECTED_BEHAVIOR") ""
            then ProtectedBehavior file
            else Getenv "SAFERM_PROTECTED_BEHAVIOR")
      /\ VerboseWarnings cfg = VerboseWarnings file.
Proof.
  unfold Load. intros H.
  apply bind_inv in H. destruct H as [(d0 & w1 & HD & H) | (e & _ & E)]; [|discriminate].
  assert (Ew1 : w1 = w) by (unfold Default, ret in HD; inversion HD; reflexivity).
  subst w1.
  apply bind_inv in H. destruct H as [(p & w1 & HP & H) | (e & _ & E)]; [|discriminate].
  assert (Ew1 : w1 = w).
  { unfold getConfigPath in HP.
    destruct (negb (String.eqb (Getenv "XDG_CONFIG_HOME") "")); inversion HP; reflexivity. }
  subst w1.
  unfold bind at 1 in H. unfold attempt, ReadFile, query at 1 in H.
  apply bind_inv in H. destruct H as [(c & w1 & H1 & H) | (e & _ & E)]; [|discriminate].
  assert (Hc : w1 = w
               /\ match readFileIn w p with
                  | Ok text => yamlUnmarshal text d0 = Ok c
                  | Err _ => c = d0
                  end).
  { destruct (readFileIn w p) as [text|e]; [|inversion H1; split; reflexivity].
    destruct (yamlUnmarshal text d0) as [c'|e]; inversion H1; split; reflexivity. }
  destruct Hc as [-> Hc]. unfold ret in H. inversion H. subst. split; [reflexivity|].
  exists c. split; [exists d0, p; repeat split; assumption|].
  apply applyEnv_fields.
Qed.

End Load.


Lemma load_environment_wins_witness :
  let w :=
    worldOf (d [("home", d [("u", d [(".config", d [("safe-rm",
               d [("config.yml", f "trash_dir: /var/trash" 0)])])])])]) t0 "" in
  let env := envOf [("HOME", "/home/u"); ("SAFERM_RETENTION_DAYS", "7d");
                    ("SAFERM_PROTECTED_PATHS", "/a:/b")] in
  let cfg := mkConfig "/var/trash" 30 ["/a"; "/b"] "confirm" true in
  @Load lineYaml env w = (Ok cfg, w)
  /\ exists file,
      @fileConfig lineYaml env w file
      /\ TrashDir cfg = TrashDir file
      /\ ProtectedPaths cfg = (ProtectedPaths file ++ ["/a"; "/b"])%list
      /\ RetentionDays cfg = RetentionDays file.
Proof.
  intros w env cfg. split; [reflexivity|].
  destruct (@load_environment_wins lineYaml env w cfg w eq_refl)
    as (_ & file & F & A & B & C & _).
  exists file. split; [exact F|].
  destruct F as (d0 & p & HD & HP & Hf).
  unfold Default, ret in HD. inversion HD. subst d0.
  unfold getConfigPath, ret in HP. cbn in HP. inversion HP. subst p.
  vm_compute in Hf. inversion Hf. subst file.
  repeat split.
Defined.

End ConfigFacts.

(* ===================================================================== *)
(** ** The sidecar: [writeMetadata], [GetMetadata], [Move] *)
(* ===================================================================== *)

Module MetaFacts.
Import Strings Filepath FS OS FilepathOS Config Trash Restore Scenario.
Import Notions Vocabulary PathFacts FSFacts OSFacts CopyFacts MoveFacts Safety ScanFacts.
Import WalkFacts.
Open Scope go_scope.

Section Keeps.

Variable R : World -> World -> Prop.
Hypothesis R_refl : forall w, R w w.
Hypothesis R_trans : forall a b c, R a b -> R b c -> R a c.

Lemma keeps_ret {A} (a : A) : keeps R (ret a).
Proof. intros w r w' H. inversion H. apply R_refl. Qed.

Lemma keeps_fail {A} e : keeps R (@fail A e).
Proof. intros w r w' H. inversion H. apply R_refl. Qed.

Lemma keeps_query {A} (f : World -> res A) : keeps R (query f).
Proof. intros w r w' H. inversion H. apply R_refl. Qed.

Lemma keeps_bind {A B} (m : M A) (k : A -> M B) :
  keeps R m -> (forall a, keeps R (k a)) -> keeps R (bind m k).
Proof.
  intros Hm Hk w r w' H. apply bind_inv in H.
  destruct H as [(a & w1 & H1 & H2) | (e & H1 & _)].
  - exact (R_trans _ _ _ (Hm _ _ _ H1) (Hk _ _ _ _ H2)).
  - exact (Hm _ _ _ H1).
Qed.

Lemma keeps_attempt {A} (m : M A) : keeps R m -> keeps R (attempt m).
Proof.
  intros Hm w r w' H. unfold attempt in H. destruct (m w) as [x w1] eqn:E.
  inversion H. subst. exact (Hm _ _ _ E).
Qed.

Lemma keeps_forEach {A B} (step : B -> A -> M A) l a :
  (forall b a, keeps R (step b a)) -> keeps R (forEach l step a).
Proof.
  intros Hs w r w' H.
  refine (forEach_rel R R_refl R_trans step _ _ _ _ _ _ H).
  intros b x v r0 v' Hb. exact (Hs _ _ _ _ _ Hb).
Qed.

(** the same for a loop whose steps behave on the members of the list *)
Lemma keeps_forEach_In {A B} (step : B -> A -> M A) l :
  (forall b a, In b l -> keeps R (step b a)) ->
  forall a, keeps R (forEach l step a).
Proof.
  induction l as [|b l IH]; intros Hs a w r w' H; cbn [forEach] in H.
  - inversion H. apply R_refl.
  - apply bind_inv in H. destruct H as [(x & w1 & H1 & H2) | (e & H1 & _)].
    + apply (R_trans _ w1).
      * exact (Hs b a (or_introl eq_refl) _ _ _ H1).
      * refine (IH _ x _ _ _ H2). intros b0 a0 Hb. apply Hs. right. exact Hb.
    + exact (Hs b a (or_introl eq_refl) _ _ _ H1).
Qed.

End Keeps.

(** *** calls that leave clock, host and streams alone *)

Lemma sameEnv_refl w : sameEnv w w.
Proof. repeat split. Qed.

Lemma sameEnv_trans a b c : sameEnv a b -> sameEnv b c -> sameEnv a c.
Proof.
  unfold sameEnv. intros (A1 & A2 & A3 & A4 & A5 & A6 & A7 & A8 & A9)
                         (B1 & B2 & B3 & B4 & B5 & B6 & B7 & B8 & B9).
  repeat split; congruence.
Qed.

Lemma sameEnv_setFs w n ev : sameEnv w (setFs w n ev).
Proof. repeat split. Qed.

Ltac env_prim :=
  intros w r w' H;
  repeat match type of H with
         | context [match ?x with _ => _ end] => destruct x
         end;
  inversion H; subst; first [apply sameEnv_refl | apply sameEnv_setFs].

Lemma env_WriteFile p data perm : keeps sameEnv (WriteFile p data perm).
Proof. unfold WriteFile. env_prim. Qed.

Lemma env_MkdirAll p perm : keeps sameEnv (MkdirAll p perm).
Proof. unfold MkdirAll. env_prim. Qed.

Lemma env_Rename s t : keeps sameEnv (Rename s t).
Proof. unfold Rename, note. env_prim. Qed.

Lemma env_Remove p : keeps sameEnv (Remove p).
Proof. unfold Remove. env_prim. Qed.

Lemma env_RemoveAll p : keeps sameEnv (RemoveAll p).
Proof. unfold RemoveAll. env_prim. Qed.

Section Meta.
Context {codec : JsonCodec}.

Lemma env_copyFileAndDelete s t : keeps sameEnv (copyFileAndDelete s t).
Proof.
  unfold copyFileAndDelete, ReadFile, Stat.
  repeat (apply (keeps_bind sameEnv sameEnv_trans); [|intros]);
    first [apply (keeps_query sameEnv sameEnv_refl) | apply env_WriteFile
          | apply env_Remove].
Qed.

Lemma env_copyDirLoop fuel : forall s t, keeps sameEnv (copyDirLoop fuel s t).
Proof.
  induction fuel as [|fuel IH]; intros s t; cbn [copyDirLoop].
  - apply (keeps_fail sameEnv sameEnv_refl).
  - unfold Stat, ReadDir.
    apply (keeps_bind sameEnv sameEnv_trans);
      [apply (keeps_query sameEnv sameEnv_refl) | intros].
    apply (keeps_bind sameEnv sameEnv_trans); [apply env_MkdirAll | intros].
    apply (keeps_bind sameEnv sameEnv_trans);
      [apply (keeps_query sameEnv sameEnv_refl) | intros].
    apply (keeps_bind sameEnv sameEnv_trans); [|intros; apply env_RemoveAll].
    apply (keeps_forEach sameEnv sameEnv_refl sameEnv_trans). intros b [].
    destruct (EntryIsDir b); [apply IH | apply env_copyFileAndDelete].
Qed.

Lemma env_copyAndDelete s t isdir : keeps sameEnv (copyAndDelete s t isdir).
Proof.
  unfold copyAndDelete, copyDirAndDelete. destruct isdir.
  - intros w r w' H. exact (env_copyDirLoop _ _ _ _ _ _ H).
  - apply env_copyFileAndDelete.
Qed.

(** what was written can be read *)
Lemma WriteFile_read p data perm w w' :
  WriteFile p data perm w = (Ok tt, w') -> readFileIn w' p = Ok data.
Proof.
  unfold WriteFile, readFileIn, nodeAt. intros H.
  destruct (resolve w p) as [cs|] eqn:Er; [|discriminate].
  assert (K : forall pm,
             match insertAt (now w) (fs w) cs (File data pm (now w)) with
             | Some n' => (Ok tt, setFs w n' (EvWriteFile p data))
             | None => (Err (missing (fs w) cs), w)
             end = (Ok tt, w') ->
             match match resolve w' p with
                   | Some cs => lookup (fs w') cs
                   | None => None
                   end with
             | Some (File d _ _) => Ok d
             | Some (Dir _ _ _) => Err EISDIR
             | None => Err (absent w' p)
             end = Ok data).
  { intros pm K. unfold insertAt in K.
    destruct (setAt (now w) (fs w) cs (Some (File data pm (now w)))) as [n'|] eqn:Es;
      [|discriminate].
    inversion K. subst w'.
    change (resolve (setFs w n' (EvWriteFile p data)) p) with (resolve w p).
    rewrite Er, fs_setFs, (setAt_lookup_same _ _ _ _ _ Es). reflexivity. }
  destruct (lookup (fs w) cs) as [[dt pm mt | pm mt es]|]; [| discriminate |];
    exact (K _ H).
Qed.

(** reading back a sidecar that was just written *)
Lemma GetMetadata_after_write item m w w' :
  writeMetadata (item ++ metadataSuffix) m w = (Ok tt, w') ->
  unmarshal (marshal m) = Some m ->
  GetMetadata item w' = (Ok m, w').
Proof.
  intros Hw Hc. unfold writeMetadata in Hw. apply WriteFile_read in Hw.
  unfold GetMetadata, bind, ReadFile, query. rewrite Hw, Hc. reflexivity.
Qed.

(** X23.  What [writeMetadata] stores, [GetMetadata] returns: after a
    sidecar was written for an item, reading the item's metadata gives
    the same record, provided the JSON text of the record decodes to
    it. *)
Theorem metadata_round_trip item m w w' :
  writeMetadata (item ++ metadataSuffix) m w = (Ok tt, w') ->
  unmarshal (marshal m) = Some m ->
  GetMetadata item w' = (Ok m, w').
Proof. exact (GetMetadata_after_write item m w w'). Qed.

(** [Move] up to the point where the sidecar is written *)
Lemma Move_inv cfg absPath w tp w' :
  Move cfg absPath w = (Ok tp, w') ->
  exists i w3,
    statIn w absPath = Ok i /\ sameEnv w w3
    /\ (wr <- attempt (writeMetadata (tp ++ metadataSuffix)
                         (mkMetadata absPath (now w) (hostOf w) (IsDir i))) ;;
        (match wr with
         | Err e => Eprintln ("warning: failed to write metadata: " ++ errText e)
         | Ok _ => ret tt
         end) ;;;
        ret tp) w3 = (Ok tp, w').
Proof.
  intros H. pose proof (Move_returns _ _ _ _ _ H) as Etp.
  unfold Move in H. unfold bind at 1 in H. unfold Lstat, Stat, query at 1 in H.
  destruct (statIn w absPath) as [i|e] eqn:Es; [|discriminate].
  exists i.
  unfold bind at 1 in H.
  assert (Eh : exists h, attempt Hostname w = (Ok h, w)
                         /\ match h with Ok x => x | Err _ => "unknown" end = hostOf w).
  { unfold attempt, Hostname, hostOf. destruct (hostname w); eexists; split; reflexivity. }
  destruct Eh as (h & Eh & Ehost). rewrite Eh in H. rewrite Ehost in H. clear Eh Ehost.
  unfold bind at 1 in H. unfold attempt at 1, Stat, query at 1 in H.
  unfold bind at 1 in H. unfold Time.NowStamp, query in H.
  rewrite <- Etp in H.
  unfold bind at 1 in H.
  destruct (attempt (MkdirAll (Filepath.Dir tp) 493) w) as [mk w1] eqn:Emk.
  assert (S1 : sameEnv w w1).
  { exact (keeps_attempt sameEnv _ (env_MkdirAll _ _) _ _ _ Emk). }
  unfold attempt in Emk. destruct (MkdirAll (Filepath.Dir tp) 493 w) as [r0 w0].
  inversion Emk. subst mk w0. clear Emk.
  destruct r0 as [[]|e]; [|discriminate].
  unfold bind at 1 in H.
  destruct (attempt (Rename absPath tp) w1) as [rn w2] eqn:Ern.
  assert (S2 : sameEnv w1 w2).
  { exact (keeps_attempt sameEnv _ (env_Rename _ _) _ _ _ Ern). }
  unfold attempt in Ern. destruct (Rename absPath tp w1) as [rr w0].
  inversion Ern. subst rn w0. clear Ern.
  apply bind_inv in H. destruct H as [([] & w3 & Hc & H) | (e & _ & E)]; [|discriminate].
  assert (S3 : sameEnv w2 w3).
  { destruct rr as [[]|e].
    - inversion Hc. apply sameEnv_refl.
    - exact (env_copyAndDelete _ _ _ _ _ _ Hc). }
  exists w3.
  assert (S : sameEnv w w3).
  { exact (sameEnv_trans _ _ _ S1 (sameEnv_trans _ _ _ S2 S3)). }
  split; [reflexivity|]. split; [exact S|].
  unfold bind at 1 in H. unfold Now at 1 in H.
  destruct S as (Sn & _). rewrite Sn in H. exact H.
Qed.

(** X24.  [Move] records where the item came from.  After a successful
    [Move], reading the metadata of the returned trash path gives the
    original path, the time of the move, the host name and whether the
    item was a directory -- or writing the sidecar failed, and then the
    one thing [Move] did about it was a warning on standard error. *)
Theorem move_records_origin cfg absPath w tp w' i :
  Move cfg absPath w = (Ok tp, w') ->
  statIn w absPath = Ok i ->
  unmarshal (marshal (mkMetadata absPath (now w) (hostOf w) (IsDir i)))
  = Some (mkMetadata absPath (now w) (hostOf w) (IsDir i)) ->
  GetMetadata tp w' = (Ok (mkMetadata absPath (now w) (hostOf w) (IsDir i)), w')
  \/ exists e,
      stderr w'
      = (("warning: failed to write metadata: " ++ errText e) ++ LF) :: stderr w.
Proof.
  intros Hm Hs Hc. destruct (Move_inv _ _ _ _ _ Hm) as (i' & w3 & Hs' & S & H).
  rewrite Hs in Hs'. inversion Hs'. subst i'. clear Hs'.
  unfold bind at 1 in H. unfold attempt at 1 in H.
  destruct (writeMetadata (tp ++ metadataSuffix)
              (mkMetadata absPath (now w) (hostOf w) (IsDir i)) w3) as [[[]|e] w4] eqn:Ew.
  - left. unfold bind, ret in H. inversion H. subst w4.
    exact (GetMetadata_after_write _ _ _ _ Ew Hc).
  - right. exists e. unfold bind, Eprint, ret in H. inversion H.
    cbn [stderr].
    assert (E4 : stderr w4 = stderr w3).
    { pose proof (env_WriteFile _ _ _ _ _ _ Ew) as (_ & _ & _ & _ & _ & _ & _ & E & _).
      exact E. }
    destruct S as (_ & _ & _ & _ & _ & _ & _ & E3 & _). rewrite E4, E3. reflexivity.
Qed.

End Meta.

Lemma metadata_round_trip_witness :
  let m := mkMetadata "/home/u/f.txt" t0 "H" false in
  let w := worldOf oneItemTrash t0 "" in
  GetMetadata "/t/H/home/u/f.txt"
    (snd (writeMetadata ("/t/H/home/u/f.txt" ++ metadataSuffix) m w))
  = (Ok m, snd (writeMetadata ("/t/H/home/u/f.txt" ++ metadataSuffix) m w)).
Proof.
  intros m w.
  exact (metadata_round_trip "/t/H/home/u/f.txt" m w _ eq_refl eq_refl).
Defined.

Lemma move_records_origin_witness :
  let w := worldOf homeTree t0 "" in
  let w' := snd (Move (cfgWith []) "/home/u/docs" w) in
  GetMetadata "/t/H/home/u/docs" w'
  = (Ok (mkMetadata "/home/u/docs" t0 "H" true), w')
  \/ exists e,
      stderr w'
      = (("warning: failed to write metadata: " ++ errText e) ++ LF) :: stderr w.
Proof.
  intros w w'.
  exact (move_records_origin (cfgWith []) "/home/u/docs" w "/t/H/home/u/docs" w'
           (mkInfo true 0 493) eq_refl eq_refl eq_refl).
Defined.

End MetaFacts.

(* ===================================================================== *)
(** ** The footprint of [Purge] and [Restore] *)
(* ===================================================================== *)

Module FootprintFacts.
Import Strings Filepath FS OS FilepathOS Config Trash Restore Scenario.
Import Notions Vocabulary PathFacts FSFacts OSFacts CopyFacts MoveFacts Safety ScanFacts.
Import RestoreFacts WalkFacts MetaFacts.
Open Scope go_scope.

Lemma sameOutside_refl T w : sameOutside T w w.
Proof. intros q _. reflexivity. Qed.

Lemma sameOutside_trans T a b c :
  sameOutside T a b -> sameOutside T b c -> sameOutside T a c.
Proof. intros H1 H2 q Hq. rewrite (H2 q Hq). exact (H1 q Hq). Qed.

Lemma sameOutside_sameDisk T w w' : sameDisk w w' -> sameOutside T w w'.
Proof. intros (E & _) q _. rewrite E. reflexivity. Qed.

Lemma outside_Print T s : keeps (sameOutside T) (Print s).
Proof.
  intros w r w' H. apply sameOutside_sameDisk. exact (quiet_Print s _ _ _ H).
Qed.

(** removing something at or below [T] *)
Lemma outside_RemoveAll T rel :
  validPath (T ++ rel) = true -> keeps (sameOutside T) (RemoveAll (render (T ++ rel))).
Proof.
  intros Hv w r w' H.
  destruct (RemoveAll_cases (T ++ rel) w Hv) as [[r0 E] | (n' & Es & E)];
    rewrite E in H; inversion H; subst; [apply sameOutside_refl|].
  intros q Hq. rewrite fs_setFs.
  exact (setAt_frame _ _ _ _ _ q Es (apart_app_l _ _ _ Hq)).
Qed.

Lemma outside_Remove T rel :
  validPath (T ++ rel) = true -> keeps (sameOutside T) (Remove (render (T ++ rel))).
Proof.
  intros Hv w r w' H.
  destruct (Remove_cases (T ++ rel) w Hv) as [[e E] | (n' & Es & E)];
    rewrite E in H; inversion H; subst; [apply sameOutside_refl|].
  intros q Hq. rewrite fs_setFs.
  exact (setAt_frame _ _ _ _ _ q Es (apart_app_l _ _ _ Hq)).
Qed.

(** the sidecar of a place below [T] is below [T] *)
Lemma sidecar_below T rel :
  validPath (T ++ rel) = true -> rel <> [] ->
  exists rel', validPath (T ++ rel') = true
               /\ render (T ++ rel) ++ metadataSuffix = render (T ++ rel').
Proof.
  intros Hv Hrel. destruct (snoc_cases rel) as [-> | (p & x & ->)]; [contradiction|].
  exists (p ++ [(x ++ metadataSuffix)%string])%list.
  rewrite app_assoc in Hv |- *. destruct (validPath_snoc_inv _ _ Hv) as [Hp Hx].
  rewrite app_assoc. split.
  - apply validPath_snoc; [exact Hp | apply validName_append; [exact Hx | reflexivity]].
  - apply render_snoc_append.
Qed.

Section Purge.
Context {codec : JsonCodec}.

Lemma outside_purgeStep T rel cutoff purged :
  validPath (T ++ rel) = true -> rel <> [] ->
  keeps (sameOutside T) (purgeStep cutoff (render (T ++ rel)) purged).
Proof.
  intros Hv Hrel. destruct (sidecar_below T rel Hv Hrel) as (rel' & Hv' & Esc).
  pose proof (sameOutside_refl T) as Rr. pose proof (sameOutside_trans T) as Rt.
  unfold purgeStep. rewrite Esc.
  apply (keeps_bind _ Rt).
  { apply (keeps_attempt (sameOutside T)). intros w r w' H.
    apply sameOutside_sameDisk. exact (quiet_GetMetadata _ _ _ _ H). }
  intros [m|e].
  - destruct (Time.Before (DeletedAt m) cutoff); [|apply (keeps_ret _ Rr)].
    apply (keeps_bind _ Rt);
      [apply (keeps_attempt (sameOutside T)); apply outside_RemoveAll; exact Hv|].
    intros rm. destruct (isOk rm); [|apply (keeps_ret _ Rr)].
    apply (keeps_bind _ Rt);
      [apply (keeps_attempt (sameOutside T)); apply outside_Remove; exact Hv'|].
    intros _. apply (keeps_bind _ Rt); [apply (keeps_query _ Rr)|].
    intros deletedAt. apply (keeps_bind _ Rt); [apply outside_Print|].
    intros _. apply (keeps_ret _ Rr).
  - unfold Stat. apply (keeps_bind _ Rt);
      [apply (keeps_attempt (sameOutside T)); apply (keeps_query _ Rr)|].
    intros [i|e']; [|apply (keeps_ret _ Rr)].
    destruct (Time.Before (ModTime i) cutoff); [|apply (keeps_ret _ Rr)].
    apply (keeps_bind _ Rt);
      [apply (keeps_attempt (sameOutside T)); apply outside_RemoveAll; exact Hv|].
    intros rm. destruct (isOk rm); [|apply (keeps_ret _ Rr)].
    apply (keeps_bind _ Rt); [apply outside_Print|].
    intros _. apply (keeps_ret _ Rr).
Qed.

(** X25.  [Purge] stays inside the trash: on a well-formed tree with a
    canonical trash directory, every place that is neither at, above
    nor below the trash directory holds after the call what it held
    before, whatever the metadata say and however long the retention
    is. *)
Theorem purge_stays_in_trash cfg days T w :
  wf (fs w) = true -> validPath T = true -> GetTrashDir cfg = render T ->
  sameOutside T w (snd (Purge cfg days w)).
Proof.
  intros Hw HT Hc.
  pose proof (sameOutside_refl T) as Rr. pose proof (sameOutside_trans T) as Rt.
  destruct (Purge cfg days w) as [r w'] eqn:E. cbn [snd].
  assert (P : forall r w', purgeItems cfg days w = (r, w') -> sameOutside T w w').
  { clear E r w'. intros r w' H. unfold purgeItems in H. rewrite Hc in H.
    destruct (findTrashItems_spec T w Hw HT) as (items & Ef & F).
    unfold bind at 1 in H. rewrite Ef in H.
    unfold bind at 1 in H. unfold Time.NowAddDays, query in H.
    revert H. apply (keeps_bind _ Rt).
    - apply (keeps_forEach_In _ Rr Rt). intros item purged Hin.
      apply F in Hin. destruct Hin as (rel & -> & Hex & Hrep).
      destruct (lookup (fs w) (T ++ rel)) as [n|] eqn:El; [|congruence].
      apply outside_purgeStep; [exact (lookup_valid _ _ _ Hw El)|].
      intros ->. rewrite app_nil_r in Hrep. unfold reported in Hrep.
      rewrite String.eqb_refl, andb_false_r in Hrep. discriminate.
    - intros purged. destruct (Z.eqb purged 0); apply outside_Print. }
  unfold Purge in E. unfold bind at 1, attempt at 1, Stat, query in E.
  destruct (statIn w (GetTrashDir cfg)) as [i|e].
  - exact (P _ _ E).
  - destruct (IsNotExist e); [exact (outside_Print T _ _ _ _ E) | exact (P _ _ E)].
Qed.

End Purge.

Section RestoreFrame.
Context {codec : JsonCodec}.

Lemma both_refl T o w : sameOutsideBoth T o w w.
Proof. intros q _ _. reflexivity. Qed.

Lemma both_trans T o a b c :
  sameOutsideBoth T o a b -> sameOutsideBoth T o b c -> sameOutsideBoth T o a c.
Proof. intros H1 H2 q Hq Ho. rewrite (H2 q Hq Ho). exact (H1 q Hq Ho). Qed.

Lemma both_Print T o s : keeps (sameOutsideBoth T o) (Print s).
Proof.
  intros w r w' H. destruct (quiet_Print s _ _ _ H) as (E & _).
  intros q _ _. rewrite E. reflexivity.
Qed.

Lemma both_MkdirAll T op on :
  validPath op = true ->
  keeps (sameOutsideBoth T (op ++ [on])) (MkdirAll (render op) 493).
Proof.
  intros Hv w r w' H.
  destruct (MkdirAll_cases op 493 w Hv) as [[e E] | (n' & Em & E)];
    rewrite E in H; inversion H; subst; [apply both_refl|].
  intros q _ [_ Hq]. rewrite fs_setFs. apply (mkdirAll_frame _ _ _ _ _ q Em).
  destruct (isPrefix q op) eqn:Ep; [|reflexivity].
  rewrite <- Hq. symmetry.
  exact (isPrefix_trans _ _ _ Ep (isPrefix_app _ _)).
Qed.

Lemma both_Rename T rel oc :
  validPath (T ++ rel) = true -> validPath oc = true ->
  keeps (sameOutsideBoth T oc) (Rename (render (T ++ rel)) (render oc)).
Proof.
  intros Hs Hd w r w' H.
  destruct (Rename_cases (T ++ rel) oc w Hs Hd)
    as [[e E] | [[_ E] | (n & n1 & n2 & _ & _ & _ & _ & E1 & E2 & E)]];
    rewrite E in H; inversion H; subst.
  - apply both_refl.
  - intros q _ _. reflexivity.
  - intros q Hq Ho. rewrite fs_setFs.
    rewrite (setAt_frame _ _ _ _ _ q E2 Ho).
    exact (setAt_frame _ _ _ _ _ q E1 (apart_app_l _ _ _ Hq)).
Qed.

Lemma both_Remove T rel oc :
  validPath (T ++ rel) = true ->
  keeps (sameOutsideBoth T oc) (Remove (render (T ++ rel))).
Proof.
  intros Hv w r w' H q Hq _. exact (outside_Remove T rel Hv _ _ _ H q Hq).
Qed.

(** X26.  [Restore] touches the trash and the destination only: on a
    well-formed tree, with a canonical trash directory and a canonical
    destination, every place that is away from the trash directory and
    away from the destination holds after the call what it held before,
    whether the call succeeds or fails. *)
Theorem restore_footprint cfg T oc w :
  wf (fs w) = true -> validPath T = true -> GetTrashDir cfg = render T ->
  validPath oc = true ->
  sameOutsideBoth T oc w (snd (Restore cfg (render oc) w)).
Proof.
  intros Hw HT Hc Hoc.
  pose proof (both_refl T oc) as Rr. pose proof (both_trans T oc) as Rt.
  destruct (findTrashItems_spec T w Hw HT) as (items & Ef & F).
  rewrite <- Hc in Ef. rewrite (Restore_unfold cfg (render oc) w items Ef).
  pose proof (select_selected w (render oc) items) as Hsel.
  destruct (select w (render oc) items ("", None)) as [mi [m|]];
    unfold selected in Hsel; cbn [fst snd] in Hsel; cbv zeta; cbn [fst].
  2:{ destruct Hsel as (-> & _). apply Rr. }
  destruct Hsel as (Hin & _).
  destruct (proj1 (F mi) Hin) as (rel & -> & Hex & Hrep).
  destruct (lookup (fs w) (T ++ rel)) as [n|] eqn:El; [|congruence].
  pose proof (lookup_valid _ _ _ Hw El) as Hic.
  assert (Hrel : rel <> []).
  { intros ->. rewrite app_nil_r in Hrep. unfold reported in Hrep.
    rewrite String.eqb_refl, andb_false_r in Hrep. discriminate. }
  destruct (sidecar_below T rel Hic Hrel) as (rel' & Hsc & Esc).
  rewrite render_nonempty.
  match goal with
  | |- sameOutsideBoth T oc w (snd (?m w)) =>
      assert (K : keeps (sameOutsideBoth T oc) m);
        [|destruct (m w) as [r w'] eqn:E; exact (K _ _ _ E)]
  end.
  unfold Stat.
  apply (keeps_bind _ Rt); [apply (keeps_attempt _); apply (keeps_query _ Rr)|].
  intros st. destruct (isOk st) eqn:Est; [apply (keeps_fail _ Rr)|].
  destruct (snoc_cases oc) as [-> | (op & on & ->)].
  { (* the root as destination: nothing is created *)
    change (Filepath.Dir (render [])) with (render []).
    apply (keeps_bind _ Rt).
    - apply (keeps_attempt _). intros v r v' H.
      destruct (MkdirAll_cases [] 493 v eq_refl) as [[e E] | (n' & Em & E)];
        rewrite E in H; inversion H; subst; [apply Rr|].
      intros q _ _. rewrite fs_setFs. destruct (fs v); simpl in Em; [discriminate|].
      inversion Em. reflexivity.
    - intros [[]|e]; [|apply (keeps_fail _ Rr)].
      apply (keeps_bind _ Rt);
        [apply (keeps_attempt _); apply both_Rename; assumption|].
      intros [[]|e]; [|apply (keeps_fail _ Rr)].
      rewrite Esc.
      apply (keeps_bind _ Rt);
        [apply (keeps_attempt _); apply both_Remove; assumption|].
      intros _. apply both_Print. }
  destruct (validPath_snoc_inv _ _ Hoc) as [Hop Hon].
  rewrite (Dir_render op on Hop Hon).
  apply (keeps_bind _ Rt);
    [apply (keeps_attempt _); apply both_MkdirAll; exact Hop|].
  intros [[]|e]; [|apply (keeps_fail _ Rr)].
  apply (keeps_bind _ Rt);
    [apply (keeps_attempt _); apply both_Rename; assumption|].
  intros [[]|e]; [|apply (keeps_fail _ Rr)].
  rewrite Esc.
  apply (keeps_bind _ Rt);
    [apply (keeps_attempt _); apply both_Remove; assumption|].
  intros _. apply both_Print.
Qed.

End RestoreFrame.

Lemma purge_stays_in_trash_witness :
  let w := worldOf retrashTree (t0 + 86400 * 40) "" in
  sameOutside ["t"] w (snd (Purge (cfgWith []) 30 w))
  /\ nodeAt (snd (Purge (cfgWith []) 30 w)) "/t/H/home/u/f.txt" = None.
Proof.
  intros w. split; [|reflexivity].
  exact (purge_stays_in_trash (cfgWith []) 30 ["t"] w eq_refl eq_refl eq_refl).
Defined.

Lemma restore_footprint_witness :
  let w := worldOf oneItemTrash t0 "" in
  sameOutsideBoth ["t"] ["home"; "u"; "f.txt"] w
    (snd (Restore (cfgWith []) (render ["home"; "u"; "f.txt"]) w)).
Proof.
  intros w.
  exact (restore_footprint (cfgWith []) ["t"] ["home"; "u"; "f.txt"] w
           eq_refl eq_refl eq_refl eq_refl).
Defined.

End FootprintFacts.

(* ===================================================================== *)
(** ** [main] *)
(* ===================================================================== *)

Module MainFacts.
Import Strings Filepath FS OS FilepathOS Config Trash Restore Protect Cli Main.
Import CliParse ConfigLoad MainRun Scenario.
Import Notions Vocabulary PathFacts FSFacts OSFacts CopyFacts MoveFacts Safety ScanFacts.
Import ParseFacts WalkFacts MetaFacts.
Open Scope go_scope.

Section FlagAll.

(** a field of the options that only long options set *)
Variable g : AllOptions -> bool.
Variable hit : string -> bool.

Hypothesis g_long : forall opts arg w o w',
  parseLongOption opts arg w = (Ok o, w') ->
  g o = g opts || hit (fst (cutValue arg)).
Hypothesis g_std : forall f o, g (setStd f o) = g o.

Lemma all_short flags : forall opts w o w',
  parseShortOptions opts flags w = (Ok o, w') -> g o = g opts.
Proof.
  induction flags as [|c r IH]; intros opts w o w' H; cbn [parseShortOptions] in H.
  - inversion H. reflexivity.
  - destruct (shortFlag c) as [f|]; [|discriminate].
    rewrite (IH _ _ _ _ H). apply g_std.
Qed.

Lemma all_args args : forall opts w o w',
  parseArgs args opts w = (Ok o, w') ->
  g o = g opts || existsb (longAsks hit) (optionArgs args).
Proof.
  induction args as [|arg rest IH]; intros opts w o w' H;
    cbn [parseArgs optionArgs] in *.
  - inversion H. rewrite orb_false_r. reflexivity.
  - destruct (String.eqb arg "--") eqn:E1.
    { inversion H. cbn [existsb]. rewrite g_std, orb_false_r. reflexivity. }
    unfold isOption.
    destruct (HasPrefix arg "--") eqn:E2.
    { rewrite (long_isOption _ E2). cbn [existsb]. unfold longAsks at 1. rewrite E2.
      apply bind_inv in H. destruct H as [(o1 & w1 & H1 & H2) | [e [_ H]]]; [|discriminate].
      rewrite (IH _ _ _ _ H2), (g_long _ _ _ _ _ H1), orb_assoc. reflexivity. }
    destruct (HasPrefix arg "-" && Nat.ltb 1 (String.length arg)).
    { cbn [existsb]. unfold longAsks at 1. rewrite E2. cbn [andb orb].
      apply bind_inv in H. destruct H as [(o1 & w1 & H1 & H2) | [e [_ H]]]; [|discriminate].
      rewrite (IH _ _ _ _ H2), (all_short _ _ _ _ _ H1). reflexivity. }
    rewrite (IH _ _ _ _ H). rewrite g_std. reflexivity.
Qed.

End FlagAll.

Lemma exit_or_list_long opts arg w o w' :
  parseLongOption opts arg w = (Ok o, w') ->
  ExitClean o || SafeList o
  = (ExitClean opts || SafeList opts) || onlyPrints (fst (cutValue arg)).
Proof.
  intros H. unfold onlyPrints. long_cases H; cbn [fst];
  repeat match goal with
         | E : String.eqb _ _ = true |- _ => apply String.eqb_eq in E; subst
         | E : String.eqb _ _ = false |- _ => rewrite E; clear E
         end;
  cbn; rewrite ?orb_true_r, ?orb_false_r; reflexivity.
Qed.

Lemma quiet_parseLong opts arg : quiet (parseLongOption opts arg).
Proof.
  unfold parseLongOption, printHelp. destruct (cutValue arg) as [name value].
  repeat match goal with
         | |- quiet (if ?b then _ else _) => destruct b
         | |- quiet (match ?x with _ => _ end) => destruct x
         end; quiet_tac.
Qed.

Lemma quiet_parseShort flags : forall opts, quiet (parseShortOptions opts flags).
Proof.
  intros opts w r w' H. rewrite (short_world _ _ _ _ _ H). apply sameDisk_refl.
Qed.

Lemma quiet_parseArgs args : forall opts, quiet (parseArgs args opts).
Proof.
  induction args as [|arg rest IH]; intros opts; cbn [parseArgs].
  - apply quiet_ret.
  - destruct (String.eqb arg "--"); [apply quiet_ret|].
    destruct (HasPrefix arg "--").
    { apply quiet_bind; [apply quiet_parseLong | intros; apply IH]. }
    destruct (HasPrefix arg "-" && Nat.ltb 1 (String.length arg)).
    { apply quiet_bind; [apply quiet_parseShort | intros; apply IH]. }
    apply IH.
Qed.

Section Main.
Context {codec : JsonCodec} {yaml : YamlCodec}.
Variable Getenv : string -> string.

Lemma quiet_Load : quiet (Load Getenv).
Proof.
  unfold Load, Default, getConfigPath, ReadFile.
  repeat first
    [ apply quiet_ret | apply quiet_fail | apply quiet_query | apply quiet_attempt
    | apply quiet_bind; [|intros]
    | match goal with
      | |- quiet (if ?b then _ else _) => destruct b
      | |- quiet (match ?x with _ => _ end) => destruct x
      end ].
Qed.

(** X27.  With [--help], [--version] or [--safe-list] among the options,
    [main] removes nothing: whatever operands and other options are
    given, and whether the arguments parse or not, the file system and
    the record of mutations are as before. *)
Theorem main_only_prints args w :
  existsb (longAsks onlyPrints) (optionArgs args) = true ->
  sameDisk w (snd (main Getenv args w)).
Proof.
  intros Hx. destruct (main Getenv args w) as [r w'] eqn:E. cbn [snd].
  revert E. unfold main.
  match goal with
  | |- (?m ?w = _) -> _ => enough (K : quiet m) by (intros E; exact (K _ _ _ E))
  end.
  apply quiet_bind; [apply quiet_attempt; apply quiet_Load|].
  intros loaded. apply quiet_bind.
  { destruct loaded; [apply quiet_ret|].
    apply quiet_bind; [apply quiet_Eprint | intros; unfold Default; apply quiet_query]. }
  intros cfg.
  intros v r0 v' H. apply bind_inv in H.
  destruct H as [(parsed & v1 & H1 & H) | (e & H1 & _)].
  2:{ exact (quiet_attempt _ (quiet_parseArgs args initialOptions) _ _ _ H1). }
  apply (sameDisk_trans _ v1).
  { exact (quiet_attempt _ (quiet_parseArgs args initialOptions) _ _ _ H1). }
  unfold attempt, Parse in H1.
  destruct (parseArgs args initialOptions v) as [[o|e] v2] eqn:Ep;
    inversion H1; subst; clear H1.
  2:{ revert H. apply quiet_bind; [apply quiet_Eprint | intros; apply quiet_ret]. }
  pose proof (all_args (fun o => ExitClean o || SafeList o) onlyPrints
                exit_or_list_long (fun _ _ => eq_refl) args _ _ _ _ Ep) as Hf.
  rewrite Hx in Hf. cbn in Hf.
  unfold dispatch in H.
  destruct (ExitClean o); [inversion H; apply sameDisk_refl|].
  cbn [orb] in Hf. rewrite Hf in H.
  revert H. unfold subcommand.
  apply quiet_bind; [apply quiet_attempt; apply quiet_List|].
  intros [[]|e]; [apply quiet_ret|].
  apply quiet_bind; [apply quiet_Eprint | intros; apply quiet_ret].
Qed.

End Main.

Lemma main_only_prints_witness :
  let w := worldOf homeTree t0 "" in
  sameDisk w (snd (@main lineCodec lineYaml (envOf [])
                     ["-rf"; "/home/u/docs"; "--version"] w)).
Proof.
  intros w.
  exact (@main_only_prints lineCodec lineYaml (envOf [])
           ["-rf"; "/home/u/docs"; "--version"] w eq_refl).
Defined.

Lemma forEach_app {A B} (step : B -> A -> M A) a b c w :
  forEach (a ++ b) step c w = bind (forEach a step c) (forEach b step) w.
Proof.
  revert c w. induction a as [|x a IH]; intros c w; cbn [app forEach].
  - reflexivity.
  - unfold bind in *.
    destruct (step x c w) as [[y|e] w1]; [apply IH | reflexivity].
Qed.

Section Loop.
Context {codec : JsonCodec}.

Lemma step_code cfg opts p w :
  exists w',
    forall c, fileStep cfg opts p c w
              = (Ok (if isOk (fst (processPath cfg opts p w)) then c else 1%Z), w').
Proof.
  unfold fileStep, bind, attempt.
  destruct (processPath cfg opts p w) as [[[]|e] w1]; cbn [fst isOk];
    eexists; intros c; reflexivity.
Qed.

Lemma loop_code cfg opts l : forall w,
  exists (failed : bool) w',
    forall c, forEach l (fileStep cfg opts) c w
              = (Ok (if failed then 1%Z else c), w').
Proof.
  induction l as [|p l IH]; intros w; cbn [forEach].
  - exists false, w. reflexivity.
  - destruct (step_code cfg opts p w) as (w1 & E1).
    destruct (IH w1) as (f2 & w2 & E2).
    exists (negb (isOk (fst (processPath cfg opts p w))) || f2), w2.
    intros c. unfold bind. rewrite E1, E2.
    destruct (isOk (fst (processPath cfg opts p w))), f2; reflexivity.
Qed.

(** X28.  The loop of [main] takes the operands in turn and never stops
    early: the run over [a ++ b] is the run over [a] followed by the
    run over [b] in the world the first left, also after a failure and
    also without [-f]; the loop itself never fails, and its exit code
    is 1 exactly when one of the two parts gave 1.  For one operand the
    code is 0 exactly when [processPath] returned without error. *)
Theorem operands_processed_in_turn cfg opts a b w :
  (exists (fa : bool) wa (fb : bool) wb,
      processFiles cfg (withFiles opts a) w = (Ok (if fa then 1 else 0)%Z, wa)
      /\ processFiles cfg (withFiles opts b) wa = (Ok (if fb then 1 else 0)%Z, wb)
      /\ processFiles cfg (withFiles opts (a ++ b)) w
         = (Ok (if fa || fb then 1 else 0)%Z, wb))
  /\ (forall p,
         fst (processFiles cfg (withFiles opts [p]) w)
         = Ok (if isOk (fst (processPath cfg opts p w)) then 0 else 1)%Z).
Proof.
  assert (U : forall l v,
             processFiles cfg (withFiles opts l) v
             = forEach l (fileStep cfg opts) 0%Z v) by reflexivity.
  split.
  - destruct (loop_code cfg opts a w) as (fa & wa & Ea).
    destruct (loop_code cfg opts b wa) as (fb & wb & Eb).
    exists fa, wa, fb, wb. rewrite !U. split; [apply Ea|]. split; [apply Eb|].
    rewrite forEach_app. unfold bind. rewrite Ea, Eb.
    destruct fa, fb; reflexivity.
  - intros p. rewrite U. cbn [forEach].
    destruct (step_code cfg opts p w) as (w1 & E1).
    unfold bind. rewrite E1. reflexivity.
Qed.

End Loop.

End MainFacts.

(* ===================================================================== *)
(** ** Trash a file, then restore it *)
(* ===================================================================== *)

Module RoundTripFacts.
Import Strings Filepath FS OS FilepathOS Config Trash Restore Scenario.
Import Notions Vocabulary PathFacts FSFacts OSFacts CopyFacts MoveFacts Safety ScanFacts.
Import RestoreFacts WalkFacts MetaFacts ConfigFacts FootprintFacts.
Open Scope go_scope.

(** *** directories that stay *)

Lemma setAt_Dir now n p v n' : setAt now n p v = Some n' -> isDirAt n' [].
Proof.
  intros H. destruct n as [dt pm mt|pm mt es].
  { destruct p as [|c [|c2 p]]; simpl in H; discriminate. }
  destruct p as [|c [|c2 p]].
  - simpl in H. discriminate.
  - simpl in H. inversion H. eexists _, _, _. reflexivity.
  - rewrite setAt_cons2 in H. destruct (assoc c es) as [ch|]; [|discriminate].
    destruct (setAt now ch (c2 :: p) v); [|discriminate].
    inversion H. eexists _, _, _. reflexivity.
Qed.

(** a change at [p] keeps the directories that are not at or below
    [p] *)
Lemma setAt_dir_kept now a : forall n p v n',
  setAt now n p v = Some n' -> isPrefix p a = false ->
  isDirAt n a -> isDirAt n' a.
Proof.
  induction a as [|x a IH]; intros n p v n' H Hp Hd.
  - exact (setAt_Dir _ _ _ _ _ H).
  - destruct Hd as (pm0 & mt0 & es0 & Hd).
    destruct n as [|pm mt es]; [discriminate|]. cbn [lookup] in Hd.
    destruct (assoc x es) as [ch|] eqn:Ex; [|discriminate].
    destruct p as [|c p]; [discriminate|].
    destruct p as [|c2 p].
    + cbn [setAt] in H. inversion H. subst n'. clear H.
      cbn [isPrefix] in Hp. rewrite andb_true_r in Hp.
      apply String.eqb_neq in Hp.
      exists pm0, mt0, es0. cbn [lookup].
      destruct v as [y|].
      * rewrite assoc_put_other by (intros E; apply Hp; symmetry; exact E).
        rewrite Ex. exact Hd.
      * rewrite assoc_del_other by (intros E; apply Hp; symmetry; exact E).
        rewrite Ex. exact Hd.
    + rewrite setAt_cons2 in H.
      destruct (assoc c es) as [chc|] eqn:Ec; [|discriminate].
      destruct (setAt now chc (c2 :: p) v) as [chc'|] eqn:Es; [|discriminate].
      inversion H. subst n'. clear H.
      cbn [isPrefix] in Hp.
      destruct (String.eqb c x) eqn:Ecx.
      * apply String.eqb_eq in Ecx. subst c. cbn [andb] in Hp.
        rewrite Ex in Ec. inversion Ec. subst chc.
        destruct (IH ch (c2 :: p) v chc' Es Hp (ex_intro _ pm0 (ex_intro _ mt0
                    (ex_intro _ es0 Hd)))) as (pm1 & mt1 & es1 & H1).
        exists pm1, mt1, es1. cbn [lookup]. rewrite assoc_put_same. exact H1.
      * apply String.eqb_neq in Ecx.
        exists pm0, mt0, es0. cbn [lookup].
        rewrite assoc_put_other by (intros E; apply Ecx; symmetry; exact E).
        rewrite Ex. exact Hd.
Qed.

Lemma prefix_of_dir n a r x :
  lookup n (a ++ r) = Some x -> r <> [] -> isDirAt n a.
Proof.
  intros H Hr. rewrite lookup_app in H.
  destruct (lookup n a) as [[dt pm mt | pm mt es]|] eqn:E; [| |discriminate].
  - destruct r; [contradiction | discriminate].
  - eexists _, _, _. exact E.
Qed.

(** [mkdir -p] keeps every directory *)
Lemma mkdirAll_dir_kept now perm n p n' a :
  mkdirAll now perm n p = Some n' -> isDirAt n a -> isDirAt n' a.
Proof.
  intros H Hd. destruct (isPrefix a p) eqn:E.
  - apply isPrefix_iff in E. destruct E as [r ->].
    destruct (mkdirAll_isdir _ _ _ _ _ H) as (pm & mt & es & Hl).
    destruct r as [|c r].
    + rewrite app_nil_r in Hl. eexists _, _, _. exact Hl.
    + exact (prefix_of_dir _ _ _ _ Hl ltac:(discriminate)).
  - destruct Hd as (pm & mt & es & Hd). exists pm, mt, es.
    rewrite (mkdirAll_frame _ _ _ _ _ a H E). exact Hd.
Qed.

(** [mkdir -p] of a directory that exists succeeds *)
Lemma mkdirAll_existing now perm p : forall n,
  isDirAt n p -> exists n', mkdirAll now perm n p = Some n'.
Proof.
  induction p as [|c p IH]; intros n (pm & mt & es & H).
  - cbn [lookup] in H. inversion H. eexists. reflexivity.
  - destruct n as [|pm0 mt0 es0]; [discriminate|]. cbn [lookup] in H.
    cbn [mkdirAll]. destruct (assoc c es0) as [ch|]; [|discriminate].
    destruct (IH ch (ex_intro _ pm (ex_intro _ mt (ex_intro _ es H)))) as [ch' E].
    rewrite E. eexists. reflexivity.
Qed.

Lemma longer_not_prefix (p a : list string) :
  length a < length p -> isPrefix p a = false.
Proof.
  intros H. destruct (isPrefix p a) eqn:E; [|reflexivity].
  apply isPrefix_length in E. lia.
Qed.

Section RoundTrip.
Context {codec : JsonCodec}.

(** moving a regular file to the trash leaves its parent directory in
    place *)
Lemma Move_file_parent cfg s0 n w r w' data pm mt :
  let s := (s0 ++ [n])%list in
  let P := (trashRoot cfg ++ hostOf w :: s0)%list in
  validPath s = true -> wf (fs w) = true ->
  IsAbs (TrashDir cfg) = true -> validName (hostOf w) = true ->
  lookup (fs w) s = Some (File data pm mt) ->
  Move cfg (render s) w = (r, w') ->
  isDirAt (fs w') s0.
Proof.
  intros s P Hs Hw Ht Hh Es H.
  set (m := pickName w P n).
  destruct (validPath_snoc_inv _ _ Hs) as [Hs0 Hn].
  assert (HP : validPath P = true).
  { unfold P. rewrite validPath_app, trashRoot_valid. simpl. rewrite Hh. exact Hs0. }
  assert (Hm : validName m = true) by (apply pickName_valid; exact Hn).
  assert (Hd : validPath (P ++ [m]) = true) by (apply validPath_snoc; assumption).
  assert (Hsc : validPath (P ++ [m ++ metadataSuffix]) = true).
  { apply validPath_snoc; [exact HP | apply validName_append; [exact Hm | reflexivity]]. }
  assert (L1 : isPrefix s s0 = false).
  { apply longer_not_prefix. unfold s. rewrite length_app. simpl. lia. }
  assert (L2 : isPrefix (P ++ [m]) s0 = false).
  { apply longer_not_prefix. unfold P. rewrite !length_app. simpl. lia. }
  assert (L3 : isPrefix (P ++ [m ++ metadataSuffix]) s0 = false).
  { apply longer_not_prefix. unfold P. rewrite !length_app. simpl. lia. }
  assert (D0 : isDirAt (fs w) s0).
  { exact (prefix_of_dir _ _ _ _ Es ltac:(discriminate)). }
  unfold Move in H. unfold bind at 1 in H. unfold Lstat, Stat, query, statIn in H.
  rewrite nodeAt_render in H by exact Hs. rewrite Es in H.
  unfold bind at 1 in H.
  assert (Hhost : attempt Hostname w
                  = (Ok (match hostname w with
                         | Some h => Ok h | None => Err (Errorf "hostname") end), w)).
  { unfold attempt, Hostname. destruct (hostname w); reflexivity. }
  rewrite Hhost in H.
  assert (Ehost : match (match hostname w with
                         | Some h => Ok h | None => Err (Errorf "hostname") end) with
                  | Ok x => x | Err _ => "unknown" end = hostOf w).
  { unfold hostOf. destruct (hostname w); reflexivity. }
  rewrite Ehost in H. clear Hhost Ehost.
  rewrite trashTarget_render in H;
    [| exact Ht | exact Hh | exact Hs | unfold s; destruct s0; discriminate].
  replace (trashRoot cfg ++ hostOf w :: s)%list with (P ++ [n])%list in H
    by (unfold P, s; rewrite <- app_assoc; reflexivity).
  unfold bind at 1 in H. unfold attempt at 1, Stat, query, statIn in H.
  rewrite nodeAt_render in H by (apply validPath_snoc; assumption).
  unfold bind at 1 in H. unfold Time.NowStamp, query in H.
  assert (Etp : (if isOk (match lookup (fs w) (P ++ [n]) with
                          | Some n0 => Ok (infoOf n0)
                          | None => Err (absent w (render (P ++ [n]))) end)
                 then render (P ++ [n]) ++ "." ++ Time.FormatStamp (local w) (now w)
                 else render (P ++ [n])) = render (P ++ [m])).
  { unfold m, pickName. destruct (lookup (fs w) (P ++ [n])); simpl isOk; simpl isSome;
      cbv iota; [apply render_snoc_append | reflexivity]. }
  rewrite Etp in H. clear Etp.
  rewrite Dir_render in H by assumption.
  unfold bind at 1 in H. unfold attempt at 1 in H.
  destruct (MkdirAll_cases P 493 w HP) as [[e He] | (n1 & Hmk & He)]; rewrite He in H.
  { inversion H; subst. exact D0. }
  set (w1 := setFs w n1 (EvMkdirAll (render P))) in *.
  assert (D1 : isDirAt (fs w1) s0) by exact (mkdirAll_dir_kept _ _ _ _ _ _ Hmk D0).
  (* the relocation *)
  assert (Hmid : forall r2 w2,
             (rn <- attempt (Rename (render s) (render (P ++ [m]))) ;;
              match rn with
              | Err _ => copyAndDelete (render s) (render (P ++ [m]))
                           (IsDir (infoOf (File data pm mt)))
              | Ok _ => ret tt
              end) w1 = (r2, w2) ->
             isDirAt (fs w2) s0 /\ now w2 = now w).
  { intros r2 w2 Hrun. unfold bind at 1 in Hrun. unfold attempt at 1 in Hrun.
    destruct (Rename_cases s (P ++ [m]) w1 Hs Hd)
      as [[e He1] | [[Heq He1] | (nsrc & na & nb & Hsrc & Hnp & Hneq & Hnd & Hrm & Hins & He1)]];
      rewrite He1 in Hrun.
    - cbn [infoOf isDir IsDir copyAndDelete] in Hrun.
      unfold copyFileAndDelete in Hrun.
      unfold bind at 1 in Hrun. unfold ReadFile, query at 1 in Hrun.
      destruct (readFileIn w1 (render s)) as [dt|e0]; [|inversion Hrun; subst; split; [exact D1 | reflexivity]].
      unfold bind at 1 in Hrun. unfold Stat, query at 1 in Hrun.
      destruct (statIn w1 (render s)) as [i|e0]; [|inversion Hrun; subst; split; [exact D1 | reflexivity]].
      unfold bind in Hrun.
      destruct (WriteFile_cases (P ++ [m]) dt (Mode i) w1 Hd) as [[e0 Ew] | (n2 & pm2 & Ew1 & Ew)];
        rewrite Ew in Hrun; [inversion Hrun; subst; split; [exact D1 | reflexivity]|].
      set (w2' := setFs w1 n2 (EvWriteFile (render (P ++ [m])) dt)) in *.
      assert (D2 : isDirAt (fs w2') s0) by exact (setAt_dir_kept _ _ _ _ _ _ Ew1 L2 D1).
      destruct (Remove_cases s w2' Hs) as [[e0 Er] | (n3 & Er1 & Er)];
        rewrite Er in Hrun; inversion Hrun; subst; (split; [|reflexivity]);
        [exact D2|].
      rewrite fs_setFs. exact (setAt_dir_kept _ _ _ _ _ _ Er1 L1 D2).
    - inversion Hrun; subst. split; [exact D1 | reflexivity].
    - inversion Hrun; subst. split; [|reflexivity]. rewrite fs_setFs.
      refine (setAt_dir_kept _ _ _ _ _ _ Hins L2 _).
      exact (setAt_dir_kept _ _ _ _ _ _ Hrm L1 D1). }
  unfold bind at 1 in H. unfold attempt at 1 in H.
  destruct (Rename (render s) (render (P ++ [m])) w1) as [rn w1'] eqn:Ern.
  assert (Hrun_eq :
            (rn <- attempt (Rename (render s) (render (P ++ [m]))) ;;
             match rn with
             | Err _ => copyAndDelete (render s) (render (P ++ [m]))
                          (IsDir (infoOf (File data pm mt)))
             | Ok _ => ret tt
             end) w1
            = (match rn with
               | Err _ => copyAndDelete (render s) (render (P ++ [m]))
                            (IsDir (infoOf (File data pm mt)))
               | Ok _ => ret tt
               end) w1').
  { unfold bind, attempt. rewrite Ern. reflexivity. }
  apply bind_inv in H.
  destruct H as [([] & w2 & Hrun & Htail) | (e & Hrun & ->)];
    rewrite <- Hrun_eq in Hrun; destruct (Hmid _ _ Hrun) as [D2 _]; [|exact D2].
  unfold bind at 1 in Htail. unfold Now at 1 in Htail.
  unfold bind at 1 in Htail. unfold attempt at 1, writeMetadata in Htail.
  rewrite render_snoc_append in Htail.
  destruct (WriteFile_cases (P ++ [m ++ metadataSuffix])
              (marshal (mkMetadata (render s) (now w2) (hostOf w)
                          (IsDir (infoOf (File data pm mt))))) 420 w2 Hsc)
    as [[e0 Ew] | (n3 & pm3 & Ew1 & Ew)]; rewrite Ew in Htail.
  - unfold bind, Eprint, ret in Htail. inversion Htail. subst. exact D2.
  - unfold bind, ret in Htail. inversion Htail. subst. rewrite fs_setFs.
    exact (setAt_dir_kept _ _ _ _ _ _ Ew1 L3 D2).
Qed.

(** a file renamed to a free place in an existing directory of the
    same volume *)
Lemma Rename_file_ok sp sn dp dn w data pm mt :
  validPath (sp ++ [sn]) = true -> validPath (dp ++ [dn]) = true ->
  lookup (fs w) (sp ++ [sn]) = Some (File data pm mt) ->
  lookup (fs w) (dp ++ [dn]) = None ->
  isDirAt (fs w) dp ->
  crossDevice w (sp ++ [sn]) (dp ++ [dn]) = false ->
  isPrefix (sp ++ [sn]) (dp ++ [dn]) = false ->
  isPrefix (sp ++ [sn]) dp = false ->
  exists n2 n3,
    setAt (now w) (fs w) (sp ++ [sn]) None = Some n2
    /\ setAt (now w) n2 (dp ++ [dn]) (Some (File data pm mt)) = Some n3
    /\ Rename (render (sp ++ [sn])) (render (dp ++ [dn])) w
       = (Ok tt, setFs w n3 (EvRename (render (sp ++ [sn])) (render (dp ++ [dn])))).
Proof.
  intros Hs Hd Es Ed Dp Hx Hp Hpp.
  destruct (lookup_parent_dir _ _ _ _ Es) as (pm1 & mt1 & es1 & Eparent).
  destruct (setAt_ok (now w) _ _ sn None _ _ _ Eparent) as [n2 E2].
  destruct (setAt_dir_kept _ _ _ _ _ _ E2 Hpp Dp) as (pm2 & mt2 & es2 & Dp2).
  destruct (setAt_ok (now w) _ _ dn (Some (File data pm mt)) _ _ _ Dp2) as [n3 E3].
  exists n2, n3. split; [exact E2|]. split; [exact E3|].
  unfold Rename. rewrite !resolve_render by assumption. rewrite Ed, Es, Hx.
  unfold pathEqb. rewrite Hp. cbn [andb isDir].
  unfold removeAt, insertAt. rewrite E2, E3. reflexivity.
Qed.

(** X29.  A regular file moved to the trash comes back.  After [Move]
    has trashed a regular file from outside the trash directory and
    written its sidecar, [Restore] of the original path succeeds and
    puts a file with the same bytes back at the path; the trashed copy
    and its sidecar are gone.  The conditions are those of the code:
    the place in the trash and the original path are on one volume
    ([Restore] renames and has no copy fallback), the trash path does
    not end in the sidecar suffix (such entries are never enumerated),
    and no other trashed item of the same original path is as recent. *)
Theorem trash_then_restore_file cfg T s0 n data pm mt w tp w1 m :
  wf (fs w) = true -> validPath T = true -> TrashDir cfg = render T ->
  validName (hostOf w) = true -> validPath (s0 ++ [n]) = true ->
  lookup (fs w) (s0 ++ [n]) = Some (File data pm mt) ->
  apart (s0 ++ [n]) T ->
  Move cfg (render (s0 ++ [n])) w = (Ok tp, w1) ->
  HasSuffix tp metadataSuffix = false ->
  metaIn w1 tp = Some m -> OriginalPath m = render (s0 ++ [n]) ->
  (forall items c m',
      findTrashItems (render T) w1 = (Ok items, w1) -> In c items -> c <> tp ->
      metaIn w1 c = Some m' -> OriginalPath m' = render (s0 ++ [n]) ->
      (DeletedAt m' < DeletedAt m)%Z) ->
  (forall d, resolve w1 tp = Some d -> crossDevice w1 d (s0 ++ [n]) = false) ->
  exists w2,
    Restore cfg (render (s0 ++ [n])) w1 = (Ok tt, w2)
    /\ fileAt (fs w2) (s0 ++ [n]) data
    /\ nodeAt w2 tp = None
    /\ nodeAt w2 (tp ++ metadataSuffix) = None.
Proof.
  intros Hw HT Hc Hh Hs Es [Ap1 Ap2] Hmove Hsuf Hmeta Horig Hlate Hdev.
  set (s := (s0 ++ [n])%list) in *.
  assert (ETR : trashRoot cfg = T).
  { unfold trashRoot. rewrite Hc. exact (cleanStack_Split_render T HT). }
  assert (Ht : IsAbs (TrashDir cfg) = true) by (rewrite Hc; apply IsAbs_render).
  set (P := (trashRoot cfg ++ hostOf w :: s0)%list).
  set (mn := pickName w P n).
  destruct (validPath_snoc_inv _ _ Hs) as [Hs0 Hn].
  assert (HP : validPath P = true).
  { unfold P. rewrite validPath_app, trashRoot_valid. simpl. rewrite Hh. exact Hs0. }
  assert (Hmn : validName mn = true) by (apply pickName_valid; exact Hn).
  assert (Hd : validPath (P ++ [mn]) = true) by (apply validPath_snoc; assumption).
  assert (Hscv : validPath (P ++ [mn ++ metadataSuffix]) = true).
  { apply validPath_snoc; [exact HP | apply validName_append; [exact Hmn | reflexivity]]. }
  assert (TP : forall x, isPrefix T (P ++ x) = true).
  { intros x. unfold P. rewrite ETR, <- app_assoc. apply isPrefix_app. }
  (* nothing in the trash is at, above or below the file *)
  assert (NP : forall x, isPrefix (P ++ x) s = false).
  { intros x. destruct (isPrefix (P ++ x) s) eqn:E; [|reflexivity].
    rewrite (isPrefix_trans _ _ _ (TP x) E) in Ap2. discriminate. }
  assert (PN : forall x, isPrefix s (P ++ x) = false).
  { intros x. destruct (isPrefix s (P ++ x)) eqn:E; [|reflexivity]. exfalso.
    destruct (Nat.le_ge_cases (length s) (length T)) as [L | L].
    - rewrite (prefix_comparable _ _ _ E (TP x) L) in Ap1. discriminate.
    - rewrite (prefix_comparable _ _ _ (TP x) E L) in Ap2. discriminate. }
  assert (Hout : isPrefix s P = false).
  { rewrite <- (app_nil_r P). apply PN. }
  (* what the move did *)
  pose proof (Move_post cfg s0 n w (Ok tp) w1 Hs Hw Ht Hh Hout Hmove) as MP.
  fold P in MP. fold mn in MP.
  destruct MP as [Wf1 _ Mdone _].
  destruct (Mdone tp eq_refl) as (Etp & Gone & Mv). fold s in Gone.
  pose proof (Move_file_parent cfg s0 n w (Ok tp) w1 data pm mt Hs Hw Ht Hh Es Hmove)
    as Dpar.
  assert (Fd : fileAt (fs w1) (P ++ [mn]) data).
  { rewrite <- (app_nil_r (P ++ [mn])). apply Mv. rewrite app_nil_r.
    exists pm, mt. exact Es. }
  destruct Fd as (pm1 & mt1 & Ed).
  (* the sidecar is a file *)
  assert (Esc : tp ++ metadataSuffix = render (P ++ [mn ++ metadataSuffix])).
  { rewrite Etp. apply render_snoc_append. }
  unfold metaIn in Hmeta.
  destruct (readFileIn w1 (tp ++ metadataSuffix)) as [text|] eqn:Erd; [|discriminate].
  destruct (readFileIn_Ok _ _ _ Erd) as (pm2 & mt2 & Eside).
  rewrite Esc, nodeAt_render in Eside by exact Hscv.
  (* the item is enumerated and selected *)
  destruct (findTrashItems_spec T w1 Wf1 HT) as (items & Ef & F).
  assert (Hin : In tp items).
  { apply F. exists (hostOf w :: s0 ++ [mn])%list.
    assert (Epath : (T ++ hostOf w :: s0 ++ [mn])%list = (P ++ [mn])%list).
    { unfold P. rewrite ETR, <- app_assoc. reflexivity. }
    rewrite Epath. split; [exact Etp|]. split; [rewrite Ed; discriminate|].
    unfold reported. rewrite Hsuf. cbn [negb andb].
    assert (Ne : String.eqb tp (render T) = false).
    { apply String.eqb_neq. rewrite Etp. intros E.
      apply render_inj in E; [|exact Hd | exact HT].
      apply (f_equal (@length string)) in E. rewrite <- Epath, length_app in E.
      simpl in E. lia. }
    rewrite Ne. cbn [negb andb].
    rewrite Etp, nodeAt_render, Ed by exact Hd. cbn [leafLike andb].
    rewrite <- Etp, Esc. unfold statIn. rewrite nodeAt_render, Eside by exact Hscv.
    reflexivity. }
  assert (Hmeta' : metaIn w1 tp = Some m).
  { unfold metaIn. rewrite Erd. exact Hmeta. }
  assert (Esel : fst (select w1 (render s) items ("", None)) = tp).
  { pose proof (select_selected w1 (render s) items) as Hsel.
    destruct (select w1 (render s) items ("", None)) as [mi [m2|]];
      unfold selected in Hsel; cbn [fst snd] in Hsel |- *.
    - destruct Hsel as (Hin2 & Hm2 & Ho2 & Hmax).
      destruct (String.eqb mi tp) eqn:E; [apply String.eqb_eq; exact E|].
      apply String.eqb_neq in E. exfalso.
      pose proof (Hlate items mi m2 Ef Hin2 E Hm2 Ho2) as L1.
      pose proof (Hmax tp m Hin Hmeta' Horig) as L2. lia.
    - destruct Hsel as (_ & Hnone). specialize (Hnone tp Hin).
      unfold matches in Hnone. rewrite Hmeta', Horig, String.eqb_refl in Hnone.
      discriminate. }
  rewrite <- Hc in Ef.
  rewrite (Restore_unfold cfg (render s) w1 items Ef). cbv zeta. rewrite Esel.
  assert (Ne : String.eqb tp "" = false) by (rewrite Etp; apply render_nonempty).
  rewrite Ne.
  (* the destination is free *)
  unfold bind at 1. unfold attempt at 1, Stat, query. unfold statIn.
  rewrite nodeAt_render, Gone by exact Hs. cbn [isOk].
  (* the parent directory exists *)
  unfold s at 1. rewrite (Dir_render s0 n Hs0 Hn). fold s.
  destruct (mkdirAll_existing (now w1) 493 s0 (fs w1) Dpar) as [n1 Emk].
  unfold bind at 1. unfold attempt at 1. unfold MkdirAll.
  rewrite resolve_render, Emk by exact Hs0.
  set (wa := setFs w1 n1 (EvMkdirAll (render s0))).
  assert (Fa : forall q, isPrefix q s0 = false -> lookup (fs wa) q = lookup (fs w1) q).
  { intros q Hq. exact (mkdirAll_frame _ _ _ _ _ q Emk Hq). }
  assert (La : forall x, isPrefix (P ++ [x]) s0 = false).
  { intros x. destruct (isPrefix (P ++ [x]) s0) eqn:E; [|reflexivity].
    pose proof (NP [x]) as C. rewrite <- C. symmetry.
    exact (isPrefix_trans _ _ _ E (isPrefix_app _ _)). }
  assert (Eda : lookup (fs wa) (P ++ [mn]) = Some (File data pm1 mt1)).
  { rewrite Fa by apply La. exact Ed. }
  assert (Esa : lookup (fs wa) s = None).
  { rewrite Fa; [exact Gone|]. apply longer_not_prefix. unfold s.
    rewrite length_app. simpl. lia. }
  assert (Esca : lookup (fs wa) (P ++ [mn ++ metadataSuffix]) = Some (File text pm2 mt2)).
  { rewrite Fa by apply La. exact Eside. }
  assert (Dpa : isDirAt (fs wa) s0) by exact (mkdirAll_isdir _ _ _ _ _ Emk).
  (* the move back *)
  assert (Hx : crossDevice wa (P ++ [mn]) s = false).
  { change (crossDevice wa) with (crossDevice w1). apply Hdev.
    rewrite Etp. apply resolve_render. exact Hd. }
  destruct (Rename_file_ok P mn s0 n wa data pm1 mt1 Hd Hs Eda Esa Dpa Hx (NP [mn])
              (La mn)) as (n2 & n3 & E2 & E3 & Ern).
  unfold bind at 1. unfold attempt at 1. rewrite Etp. fold s in Ern. rewrite Ern.
  set (wb := setFs wa n3 (EvRename (render (P ++ [mn])) (render s))).
  assert (Aps : apart s (P ++ [mn])) by (split; [apply PN | apply NP]).
  assert (Apsc : apart (P ++ [mn ++ metadataSuffix]) s) by (split; [apply NP | apply PN]).
  assert (Apscd : apart (P ++ [mn ++ metadataSuffix]) (P ++ [mn])).
  { apply apart_siblings. intros E.
    rewrite <- (append_nil_r mn) in E at 2. apply append_inj_l in E. discriminate. }
  assert (Esb : lookup (fs wb) s = Some (File data pm1 mt1))
    by exact (setAt_lookup_same _ _ _ _ _ E3).
  assert (Edb : lookup (fs wb) (P ++ [mn]) = None).
  { unfold wb. rewrite fs_setFs, (setAt_frame _ _ _ _ _ _ E3 Aps).
    exact (setAt_lookup_same _ _ _ _ _ E2). }
  assert (Escb : lookup (fs wb) (P ++ [mn ++ metadataSuffix]) = Some (File text pm2 mt2)).
  { unfold wb. rewrite fs_setFs, (setAt_frame _ _ _ _ _ _ E3 (apart_sym _ _ Apsc)).
    rewrite (setAt_frame _ _ _ _ _ _ E2 (apart_sym _ _ Apscd)). exact Esca. }
  (* the sidecar goes *)
  rewrite <- Etp, Esc.
  destruct (Remove_file P (mn ++ metadataSuffix) wb text pm2 mt2 Hscv Escb)
    as (n4 & E4 & Erm).
  unfold bind at 1. unfold attempt at 1. rewrite Erm.
  unfold bind, Print. eexists. split; [reflexivity|].
  rewrite ?Esc, ?Etp, !nodeAt_render by assumption.
  cbn [fs setFs].
  split; [|split].
  - exists pm1, mt1. rewrite (setAt_frame _ _ _ _ _ _ E4 Apsc). exact Esb.
  - rewrite (setAt_frame _ _ _ _ _ _ E4 Apscd). exact Edb.
  - exact (setAt_lookup_same _ _ _ _ _ E4).
Qed.

End RoundTrip.

Lemma trash_then_restore_file_witness :
  let w := worldOf homeTree t0 "" in
  let w1 := snd (Move (cfgWith []) "/home/u/f.txt" w) in
  exists w2, Restore (cfgWith []) "/home/u/f.txt" w1 = (Ok tt, w2)
    /\ fileAt (fs w2) ["home"; "u"; "f.txt"] "hello"
    /\ nodeAt w2 "/t/H/home/u/f.txt" = None
    /\ nodeAt w2 ("/t/H/home/u/f.txt" ++ metadataSuffix) = None.
Proof.
  intros w w1.
  refine (@trash_then_restore_file lineCodec (cfgWith []) ["t"] ["home"; "u"] "f.txt"
            "hello" 420 7 w "/t/H/home/u/f.txt" w1
            (mkMetadata "/home/u/f.txt" t0 "H" false)
            _ _ _ _ _ _ _ _ _ _ _ _ _).
  - vm_compute. reflexivity.
  - vm_compute. reflexivity.
  - vm_compute. reflexivity.
  - vm_compute. reflexivity.
  - vm_compute. reflexivity.
  - vm_compute. reflexivity.
  - split; vm_compute; reflexivity.
  - vm_compute. reflexivity.
  - vm_compute. reflexivity.
  - vm_compute. reflexivity.
  - vm_compute. reflexivity.
  - intros items c m' Hf Hin Hne. exfalso.
    apply (f_equal fst) in Hf. vm_compute in Hf. injection Hf as Hf.
    rewrite <- Hf in Hin. destruct Hin as [E | []]. apply Hne. symmetry. exact E.
  - intros dd _. reflexivity.
Defined.

End RoundTripFacts.
